(** * BusTub buffer pool core: LRU-K replacer, buffer pool manager, page guards

    A shallow embedding of
      - src/buffer/lru_k_replacer.cpp
      - src/buffer/buffer_pool_manager.cpp
      - src/storage/page/page_guard.cpp
    together with the properties of these three components.

    Conventions.
      - [size_t] values are integers in [0, 2^64); [static_cast<size_t>] of a
        signed value is reduction modulo 2^64.
      - [frame_id_t] and [page_id_t] are signed 32-bit integers, held in [Z].
      - A C++ member function that mutates its object is a function from the
        object's state to the new state and an [outcome]: a returned value, a
        thrown exception, or undefined behaviour (out-of-bounds index into
        [pages_], dangling pointer, overflow of the [int] pin count,
        unlocking a latch that is not held).
      - The mutexes ([latch_]) serialise the member functions; every function
        is modelled as one atomic step.
      - The headers (lru_k_replacer.h, buffer_pool_manager.h, page.h,
        page_guard.h, config.h, disk_manager.h) are not part of the sources:
        what the functions need from them is modelled from the
        specification, each such definition saying so. *)

From stdpp Require Import base gmap list strings sorting.
From Stdlib Require Import ZArith Lia Strings.Byte.

Local Open Scope Z_scope.

(** ** Outcomes of a call *)

Inductive exn : Type :=
| ExecutionException (what : string).

Inductive outcome (A : Type) : Type :=
| Ret (a : A)
| Throw (e : exn)
| Undefined.

Arguments Ret {A} a.
Arguments Throw {A} e.
Arguments Undefined {A}.

(** State-and-exception monad: the state survives a [throw], as the
    mutations done before a C++ exception propagates do. *)
Definition M (S A : Type) : Type := S → S * outcome A.

Definition ret {S A} (a : A) : M S A := λ s, (s, Ret a).
Definition throw {S A} (e : exn) : M S A := λ s, (s, Throw e).
Definition undefined {S A} : M S A := λ s, (s, Undefined).
Definition bind {S A B} (m : M S A) (k : A → M S B) : M S B :=
  λ s, match m s with
       | (s', Ret a) => k a s'
       | (s', Throw e) => (s', Throw e)
       | (s', Undefined) => (s', Undefined)
       end.
Definition get {S} : M S S := λ s, (s, Ret s).
Definition modify {S} (f : S → S) : M S unit := λ s, (f s, Ret tt).

Notation "'let*' x ':=' m 'in' k" := (bind m (λ x, k))
  (at level 10, x name, m at level 100, k at level 200, only parsing).
Notation "m1 ';;' m2" := (bind m1 (λ _, m2))
  (at level 100, m2 at level 200, right associativity, only parsing).

(** [static_cast<size_t>(x)] on a 64-bit target. *)
Definition size_t_cast (x : Z) : Z := x mod 2 ^ 64.

(** ** LRU-K replacer (src/buffer/lru_k_replacer.cpp) *)

(** [const size_t INF_DISTANCE = std::numeric_limits<size_t>::max()]. *)
Definition INF_DISTANCE : Z := 2 ^ 64 - 1.

(** [CurrentTimestamp]: pre-increments the process-global counter
    [time_base_line] (a [size_t]) and returns it.  The result is the pair of
    the new counter and the returned timestamp. *)
Definition CurrentTimestamp (time_base_line : Z) : Z * Z :=
  let t := (time_base_line + 1) mod 2 ^ 64 in (t, t).

Module LRUKNode.

Record t : Type := mk {
  history_ : list Z;        (* std::list<size_t>, oldest first *)
  k_ : Z;
  fid_ : Z;
  is_evictable_ : bool
}.

(** Modelled from the spec: the constructor [LRUKNode(frame_id, k)] is
    declared in lru_k_replacer.h, which is not part of the sources.  A new
    record has an empty history and is not evictable (the manager calls
    [set_evictable(frame, false)] right after the first access, and only
    evictable records are indexed). *)
Definition init (frame_id k : Z) : t := mk [] k frame_id false.

Definition GetDistance (n : t) : Z :=
  if Z.of_nat (length (history_ n)) <? k_ n then INF_DISTANCE else 0.

Definition FirstTime (n : t) : outcome Z :=
  match history_ n with
  | [] => Throw (ExecutionException "[LRUKNode] history size is empty!")
  | front :: _ => Ret front
  end.

(** [Add]: takes a fresh timestamp from the global counter, pushes it at the
    back, pops the front when the history is longer than [k_]. *)
Definition Add (n : t) (time_base_line : Z) : t * Z :=
  let '(time_base_line', timestamp) := CurrentTimestamp time_base_line in
  let pushed := history_ n ++ [timestamp] in
  let h := if k_ n <? Z.of_nat (length pushed) then tail pushed else pushed in
  (mk h (k_ n) (fid_ n) (is_evictable_ n), time_base_line').

Definition SetEvictable (n : t) (is_evictable : bool) : t :=
  mk (history_ n) (k_ n) (fid_ n) is_evictable.

Definition GetEvictable (n : t) : bool := is_evictable_ n.

End LRUKNode.

(** *** The ordered index [st_]

    [st_] is a [std::set] of tuples [(distance, first_timestamp, frame_id)].
    [Evict] takes its last element [*(--st_.end())]. *)

Definition key : Type := Z * Z * Z.

Definition key_dist (a : key) : Z := a.1.1.
Definition key_first (a : key) : Z := a.1.2.
Definition key_fid (a : key) : Z := a.2.

(** Modelled from the spec: the declaration of [st_], with the comparator of
    the set, is in lru_k_replacer.h, which is not part of the sources.  The
    spec: the index is keyed by (distance, earliest_timestamp, frame_id) and
    sorts so that evict returns the frame with the greatest distance, ties
    broken by earliest first_timestamp.  [key_lt a b] reads: [b] comes after
    [a] in the set, so the last element is the victim.  The frame id only
    makes the order total. *)
Definition key_lt (a b : key) : Prop :=
  key_dist a < key_dist b ∨
  (key_dist a = key_dist b ∧
   (key_first b < key_first a ∨
    (key_first a = key_first b ∧ key_fid a < key_fid b))).

Global Instance key_lt_dec : RelDecision key_lt.
Proof. intros a b. unfold key_lt. apply _. Defined.

(** [st_.insert(x)] / [st_.emplace(...)]: sorted insertion; an element
    equivalent to [x] (neither smaller nor greater) is not inserted twice. *)
Fixpoint st_insert (x : key) (l : list key) : list key :=
  match l with
  | [] => [x]
  | y :: l' =>
      if decide (key_lt x y) then x :: y :: l'
      else if decide (key_lt y x) then y :: st_insert x l'
      else y :: l'
  end.

(** [st_.erase(x)]: removes the element equivalent to [x], if any. *)
Definition st_erase (x : key) (l : list key) : list key :=
  filter (λ y, key_lt y x ∨ key_lt x y) l.

Module LRUKReplacer.

Record t : Type := mk {
  node_store_ : gmap Z LRUKNode.t;   (* std::unordered_map<frame_id_t, LRUKNode> *)
  st_ : list key;                    (* the ordered index, ascending *)
  replacer_size_ : Z;
  k_ : Z;
  time_base_line : Z                 (* the global timestamp counter *)
}.

(** [LRUKReplacer(num_frames, k)]; the counter starts at 0. *)
Definition init (num_frames k : Z) : t := mk ∅ [] num_frames k 0.

(** [Evict]: [Some f] stands for [*frame_id = f; return true], [None] for
    [return false]. *)
Definition Evict (r : t) : t * option Z :=
  match last (st_ r) with
  | Some (_, _, the_frame_id) =>
      (mk (delete the_frame_id (node_store_ r)) (removelast (st_ r))
          (replacer_size_ r) (k_ r) (time_base_line r),
       Some the_frame_id)
  | None => (r, None)
  end.

Definition frame_id_too_large : exn :=
  ExecutionException "[replacer] frame id larger than replacer size".

Definition RecordAccess (frame_id : Z) : M t unit := λ r,
  if decide (replacer_size_ r < size_t_cast frame_id) then
    (r, Throw frame_id_too_large)
  else
    (* the record to update and the index with its old key erased *)
    let found :=
      match node_store_ r !! frame_id with
      | None => Ret (LRUKNode.init frame_id (k_ r), st_ r)
      | Some n =>
          match LRUKNode.FirstTime n with
          | Ret first => Ret (n, st_erase (LRUKNode.GetDistance n, first, frame_id) (st_ r))
          | Throw e => Throw e
          | Undefined => Undefined
          end
      end in
    match found with
    | Throw e => (r, Throw e)
    | Undefined => (r, Undefined)
    | Ret (n, st1) =>
        let '(n', tbl) := LRUKNode.Add n (time_base_line r) in
        let r1 := mk (<[frame_id := n']> (node_store_ r)) st1
                     (replacer_size_ r) (k_ r) tbl in
        if LRUKNode.GetEvictable n' then
          match LRUKNode.FirstTime n' with
          | Ret first =>
              (mk (node_store_ r1)
                  (st_insert (LRUKNode.GetDistance n', first, frame_id) st1)
                  (replacer_size_ r) (k_ r) tbl, Ret tt)
          | Throw e => (r1, Throw e)
          | Undefined => (r1, Undefined)
          end
        else (r1, Ret tt)
    end.

Definition SetEvictable (frame_id : Z) (set_evictable : bool) : M t unit := λ r,
  match node_store_ r !! frame_id with
  | None => (r, Ret tt)
  | Some n =>
      if decide (LRUKNode.GetEvictable n = set_evictable) then (r, Ret tt)
      else
        match LRUKNode.FirstTime n with
        | Throw e => (r, Throw e)
        | Undefined => (r, Undefined)
        | Ret first =>
            let tp := (LRUKNode.GetDistance n, first, frame_id) in
            let store := <[frame_id := LRUKNode.SetEvictable n set_evictable]> (node_store_ r) in
            (mk store
                (if set_evictable then st_insert tp (st_ r) else st_erase tp (st_ r))
                (replacer_size_ r) (k_ r) (time_base_line r),
             Ret tt)
        end
  end.

Definition Remove (frame_id : Z) : M t unit := λ r,
  match node_store_ r !! frame_id with
  | None => (r, Ret tt)
  | Some n =>
      if LRUKNode.GetEvictable n then
        match LRUKNode.FirstTime n with
        | Throw e => (r, Throw e)
        | Undefined => (r, Undefined)
        | Ret first =>
            (mk (delete frame_id (node_store_ r))
                (st_erase (LRUKNode.GetDistance n, first, frame_id) (st_ r))
                (replacer_size_ r) (k_ r) (time_base_line r),
             Ret tt)
        end
      else (r, Ret tt)
  end.

Definition Size (r : t) : Z := Z.of_nat (length (st_ r)).

End LRUKReplacer.

(** ** Pages, disk manager *)

(** Modelled from the spec: [BUSTUB_PAGE_SIZE] and [INVALID_PAGE_ID] are
    declared in common/config.h, which is not part of the sources.  The spec:
    a frame is a fixed-size byte array (typically 4096 bytes); a sentinel
    INVALID, outside the non-negative page identifiers, denotes "no page". *)
Definition BUSTUB_PAGE_SIZE : nat := 4096.
Definition INVALID_PAGE_ID : Z := -1.

Definition zero_page : list byte := replicate BUSTUB_PAGE_SIZE Byte.x00.

(** Modelled from the spec: the disk manager is an external collaborator
    (storage/disk/disk_manager.h is not part of the sources) with
    [read_page(id, buf)], which fills a page-sized buffer, and
    [write_page(id, buf)], which persists the buffer.  [write_log] records
    every [WritePage] call in order. *)
Module DiskManager.

Record t : Type := mk {
  image : gmap Z (list byte);
  write_log : list (Z * list byte)
}.

Definition WritePage (page_id : Z) (page_data : list byte) (d : t) : t :=
  mk (<[page_id := page_data]> (image d)) (write_log d ++ [(page_id, page_data)]).

Definition ReadPage (page_id : Z) (d : t) : list byte :=
  default zero_page (image d !! page_id).

End DiskManager.

(** Modelled from the spec: [Page] is declared in storage/page/page.h, which
    is not part of the sources.  The spec: a frame is a byte array plus
    [page_id], [pin_count], [dirty] and a reader/writer latch (multiple
    readers or one writer).  Releasing a latch that is not held is undefined
    behaviour of the underlying [std::shared_mutex]. *)
Module Page.

Record t : Type := mk {
  data_ : list byte;
  page_id_ : Z;
  pin_count_ : Z;            (* int *)
  is_dirty_ : bool;
  readers_ : nat;            (* rwlatch_: number of shared holders *)
  writer_ : bool             (* rwlatch_: held exclusively *)
}.

Definition init : t := mk zero_page INVALID_PAGE_ID 0 false 0 false.

Definition ResetMemory (p : t) : t :=
  mk zero_page (page_id_ p) (pin_count_ p) (is_dirty_ p) (readers_ p) (writer_ p).
Definition set_data (d : list byte) (p : t) : t :=
  mk d (page_id_ p) (pin_count_ p) (is_dirty_ p) (readers_ p) (writer_ p).
Definition set_page_id (x : Z) (p : t) : t :=
  mk (data_ p) x (pin_count_ p) (is_dirty_ p) (readers_ p) (writer_ p).
Definition set_pin_count (x : Z) (p : t) : t :=
  mk (data_ p) (page_id_ p) x (is_dirty_ p) (readers_ p) (writer_ p).
Definition set_is_dirty (x : bool) (p : t) : t :=
  mk (data_ p) (page_id_ p) (pin_count_ p) x (readers_ p) (writer_ p).

Definition RUnlatch (p : t) : outcome t :=
  match readers_ p with
  | O => Undefined
  | S n => Ret (mk (data_ p) (page_id_ p) (pin_count_ p) (is_dirty_ p) n (writer_ p))
  end.

Definition WUnlatch (p : t) : outcome t :=
  if writer_ p
  then Ret (mk (data_ p) (page_id_ p) (pin_count_ p) (is_dirty_ p) (readers_ p) false)
  else Undefined.

End Page.

(** [int] arithmetic: signed overflow is undefined behaviour. *)
Definition INT_MAX : Z := 2 ^ 31 - 1.

(** Wrap-around of a 32-bit signed value ([std::atomic<page_id_t>]). *)
Definition wrap_int32 (x : Z) : Z := (x + 2 ^ 31) mod 2 ^ 32 - 2 ^ 31.

(** ** Buffer pool manager (src/buffer/buffer_pool_manager.cpp) *)

Module BufferPoolManager.

Record t : Type := mk {
  pool_size_ : Z;
  pages_ : list Page.t;             (* Page *pages_, indexed by frame id *)
  page_table_ : gmap Z Z;           (* std::unordered_map<page_id_t, frame_id_t> *)
  free_list_ : list Z;              (* std::list<frame_id_t> *)
  replacer_ : LRUKReplacer.t;
  next_page_id_ : Z;                (* std::atomic<page_id_t> *)
  disk_manager_ : DiskManager.t
}.

Definition set_pages (x : list Page.t) (s : t) : t :=
  mk (pool_size_ s) x (page_table_ s) (free_list_ s) (replacer_ s)
     (next_page_id_ s) (disk_manager_ s).
Definition set_page_table (x : gmap Z Z) (s : t) : t :=
  mk (pool_size_ s) (pages_ s) x (free_list_ s) (replacer_ s)
     (next_page_id_ s) (disk_manager_ s).
Definition set_free_list (x : list Z) (s : t) : t :=
  mk (pool_size_ s) (pages_ s) (page_table_ s) x (replacer_ s)
     (next_page_id_ s) (disk_manager_ s).
Definition set_replacer (x : LRUKReplacer.t) (s : t) : t :=
  mk (pool_size_ s) (pages_ s) (page_table_ s) (free_list_ s) x
     (next_page_id_ s) (disk_manager_ s).
Definition set_next_page_id (x : Z) (s : t) : t :=
  mk (pool_size_ s) (pages_ s) (page_table_ s) (free_list_ s) (replacer_ s)
     x (disk_manager_ s).
Definition set_disk_manager (x : DiskManager.t) (s : t) : t :=
  mk (pool_size_ s) (pages_ s) (page_table_ s) (free_list_ s) (replacer_ s)
     (next_page_id_ s) x.

(** The constructor: every frame starts in the free list.  The page-id
    counter starts at 0: page_guard_test.cpp fetches page 0 right after the
    first [NewPage]. *)
Definition init (pool_size replacer_k : Z) (disk : DiskManager.t) : t :=
  mk pool_size
     (replicate (Z.to_nat pool_size) Page.init)
     ∅
     (Z.of_nat <$> seq 0 (Z.to_nat pool_size))
     (LRUKReplacer.init pool_size replacer_k)
     0
     disk.

(** [pages_[frame_id]] as an rvalue; an index outside the array is
    undefined behaviour. *)
Definition frame (ps : list Page.t) (frame_id : Z) : option Page.t :=
  if decide (0 ≤ frame_id) then ps !! Z.to_nat frame_id else None.

Definition page (frame_id : Z) : M t Page.t := λ s,
  match frame (pages_ s) frame_id with
  | Some p => (s, Ret p)
  | None => (s, Undefined)
  end.

(** [pages_[frame_id].field = ...]. *)
Definition update_page (frame_id : Z) (f : Page.t → Page.t) : M t unit := λ s,
  match frame (pages_ s) frame_id with
  | Some p => (set_pages (<[Z.to_nat frame_id := f p]> (pages_ s)) s, Ret tt)
  | None => (s, Undefined)
  end.

(** A call into [replacer_]. *)
Definition on_replacer {A} (m : M LRUKReplacer.t A) : M t A := λ s,
  let '(r, o) := m (replacer_ s) in (set_replacer r s, o).

Definition replacer_Evict : M t (option Z) := λ s,
  let '(r, o) := LRUKReplacer.Evict (replacer_ s) in (set_replacer r s, Ret o).

Definition AllocatePage : M t Z := λ s,
  (set_next_page_id (wrap_int32 (next_page_id_ s + 1)) s, Ret (next_page_id_ s)).

(** [DeallocatePage] is declared in the header; the spec: a no-op hook. *)
Definition DeallocatePage (page_id : Z) : M t unit := ret tt.

Definition FlushPage (page_id : Z) : M t bool :=
  let* s := get in
  match page_table_ s !! page_id with
  | None => ret false
  | Some frame_id =>
      let* p := page frame_id in
      modify (λ s, set_disk_manager
                     (DiskManager.WritePage page_id (Page.data_ p) (disk_manager_ s)) s) ;;
      update_page frame_id (Page.set_is_dirty false) ;;
      ret true
  end.

(** Lines 52-69 of [NewPage] and 92-109 of [FetchPage]: the same statements
    up to the text of the exception. *)
Definition acquire_frame (what : string) : M t Z :=
  let* s := get in
  match free_list_ s with
  | front :: rest =>
      modify (set_free_list rest) ;;
      ret front
  | [] =>
      let* exist := replacer_Evict in
      match exist with
      | None => throw (ExecutionException what)
      | Some frame_id =>
          let* p := page frame_id in
          (if Page.is_dirty_ p
           then let* _ := FlushPage (Page.page_id_ p) in ret tt
           else ret tt) ;;
          let* p := page frame_id in
          modify (λ s, set_page_table (delete (Page.page_id_ p) (page_table_ s)) s) ;;
          update_page frame_id Page.ResetMemory ;;
          update_page frame_id (Page.set_page_id INVALID_PAGE_ID) ;;
          update_page frame_id (Page.set_pin_count 0) ;;
          update_page frame_id (Page.set_is_dirty false) ;;
          ret frame_id
      end
  end.

Definition pool_exhausted (s : t) : Prop :=
  Z.of_nat (size (page_table_ s)) = pool_size_ s ∧
  LRUKReplacer.Size (replacer_ s) = 0.

(** [NewPage]: [Some (page_id, frame_id)] stands for [*page_id = page_id;
    return &pages_[frame_id]], [None] for [return nullptr]. *)
Definition NewPage : M t (option (Z * Z)) :=
  let* s := get in
  if decide (pool_exhausted s) then ret None
  else
    let* frame_id :=
      acquire_frame "[BufferPoolManager::NewPage] impossible, must have free frame !" in
    let* aloc_page_id := AllocatePage in
    modify (λ s, set_page_table (<[aloc_page_id := frame_id]> (page_table_ s)) s) ;;
    update_page frame_id (Page.set_page_id aloc_page_id) ;;
    update_page frame_id (Page.set_pin_count 1) ;;
    on_replacer (LRUKReplacer.RecordAccess frame_id) ;;
    on_replacer (LRUKReplacer.SetEvictable frame_id false) ;;
    ret (Some (aloc_page_id, frame_id)).

(** [FetchPage]: [Some frame_id] stands for [return &pages_[frame_id]].
    [pin_count_++] on an [int] that holds [INT_MAX] is undefined behaviour. *)
Definition FetchPage (page_id : Z) : M t (option Z) :=
  let* s := get in
  match page_table_ s !! page_id with
  | Some frame_id =>
      let* p := page frame_id in
      (if decide (Page.pin_count_ p = INT_MAX) then undefined
       else update_page frame_id (Page.set_pin_count (Page.pin_count_ p + 1))) ;;
      on_replacer (LRUKReplacer.SetEvictable frame_id false) ;;
      ret (Some frame_id)
  | None =>
      if decide (pool_exhausted s ∨ page_id < 0) then ret None
      else
        let* frame_id :=
          acquire_frame "[BufferPoolManager::FetchPage] impossible, must have free frame !" in
        let* s := get in
        update_page frame_id
          (Page.set_data (DiskManager.ReadPage page_id (disk_manager_ s))) ;;
        modify (λ s, set_page_table (<[page_id := frame_id]> (page_table_ s)) s) ;;
        update_page frame_id (Page.set_page_id page_id) ;;
        update_page frame_id (Page.set_pin_count 1) ;;
        on_replacer (LRUKReplacer.RecordAccess frame_id) ;;
        on_replacer (LRUKReplacer.SetEvictable frame_id false) ;;
        ret (Some frame_id)
  end.

Definition UnpinPage (page_id : Z) (is_dirty : bool) : M t bool :=
  let* s := get in
  match page_table_ s !! page_id with
  | None => ret false
  | Some frame_id =>
      let* p := page frame_id in
      if decide (Page.pin_count_ p ≤ 0) then ret false
      else
        update_page frame_id (Page.set_pin_count (Page.pin_count_ p - 1)) ;;
        let* p := page frame_id in
        (if decide (Page.pin_count_ p = 0)
         then on_replacer (LRUKReplacer.SetEvictable frame_id true)
         else ret tt) ;;
        let* p := page frame_id in
        update_page frame_id (Page.set_is_dirty (Page.is_dirty_ p || is_dirty)) ;;
        ret true
  end.

(** [DeletePage]: the two tests at the head of the function (resident and
    pinned: false; not resident: true) are one case analysis here. *)
Definition DeletePage (page_id : Z) : M t bool :=
  let* s := get in
  match page_table_ s !! page_id with
  | None => ret true
  | Some frame_id =>
      let* p := page frame_id in
      if decide (0 < Page.pin_count_ p) then ret false
      else
        on_replacer (LRUKReplacer.Remove frame_id) ;;
        modify (λ s, set_free_list (free_list_ s ++ [frame_id]) s) ;;
        update_page frame_id Page.ResetMemory ;;
        update_page frame_id (Page.set_page_id INVALID_PAGE_ID) ;;
        update_page frame_id (Page.set_pin_count 0) ;;
        update_page frame_id (Page.set_is_dirty false) ;;
        modify (λ s, set_page_table (delete page_id (page_table_ s)) s) ;;
        DeallocatePage page_id ;;
        ret true
  end.

(** The loop of [FlushAllPages], visiting the page ids in the order
    [ids]. *)
Definition flush_each (ids : list Z) : M t unit :=
  foldr (λ page_id rest, FlushPage page_id ;; rest) (ret tt) ids.

(** [FlushAllPages]: a range-for over [page_table_], which [FlushPage] does
    not change.  The order in which a [std::unordered_map] is visited is not
    specified; the model visits the page ids in the order of
    [map_to_list]. *)
Definition FlushAllPages : M t unit :=
  let* s := get in
  flush_each (map_to_list (page_table_ s)).*1.

End BufferPoolManager.

(** ** Page guards (src/storage/page/page_guard.cpp)

    Guards are C++ objects with an address: [operator=] compares [this] with
    [&that].  The world holds the buffer pool and the guard objects by
    address.  A [ReadPageGuard] or [WritePageGuard] has the single member
    [guard_], a [BasicPageGuard]; it is stored as that member, at the address
    of the enclosing object. *)

(** The data members of [BasicPageGuard]. *)
Record guard_members : Type := mkGuard {
  bpm_ : bool;            (* false: nullptr; true: the buffer pool of the world *)
  page_ : option Z;       (* None: nullptr; Some f: &pages_[f] *)
  is_dirty_ : bool
}.

Record World : Type := mkWorld {
  bpm : BufferPoolManager.t;
  guards : gmap Z guard_members
}.

Definition on_bpm {A} (m : M BufferPoolManager.t A) : M World A := λ w,
  let '(s, o) := m (bpm w) in (mkWorld s (guards w), o).

(** Access to the guard object at an address; a dangling address is
    undefined behaviour. *)
Definition guard_at (addr : Z) : M World guard_members := λ w,
  match guards w !! addr with
  | Some g => (w, Ret g)
  | None => (w, Undefined)
  end.

Definition set_guard (addr : Z) (g : guard_members) : M World unit :=
  guard_at addr ;;
  modify (λ w, mkWorld (bpm w) (<[addr := g]> (guards w))).

Module BasicPageGuard.

Definition CLear (this : Z) : M World unit :=
  set_guard this (mkGuard false None false).

Definition Drop (this : Z) : M World unit :=
  let* g := guard_at this in
  match bpm_ g, page_ g with
  | true, Some f =>
      let* p := on_bpm (BufferPoolManager.page f) in
      let* _ := on_bpm (BufferPoolManager.UnpinPage (Page.page_id_ p) (is_dirty_ g)) in
      CLear this
  | _, _ => CLear this
  end.

(** [operator=(BasicPageGuard &&that)]. *)
Definition move_assign (this that : Z) : M World unit :=
  if decide (this ≠ that) then
    Drop this ;;
    let* g := guard_at that in
    set_guard this g ;;
    CLear that
  else ret tt.

(** [~BasicPageGuard]. *)
Definition destroy (this : Z) : M World unit := Drop this.

End BasicPageGuard.

(** [guard_.page_->RUnlatch()] and [guard_.page_->WUnlatch()]. *)
Definition unlatch (f : Z) (release : Page.t → outcome Page.t) : M World unit :=
  let* p := on_bpm (BufferPoolManager.page f) in
  match release p with
  | Ret p' => on_bpm (BufferPoolManager.update_page f (λ _, p'))
  | Throw e => throw e
  | Undefined => undefined
  end.

Module ReadPageGuard.
Definition Drop (this : Z) : M World unit :=
  let* g := guard_at this in
  match page_ g with
  | None => ret tt
  | Some f =>
      unlatch f Page.RUnlatch ;;
      BasicPageGuard.Drop this
  end.

(** [operator=(ReadPageGuard &&that)]: [Drop(); guard_ = std::move(that.guard_)]. *)
Definition move_assign (this that : Z) : M World unit :=
  Drop this ;;
  BasicPageGuard.move_assign this that.

Definition destroy (this : Z) : M World unit := Drop this.

End ReadPageGuard.

Module WritePageGuard.
Definition Drop (this : Z) : M World unit :=
  let* g := guard_at this in
  match page_ g with
  | None => ret tt
  | Some f =>
      unlatch f Page.WUnlatch ;;
      BasicPageGuard.Drop this
  end.

(** [operator=(WritePageGuard &&that)]. *)
Definition move_assign (this that : Z) : M World unit :=
  Drop this ;;
  BasicPageGuard.move_assign this that.

Definition destroy (this : Z) : M World unit := Drop this.

End WritePageGuard.

(** ** State predicates used by the properties *)

(** An entry of [st_] is the current key of an evictable record. *)
Definition index_entry_ok (r : LRUKReplacer.t) (a : key) : Prop :=
  match LRUKReplacer.node_store_ r !! key_fid a with
  | Some n =>
      LRUKNode.is_evictable_ n = true ∧
      LRUKNode.FirstTime n = Ret (key_first a) ∧
      LRUKNode.GetDistance n = key_dist a
  | None => False
  end.

(** An evictable record has its current key in [st_]. *)
Definition node_indexed (r : LRUKReplacer.t) (f : Z) (n : LRUKNode.t) : Prop :=
  LRUKNode.is_evictable_ n = true →
  match LRUKNode.history_ n with
  | [] => False
  | first :: _ => (LRUKNode.GetDistance n, first, f) ∈ LRUKReplacer.st_ r
  end.

(** The state that the member functions of the replacer maintain: [st_] is a
    set in ascending order and holds exactly the keys of the evictable
    records. *)
Definition index_consistent (r : LRUKReplacer.t) : Prop :=
  StronglySorted key_lt (LRUKReplacer.st_ r) ∧
  Forall (index_entry_ok r) (LRUKReplacer.st_ r) ∧
  map_Forall (node_indexed r) (LRUKReplacer.node_store_ r).

(** The record of frame [f], if there is one, has a recorded access.  (A
    record is created by [RecordAccess], which adds an access at once; with
    [k_ >= 1] the history never becomes empty again.) *)
Definition history_recorded (r : LRUKReplacer.t) (f : Z) : Prop :=
  match LRUKReplacer.node_store_ r !! f with
  | Some n => LRUKNode.history_ n ≠ []
  | None => True
  end.

(** The states of a replacer: built by the constructor, changed by the
    member functions only. *)
Inductive replacer_reachable : LRUKReplacer.t → Prop :=
| reachable_init num_frames k :
    replacer_reachable (LRUKReplacer.init num_frames k)
| reachable_Evict r :
    replacer_reachable r → replacer_reachable (LRUKReplacer.Evict r).1
| reachable_RecordAccess r frame_id :
    replacer_reachable r →
    replacer_reachable (LRUKReplacer.RecordAccess frame_id r).1
| reachable_SetEvictable r frame_id set_evictable :
    replacer_reachable r →
    replacer_reachable (LRUKReplacer.SetEvictable frame_id set_evictable r).1
| reachable_Remove r frame_id :
    replacer_reachable r →
    replacer_reachable (LRUKReplacer.Remove frame_id r).1.

(** ** Decidability of the state predicates *)

Global Instance exn_eq_dec : EqDecision exn.
Proof. solve_decision. Defined.

Global Instance outcome_eq_dec {A} `{EqDecision A} : EqDecision (outcome A).
Proof. solve_decision. Defined.

Global Instance index_entry_ok_dec r a : Decision (index_entry_ok r a).
Proof.
  unfold index_entry_ok.
  destruct (LRUKReplacer.node_store_ r !! key_fid a); apply _.
Defined.

Global Instance node_indexed_dec r f n : Decision (node_indexed r f n).
Proof.
  unfold node_indexed.
  destruct (LRUKNode.history_ n); apply _.
Defined.

Global Instance index_consistent_dec r : Decision (index_consistent r).
Proof. unfold index_consistent. apply _. Defined.

Global Instance history_recorded_dec r f : Decision (history_recorded r f).
Proof.
  unfold history_recorded.
  destruct (LRUKReplacer.node_store_ r !! f); apply _.
Defined.

(** ** Example states *)

(** The state after running [m]. *)
Definition exec {S A} (m : M S A) (s : S) : S := (m s).1.

(** A replacer with [k_ = 2] and two evictable frames: frame 1 with two
    recorded accesses (timestamps 1 and 3), frame 2 with one (timestamp 2). *)
Definition replacer_two_frames : LRUKReplacer.t :=
  exec (LRUKReplacer.RecordAccess 1 ;;
        LRUKReplacer.RecordAccess 2 ;;
        LRUKReplacer.SetEvictable 1 true ;;
        LRUKReplacer.SetEvictable 2 true ;;
        LRUKReplacer.RecordAccess 1)
       (LRUKReplacer.init 7 2).

(** A pool of two frames with [k_ = 2] over an empty disk, and states reached
    from it through the public functions. *)
Definition disk_empty : DiskManager.t := DiskManager.mk ∅ [].

Definition pool_fresh : BufferPoolManager.t := BufferPoolManager.init 2 2 disk_empty.

(** Page 0 in frame 0, pinned once, clean. *)
Definition pool_one_pinned : BufferPoolManager.t :=
  exec BufferPoolManager.NewPage pool_fresh.

(** Page 0 in frame 0, unpinned with [is_dirty = true]. *)
Definition pool_one_dirty : BufferPoolManager.t :=
  exec (BufferPoolManager.UnpinPage 0 true) pool_one_pinned.

(** Both frames in use and unpinned: page 0 (dirty) in frame 0, page 1
    (clean) in frame 1; the free list is empty. *)
Definition pool_full_unpinned : BufferPoolManager.t :=
  exec (BufferPoolManager.NewPage ;; BufferPoolManager.UnpinPage 1 false) pool_one_dirty.

(** Page 0 in frame 0, dirty, pinned once (fetched a second time, then
    unpinned once with [is_dirty = true]). *)
Definition pool_dirty_pinned : BufferPoolManager.t :=
  exec (BufferPoolManager.FetchPage 0 ;; BufferPoolManager.UnpinPage 0 true)
       pool_one_pinned.

(** A page whose first byte is 'X'. *)
Definition page_X : list byte := Byte.x58 :: replicate (BUSTUB_PAGE_SIZE - 1) Byte.x00.

(** Scenario S5: both frames in use and unpinned, the free list empty;
    page 0, in frame 0, was written by the client through its [Page *] and
    unpinned dirty; page 1, in frame 1, is clean. *)
Definition pool_written : BufferPoolManager.t :=
  exec (BufferPoolManager.NewPage ;;
        BufferPoolManager.update_page 0 (Page.set_data page_X) ;;
        BufferPoolManager.UnpinPage 0 true ;;
        BufferPoolManager.NewPage ;;
        BufferPoolManager.UnpinPage 1 false)
       pool_fresh.

(** ** Invariants of monadic code *)

(** [m] keeps [I], whatever its outcome. *)
Definition preserves {S A} (I : S → Prop) (m : M S A) : Prop :=
  ∀ s, I s → I (m s).1.

(** The replacer of the pool is in a state of a replacer created with [k]. *)
Definition replacer_of_pool_ok (k : Z) (s : BufferPoolManager.t) : Prop :=
  replacer_reachable (BufferPoolManager.replacer_ s) ∧
  LRUKReplacer.k_ (BufferPoolManager.replacer_ s) = k.

(** The states of a pool created with [replacer_k = k]: built by the
    constructor, changed by calls of the public member functions that
    returned (an exception of the pool is fatal, see the error kinds
    [InvalidFrameId] and [Invariant]). *)
Inductive pool_reachable (k : Z) : BufferPoolManager.t → Prop :=
| pool_init pool_size disk :
    pool_reachable k (BufferPoolManager.init pool_size k disk)
| pool_NewPage s s' v :
    pool_reachable k s →
    BufferPoolManager.NewPage s = (s', Ret v) →
    pool_reachable k s'
| pool_FetchPage s s' page_id v :
    pool_reachable k s →
    BufferPoolManager.FetchPage page_id s = (s', Ret v) →
    pool_reachable k s'
| pool_UnpinPage s s' page_id is_dirty v :
    pool_reachable k s →
    BufferPoolManager.UnpinPage page_id is_dirty s = (s', Ret v) →
    pool_reachable k s'
| pool_FlushPage s s' page_id v :
    pool_reachable k s →
    BufferPoolManager.FlushPage page_id s = (s', Ret v) →
    pool_reachable k s'
| pool_DeletePage s s' page_id v :
    pool_reachable k s →
    BufferPoolManager.DeletePage page_id s = (s', Ret v) →
    pool_reachable k s'.

(** Pin counts are not negative, and the record of a frame that is not
    pinned is evictable. *)
Definition pins_tracked (s : BufferPoolManager.t) : Prop :=
  (∀ f p, BufferPoolManager.frame (BufferPoolManager.pages_ s) f = Some p →
          0 ≤ Page.pin_count_ p) ∧
  (∀ f p n,
     BufferPoolManager.frame (BufferPoolManager.pages_ s) f = Some p →
     LRUKReplacer.node_store_ (BufferPoolManager.replacer_ s) !! f = Some n →
     Page.pin_count_ p ≤ 0 →
     LRUKNode.is_evictable_ n = true).

(** ** Guards that hold a frame *)

(** The guard at address [this] holds frame [f], whose page is [p]: it
    points to the pool and to the frame, the page of the frame is mapped to
    the frame by the page table, and the pin taken for the guard is counted.
    The last component says that the replacer's record of the frame, if any,
    has a recorded access. *)
Definition holds (w : World) (this f : Z) (dirty : bool) (p : Page.t) : Prop :=
  guards w !! this = Some (mkGuard true (Some f) dirty) ∧
  BufferPoolManager.frame (BufferPoolManager.pages_ (bpm w)) f = Some p ∧
  BufferPoolManager.page_table_ (bpm w) !! Page.page_id_ p = Some f ∧
  0 < Page.pin_count_ p ∧
  history_recorded (BufferPoolManager.replacer_ (bpm w)) f.

Global Instance byte_eq_decision : EqDecision byte := Byte.byte_eq_dec.

Global Instance Page_eq_dec : EqDecision Page.t.
Proof. solve_decision. Defined.

Global Instance guard_members_eq_dec : EqDecision guard_members.
Proof. solve_decision. Defined.

Global Instance holds_dec w this f dirty p : Decision (holds w this f dirty p).
Proof. unfold holds. apply _. Defined.

(** A guard that holds nothing, as [CLear] leaves it. *)
Definition cleared : guard_members := mkGuard false None false.

(** Taking the latch of a page when it is free to take ([RLatch], [WLatch]
    return at once); used to build the example worlds. *)
Definition latch_shared (p : Page.t) : Page.t :=
  Page.mk (Page.data_ p) (Page.page_id_ p) (Page.pin_count_ p) (Page.is_dirty_ p)
          (S (Page.readers_ p)) (Page.writer_ p).
Definition latch_exclusive (p : Page.t) : Page.t :=
  Page.mk (Page.data_ p) (Page.page_id_ p) (Page.pin_count_ p) (Page.is_dirty_ p)
          (Page.readers_ p) true.

(** [BasicPageGuard(bpm, page0)] at address 100, over the pool in which
    page 0 is pinned once (the SampleTest of page_guard_test.cpp). *)
Definition world_basic_guard : World :=
  mkWorld pool_one_pinned {[ 100 := mkGuard true (Some 0) false ]}.

(** [auto g = bpm->FetchPageRead(0)] at address 100: page 0 pinned twice,
    its latch held by one reader. *)
Definition world_read_guard : World :=
  mkWorld (exec (BufferPoolManager.FetchPage 0 ;;
                 BufferPoolManager.update_page 0 latch_shared) pool_one_pinned)
          {[ 100 := mkGuard true (Some 0) false ]}.

(** [auto g = bpm->FetchPageWrite(0)] at address 100. *)
Definition world_write_guard : World :=
  mkWorld (exec (BufferPoolManager.FetchPage 0 ;;
                 BufferPoolManager.update_page 0 latch_exclusive) pool_one_pinned)
          {[ 100 := mkGuard true (Some 0) false ]}.

(** [drop this], run in world [w], returns, leaves page [q] in frame [f] and
    the other frames as they were, and leaves the guard holding nothing; run
    again, any number of times, it returns and changes nothing. *)
Definition dropped_once (drop : Z → M World unit) (w : World) (this f : Z)
    (q : Page.t) : Prop :=
  ∃ w1,
    drop this w = (w1, Ret tt) ∧
    BufferPoolManager.frame (BufferPoolManager.pages_ (bpm w1)) f = Some q ∧
    (∀ g, g ≠ f →
          BufferPoolManager.frame (BufferPoolManager.pages_ (bpm w1)) g =
          BufferPoolManager.frame (BufferPoolManager.pages_ (bpm w)) g) ∧
    guards w1 !! this = Some cleared ∧
    drop this w1 = (w1, Ret tt) ∧
    ∀ n : nat, Nat.iter n (exec (drop this)) w1 = w1.

(** ** Predicates for the further properties *)

(** The records of the evictable frames. *)
Definition evictable_records (r : LRUKReplacer.t) : gmap Z LRUKNode.t :=
  filter (λ kv, LRUKNode.is_evictable_ kv.2 = true) (LRUKReplacer.node_store_ r).

(** Every record was created with the [k_] of its replacer and keeps at
    least one and at most [k_] timestamps. *)
Definition histories_bounded (r : LRUKReplacer.t) : Prop :=
  map_Forall
    (λ _ n, LRUKNode.k_ n = LRUKReplacer.k_ r ∧
            1 ≤ Z.of_nat (length (LRUKNode.history_ n)) ≤ LRUKReplacer.k_ r)
    (LRUKReplacer.node_store_ r).


(** Frame 1 accessed three times in a replacer with [k_ = 2]. *)
Definition replacer_three_accesses : LRUKReplacer.t :=
  (LRUKReplacer.RecordAccess 1
     (LRUKReplacer.RecordAccess 1
        (LRUKReplacer.RecordAccess 1 (LRUKReplacer.init 7 2)).1).1).1.


(** Every record of the replacer belongs to a frame of the pool, and the
    frame of an evictable record is not pinned. *)
Definition records_match_pins (s : BufferPoolManager.t) : Prop :=
  ∀ f n,
    LRUKReplacer.node_store_ (BufferPoolManager.replacer_ s) !! f = Some n →
    ∃ p, BufferPoolManager.frame (BufferPoolManager.pages_ s) f = Some p ∧
         (LRUKNode.is_evictable_ n = true → Page.pin_count_ p ≤ 0).

(** The page table maps a page id to a frame that holds the page with this
    id, is not in the free list and has a record in the replacer; a frame of
    the free list holds no page and is not pinned; the free list has no
    frame twice; the array of frames has [pool_size_] entries. *)
Definition page_table_ok (s : BufferPoolManager.t) : Prop :=
  (∀ page_id f,
     BufferPoolManager.page_table_ s !! page_id = Some f →
     (∃ p, BufferPoolManager.frame (BufferPoolManager.pages_ s) f = Some p ∧
           Page.page_id_ p = page_id) ∧
     (f ∉ BufferPoolManager.free_list_ s) ∧
     is_Some (LRUKReplacer.node_store_ (BufferPoolManager.replacer_ s) !! f)) ∧
  (∀ f, f ∈ BufferPoolManager.free_list_ s →
        ∃ p, BufferPoolManager.frame (BufferPoolManager.pages_ s) f = Some p ∧
             Page.page_id_ p = INVALID_PAGE_ID ∧ Page.pin_count_ p = 0) ∧
  NoDup (BufferPoolManager.free_list_ s) ∧
  length (BufferPoolManager.pages_ s) = Z.to_nat (BufferPoolManager.pool_size_ s).


(** Both frames of the pool hold a pinned page: pages 0 and 1. *)
Definition pool_all_pinned : BufferPoolManager.t :=
  exec BufferPoolManager.NewPage pool_one_pinned.


(** The replacer has no record for a frame of the free list. *)
Definition free_frames_untracked (s : BufferPoolManager.t) : Prop :=
  ∀ f, f ∈ BufferPoolManager.free_list_ s →
       LRUKReplacer.node_store_ (BufferPoolManager.replacer_ s) !! f = None.


(** Two basic guards over the pool in which pages 0 and 1 are pinned once:
    the guard at address 100 holds frame 0, the guard at address 200 holds
    frame 1 and has its dirty flag set. *)
Definition world_two_basic_guards : World :=
  mkWorld pool_all_pinned
          {[ 100 := mkGuard true (Some 0) false; 200 := mkGuard true (Some 1) true ]}.

(** Scenario S3: read guards for pages 0 and 1, at addresses 100 and 200;
    each page is pinned twice and latched by one reader. *)
Definition world_two_read_guards : World :=
  mkWorld (exec (BufferPoolManager.FetchPage 0 ;;
                 BufferPoolManager.update_page 0 latch_shared ;;
                 BufferPoolManager.FetchPage 1 ;;
                 BufferPoolManager.update_page 1 latch_shared) pool_all_pinned)
          {[ 100 := mkGuard true (Some 0) false; 200 := mkGuard true (Some 1) false ]}.


(** ** Guard factories (src/buffer/buffer_pool_manager.cpp, lines 180-202)

    Modelled from the spec: the constructor [BasicPageGuard(bpm, page)] is
    declared in storage/page/page_guard.h, which is not part of the sources;
    as in page_guard_test.cpp it makes a guard for [page] of [bpm] whose
    dirty flag is not set.  A factory returns its guard by value: [result]
    is the address at which the returned guard is constructed. *)
Definition construct_guard (result : Z) (page : option Z) : M World unit :=
  modify (λ w, mkWorld (bpm w) (<[result := mkGuard true page false]> (guards w))).

Definition FetchPageBasic (result page_id : Z) : M World unit :=
  let* page := on_bpm (BufferPoolManager.FetchPage page_id) in
  construct_guard result page.

(** [Some page_id] stands for [*page_id = page_id]. *)
Definition NewPageGuarded (result : Z) : M World (option Z) :=
  let* new := on_bpm BufferPoolManager.NewPage in
  construct_guard result (snd <$> new) ;;
  ret (fst <$> new).

(** Modelled from the spec: [RLatch] and [WLatch] of [Page] are declared in
    storage/page/page.h, which is not part of the sources.  The spec: the
    latch admits multiple readers or one writer.  A latch that is not free
    blocks the caller until it is released; [None] stands for a call that
    blocks. *)
Definition RLatch (p : Page.t) : option Page.t :=
  if Page.writer_ p then None else Some (latch_shared p).

Definition WLatch (p : Page.t) : option Page.t :=
  if Page.writer_ p then None
  else match Page.readers_ p with
       | O => Some (latch_exclusive p)
       | S _ => None
       end.

(** [page->RLatch()] and [page->WLatch()] on the pointer that [FetchPage]
    returned: a call through [nullptr] is undefined behaviour.  The result
    is false when the call blocks. *)
Definition latch (page : option Z) (acquire : Page.t → option Page.t) : M World bool :=
  match page with
  | None => undefined
  | Some f =>
      let* p := on_bpm (BufferPoolManager.page f) in
      match acquire p with
      | Some p' => on_bpm (BufferPoolManager.update_page f (λ _, p')) ;; ret true
      | None => ret false
      end
  end.

(** [FetchPageRead] and [FetchPageWrite]; the result is false when the call
    blocks on the latch, and no guard is constructed then. *)
Definition FetchPageRead (result page_id : Z) : M World bool :=
  let* page := on_bpm (BufferPoolManager.FetchPage page_id) in
  let* taken := latch page RLatch in
  if taken : bool then construct_guard result page ;; ret true else ret false.

Definition FetchPageWrite (result page_id : Z) : M World bool :=
  let* page := on_bpm (BufferPoolManager.FetchPage page_id) in
  let* taken := latch page WLatch in
  if taken : bool then construct_guard result page ;; ret true else ret false.


(** Page 0 is fetched before any page has been allocated, written by the
    client through its [Page *] (first byte 'X') and unpinned dirty;
    [NewPage] then allocates page id 0 again, in frame 1.  Frame 0 (dirty,
    not pinned) and frame 1 (pinned) both hold page id 0, and the page table
    maps page 0 to frame 1. *)
Definition pool_collided : BufferPoolManager.t :=
  exec (BufferPoolManager.FetchPage 0 ;;
        BufferPoolManager.update_page 0 (Page.set_data page_X) ;;
        BufferPoolManager.UnpinPage 0 true ;;
        BufferPoolManager.NewPage) pool_fresh.

(** [auto g0 = bpm->FetchPageBasic(0)] at address 100 on a fresh pool, then
    [auto g1 = bpm->NewPageGuarded(&id)] at address 200, which allocates
    page id 0 again: guard 100 points to frame 0, guard 200 to frame 1, both
    frames hold page id 0, and the page table maps page 0 to frame 1. *)
Definition world_stale_guard : World :=
  exec (FetchPageBasic 100 0 ;; NewPageGuarded 200) (mkWorld pool_fresh ∅).

(** The same with [auto g0 = bpm->FetchPageRead(0)]. *)
Definition world_stale_read_guard : World :=
  exec (FetchPageRead 100 0 ;; NewPageGuarded 200) (mkWorld pool_fresh ∅).


(** What [BasicPageGuard::Drop] of a guard with the members [g] does to the
    pool: with both pointers set it calls
    [bpm_->UnpinPage(page_->GetPageId(), is_dirty_)], taking the page id
    from the guard's frame; otherwise the pool is not touched. *)
Definition Basic_Drop_pool (g : guard_members) (s s1 : BufferPoolManager.t) : Prop :=
  match bpm_ g, page_ g with
  | true, Some f =>
      ∃ p v,
        BufferPoolManager.frame (BufferPoolManager.pages_ s) f = Some p ∧
        BufferPoolManager.UnpinPage (Page.page_id_ p) (is_dirty_ g) s = (s1, Ret v)
  | _, _ => s1 = s
  end.

(** What [ReadPageGuard::Drop] and [WritePageGuard::Drop] of a guard with
    the members [g] do to the pool: with a null page nothing; otherwise the
    latch of the guard's frame is released, and then the guard is dropped as
    a [BasicPageGuard]. *)
Definition latched_Drop_pool (release : Page.t → outcome Page.t)
    (g : guard_members) (s s1 : BufferPoolManager.t) : Prop :=
  match page_ g with
  | None => s1 = s
  | Some f =>
      ∃ p p',
        BufferPoolManager.frame (BufferPoolManager.pages_ s) f = Some p ∧
        release p = Ret p' ∧
        Basic_Drop_pool g
          (BufferPoolManager.set_pages
             (<[Z.to_nat f := p']> (BufferPoolManager.pages_ s)) s)
          s1
  end.


(** A call of [RLatch] or [WLatch] on page [p] that returned at once, or a
    call of [RUnlatch] or [WUnlatch] that returned, leaves the page
    [p']. *)
Definition latch_step (p p' : Page.t) : Prop :=
  RLatch p = Some p' ∨ WLatch p = Some p' ∨
  Page.RUnlatch p = Ret p' ∨ Page.WUnlatch p = Ret p'.

(** The states of a pool created with [replacer_k = k] whose clients also
    take and release the latches of its frames: built by the constructor,
    changed by calls of the public member functions that returned, and by
    calls of [RLatch], [WLatch], [RUnlatch] and [WUnlatch] on the page of a
    frame (as [FetchPageRead], [FetchPageWrite] and the [Drop] of their
    guards make them). *)
Inductive pool_reachable_latched (k : Z) : BufferPoolManager.t → Prop :=
| latched_init pool_size disk :
    pool_reachable_latched k (BufferPoolManager.init pool_size k disk)
| latched_NewPage s s' v :
    pool_reachable_latched k s →
    BufferPoolManager.NewPage s = (s', Ret v) →
    pool_reachable_latched k s'
| latched_FetchPage s s' page_id v :
    pool_reachable_latched k s →
    BufferPoolManager.FetchPage page_id s = (s', Ret v) →
    pool_reachable_latched k s'
| latched_UnpinPage s s' page_id is_dirty v :
    pool_reachable_latched k s →
    BufferPoolManager.UnpinPage page_id is_dirty s = (s', Ret v) →
    pool_reachable_latched k s'
| latched_FlushPage s s' page_id v :
    pool_reachable_latched k s →
    BufferPoolManager.FlushPage page_id s = (s', Ret v) →
    pool_reachable_latched k s'
| latched_DeletePage s s' page_id v :
    pool_reachable_latched k s →
    BufferPoolManager.DeletePage page_id s = (s', Ret v) →
    pool_reachable_latched k s'
| latched_latch s f p p' :
    pool_reachable_latched k s →
    BufferPoolManager.frame (BufferPoolManager.pages_ s) f = Some p →
    latch_step p p' →
    pool_reachable_latched k
      (BufferPoolManager.set_pages
         (<[Z.to_nat f := p']> (BufferPoolManager.pages_ s)) s).

(** What holds in every state of a pool, whether latches are held or
    not. *)
Definition pool_inv (k : Z) (s : BufferPoolManager.t) : Prop :=
  replacer_of_pool_ok k s ∧ pins_tracked s ∧ records_match_pins s ∧ page_table_ok s.

(** Two read guards for page 0, at addresses 100 and 200: the page is
    pinned three times and latched by two readers. *)
Definition world_second_reader : World :=
  exec (FetchPageRead 200 0) world_read_guard.


(** As [world_stale_read_guard], with a second read guard for page 0 at
    address 300: it holds frame 1, to which the page table maps page 0. *)
Definition world_stale_read_guards : World :=
  exec (FetchPageRead 300 0) world_stale_read_guard.


(** * Properties *)

(** ** The order of the index *)

Lemma key_lt_irrefl (a : key) : ¬ key_lt a a.
Proof. unfold key_lt. lia. Qed.

Lemma key_lt_trans (a b c : key) : key_lt a b → key_lt b c → key_lt a c.
Proof. unfold key_lt. lia. Qed.

Lemma key_lt_total (a b : key) : key_lt a b ∨ a = b ∨ key_lt b a.
Proof.
  destruct a as [[da ta] fa], b as [[db tb] fb].
  unfold key_lt, key_dist, key_first, key_fid; simpl.
  destruct (decide (da = db)) as [->|]; [|lia].
  destruct (decide (ta = tb)) as [->|]; [|lia].
  destruct (decide (fa = fb)) as [->|]; [|lia].
  right; left; reflexivity.
Qed.

Lemma key_lt_asym (a b : key) : key_lt a b → ¬ key_lt b a.
Proof. unfold key_lt. lia. Qed.

(** What [key_lt a b ∨ a = b] says about the two components that matter. *)
Lemma key_le_components (a b : key) :
  key_lt a b ∨ a = b →
  key_dist a ≤ key_dist b ∧ (key_dist a = key_dist b → key_first b ≤ key_first a).
Proof. intros [H | ->]; [unfold key_lt in H|]; lia. Qed.

(** ** The replacer's index agrees with its records *)

Lemma index_entry_unique r a b :
  index_entry_ok r a → index_entry_ok r b → key_fid a = key_fid b → a = b.
Proof.
  unfold index_entry_ok. intros Ha Hb Hf. rewrite <- Hf in Hb.
  destruct (LRUKReplacer.node_store_ r !! key_fid a) as [n|]; [|done].
  destruct Ha as (_ & Ha1 & Ha2), Hb as (_ & Hb1 & Hb2).
  destruct a as [[da ta] fa], b as [[db tb] fb].
  unfold key_dist, key_first, key_fid in *; simpl in *.
  congruence.
Qed.

Lemma node_indexed_key r f n :
  node_indexed r f n → LRUKNode.is_evictable_ n = true →
  ∃ first, LRUKNode.FirstTime n = Ret first ∧
           (LRUKNode.GetDistance n, first, f) ∈ LRUKReplacer.st_ r.
Proof.
  unfold node_indexed, LRUKNode.FirstTime. intros H He. specialize (H He).
  destruct (LRUKNode.history_ n) as [|first h]; [done|]. eauto.
Qed.

Lemma GetDistance_cases (n : LRUKNode.t) :
  (Z.of_nat (length (LRUKNode.history_ n)) < LRUKNode.k_ n ∧
   LRUKNode.GetDistance n = INF_DISTANCE) ∨
  (LRUKNode.k_ n ≤ Z.of_nat (length (LRUKNode.history_ n)) ∧
   LRUKNode.GetDistance n = 0).
Proof.
  unfold LRUKNode.GetDistance.
  destruct (Z.ltb_spec (Z.of_nat (length (LRUKNode.history_ n))) (LRUKNode.k_ n)); auto.
Qed.

(** C1. In a replacer whose index agrees with its records (as it does in
    every state of a replacer, see [replacer_reachable_consistent]) and is
    not empty, [Evict] returns an evictable frame [f] such that every
    evictable frame has a distance at most that of [f] (so a frame with fewer
    than [k_] recorded accesses, whose distance is infinite, is preferred to
    one with a full history), and every evictable frame of the same distance
    has a first recorded timestamp (the front of the history it keeps,
    [FirstTime]) at least that of [f].  The call takes [f] out of the index,
    leaves the other entries, and erases the record (the history) of [f]. *)
Theorem Evict_returns_best_victim (r : LRUKReplacer.t) :
  index_consistent r →
  LRUKReplacer.st_ r ≠ [] →
  ∃ f n tn,
    (LRUKReplacer.Evict r).2 = Some f ∧
    LRUKReplacer.node_store_ r !! f = Some n ∧
    LRUKNode.is_evictable_ n = true ∧
    LRUKNode.FirstTime n = Ret tn ∧
    (∀ g m tm,
        LRUKReplacer.node_store_ r !! g = Some m →
        LRUKNode.is_evictable_ m = true →
        LRUKNode.FirstTime m = Ret tm →
        LRUKNode.GetDistance m ≤ LRUKNode.GetDistance n ∧
        (Z.of_nat (length (LRUKNode.history_ m)) < LRUKNode.k_ m →
         Z.of_nat (length (LRUKNode.history_ n)) < LRUKNode.k_ n) ∧
        (LRUKNode.GetDistance m = LRUKNode.GetDistance n → tn ≤ tm)) ∧
    LRUKReplacer.node_store_ (LRUKReplacer.Evict r).1 !! f = None ∧
    (∀ g, g ≠ f →
        LRUKReplacer.node_store_ (LRUKReplacer.Evict r).1 !! g =
        LRUKReplacer.node_store_ r !! g) ∧
    (∀ a, a ∈ LRUKReplacer.st_ (LRUKReplacer.Evict r).1 ↔
          a ∈ LRUKReplacer.st_ r ∧ key_fid a ≠ f) ∧
    LRUKReplacer.Size (LRUKReplacer.Evict r).1 = LRUKReplacer.Size r - 1.
Proof.
  intros (Hsort & Hent & Hnodes) Hne.
  destruct (last (LRUKReplacer.st_ r)) as [[[d tn] f]|] eqn:Hlast;
    [|by apply last_None in Hlast].
  apply last_Some in Hlast as [l' Hl'].
  unfold LRUKReplacer.Evict. rewrite Hl', last_snoc, removelast_last. simpl.
  rewrite Hl' in Hsort, Hent.
  apply StronglySorted_app in Hsort as (Hbelow & _ & _).
  rewrite Forall_app, Forall_singleton in Hent. destruct Hent as [Hent' Hx].
  pose proof Hx as Hxn.
  unfold index_entry_ok, key_fid, key_first, key_dist in Hxn; simpl in Hxn.
  destruct (LRUKReplacer.node_store_ r !! f) as [n|] eqn:Hn; [|done].
  destruct Hxn as (Hev & Hft & Hd).
  exists f, n, tn. split_and!; try done.
  - intros g m tm Hm Hmev Hmft.
    destruct (node_indexed_key r g m (Hnodes g m Hm) Hmev) as (tm' & Hft' & Hin).
    assert (tm' = tm) as -> by congruence.
    rewrite Hl' in Hin. apply elem_of_app in Hin.
    assert (key_lt (LRUKNode.GetDistance m, tm, g) (d, tn, f) ∨
            (LRUKNode.GetDistance m, tm, g) = (d, tn, f)) as Hle.
    { destruct Hin as [Hin | Hin].
      - left. apply (Hbelow _ _ Hin). by apply list_elem_of_singleton.
      - right. by apply list_elem_of_singleton in Hin. }
    apply key_le_components in Hle.
    unfold key_dist, key_first in Hle; simpl in Hle. rewrite <- Hd in Hle.
    destruct Hle as [Hle1 Hle2]. split_and!; [done| |done].
    intros Hshort.
    destruct (GetDistance_cases m) as [[_ Em]|[? _]]; [|lia].
    destruct (GetDistance_cases n) as [[? _]|[_ En]]; [done|].
    rewrite Em, En in Hle1. unfold INF_DISTANCE in Hle1. lia.
  - apply lookup_delete_eq.
  - intros g Hg. by apply lookup_delete_ne.
  - intros a. split.
    + intros Ha. split; [apply elem_of_app; by left|].
      intros Hf.
      assert (a = (d, tn, f)) as ->.
      { apply (index_entry_unique r); [|done|done].
        by apply (proj1 (Forall_forall _ _) Hent'). }
      eapply key_lt_irrefl, (Hbelow _ _ Ha). by apply list_elem_of_singleton.
    + intros [Ha Hf]. apply elem_of_app in Ha as [Ha|Ha]; [done|].
      apply list_elem_of_singleton in Ha. subst a. done.
  - unfold LRUKReplacer.Size. simpl. rewrite Hl', length_app. simpl. lia.
Qed.

Lemma Evict_returns_best_victim_witness :
  ∃ f n tn,
    (LRUKReplacer.Evict replacer_two_frames).2 = Some f ∧
    LRUKReplacer.node_store_ replacer_two_frames !! f = Some n ∧
    LRUKNode.is_evictable_ n = true ∧
    LRUKNode.FirstTime n = Ret tn ∧
    (∀ g m tm,
        LRUKReplacer.node_store_ replacer_two_frames !! g = Some m →
        LRUKNode.is_evictable_ m = true →
        LRUKNode.FirstTime m = Ret tm →
        LRUKNode.GetDistance m ≤ LRUKNode.GetDistance n ∧
        (Z.of_nat (length (LRUKNode.history_ m)) < LRUKNode.k_ m →
         Z.of_nat (length (LRUKNode.history_ n)) < LRUKNode.k_ n) ∧
        (LRUKNode.GetDistance m = LRUKNode.GetDistance n → tn ≤ tm)) ∧
    LRUKReplacer.node_store_ (LRUKReplacer.Evict replacer_two_frames).1 !! f = None ∧
    (∀ g, g ≠ f →
        LRUKReplacer.node_store_ (LRUKReplacer.Evict replacer_two_frames).1 !! g =
        LRUKReplacer.node_store_ replacer_two_frames !! g) ∧
    (∀ a, a ∈ LRUKReplacer.st_ (LRUKReplacer.Evict replacer_two_frames).1 ↔
          a ∈ LRUKReplacer.st_ replacer_two_frames ∧ key_fid a ≠ f) ∧
    LRUKReplacer.Size (LRUKReplacer.Evict replacer_two_frames).1 =
    LRUKReplacer.Size replacer_two_frames - 1.
Proof.
  apply (Evict_returns_best_victim replacer_two_frames).
  - apply (bool_decide_unpack _). vm_compute. exact I.
  - apply (bool_decide_unpack _). vm_compute. exact I.
Defined.

(** The scenarios P7 and S6 of the replacer, run on the model. *)
Example Evict_prefers_short_history :
  (LRUKReplacer.Evict replacer_two_frames).2 = Some 2.
Proof. vm_compute. reflexivity. Qed.

(** ** [RecordAccess] and the range of frame ids *)

Lemma size_t_cast_above (size frame_id : Z) :
  - 2 ^ 31 ≤ frame_id < 2 ^ 31 →
  0 ≤ size < 2 ^ 64 - 2 ^ 31 →
  size < size_t_cast frame_id ↔ frame_id < 0 ∨ size < frame_id.
Proof.
  intros Hf Hs. unfold size_t_cast.
  destruct (decide (0 ≤ frame_id)) as [Hpos|Hneg].
  - rewrite Z.mod_small by lia. lia.
  - replace (frame_id mod 2 ^ 64) with (frame_id + 2 ^ 64); [lia|].
    apply (Z.mod_unique _ _ (-1)); lia.
Qed.

Lemma Add_history (n : LRUKNode.t) (tbl : Z) :
  (LRUKNode.Add n tbl).2 = (tbl + 1) mod 2 ^ 64 ∧
  LRUKNode.is_evictable_ (LRUKNode.Add n tbl).1 = LRUKNode.is_evictable_ n ∧
  (LRUKNode.history_ (LRUKNode.Add n tbl).1 =
     LRUKNode.history_ n ++ [(tbl + 1) mod 2 ^ 64] ∨
   LRUKNode.history_ (LRUKNode.Add n tbl).1 =
     tail (LRUKNode.history_ n ++ [(tbl + 1) mod 2 ^ 64])).
Proof.
  unfold LRUKNode.Add, CurrentTimestamp; simpl.
  destruct (LRUKNode.k_ n <? _); simpl; auto.
Qed.

(** The history kept by [Add] ends with the new timestamp, provided either
    the history was not empty or the record keeps at least one access. *)
Lemma Add_last (n : LRUKNode.t) (tbl : Z) :
  LRUKNode.history_ n ≠ [] ∨ 0 < LRUKNode.k_ n →
  last (LRUKNode.history_ (LRUKNode.Add n tbl).1) = Some ((tbl + 1) mod 2 ^ 64).
Proof.
  intros H. unfold LRUKNode.Add, CurrentTimestamp; simpl.
  destruct (Z.ltb_spec (LRUKNode.k_ n)
              (Z.of_nat (length (LRUKNode.history_ n ++ [(tbl + 1) mod 2 ^ 64]))))
    as [Hlt|Hge]; simpl; [|apply last_snoc].
  destruct (LRUKNode.history_ n) as [|y h] eqn:Hh.
  - simpl in Hlt. destruct H; [done|lia].
  - simpl. apply last_snoc.
Qed.

(** The result of [RecordAccess] when it returns. *)
Lemma RecordAccess_returns (r : LRUKReplacer.t) (frame_id : Z) :
  size_t_cast frame_id ≤ LRUKReplacer.replacer_size_ r →
  0 < LRUKReplacer.k_ r →
  history_recorded r frame_id →
  let n0 := default (LRUKNode.init frame_id (LRUKReplacer.k_ r))
                    (LRUKReplacer.node_store_ r !! frame_id) in
  let n' := (LRUKNode.Add n0 (LRUKReplacer.time_base_line r)).1 in
  ∃ st',
    LRUKReplacer.RecordAccess frame_id r =
    (LRUKReplacer.mk (<[frame_id := n']> (LRUKReplacer.node_store_ r)) st'
       (LRUKReplacer.replacer_size_ r) (LRUKReplacer.k_ r)
       ((LRUKReplacer.time_base_line r + 1) mod 2 ^ 64),
     Ret tt).
Proof.
  intros Hle Hk Hrec n0 n'.
  assert (LRUKNode.history_ n0 ≠ [] ∨ 0 < LRUKNode.k_ n0) as Hn0.
  { unfold n0, history_recorded in *.
    destruct (LRUKReplacer.node_store_ r !! frame_id); simpl; auto. }
  pose proof (Add_last n0 (LRUKReplacer.time_base_line r) Hn0) as Hl.
  pose proof (Add_history n0 (LRUKReplacer.time_base_line r)) as (Hts & _ & _).
  fold n' in Hl.
  assert (∃ first, LRUKNode.FirstTime n' = Ret first) as [first' Hf'].
  { unfold LRUKNode.FirstTime. destruct (LRUKNode.history_ n'); [done|eauto]. }
  unfold LRUKReplacer.RecordAccess.
  destruct (decide (LRUKReplacer.replacer_size_ r < size_t_cast frame_id)) as [Hgt|_];
    [lia|].
  assert (∃ st1,
    match LRUKReplacer.node_store_ r !! frame_id with
    | Some n =>
        match LRUKNode.FirstTime n with
        | Ret first =>
            Ret (n, st_erase (LRUKNode.GetDistance n, first, frame_id) (LRUKReplacer.st_ r))
        | Throw e => Throw e
        | Undefined => Undefined
        end
    | None => Ret (LRUKNode.init frame_id (LRUKReplacer.k_ r), LRUKReplacer.st_ r)
    end = Ret (n0, st1)) as [st1 ->].
  { unfold n0, history_recorded in *.
    destruct (LRUKReplacer.node_store_ r !! frame_id) as [n|]; simpl; [|eauto].
    unfold LRUKNode.FirstTime. destruct (LRUKNode.history_ n); [done|eauto]. }
  subst n'. destruct (LRUKNode.Add n0 _) as [n' tbl]. simpl in Hts, Hl, Hf'.
  subst tbl. rewrite Hf'. destruct (LRUKNode.GetEvictable n'); eauto.
Qed.

(** C2 (as the code has it).  [RecordAccess] throws the frame-id exception
    exactly when [static_cast<size_t>(frame_id)] is strictly greater than
    [replacer_size_]; for a 32-bit frame id that is: the id is negative or
    strictly greater than the size.  When the cast id is at most the size
    (so also when it equals the size), [k_] is at least 1 and the record of
    the frame, if any, has a recorded access, the call returns and the
    frame's history ends with the fresh timestamp: it is the old history
    with the timestamp appended, less its oldest entry when that exceeds
    [k_]. *)
Theorem RecordAccess_throws_iff_above_size (r : LRUKReplacer.t) (frame_id : Z) :
  ((LRUKReplacer.RecordAccess frame_id r).2 = Throw LRUKReplacer.frame_id_too_large ↔
   LRUKReplacer.replacer_size_ r < size_t_cast frame_id) ∧
  (- 2 ^ 31 ≤ frame_id < 2 ^ 31 →
   0 ≤ LRUKReplacer.replacer_size_ r < 2 ^ 64 - 2 ^ 31 →
   (LRUKReplacer.replacer_size_ r < size_t_cast frame_id ↔
    frame_id < 0 ∨ LRUKReplacer.replacer_size_ r < frame_id)) ∧
  (size_t_cast frame_id ≤ LRUKReplacer.replacer_size_ r →
   0 < LRUKReplacer.k_ r →
   history_recorded r frame_id →
   let old := match LRUKReplacer.node_store_ r !! frame_id with
              | Some n => LRUKNode.history_ n
              | None => []
              end in
   let ts := (LRUKReplacer.time_base_line r + 1) mod 2 ^ 64 in
   ∃ n',
     (LRUKReplacer.RecordAccess frame_id r).2 = Ret tt ∧
     LRUKReplacer.node_store_ (LRUKReplacer.RecordAccess frame_id r).1 !! frame_id = Some n' ∧
     (LRUKNode.history_ n' = old ++ [ts] ∨ LRUKNode.history_ n' = tail (old ++ [ts])) ∧
     last (LRUKNode.history_ n') = Some ts).
Proof.
  split_and!.
  - unfold LRUKReplacer.RecordAccess.
    destruct (decide (LRUKReplacer.replacer_size_ r < size_t_cast frame_id)) as [Hgt|Hle];
      [done|].
    split; [|done]. intros Hthrow. exfalso.
    destruct (LRUKReplacer.node_store_ r !! frame_id) as [n|].
    + unfold LRUKNode.FirstTime in Hthrow at 1.
      destruct (LRUKNode.history_ n) as [|first h]; [simpl in Hthrow; discriminate|].
      destruct (LRUKNode.Add n _) as [n' tbl].
      destruct (LRUKNode.GetEvictable n'); [|simpl in Hthrow; discriminate].
      unfold LRUKNode.FirstTime in Hthrow.
      destruct (LRUKNode.history_ n'); simpl in Hthrow; discriminate.
    + destruct (LRUKNode.Add _ _) as [n' tbl].
      destruct (LRUKNode.GetEvictable n'); [|simpl in Hthrow; discriminate].
      unfold LRUKNode.FirstTime in Hthrow.
      destruct (LRUKNode.history_ n'); simpl in Hthrow; discriminate.
  - apply size_t_cast_above.
  - intros Hle Hk Hrec old ts.
    destruct (RecordAccess_returns r frame_id Hle Hk Hrec) as [st' ->]. simpl.
    set (n0 := default _ _).
    exists (LRUKNode.Add n0 (LRUKReplacer.time_base_line r)).1.
    rewrite lookup_insert_eq.
    assert (LRUKNode.history_ n0 = old) as Hold.
    { unfold n0, old. by destruct (LRUKReplacer.node_store_ r !! frame_id). }
    assert (LRUKNode.history_ n0 ≠ [] ∨ 0 < LRUKNode.k_ n0) as Hn0.
    { unfold n0, history_recorded in *.
      destruct (LRUKReplacer.node_store_ r !! frame_id); simpl; auto. }
    pose proof (Add_history n0 (LRUKReplacer.time_base_line r)) as (_ & _ & Hh).
    rewrite Hold in Hh.
    split_and!; [done|done|exact Hh|by apply Add_last].
Qed.

Lemma RecordAccess_throws_iff_above_size_witness :
  ∃ n',
    (LRUKReplacer.RecordAccess 7 replacer_two_frames).2 = Ret tt ∧
    LRUKReplacer.node_store_ (LRUKReplacer.RecordAccess 7 replacer_two_frames).1 !! 7 = Some n' ∧
    (LRUKNode.history_ n' = [] ++ [4] ∨ LRUKNode.history_ n' = tail ([] ++ [4])) ∧
    last (LRUKNode.history_ n') = Some 4.
Proof.
  destruct (RecordAccess_throws_iff_above_size replacer_two_frames 7) as (_ & _ & H).
  apply H.
  - vm_compute. discriminate.
  - reflexivity.
  - apply (bool_decide_unpack _). vm_compute. exact I.
Defined.

(** C2 as stated fails when the frame id equals the size of the replacer:
    the id is not below the pool size, and the call returns. *)
Lemma RecordAccess_accepts_frame_id_equal_to_size :
  ¬ ((LRUKReplacer.RecordAccess 7 (LRUKReplacer.init 7 2)).2 =
       Throw LRUKReplacer.frame_id_too_large ↔
     LRUKReplacer.replacer_size_ (LRUKReplacer.init 7 2) ≤ 7).
Proof.
  intros [_ H].
  assert (LRUKReplacer.replacer_size_ (LRUKReplacer.init 7 2) ≤ 7) as Hle
    by (simpl; lia).
  specialize (H Hle). vm_compute in H. discriminate H.
Qed.

(** A negative frame id is below every pool size, and is rejected: the cast
    makes it a large unsigned value. *)
Example RecordAccess_rejects_negative_frame_id :
  (LRUKReplacer.RecordAccess (-1) (LRUKReplacer.init 7 2)).2 =
  Throw LRUKReplacer.frame_id_too_large.
Proof. vm_compute. reflexivity. Qed.

(** ** The index as a set, [SetEvictable] *)

Lemma elem_of_st_insert (a x : key) (l : list key) :
  a ∈ st_insert x l ↔ a = x ∨ a ∈ l.
Proof.
  induction l as [|y l IH]; simpl.
  - rewrite list_elem_of_singleton, elem_of_nil. tauto.
  - destruct (decide (key_lt x y)) as [Hxy|Hxy].
    + rewrite !elem_of_cons. tauto.
    + destruct (decide (key_lt y x)) as [Hyx|Hyx].
      * rewrite !elem_of_cons, IH. tauto.
      * destruct (key_lt_total x y) as [?|[->|?]]; try done.
        rewrite !elem_of_cons. tauto.
Qed.

Lemma elem_of_st_erase (a x : key) (l : list key) :
  a ∈ st_erase x l ↔ a ≠ x ∧ a ∈ l.
Proof.
  unfold st_erase. rewrite list_elem_of_filter.
  split; intros [H ?]; split; try done.
  - intros ->. destruct H; by eapply key_lt_irrefl.
  - destruct (key_lt_total a x) as [?|[->|?]]; auto. done.
Qed.

(** [SetEvictable] returns when the record has a recorded access; it changes
    the flag of that record and nothing else in [node_store_]. *)
Lemma SetEvictable_returns (r : LRUKReplacer.t) (f : Z) (b : bool) :
  history_recorded r f →
  ∃ r',
    LRUKReplacer.SetEvictable f b r = (r', Ret tt) ∧
    LRUKReplacer.time_base_line r' = LRUKReplacer.time_base_line r ∧
    LRUKReplacer.replacer_size_ r' = LRUKReplacer.replacer_size_ r ∧
    LRUKReplacer.k_ r' = LRUKReplacer.k_ r ∧
    (∀ g, LRUKNode.history_ <$> LRUKReplacer.node_store_ r' !! g =
          LRUKNode.history_ <$> LRUKReplacer.node_store_ r !! g) ∧
    (∀ g, g ≠ f → LRUKReplacer.node_store_ r' !! g = LRUKReplacer.node_store_ r !! g) ∧
    (∀ n, LRUKReplacer.node_store_ r !! f = Some n →
          LRUKReplacer.node_store_ r' !! f = Some (LRUKNode.SetEvictable n b)) ∧
    (LRUKReplacer.node_store_ r !! f = None → r' = r).
Proof.
  unfold history_recorded, LRUKReplacer.SetEvictable. intros Hrec.
  destruct (LRUKReplacer.node_store_ r !! f) as [n|] eqn:Hn.
  - destruct (decide (LRUKNode.GetEvictable n = b)) as [Hb|Hb].
    + exists r. split_and!; try done.
      intros n0 [= <-]. rewrite Hn. f_equal.
      destruct n; unfold LRUKNode.GetEvictable in Hb; simpl in *. by subst.
    + unfold LRUKNode.FirstTime.
      destruct (LRUKNode.history_ n) as [|first h] eqn:Hh; [done|].
      eexists. split; [reflexivity|]. simpl. split_and!; try done.
      * intros g. destruct (decide (f = g)) as [<-|Hne].
        -- by rewrite lookup_insert_eq, Hn.
        -- by rewrite lookup_insert_ne.
      * intros g Hg. by rewrite lookup_insert_ne.
      * intros n0 [= <-]. by rewrite lookup_insert_eq.
  - exists r. split_and!; done.
Qed.

(** ** [Remove] *)

(** [Remove] returns when the record has a recorded access.  An evictable
    record is erased together with its key; a record that is not evictable,
    or a frame without record, leaves the replacer as it is. *)
Lemma Remove_returns (r : LRUKReplacer.t) (f : Z) :
  history_recorded r f →
  ∃ r',
    LRUKReplacer.Remove f r = (r', Ret tt) ∧
    (∀ g, g ≠ f → LRUKReplacer.node_store_ r' !! g = LRUKReplacer.node_store_ r !! g) ∧
    (∀ n, LRUKReplacer.node_store_ r !! f = Some n →
          LRUKNode.is_evictable_ n = true →
          LRUKReplacer.node_store_ r' !! f = None ∧
          ∀ first, LRUKNode.FirstTime n = Ret first →
                   ∀ a, a ∈ LRUKReplacer.st_ r' ↔
                        a ≠ (LRUKNode.GetDistance n, first, f) ∧ a ∈ LRUKReplacer.st_ r) ∧
    (∀ n, LRUKReplacer.node_store_ r !! f = Some n →
          LRUKNode.is_evictable_ n = false → r' = r) ∧
    (LRUKReplacer.node_store_ r !! f = None → r' = r).
Proof.
  unfold history_recorded, LRUKReplacer.Remove. intros Hrec.
  destruct (LRUKReplacer.node_store_ r !! f) as [n|] eqn:Hn.
  - unfold LRUKNode.GetEvictable, LRUKNode.FirstTime.
    destruct (LRUKNode.is_evictable_ n) eqn:Hev.
    + destruct (LRUKNode.history_ n) as [|first h] eqn:Hh; [done|].
      eexists. split; [reflexivity|]. simpl. split_and!; try done.
      * intros g Hg. by rewrite lookup_delete_ne.
      * intros n0 [= <-] _. split; [apply lookup_delete_eq|].
        rewrite Hh. intros first0 [= <-] a. apply elem_of_st_erase.
      * intros n0 [= <-]. congruence.
    + exists r. split_and!; try done. intros n0 [= <-]. congruence.
  - exists r. split_and!; done.
Qed.

(** ** The member functions of the replacer maintain the index

    [index_consistent], the hypothesis of the property of [Evict], holds of
    the replacer built by the constructor and is kept by [Evict],
    [RecordAccess], [SetEvictable] and [Remove], whatever their outcome. *)

Lemma st_erase_sorted (x : key) (l : list key) :
  StronglySorted key_lt l → StronglySorted key_lt (st_erase x l).
Proof.
  unfold st_erase. induction 1 as [|y l Hl IH Hy]; [constructor|].
  rewrite filter_cons. case_decide; [|done].
  constructor; [done|].
  apply Forall_forall. intros a [_ Ha]%list_elem_of_filter.
  by apply (proj1 (Forall_forall _ _) Hy).
Qed.

Lemma st_insert_sorted (x : key) (l : list key) :
  StronglySorted key_lt l → StronglySorted key_lt (st_insert x l).
Proof.
  induction 1 as [|y l Hl IH Hy]; simpl; [repeat constructor|].
  destruct (decide (key_lt x y)) as [Hxy|Hxy].
  - constructor; [by constructor|].
    constructor; [done|].
    apply Forall_forall. intros a Ha.
    eapply key_lt_trans; [exact Hxy|]. by apply (proj1 (Forall_forall _ _) Hy).
  - destruct (decide (key_lt y x)) as [Hyx|Hyx]; [|by constructor].
    constructor; [done|].
    apply Forall_forall. intros a [->|Ha]%elem_of_st_insert; [done|].
    by apply (proj1 (Forall_forall _ _) Hy).
Qed.

Lemma index_consistent_init (num_frames k : Z) :
  index_consistent (LRUKReplacer.init num_frames k).
Proof.
  split_and!; simpl.
  - constructor.
  - constructor.
  - apply map_Forall_empty.
Qed.

(** The entry of an index that agrees with the records, for a frame with
    record [n], is the key computed from [n]. *)
Lemma index_entry_of_node (r : LRUKReplacer.t) (a : key) (n : LRUKNode.t) :
  index_entry_ok r a →
  LRUKReplacer.node_store_ r !! key_fid a = Some n →
  LRUKNode.is_evictable_ n = true ∧
  ∃ first, LRUKNode.FirstTime n = Ret first ∧
           a = (LRUKNode.GetDistance n, first, key_fid a).
Proof.
  unfold index_entry_ok. intros Ha Hn. rewrite Hn in Ha.
  destruct Ha as (Hev & Hft & Hd). split; [done|].
  exists (key_first a). split; [done|].
  destruct a as [[da ta] fa]. unfold key_dist, key_first, key_fid in *.
  simpl in *. by rewrite Hd.
Qed.

Lemma index_consistent_Evict (r : LRUKReplacer.t) :
  index_consistent r → index_consistent (LRUKReplacer.Evict r).1.
Proof.
  intros (Hsort & Hent & Hnodes). unfold LRUKReplacer.Evict.
  destruct (last (LRUKReplacer.st_ r)) as [[[d t] f]|] eqn:Hlast; [|done].
  apply last_Some in Hlast as [l' Hl']. rewrite Hl', removelast_last.
  rewrite Hl' in Hsort, Hent.
  apply StronglySorted_app in Hsort as (Hbelow & Hsort' & _).
  rewrite Forall_app, Forall_singleton in Hent. destruct Hent as [Hent' Hx].
  assert (∀ a, a ∈ l' → key_fid a ≠ f) as Hfid.
  { intros a Ha Hf.
    assert (a = (d, t, f)) as ->.
    { apply (index_entry_unique r); [|done|done].
      by apply (proj1 (Forall_forall _ _) Hent'). }
    eapply key_lt_irrefl, (Hbelow _ _ Ha). by apply list_elem_of_singleton. }
  split_and!; simpl; [done| |].
  - apply Forall_forall. intros a Ha.
    pose proof (proj1 (Forall_forall _ _) Hent' a Ha) as Hok.
    unfold index_entry_ok in *. simpl.
    rewrite lookup_delete_ne by (intros ?; by eapply Hfid). done.
  - intros g m Hm Hev. apply lookup_delete_Some in Hm as [Hg Hm].
    specialize (Hnodes g m Hm Hev). simpl.
    destruct (LRUKNode.history_ m) as [|first h]; [done|].
    rewrite Hl' in Hnodes. apply elem_of_app in Hnodes as [?|Hin]; [done|].
    apply list_elem_of_singleton in Hin. congruence.
Qed.

Lemma index_consistent_SetEvictable (r : LRUKReplacer.t) (f : Z) (b : bool) :
  index_consistent r → index_consistent (LRUKReplacer.SetEvictable f b r).1.
Proof.
  intros (Hsort & Hent & Hnodes). unfold LRUKReplacer.SetEvictable.
  destruct (LRUKReplacer.node_store_ r !! f) as [n|] eqn:Hn; [|done].
  destruct (decide (LRUKNode.GetEvictable n = b)) as [Hb|Hb]; [done|].
  unfold LRUKNode.FirstTime.
  destruct (LRUKNode.history_ n) as [|first h] eqn:Hh; [done|].
  unfold LRUKNode.GetEvictable in Hb.
  assert (∀ a, a ∈ LRUKReplacer.st_ r → key_fid a = f →
               LRUKNode.is_evictable_ n = true ∧
               a = (LRUKNode.GetDistance n, first, f)) as Hkey.
  { intros a Ha Hf. pose proof (proj1 (Forall_forall _ _) Hent a Ha) as Hok.
    rewrite <- Hf in Hn.
    destruct (index_entry_of_node r a n Hok Hn) as (Hev & first' & Hft & Heq).
    unfold LRUKNode.FirstTime in Hft. rewrite Hh in Hft.
    split; [done|]. congruence. }
  destruct b; simpl.
  - (* the record becomes evictable: its key is inserted *)
    split_and!; simpl.
    + by apply st_insert_sorted.
    + apply Forall_forall. intros a [->|Ha]%elem_of_st_insert.
      * unfold index_entry_ok, key_fid, key_first, key_dist,
          LRUKNode.FirstTime, LRUKNode.GetDistance. simpl.
        rewrite lookup_insert_eq. simpl. by rewrite Hh.
      * pose proof (proj1 (Forall_forall _ _) Hent a Ha) as Hok.
        destruct (decide (key_fid a = f)) as [Hf|Hf].
        { destruct (Hkey a Ha Hf) as [Hev _]. by rewrite Hev in Hb. }
        unfold index_entry_ok in *. simpl. by rewrite lookup_insert_ne.
    + intros g m Hm Hev. simpl. apply lookup_insert_Some in Hm as [[<- <-]|[Hg Hm]].
      * simpl. rewrite Hh. apply elem_of_st_insert. by left.
      * specialize (Hnodes g m Hm Hev).
        destruct (LRUKNode.history_ m); [done|].
        apply elem_of_st_insert. by right.
  - (* the record stops being evictable: its key is erased *)
    split_and!; simpl.
    + by apply st_erase_sorted.
    + apply Forall_forall. intros a [Hne Ha]%elem_of_st_erase.
      pose proof (proj1 (Forall_forall _ _) Hent a Ha) as Hok.
      destruct (decide (key_fid a = f)) as [Hf|Hf].
      { by destruct (Hkey a Ha Hf) as [_ ->]. }
      unfold index_entry_ok in *. simpl. by rewrite lookup_insert_ne.
    + intros g m Hm Hev. simpl. apply lookup_insert_Some in Hm as [[<- <-]|[Hg Hm]].
      * done.
      * specialize (Hnodes g m Hm Hev).
        destruct (LRUKNode.history_ m); [done|].
        apply elem_of_st_erase. split; [congruence|done].
Qed.

Lemma index_consistent_Remove (r : LRUKReplacer.t) (f : Z) :
  index_consistent r → index_consistent (LRUKReplacer.Remove f r).1.
Proof.
  intros (Hsort & Hent & Hnodes). unfold LRUKReplacer.Remove.
  destruct (LRUKReplacer.node_store_ r !! f) as [n|] eqn:Hn; [|done].
  unfold LRUKNode.GetEvictable.
  destruct (LRUKNode.is_evictable_ n) eqn:Hev; [|done].
  unfold LRUKNode.FirstTime.
  destruct (LRUKNode.history_ n) as [|first h] eqn:Hh; [done|].
  split_and!; simpl.
  - by apply st_erase_sorted.
  - apply Forall_forall. intros a [Hne Ha]%elem_of_st_erase.
    pose proof (proj1 (Forall_forall _ _) Hent a Ha) as Hok.
    destruct (decide (key_fid a = f)) as [Hf|Hf].
    { rewrite <- Hf in Hn.
      destruct (index_entry_of_node r a n Hok Hn) as (_ & first' & Hft & Heq).
      unfold LRUKNode.FirstTime in Hft. rewrite Hh in Hft. congruence. }
    unfold index_entry_ok in *. simpl. by rewrite lookup_delete_ne.
  - intros g m Hm Hevm. simpl. apply lookup_delete_Some in Hm as [Hg Hm].
    specialize (Hnodes g m Hm Hevm).
    destruct (LRUKNode.history_ m); [done|].
    apply elem_of_st_erase. split; [congruence|done].
Qed.

Lemma index_consistent_RecordAccess (r : LRUKReplacer.t) (f : Z) :
  index_consistent r → index_consistent (LRUKReplacer.RecordAccess f r).1.
Proof.
  intros Hcons. pose proof Hcons as (Hsort & Hent & Hnodes).
  unfold LRUKReplacer.RecordAccess.
  destruct (decide (LRUKReplacer.replacer_size_ r < size_t_cast f)) as [Hgt|Hle];
    [done|].
  destruct (LRUKReplacer.node_store_ r !! f) as [n|] eqn:Hn.
  - unfold LRUKNode.FirstTime at 1.
    destruct (LRUKNode.history_ n) as [|first h] eqn:Hh; [done|].
    assert (LRUKNode.history_ n ≠ []) as Hne by (by rewrite Hh).
    pose proof (Add_history n (LRUKReplacer.time_base_line r)) as (_ & Hsame & _).
    pose proof (Add_last n (LRUKReplacer.time_base_line r) (or_introl Hne)) as Hlast.
    destruct (LRUKNode.Add n (LRUKReplacer.time_base_line r)) as [n' tbl].
    simpl in Hsame, Hlast.
    assert (∀ a, a ∈ LRUKReplacer.st_ r → key_fid a = f →
                 LRUKNode.is_evictable_ n = true ∧
                 a = (LRUKNode.GetDistance n, first, f)) as Hkey.
    { intros a Ha Hf. pose proof (proj1 (Forall_forall _ _) Hent a Ha) as Hok.
      rewrite <- Hf in Hn.
      destruct (index_entry_of_node r a n Hok Hn) as (Hev & first' & Hft & Heq).
      unfold LRUKNode.FirstTime in Hft. rewrite Hh in Hft.
      split; [done|]. congruence. }
    assert (∀ a, a ∈ st_erase (LRUKNode.GetDistance n, first, f) (LRUKReplacer.st_ r) →
                 key_fid a ≠ f ∧ index_entry_ok r a) as Hrest.
    { intros a [Hna Ha]%elem_of_st_erase. split.
      - intros Hf. by destruct (Hkey a Ha Hf) as [_ ->].
      - by apply (proj1 (Forall_forall _ _) Hent). }
    assert (∀ g m, g ≠ f → LRUKReplacer.node_store_ r !! g = Some m →
                   LRUKNode.is_evictable_ m = true →
                   match LRUKNode.history_ m with
                   | [] => False
                   | first0 :: _ =>
                       (LRUKNode.GetDistance m, first0, g) ∈
                       st_erase (LRUKNode.GetDistance n, first, f) (LRUKReplacer.st_ r)
                   end) as Hothers.
    { intros g m Hg Hm Hev. specialize (Hnodes g m Hm Hev).
      destruct (LRUKNode.history_ m); [done|].
      apply elem_of_st_erase. split; [congruence|done]. }
    unfold LRUKNode.GetEvictable. rewrite Hsame.
    destruct (LRUKNode.is_evictable_ n) eqn:Hev.
    + unfold LRUKNode.FirstTime.
      destruct (LRUKNode.history_ n') as [|first' h'] eqn:Hh'; [done|].
      split_and!; simpl.
      * by apply st_insert_sorted, st_erase_sorted.
      * apply Forall_forall. intros a [->|Ha]%elem_of_st_insert.
        -- unfold index_entry_ok, key_fid, key_first, key_dist,
             LRUKNode.FirstTime. simpl.
           rewrite lookup_insert_eq. by rewrite Hsame, Hh'.
        -- destruct (Hrest a Ha) as [Hf Hok].
           unfold index_entry_ok in *. simpl. by rewrite lookup_insert_ne.
      * intros g m Hm Hevm. simpl.
        apply lookup_insert_Some in Hm as [[<- <-]|[Hg Hm]].
        -- rewrite Hh'. apply elem_of_st_insert. by left.
        -- specialize (Hothers g m (not_eq_sym Hg) Hm Hevm).
           destruct (LRUKNode.history_ m); [done|].
           apply elem_of_st_insert. by right.
    + split_and!; simpl.
      * by apply st_erase_sorted.
      * apply Forall_forall. intros a Ha. destruct (Hrest a Ha) as [Hf Hok].
        unfold index_entry_ok in *. simpl. by rewrite lookup_insert_ne.
      * intros g m Hm Hevm. simpl.
        apply lookup_insert_Some in Hm as [[<- <-]|[Hg Hm]].
        -- congruence.
        -- by apply (Hothers g m (not_eq_sym Hg) Hm Hevm).
  - pose proof (Add_history (LRUKNode.init f (LRUKReplacer.k_ r))
                  (LRUKReplacer.time_base_line r)) as (_ & Hsame & _).
    destruct (LRUKNode.Add _ _) as [n' tbl]. simpl in Hsame.
    unfold LRUKNode.GetEvictable. rewrite Hsame.
    split_and!; simpl; [done| |].
    + apply Forall_forall. intros a Ha.
      pose proof (proj1 (Forall_forall _ _) Hent a Ha) as Hok.
      unfold index_entry_ok in *. simpl.
      destruct (decide (key_fid a = f)) as [Hf|Hf].
      * rewrite Hf, Hn in Hok. done.
      * by rewrite lookup_insert_ne.
    + intros g m Hm Hevm. simpl.
      apply lookup_insert_Some in Hm as [[<- <-]|[Hg Hm]]; [congruence|].
      by apply (Hnodes g m Hm Hevm).
Qed.

(** With [k_ >= 1], every record has a recorded access: a record is created
    with its first access and a full history only loses its oldest entry. *)
Lemma histories_recorded_RecordAccess (r : LRUKReplacer.t) (f : Z) :
  0 < LRUKReplacer.k_ r →
  (∀ g, history_recorded r g) →
  ∀ g, history_recorded (LRUKReplacer.RecordAccess f r).1 g.
Proof.
  intros Hk Hall g. pose proof (Hall f) as Hf.
  destruct (decide (LRUKReplacer.replacer_size_ r < size_t_cast f)) as [Hgt|Hle].
  - unfold LRUKReplacer.RecordAccess. by rewrite decide_True by done.
  - destruct (RecordAccess_returns r f) as [st' ->]; [lia|done|done|].
    set (n' := (LRUKNode.Add _ _).1).
    assert (last (LRUKNode.history_ n') =
            Some ((LRUKReplacer.time_base_line r + 1) mod 2 ^ 64)) as Hlast.
    { apply Add_last. unfold history_recorded in Hf.
      destruct (LRUKReplacer.node_store_ r !! f); simpl; auto. }
    clearbody n'. unfold history_recorded. simpl.
    destruct (decide (f = g)) as [<-|Hne].
    + rewrite lookup_insert_eq.
      intros Hnil. rewrite Hnil in Hlast. discriminate.
    + rewrite lookup_insert_ne by done. apply (Hall g).
Qed.

Lemma histories_recorded_SetEvictable (r : LRUKReplacer.t) (f : Z) (b : bool) :
  (∀ g, history_recorded r g) →
  ∀ g, history_recorded (LRUKReplacer.SetEvictable f b r).1 g.
Proof.
  intros Hall g.
  destruct (SetEvictable_returns r f b (Hall f)) as (r' & -> & _ & _ & _ & Hh & _).
  simpl. specialize (Hh g). specialize (Hall g). unfold history_recorded in *.
  destruct (LRUKReplacer.node_store_ r' !! g) as [m'|];
    destruct (LRUKReplacer.node_store_ r !! g) as [m|]; simpl in Hh; try done.
  congruence.
Qed.

Lemma histories_recorded_Evict (r : LRUKReplacer.t) :
  (∀ g, history_recorded r g) →
  ∀ g, history_recorded (LRUKReplacer.Evict r).1 g.
Proof.
  intros Hall g. unfold LRUKReplacer.Evict.
  destruct (last (LRUKReplacer.st_ r)) as [[[d t] f]|]; [|apply Hall].
  unfold history_recorded. simpl. specialize (Hall g). unfold history_recorded in Hall.
  destruct (decide (f = g)) as [<-|Hne].
  - by rewrite lookup_delete_eq.
  - by rewrite lookup_delete_ne.
Qed.

Lemma histories_recorded_Remove (r : LRUKReplacer.t) (f : Z) :
  (∀ g, history_recorded r g) →
  ∀ g, history_recorded (LRUKReplacer.Remove f r).1 g.
Proof.
  intros Hall g.
  destruct (Remove_returns r f (Hall f)) as (r' & -> & Hother & Hev & Hnev & Hnone).
  simpl. specialize (Hall g) as Hg. unfold history_recorded in *.
  destruct (decide (g = f)) as [->|Hne].
  - destruct (LRUKReplacer.node_store_ r !! f) as [n|] eqn:Hn.
    + destruct (LRUKNode.is_evictable_ n) eqn:Hevn.
      * by destruct (Hev n eq_refl Hevn) as [-> _].
      * rewrite (Hnev n eq_refl Hevn). by rewrite Hn.
    + rewrite (Hnone eq_refl). by rewrite Hn.
  - by rewrite (Hother g Hne).
Qed.

(** Every state of a replacer has an index that agrees with its records. *)
Lemma replacer_reachable_consistent (r : LRUKReplacer.t) :
  replacer_reachable r → index_consistent r.
Proof.
  induction 1 as [num_frames k|r _ IH|r f _ IH|r f b _ IH|r f _ IH].
  - apply index_consistent_init.
  - by apply index_consistent_Evict.
  - by apply index_consistent_RecordAccess.
  - by apply index_consistent_SetEvictable.
  - by apply index_consistent_Remove.
Qed.

(** Scenario S6 on the model ([k_ = 2], three frames accessed once each and
    made evictable): the first victim is the frame accessed first; after two
    more accesses to frame 1, frame 2 (one access) goes before frame 1. *)
Example Evict_scenario :
  let r := exec (LRUKReplacer.RecordAccess 0 ;;
                 LRUKReplacer.RecordAccess 1 ;;
                 LRUKReplacer.RecordAccess 2 ;;
                 LRUKReplacer.SetEvictable 0 true ;;
                 LRUKReplacer.SetEvictable 1 true ;;
                 LRUKReplacer.SetEvictable 2 true)
                (LRUKReplacer.init 3 2) in
  (LRUKReplacer.Evict r).2 = Some 0 ∧
  let r' := exec (LRUKReplacer.RecordAccess 1 ;; LRUKReplacer.RecordAccess 1)
                 (LRUKReplacer.Evict r).1 in
  (LRUKReplacer.Evict r').2 = Some 2 ∧
  (LRUKReplacer.Evict (LRUKReplacer.Evict r').1).2 = Some 1.
Proof. vm_compute. repeat split; reflexivity. Qed.

(** No member function changes [k_]. *)
Lemma k_unchanged (r : LRUKReplacer.t) :
  LRUKReplacer.k_ (LRUKReplacer.Evict r).1 = LRUKReplacer.k_ r ∧
  (∀ f, LRUKReplacer.k_ (LRUKReplacer.RecordAccess f r).1 = LRUKReplacer.k_ r) ∧
  (∀ f b, LRUKReplacer.k_ (LRUKReplacer.SetEvictable f b r).1 = LRUKReplacer.k_ r) ∧
  (∀ f, LRUKReplacer.k_ (LRUKReplacer.Remove f r).1 = LRUKReplacer.k_ r).
Proof.
  split_and!.
  - unfold LRUKReplacer.Evict.
    by destruct (last (LRUKReplacer.st_ r)) as [[[d t] f]|].
  - intros f. unfold LRUKReplacer.RecordAccess.
    destruct (decide (LRUKReplacer.replacer_size_ r < size_t_cast f)) as [Hgt|Hle];
      [done|].
    destruct (LRUKReplacer.node_store_ r !! f) as [n|].
    + destruct (LRUKNode.FirstTime n); try done.
      destruct (LRUKNode.Add n _) as [n' tbl].
      destruct (LRUKNode.GetEvictable n'); [|done].
      by destruct (LRUKNode.FirstTime n').
    + destruct (LRUKNode.Add _ _) as [n' tbl].
      destruct (LRUKNode.GetEvictable n'); [|done].
      by destruct (LRUKNode.FirstTime n').
  - intros f b. unfold LRUKReplacer.SetEvictable.
    destruct (LRUKReplacer.node_store_ r !! f) as [n|]; [|done].
    destruct (decide (LRUKNode.GetEvictable n = b)) as [Heq|Hne]; [done|].
    by destruct (LRUKNode.FirstTime n).
  - intros f. unfold LRUKReplacer.Remove.
    destruct (LRUKReplacer.node_store_ r !! f) as [n|]; [|done].
    destruct (LRUKNode.GetEvictable n); [|done].
    by destruct (LRUKNode.FirstTime n).
Qed.

(** In every state of a replacer with [k_ >= 1], every record has a recorded
    access. *)
Lemma replacer_reachable_recorded (r : LRUKReplacer.t) :
  replacer_reachable r → 0 < LRUKReplacer.k_ r → ∀ g, history_recorded r g.
Proof.
  induction 1 as [num_frames k|r _ IH|r f _ IH|r f b _ IH|r f _ IH]; intros Hk.
  - intros g. unfold history_recorded. simpl. by rewrite lookup_empty.
  - rewrite (proj1 (k_unchanged r)) in Hk. by apply histories_recorded_Evict, IH.
  - rewrite (proj1 (proj2 (k_unchanged r))) in Hk.
    by apply histories_recorded_RecordAccess; [|apply IH].
  - rewrite (proj1 (proj2 (proj2 (k_unchanged r)))) in Hk.
    by apply histories_recorded_SetEvictable, IH.
  - rewrite (proj2 (proj2 (proj2 (k_unchanged r)))) in Hk.
    by apply histories_recorded_Remove, IH.
Qed.

(** ** Frames of the pool *)

Section Frames.
Import BufferPoolManager.

Lemma frame_Some ps f p :
  frame ps f = Some p → 0 ≤ f ∧ ps !! Z.to_nat f = Some p.
Proof. unfold frame. case_decide; [done|discriminate]. Qed.

Lemma frame_insert_eq ps f p q :
  frame ps f = Some p → frame (<[Z.to_nat f := q]> ps) f = Some q.
Proof.
  intros [Hf Hp]%frame_Some. unfold frame. rewrite decide_True by done.
  apply list_lookup_insert_eq. by eapply lookup_lt_Some.
Qed.

Lemma frame_insert_ne ps f g q :
  0 ≤ f → f ≠ g → frame (<[Z.to_nat f := q]> ps) g = frame ps g.
Proof.
  intros Hf Hne. unfold frame. case_decide; [|done].
  apply list_lookup_insert_ne. lia.
Qed.

Lemma page_eq s f p : frame (pages_ s) f = Some p → page f s = (s, Ret p).
Proof. unfold page. by intros ->. Qed.

Lemma update_page_eq s f p g :
  frame (pages_ s) f = Some p →
  update_page f g s = (set_pages (<[Z.to_nat f := g p]> (pages_ s)) s, Ret tt).
Proof. unfold update_page. by intros ->. Qed.

End Frames.

(** Reading a frame back after a chain of writes to it. *)
Ltac solve_frame :=
  solve [repeat first [eassumption | eapply frame_insert_eq]].
Ltac read_frames :=
  repeat (erewrite frame_insert_eq by solve_frame; simpl).

(** ** [FlushPage] *)

(** C6. [FlushPage] returns false, leaving the pool as it is, when the page
    is not in the page table.  When the page is in frame [f], it writes the
    bytes of the frame to the disk manager whatever the dirty flag is, clears
    the dirty flag and returns true. *)
Theorem FlushPage_writes_unconditionally (s : BufferPoolManager.t) (page_id : Z) :
  (BufferPoolManager.page_table_ s !! page_id = None →
   BufferPoolManager.FlushPage page_id s = (s, Ret false)) ∧
  (∀ f p,
     BufferPoolManager.page_table_ s !! page_id = Some f →
     BufferPoolManager.frame (BufferPoolManager.pages_ s) f = Some p →
     let s' := (BufferPoolManager.FlushPage page_id s).1 in
     BufferPoolManager.FlushPage page_id s =
       (BufferPoolManager.set_pages
          (<[Z.to_nat f := Page.set_is_dirty false p]> (BufferPoolManager.pages_ s))
          (BufferPoolManager.set_disk_manager
             (DiskManager.WritePage page_id (Page.data_ p)
                (BufferPoolManager.disk_manager_ s)) s),
        Ret true) ∧
     DiskManager.write_log (BufferPoolManager.disk_manager_ s') =
       DiskManager.write_log (BufferPoolManager.disk_manager_ s) ++
       [(page_id, Page.data_ p)] ∧
     DiskManager.image (BufferPoolManager.disk_manager_ s') !! page_id =
       Some (Page.data_ p) ∧
     BufferPoolManager.frame (BufferPoolManager.pages_ s') f =
       Some (Page.set_is_dirty false p)).
Proof.
  split.
  - intros Hpt. unfold BufferPoolManager.FlushPage, bind, get, ret. by rewrite Hpt.
  - intros f p Hpt Hf s'.
    assert (BufferPoolManager.FlushPage page_id s =
      (BufferPoolManager.set_pages
          (<[Z.to_nat f := Page.set_is_dirty false p]> (BufferPoolManager.pages_ s))
          (BufferPoolManager.set_disk_manager
             (DiskManager.WritePage page_id (Page.data_ p)
                (BufferPoolManager.disk_manager_ s)) s),
        Ret true)) as Heq.
    { unfold BufferPoolManager.FlushPage, bind, get, ret, modify. rewrite Hpt.
      rewrite (page_eq _ _ _ Hf).
      by erewrite update_page_eq by exact Hf. }
    subst s'. rewrite Heq. simpl. split_and!; try done.
    + apply lookup_insert_eq.
    + by eapply frame_insert_eq.
Qed.

Lemma FlushPage_writes_unconditionally_witness :
  let s := pool_one_pinned in
  let s' := (BufferPoolManager.FlushPage 0 s).1 in
  BufferPoolManager.FlushPage 0 s =
    (BufferPoolManager.set_pages
       (<[Z.to_nat 0 := Page.set_is_dirty false (Page.mk zero_page 0 1 false 0 false)]>
          (BufferPoolManager.pages_ s))
       (BufferPoolManager.set_disk_manager
          (DiskManager.WritePage 0 zero_page (BufferPoolManager.disk_manager_ s)) s),
     Ret true) ∧
  DiskManager.write_log (BufferPoolManager.disk_manager_ s') =
    DiskManager.write_log (BufferPoolManager.disk_manager_ s) ++ [(0, zero_page)] ∧
  DiskManager.image (BufferPoolManager.disk_manager_ s') !! 0 = Some zero_page ∧
  BufferPoolManager.frame (BufferPoolManager.pages_ s') 0 =
    Some (Page.set_is_dirty false (Page.mk zero_page 0 1 false 0 false)).
Proof.
  apply (proj2 (FlushPage_writes_unconditionally pool_one_pinned 0) 0
           (Page.mk zero_page 0 1 false 0 false)).
  - vm_compute. reflexivity.
  - vm_compute. reflexivity.
Defined.

(** ** [UnpinPage] *)

(** The frame left by a successful [UnpinPage]. *)
Lemma UnpinPage_resident (s : BufferPoolManager.t) (page_id : Z) (is_dirty : bool) f p :
  BufferPoolManager.page_table_ s !! page_id = Some f →
  BufferPoolManager.frame (BufferPoolManager.pages_ s) f = Some p →
  0 < Page.pin_count_ p →
  BufferPoolManager.UnpinPage page_id is_dirty s =
  let p1 := Page.set_pin_count (Page.pin_count_ p - 1) p in
  let s1 := BufferPoolManager.set_pages
              (<[Z.to_nat f := p1]> (BufferPoolManager.pages_ s)) s in
  let '(s2, o) :=
    (if decide (Page.pin_count_ p - 1 = 0)
     then BufferPoolManager.on_replacer (LRUKReplacer.SetEvictable f true)
     else ret tt) s1 in
  match o with
  | Ret _ =>
      (BufferPoolManager.set_pages
         (<[Z.to_nat f := Page.set_is_dirty (Page.is_dirty_ p || is_dirty) p1]>
            (BufferPoolManager.pages_ s2)) s2,
       Ret true)
  | Throw e => (s2, Throw e)
  | Undefined => (s2, Undefined)
  end.
Proof.
  intros Hpt Hf Hpin.
  unfold BufferPoolManager.UnpinPage, bind, get. rewrite Hpt.
  rewrite (page_eq _ _ _ Hf). rewrite decide_False by lia.
  erewrite update_page_eq by exact Hf.
  set (p1 := Page.set_pin_count _ p).
  set (s1 := BufferPoolManager.set_pages _ s).
  assert (BufferPoolManager.frame (BufferPoolManager.pages_ s1) f = Some p1) as Hf1
    by (by eapply frame_insert_eq).
  rewrite (page_eq _ _ _ Hf1). simpl.
  destruct (decide (Page.pin_count_ p - 1 = 0)) as [H0|H0].
  - unfold BufferPoolManager.on_replacer.
    destruct (LRUKReplacer.SetEvictable f true (BufferPoolManager.replacer_ s1))
      as [r' [[]|e|]]; try done.
    unfold BufferPoolManager.page, BufferPoolManager.update_page, ret.
    simpl in Hf1 |- *. rewrite Hf1. simpl. by rewrite Hf1.
  - unfold ret, BufferPoolManager.page, BufferPoolManager.update_page.
    simpl in Hf1 |- *. rewrite Hf1. simpl. by rewrite Hf1.
Qed.

Lemma UnpinPage_not_resident (s : BufferPoolManager.t) (page_id : Z) (is_dirty : bool) :
  BufferPoolManager.page_table_ s !! page_id = None →
  BufferPoolManager.UnpinPage page_id is_dirty s = (s, Ret false).
Proof.
  intros Hpt. unfold BufferPoolManager.UnpinPage, bind, get, ret. by rewrite Hpt.
Qed.

Lemma UnpinPage_not_pinned (s : BufferPoolManager.t) (page_id : Z) (is_dirty : bool) f p :
  BufferPoolManager.page_table_ s !! page_id = Some f →
  BufferPoolManager.frame (BufferPoolManager.pages_ s) f = Some p →
  Page.pin_count_ p ≤ 0 →
  BufferPoolManager.UnpinPage page_id is_dirty s = (s, Ret false).
Proof.
  intros Hpt Hf Hpin.
  unfold BufferPoolManager.UnpinPage, bind, get, ret. rewrite Hpt.
  rewrite (page_eq _ _ _ Hf). by rewrite decide_True by done.
Qed.

(** A successful [UnpinPage], in closed form. *)
Lemma UnpinPage_pinned (s : BufferPoolManager.t) (page_id : Z) (is_dirty : bool) f p :
  BufferPoolManager.page_table_ s !! page_id = Some f →
  BufferPoolManager.frame (BufferPoolManager.pages_ s) f = Some p →
  0 < Page.pin_count_ p →
  history_recorded (BufferPoolManager.replacer_ s) f →
  BufferPoolManager.UnpinPage page_id is_dirty s =
    (BufferPoolManager.mk (BufferPoolManager.pool_size_ s)
       (<[Z.to_nat f := Page.mk (Page.data_ p) (Page.page_id_ p) (Page.pin_count_ p - 1)
                          (Page.is_dirty_ p || is_dirty) (Page.readers_ p)
                          (Page.writer_ p)]> (BufferPoolManager.pages_ s))
       (BufferPoolManager.page_table_ s) (BufferPoolManager.free_list_ s)
       (if decide (Page.pin_count_ p - 1 = 0)
        then (LRUKReplacer.SetEvictable f true (BufferPoolManager.replacer_ s)).1
        else BufferPoolManager.replacer_ s)
       (BufferPoolManager.next_page_id_ s) (BufferPoolManager.disk_manager_ s),
     Ret true).
Proof.
  intros Hpt Hf Hpin Hrec.
  rewrite (UnpinPage_resident s page_id is_dirty f p Hpt Hf Hpin). cbv zeta.
  destruct (SetEvictable_returns (BufferPoolManager.replacer_ s) f true Hrec)
    as (r1 & Hr1 & _).
  destruct (decide (Page.pin_count_ p - 1 = 0)) as [H0|H0].
  - unfold BufferPoolManager.on_replacer. simpl. rewrite Hr1. simpl.
    unfold BufferPoolManager.set_pages. simpl.
    rewrite list_insert_insert_eq. done.
  - unfold ret. simpl.
    unfold BufferPoolManager.set_pages. simpl.
    rewrite list_insert_insert_eq. done.
Qed.

(** C5. [UnpinPage] returns false when the page is not in the page table or
    the pin count of its frame is 0 (or less).  Otherwise it returns true;
    the frame keeps its bytes, page id and latch, its pin count is one less
    and its dirty flag is the old flag or [is_dirty]; the replacer is the one
    after [SetEvictable(frame, true)] when the new pin count is 0: the record
    of the frame then has its evictable flag set ([is_evictable_ = true]),
    keeps its history, and its key is in the index, whose other entries are
    kept; the replacer is untouched when the new pin count is not 0; nothing
    else changes. *)
Theorem UnpinPage_decrements_and_marks (s : BufferPoolManager.t) (page_id : Z)
    (is_dirty : bool) :
  (BufferPoolManager.page_table_ s !! page_id = None →
   BufferPoolManager.UnpinPage page_id is_dirty s = (s, Ret false)) ∧
  (∀ f p,
     BufferPoolManager.page_table_ s !! page_id = Some f →
     BufferPoolManager.frame (BufferPoolManager.pages_ s) f = Some p →
     Page.pin_count_ p ≤ 0 →
     BufferPoolManager.UnpinPage page_id is_dirty s = (s, Ret false)) ∧
  (∀ f p,
     BufferPoolManager.page_table_ s !! page_id = Some f →
     BufferPoolManager.frame (BufferPoolManager.pages_ s) f = Some p →
     0 < Page.pin_count_ p →
     history_recorded (BufferPoolManager.replacer_ s) f →
     let p' := Page.mk (Page.data_ p) (Page.page_id_ p) (Page.pin_count_ p - 1)
                 (Page.is_dirty_ p || is_dirty) (Page.readers_ p) (Page.writer_ p) in
     let r' := if decide (Page.pin_count_ p - 1 = 0)
               then (LRUKReplacer.SetEvictable f true (BufferPoolManager.replacer_ s)).1
               else BufferPoolManager.replacer_ s in
     BufferPoolManager.UnpinPage page_id is_dirty s =
       (BufferPoolManager.mk (BufferPoolManager.pool_size_ s)
          (<[Z.to_nat f := p']> (BufferPoolManager.pages_ s))
          (BufferPoolManager.page_table_ s) (BufferPoolManager.free_list_ s)
          r' (BufferPoolManager.next_page_id_ s) (BufferPoolManager.disk_manager_ s),
        Ret true) ∧
     (Page.pin_count_ p - 1 = 0 →
      ∀ n, LRUKReplacer.node_store_ (BufferPoolManager.replacer_ s) !! f = Some n →
           ∃ n',
             LRUKReplacer.node_store_ r' !! f = Some n' ∧
             LRUKNode.is_evictable_ n' = true ∧
             LRUKNode.history_ n' = LRUKNode.history_ n ∧
             LRUKNode.k_ n' = LRUKNode.k_ n ∧
             LRUKNode.fid_ n' = LRUKNode.fid_ n ∧
             (LRUKNode.is_evictable_ n = false →
              ∃ first, LRUKNode.FirstTime n = Ret first ∧
                       (LRUKNode.GetDistance n, first, f) ∈ LRUKReplacer.st_ r' ∧
                       ∀ a, a ∈ LRUKReplacer.st_ r' ↔
                            a = (LRUKNode.GetDistance n, first, f) ∨
                            a ∈ LRUKReplacer.st_ (BufferPoolManager.replacer_ s)) ∧
             (LRUKNode.is_evictable_ n = true → r' = BufferPoolManager.replacer_ s)) ∧
     (Page.pin_count_ p - 1 ≠ 0 → r' = BufferPoolManager.replacer_ s) ∧
     (∀ g, g ≠ f →
           LRUKReplacer.node_store_ r' !! g =
           LRUKReplacer.node_store_ (BufferPoolManager.replacer_ s) !! g)).
Proof.
  split_and!.
  - apply UnpinPage_not_resident.
  - apply UnpinPage_not_pinned.
  - intros f p Hpt Hf Hpin Hrec p' r'.
    split; [by apply UnpinPage_pinned|].
    destruct (SetEvictable_returns (BufferPoolManager.replacer_ s) f true Hrec)
      as (r1 & Hr1 & _ & _ & _ & _ & Hother & Hnode & _).
    subst r'. split_and!.
    + intros H0 n Hn. rewrite decide_True by done.
      exists (LRUKNode.SetEvictable n true).
      rewrite Hr1. simpl. split_and!; try done; [by apply Hnode| |].
      * intros Hev. revert Hr1. unfold LRUKReplacer.SetEvictable. rewrite Hn.
        rewrite decide_False by (unfold LRUKNode.GetEvictable; rewrite Hev; done).
        unfold history_recorded in Hrec. rewrite Hn in Hrec.
        unfold LRUKNode.FirstTime.
        destruct (LRUKNode.history_ n) as [|first h]; [done|].
        intros [= <-]. exists first. simpl. split_and!; [done| |].
        -- apply elem_of_st_insert. by left.
        -- intros a. apply elem_of_st_insert.
      * intros Hev. revert Hr1. unfold LRUKReplacer.SetEvictable. rewrite Hn.
        rewrite decide_True by done. by intros [= <-].
    + intros H0. by rewrite decide_False.
    + intros g Hg. destruct (decide (Page.pin_count_ p - 1 = 0)); [|done].
      rewrite Hr1. simpl. by apply Hother.
Qed.

Lemma UnpinPage_decrements_and_marks_witness :
  let s := pool_dirty_pinned in
  let p := Page.mk zero_page 0 1 true 0 false in
  let p' := Page.mk zero_page 0 (1 - 1) (true || false) 0 false in
  let r' := if decide (Page.pin_count_ p - 1 = 0)
            then (LRUKReplacer.SetEvictable 0 true (BufferPoolManager.replacer_ s)).1
            else BufferPoolManager.replacer_ s in
  BufferPoolManager.UnpinPage 0 false s =
    (BufferPoolManager.mk (BufferPoolManager.pool_size_ s)
       (<[Z.to_nat 0 := p']> (BufferPoolManager.pages_ s))
       (BufferPoolManager.page_table_ s) (BufferPoolManager.free_list_ s)
       r' (BufferPoolManager.next_page_id_ s) (BufferPoolManager.disk_manager_ s),
     Ret true) ∧
  (Page.pin_count_ p - 1 = 0 →
   ∀ n, LRUKReplacer.node_store_ (BufferPoolManager.replacer_ s) !! 0 = Some n →
        ∃ n',
          LRUKReplacer.node_store_ r' !! 0 = Some n' ∧
          LRUKNode.is_evictable_ n' = true ∧
          LRUKNode.history_ n' = LRUKNode.history_ n ∧
          LRUKNode.k_ n' = LRUKNode.k_ n ∧
          LRUKNode.fid_ n' = LRUKNode.fid_ n ∧
          (LRUKNode.is_evictable_ n = false →
           ∃ first, LRUKNode.FirstTime n = Ret first ∧
                    (LRUKNode.GetDistance n, first, 0) ∈ LRUKReplacer.st_ r' ∧
                    ∀ a, a ∈ LRUKReplacer.st_ r' ↔
                         a = (LRUKNode.GetDistance n, first, 0) ∨
                         a ∈ LRUKReplacer.st_ (BufferPoolManager.replacer_ s)) ∧
          (LRUKNode.is_evictable_ n = true → r' = BufferPoolManager.replacer_ s)) ∧
  (Page.pin_count_ p - 1 ≠ 0 → r' = BufferPoolManager.replacer_ s) ∧
  (∀ g, g ≠ 0 →
        LRUKReplacer.node_store_ r' !! g =
        LRUKReplacer.node_store_ (BufferPoolManager.replacer_ s) !! g).
Proof.
  apply (proj2 (proj2 (UnpinPage_decrements_and_marks pool_dirty_pinned 0 false)) 0
           (Page.mk zero_page 0 1 true 0 false)).
  - vm_compute. reflexivity.
  - vm_compute. reflexivity.
  - reflexivity.
  - apply (bool_decide_unpack _). vm_compute. exact I.
Defined.

(** C10. When [UnpinPage] returns false the pool is exactly as before: no
    dirty flag, pin count, replacer record or anything else has changed. *)
Theorem UnpinPage_false_leaves_state (s s' : BufferPoolManager.t) (page_id : Z)
    (is_dirty : bool) :
  BufferPoolManager.UnpinPage page_id is_dirty s = (s', Ret false) →
  s' = s.
Proof.
  destruct (BufferPoolManager.page_table_ s !! page_id) as [f|] eqn:Hpt.
  - destruct (BufferPoolManager.frame (BufferPoolManager.pages_ s) f) as [p|] eqn:Hf.
    + destruct (decide (Page.pin_count_ p ≤ 0)) as [Hpin|Hpin].
      * rewrite (UnpinPage_not_pinned s page_id is_dirty f p Hpt Hf Hpin).
        congruence.
      * rewrite (UnpinPage_resident s page_id is_dirty f p Hpt Hf) by lia.
        cbv zeta. destruct (_ (BufferPoolManager.set_pages _ s)) as [s2 [[]|e|]];
          discriminate.
    + unfold BufferPoolManager.UnpinPage, bind, get, BufferPoolManager.page.
      rewrite Hpt, Hf. discriminate.
  - rewrite (UnpinPage_not_resident s page_id is_dirty Hpt).
    congruence.
Qed.

Lemma UnpinPage_false_leaves_state_witness :
  exec (BufferPoolManager.UnpinPage 1 true) pool_full_unpinned = pool_full_unpinned.
Proof.
  apply (UnpinPage_false_leaves_state pool_full_unpinned _ 1 true).
  vm_compute. reflexivity.
Defined.

(** ** [FetchPage] on a page that is resident *)

(** The index after [SetEvictable(f, false)]: the entries of the other
    frames, in their order, and no entry of [f]. *)
Lemma SetEvictable_false_index (r : LRUKReplacer.t) (f : Z) :
  index_consistent r →
  history_recorded r f →
  ∀ a, a ∈ LRUKReplacer.st_ (LRUKReplacer.SetEvictable f false r).1 ↔
       a ∈ LRUKReplacer.st_ r ∧ key_fid a ≠ f.
Proof.
  intros (Hsort & Hent & Hnodes) Hrec a.
  assert (∀ b, b ∈ LRUKReplacer.st_ r → key_fid b = f →
            ∃ n first, LRUKReplacer.node_store_ r !! f = Some n ∧
                       LRUKNode.is_evictable_ n = true ∧
                       LRUKNode.FirstTime n = Ret first ∧
                       b = (LRUKNode.GetDistance n, first, f)) as Hfid.
  { intros b Hb Hf. pose proof (proj1 (Forall_forall _ _) Hent b Hb) as Hok.
    destruct (LRUKReplacer.node_store_ r !! f) as [n|] eqn:Hn.
    - rewrite <- Hf in Hn.
      destruct (index_entry_of_node r b n Hok Hn) as (Hev & first & Hft & Heq).
      exists n, first. rewrite <- Hf. by split_and!.
    - unfold index_entry_ok in Hok. rewrite Hf, Hn in Hok. done. }
  unfold LRUKReplacer.SetEvictable, history_recorded in *.
  destruct (LRUKReplacer.node_store_ r !! f) as [n|] eqn:Hn.
  - unfold LRUKNode.GetEvictable.
    destruct (decide (LRUKNode.is_evictable_ n = false)) as [Hev|Hev].
    + simpl. split; [|tauto]. intros Ha. split; [done|]. intros Hf.
      destruct (Hfid a Ha Hf) as (n0 & first & Hn0 & Hev0 & _). congruence.
    + unfold LRUKNode.FirstTime.
      destruct (LRUKNode.history_ n) as [|first h] eqn:Hh; [done|].
      simpl. rewrite elem_of_st_erase. split.
      * intros [Hne Ha]. split; [done|]. intros Hf.
        destruct (Hfid a Ha Hf) as (n0 & first0 & Hn0 & _ & Hft & ->).
        injection Hn0 as <-. unfold LRUKNode.FirstTime in Hft. rewrite Hh in Hft.
        injection Hft as <-. done.
      * intros [Ha Hf]. split; [|done]. intros ->. by apply Hf.
  - simpl. split; [|tauto]. intros Ha. split; [done|]. intros Hf.
    destruct (Hfid a Ha Hf) as (n0 & first & Hn0 & _). congruence.
Qed.

(** C9. When the page is in the page table, in frame [f], [FetchPage] returns
    that frame; the frame keeps its bytes, page id, dirty flag and latch and
    its pin count is one more; the replacer is the one after
    [SetEvictable(f, false)]: the record of [f] has its evictable flag
    cleared ([is_evictable_ = false]) and keeps its history, no access
    history changes and no timestamp is taken (so [RecordAccess] has not
    run), the index loses the entry of [f], if it had one, and keeps the
    entries of the other frames; page table, free list, page-id counter and
    disk are untouched. *)
Theorem FetchPage_hit_pins_without_access (s : BufferPoolManager.t) (page_id f : Z)
    (p : Page.t) :
  BufferPoolManager.page_table_ s !! page_id = Some f →
  BufferPoolManager.frame (BufferPoolManager.pages_ s) f = Some p →
  Page.pin_count_ p ≠ INT_MAX →
  history_recorded (BufferPoolManager.replacer_ s) f →
  let r := BufferPoolManager.replacer_ s in
  let r' := (LRUKReplacer.SetEvictable f false r).1 in
  let p' := Page.mk (Page.data_ p) (Page.page_id_ p) (Page.pin_count_ p + 1)
              (Page.is_dirty_ p) (Page.readers_ p) (Page.writer_ p) in
  BufferPoolManager.FetchPage page_id s =
    (BufferPoolManager.mk (BufferPoolManager.pool_size_ s)
       (<[Z.to_nat f := p']> (BufferPoolManager.pages_ s))
       (BufferPoolManager.page_table_ s) (BufferPoolManager.free_list_ s)
       r' (BufferPoolManager.next_page_id_ s) (BufferPoolManager.disk_manager_ s),
     Ret (Some f)) ∧
  (∀ n, LRUKReplacer.node_store_ r !! f = Some n →
        ∃ n', LRUKReplacer.node_store_ r' !! f = Some n' ∧
              LRUKNode.is_evictable_ n' = false ∧
              LRUKNode.history_ n' = LRUKNode.history_ n ∧
              LRUKNode.k_ n' = LRUKNode.k_ n ∧
              LRUKNode.fid_ n' = LRUKNode.fid_ n) ∧
  (LRUKReplacer.node_store_ r !! f = None → r' = r) ∧
  (∀ g, LRUKNode.history_ <$> LRUKReplacer.node_store_ r' !! g =
        LRUKNode.history_ <$> LRUKReplacer.node_store_ r !! g) ∧
  (∀ g, g ≠ f → LRUKReplacer.node_store_ r' !! g = LRUKReplacer.node_store_ r !! g) ∧
  LRUKReplacer.time_base_line r' = LRUKReplacer.time_base_line r ∧
  LRUKReplacer.replacer_size_ r' = LRUKReplacer.replacer_size_ r ∧
  LRUKReplacer.k_ r' = LRUKReplacer.k_ r ∧
  (index_consistent r →
   index_consistent r' ∧
   ∀ a, a ∈ LRUKReplacer.st_ r' ↔ a ∈ LRUKReplacer.st_ r ∧ key_fid a ≠ f).
Proof.
  intros Hpt Hf Hmax Hrec r r' p'.
  pose proof (SetEvictable_false_index r f) as Hindex.
  pose proof (index_consistent_SetEvictable r f false) as Hcons.
  fold r' in Hindex, Hcons.
  destruct (SetEvictable_returns r f false Hrec)
    as (r1 & Hr1 & Htbl & Hsz & Hk & Hhist & Hother & Hnode & Hnone).
  assert (r' = r1) as -> by (unfold r'; by rewrite Hr1).
  split_and!; try done.
  - unfold BufferPoolManager.FetchPage, bind, get. rewrite Hpt.
    rewrite (page_eq _ _ _ Hf). rewrite decide_False by done.
    erewrite update_page_eq by exact Hf.
    unfold BufferPoolManager.on_replacer. simpl. fold r. rewrite Hr1. done.
  - intros n Hn. exists (LRUKNode.SetEvictable n false). split; [by apply Hnode|done].
  - intros Hcr. split; [by apply Hcons|by apply Hindex].
Qed.

Lemma FetchPage_hit_pins_without_access_witness :
  let s := pool_full_unpinned in
  let r := BufferPoolManager.replacer_ s in
  let r' := (LRUKReplacer.SetEvictable 1 false r).1 in
  let p' := Page.mk zero_page 1 (0 + 1) false 0 false in
  BufferPoolManager.FetchPage 1 s =
    (BufferPoolManager.mk (BufferPoolManager.pool_size_ s)
       (<[Z.to_nat 1 := p']> (BufferPoolManager.pages_ s))
       (BufferPoolManager.page_table_ s) (BufferPoolManager.free_list_ s)
       r' (BufferPoolManager.next_page_id_ s) (BufferPoolManager.disk_manager_ s),
     Ret (Some 1)) ∧
  (∀ n, LRUKReplacer.node_store_ r !! 1 = Some n →
        ∃ n', LRUKReplacer.node_store_ r' !! 1 = Some n' ∧
              LRUKNode.is_evictable_ n' = false ∧
              LRUKNode.history_ n' = LRUKNode.history_ n ∧
              LRUKNode.k_ n' = LRUKNode.k_ n ∧
              LRUKNode.fid_ n' = LRUKNode.fid_ n) ∧
  (LRUKReplacer.node_store_ r !! 1 = None → r' = r) ∧
  (∀ g, LRUKNode.history_ <$> LRUKReplacer.node_store_ r' !! g =
        LRUKNode.history_ <$> LRUKReplacer.node_store_ r !! g) ∧
  (∀ g, g ≠ 1 → LRUKReplacer.node_store_ r' !! g = LRUKReplacer.node_store_ r !! g) ∧
  LRUKReplacer.time_base_line r' = LRUKReplacer.time_base_line r ∧
  LRUKReplacer.replacer_size_ r' = LRUKReplacer.replacer_size_ r ∧
  LRUKReplacer.k_ r' = LRUKReplacer.k_ r ∧
  (index_consistent r →
   index_consistent r' ∧
   ∀ a, a ∈ LRUKReplacer.st_ r' ↔ a ∈ LRUKReplacer.st_ r ∧ key_fid a ≠ 1).
Proof.
  apply (FetchPage_hit_pins_without_access pool_full_unpinned 1 1
           (Page.mk zero_page 1 0 false 0 false)).
  - vm_compute. reflexivity.
  - vm_compute. reflexivity.
  - vm_compute. discriminate.
  - apply (bool_decide_unpack _). vm_compute. exact I.
Defined.

(** ** [DeletePage] *)

(** [DeletePage] of a resident page that is not pinned, in closed form. *)
Lemma DeletePage_unpinned (s : BufferPoolManager.t) (page_id f : Z) (p : Page.t) :
  BufferPoolManager.page_table_ s !! page_id = Some f →
  BufferPoolManager.frame (BufferPoolManager.pages_ s) f = Some p →
  Page.pin_count_ p ≤ 0 →
  history_recorded (BufferPoolManager.replacer_ s) f →
  BufferPoolManager.DeletePage page_id s =
    (BufferPoolManager.mk (BufferPoolManager.pool_size_ s)
       (<[Z.to_nat f := Page.mk zero_page INVALID_PAGE_ID 0 false
                          (Page.readers_ p) (Page.writer_ p)]>
          (BufferPoolManager.pages_ s))
       (delete page_id (BufferPoolManager.page_table_ s))
       (BufferPoolManager.free_list_ s ++ [f])
       (LRUKReplacer.Remove f (BufferPoolManager.replacer_ s)).1
       (BufferPoolManager.next_page_id_ s) (BufferPoolManager.disk_manager_ s),
     Ret true).
Proof.
  intros Hpt Hf Hpin Hrec.
  destruct (Remove_returns (BufferPoolManager.replacer_ s) f Hrec) as (r1 & Hr1 & _).
  unfold BufferPoolManager.DeletePage, bind, get. rewrite Hpt.
  rewrite (page_eq _ _ _ Hf). rewrite decide_False by lia.
  unfold BufferPoolManager.on_replacer. rewrite Hr1.
  unfold modify, BufferPoolManager.DeallocatePage, ret,
    BufferPoolManager.update_page. simpl.
  rewrite Hf. simpl. read_frames.
  rewrite !list_insert_insert_eq. done.
Qed.

(** C7. [DeletePage] returns false, changing nothing, when the page is
    resident with a positive pin count, and true, changing nothing, when the
    page is not resident.  Otherwise (resident in frame [f], not pinned) it
    returns true after calling [Remove(f)] on the replacer, appending [f] to
    the free list, zeroing the frame's bytes and setting its page id to
    INVALID, its pin count to 0 and its dirty flag to false, and erasing the
    page id from the page table.  [Remove] erases the record of [f] and its
    index entry when the record is evictable, as the record of an unpinned
    resident frame is. *)
Theorem DeletePage_refuses_pinned_and_frees (s : BufferPoolManager.t) (page_id : Z) :
  (∀ f p,
     BufferPoolManager.page_table_ s !! page_id = Some f →
     BufferPoolManager.frame (BufferPoolManager.pages_ s) f = Some p →
     0 < Page.pin_count_ p →
     BufferPoolManager.DeletePage page_id s = (s, Ret false)) ∧
  (BufferPoolManager.page_table_ s !! page_id = None →
   BufferPoolManager.DeletePage page_id s = (s, Ret true)) ∧
  (∀ f p,
     BufferPoolManager.page_table_ s !! page_id = Some f →
     BufferPoolManager.frame (BufferPoolManager.pages_ s) f = Some p →
     Page.pin_count_ p ≤ 0 →
     history_recorded (BufferPoolManager.replacer_ s) f →
     let r := BufferPoolManager.replacer_ s in
     let r' := (LRUKReplacer.Remove f r).1 in
     let p' := Page.mk zero_page INVALID_PAGE_ID 0 false
                 (Page.readers_ p) (Page.writer_ p) in
     BufferPoolManager.DeletePage page_id s =
       (BufferPoolManager.mk (BufferPoolManager.pool_size_ s)
          (<[Z.to_nat f := p']> (BufferPoolManager.pages_ s))
          (delete page_id (BufferPoolManager.page_table_ s))
          (BufferPoolManager.free_list_ s ++ [f])
          r' (BufferPoolManager.next_page_id_ s) (BufferPoolManager.disk_manager_ s),
        Ret true) ∧
     (∀ g, g ≠ f → LRUKReplacer.node_store_ r' !! g = LRUKReplacer.node_store_ r !! g) ∧
     (∀ n, LRUKReplacer.node_store_ r !! f = Some n →
           LRUKNode.is_evictable_ n = true →
           LRUKReplacer.node_store_ r' !! f = None ∧
           ∀ first, LRUKNode.FirstTime n = Ret first →
                    ∀ a, a ∈ LRUKReplacer.st_ r' ↔
                         a ≠ (LRUKNode.GetDistance n, first, f) ∧
                         a ∈ LRUKReplacer.st_ r) ∧
     (LRUKReplacer.node_store_ r !! f = None → r' = r)).
Proof.
  split_and!.
  - intros f p Hpt Hf Hpin.
    unfold BufferPoolManager.DeletePage, bind, get, ret. rewrite Hpt.
    rewrite (page_eq _ _ _ Hf). by rewrite decide_True by done.
  - intros Hpt. unfold BufferPoolManager.DeletePage, bind, get, ret. by rewrite Hpt.
  - intros f p Hpt Hf Hpin Hrec r r' p'.
    destruct (Remove_returns r f Hrec) as (r1 & Hr1 & Hother & Hev & _ & Hnone).
    assert (r' = r1) as -> by (unfold r'; by rewrite Hr1).
    split_and!; try done.
    rewrite (DeletePage_unpinned s page_id f p Hpt Hf Hpin Hrec).
    fold r. by rewrite Hr1.
Qed.

Lemma DeletePage_refuses_pinned_and_frees_witness :
  let s := pool_full_unpinned in
  let r := BufferPoolManager.replacer_ s in
  let r' := (LRUKReplacer.Remove 1 r).1 in
  let p' := Page.mk zero_page INVALID_PAGE_ID 0 false 0 false in
  BufferPoolManager.DeletePage 1 s =
    (BufferPoolManager.mk (BufferPoolManager.pool_size_ s)
       (<[Z.to_nat 1 := p']> (BufferPoolManager.pages_ s))
       (delete 1 (BufferPoolManager.page_table_ s))
       (BufferPoolManager.free_list_ s ++ [1])
       r' (BufferPoolManager.next_page_id_ s) (BufferPoolManager.disk_manager_ s),
     Ret true) ∧
  (∀ g, g ≠ 1 → LRUKReplacer.node_store_ r' !! g = LRUKReplacer.node_store_ r !! g) ∧
  (∀ n, LRUKReplacer.node_store_ r !! 1 = Some n →
        LRUKNode.is_evictable_ n = true →
        LRUKReplacer.node_store_ r' !! 1 = None ∧
        ∀ first, LRUKNode.FirstTime n = Ret first →
                 ∀ a, a ∈ LRUKReplacer.st_ r' ↔
                      a ≠ (LRUKNode.GetDistance n, first, 1) ∧
                      a ∈ LRUKReplacer.st_ r) ∧
  (LRUKReplacer.node_store_ r !! 1 = None → r' = r).
Proof.
  apply (proj2 (proj2 (DeletePage_refuses_pinned_and_frees pool_full_unpinned 1)) 1
           (Page.mk zero_page 1 0 false 0 false)).
  - vm_compute. reflexivity.
  - vm_compute. reflexivity.
  - simpl. lia.
  - apply (bool_decide_unpack _). vm_compute. exact I.
Defined.

(** Scenario S4 on the model: a pinned page is refused, an unpinned one is
    deleted and its frame returns to the free list. *)
Example DeletePage_scenario :
  (BufferPoolManager.DeletePage 0 pool_one_pinned).2 = Ret false ∧
  (BufferPoolManager.DeletePage 0
     (exec (BufferPoolManager.UnpinPage 0 false) pool_one_pinned)).2 = Ret true ∧
  BufferPoolManager.free_list_
    (exec (BufferPoolManager.UnpinPage 0 false ;; BufferPoolManager.DeletePage 0)
          pool_one_pinned) = [1; 0] ∧
  LRUKReplacer.node_store_
    (BufferPoolManager.replacer_
       (exec (BufferPoolManager.UnpinPage 0 false ;; BufferPoolManager.DeletePage 0)
             pool_one_pinned)) = ∅.
Proof. vm_compute. repeat split; reflexivity. Qed.

(** ** Eviction of a dirty page *)

Lemma Evict_last (r : LRUKReplacer.t) (d t f : Z) :
  last (LRUKReplacer.st_ r) = Some (d, t, f) →
  LRUKReplacer.Evict r =
  (LRUKReplacer.mk (delete f (LRUKReplacer.node_store_ r))
     (removelast (LRUKReplacer.st_ r))
     (LRUKReplacer.replacer_size_ r) (LRUKReplacer.k_ r)
     (LRUKReplacer.time_base_line r),
   Some f).
Proof. unfold LRUKReplacer.Evict. by intros ->. Qed.

(** [RecordAccess] on a frame without record: a record with the single fresh
    timestamp (for [k_ >= 1]) is created, not evictable; the index is
    untouched. *)
Lemma RecordAccess_fresh (r : LRUKReplacer.t) (f : Z) :
  LRUKReplacer.node_store_ r !! f = None →
  size_t_cast f ≤ LRUKReplacer.replacer_size_ r →
  LRUKReplacer.RecordAccess f r =
  (LRUKReplacer.mk
     (<[f := (LRUKNode.Add (LRUKNode.init f (LRUKReplacer.k_ r))
                (LRUKReplacer.time_base_line r)).1]> (LRUKReplacer.node_store_ r))
     (LRUKReplacer.st_ r) (LRUKReplacer.replacer_size_ r) (LRUKReplacer.k_ r)
     ((LRUKReplacer.time_base_line r + 1) mod 2 ^ 64),
   Ret tt).
Proof.
  intros Hn Hle. unfold LRUKReplacer.RecordAccess.
  rewrite decide_False by lia. rewrite Hn. reflexivity.
Qed.

Lemma SetEvictable_same (r : LRUKReplacer.t) (f : Z) (n : LRUKNode.t) (b : bool) :
  LRUKReplacer.node_store_ r !! f = Some n →
  LRUKNode.is_evictable_ n = b →
  LRUKReplacer.SetEvictable f b r = (r, Ret tt).
Proof.
  intros Hn Hb. unfold LRUKReplacer.SetEvictable. rewrite Hn.
  by rewrite decide_True.
Qed.

(** The frame-acquisition statements of [NewPage] and [FetchPage], when the
    free list is empty and the victim [f] holds the dirty page [p]: the
    resulting pool is the pool [s1] left by [FlushPage] (run right after
    [Evict]) with the page id of [p] erased from the page table and frame
    [f] reset. *)
Lemma acquire_frame_dirty_victim (what : string) (s : BufferPoolManager.t)
    (d t f : Z) (p : Page.t) :
  BufferPoolManager.free_list_ s = [] →
  last (LRUKReplacer.st_ (BufferPoolManager.replacer_ s)) = Some (d, t, f) →
  BufferPoolManager.frame (BufferPoolManager.pages_ s) f = Some p →
  Page.is_dirty_ p = true →
  BufferPoolManager.page_table_ s !! Page.page_id_ p = Some f →
  let s0 := BufferPoolManager.set_replacer
              (LRUKReplacer.Evict (BufferPoolManager.replacer_ s)).1 s in
  let s1 := (BufferPoolManager.FlushPage (Page.page_id_ p) s0).1 in
  BufferPoolManager.FlushPage (Page.page_id_ p) s0 = (s1, Ret true) ∧
  s1 = BufferPoolManager.set_pages
         (<[Z.to_nat f := Page.set_is_dirty false p]> (BufferPoolManager.pages_ s))
         (BufferPoolManager.set_disk_manager
            (DiskManager.WritePage (Page.page_id_ p) (Page.data_ p)
               (BufferPoolManager.disk_manager_ s)) s0) ∧
  BufferPoolManager.acquire_frame what s =
    (BufferPoolManager.set_pages
       (<[Z.to_nat f := Page.mk zero_page INVALID_PAGE_ID 0 false
                          (Page.readers_ p) (Page.writer_ p)]>
          (BufferPoolManager.pages_ s1))
       (BufferPoolManager.set_page_table
          (delete (Page.page_id_ p) (BufferPoolManager.page_table_ s1)) s1),
     Ret f).
Proof.
  intros Hfree Hlast Hf Hdirty Hpt s0 s1.
  assert (BufferPoolManager.FlushPage (Page.page_id_ p) s0 =
    (BufferPoolManager.set_pages
         (<[Z.to_nat f := Page.set_is_dirty false p]> (BufferPoolManager.pages_ s))
         (BufferPoolManager.set_disk_manager
            (DiskManager.WritePage (Page.page_id_ p) (Page.data_ p)
               (BufferPoolManager.disk_manager_ s)) s0), Ret true)) as Hflush.
  { unfold BufferPoolManager.FlushPage, bind, get, ret, modify.
    unfold s0 at 1. simpl. rewrite Hpt.
    rewrite (page_eq s0 f p) by done.
    by erewrite update_page_eq by (simpl; exact Hf). }
  assert (s1 = (BufferPoolManager.set_pages
         (<[Z.to_nat f := Page.set_is_dirty false p]> (BufferPoolManager.pages_ s))
         (BufferPoolManager.set_disk_manager
            (DiskManager.WritePage (Page.page_id_ p) (Page.data_ p)
               (BufferPoolManager.disk_manager_ s)) s0))) as Hs1
    by (unfold s1; by rewrite Hflush).
  split_and!; [by rewrite Hflush, Hs1|done|].
  unfold BufferPoolManager.acquire_frame, bind at 1, get. rewrite Hfree.
  unfold bind at 1, BufferPoolManager.replacer_Evict.
  rewrite (Evict_last _ d t f Hlast).
  pose proof (Evict_last _ d t f Hlast) as He.
  assert (s0 = BufferPoolManager.set_replacer
    (LRUKReplacer.mk
       (delete f (LRUKReplacer.node_store_ (BufferPoolManager.replacer_ s)))
       (removelast (LRUKReplacer.st_ (BufferPoolManager.replacer_ s)))
       (LRUKReplacer.replacer_size_ (BufferPoolManager.replacer_ s))
       (LRUKReplacer.k_ (BufferPoolManager.replacer_ s))
       (LRUKReplacer.time_base_line (BufferPoolManager.replacer_ s))) s) as <-
    by (unfold s0; by rewrite He).
  unfold bind at 1. rewrite (page_eq s0 f p) by done.
  rewrite Hdirty. unfold bind at 1. unfold bind at 1. rewrite Hflush.
  unfold ret at 1. rewrite <- Hs1.
  assert (BufferPoolManager.frame (BufferPoolManager.pages_ s1) f =
          Some (Page.set_is_dirty false p)) as Hf1.
  { rewrite Hs1. simpl. by eapply frame_insert_eq. }
  unfold bind, modify, ret, BufferPoolManager.page, BufferPoolManager.update_page.
  rewrite Hf1. simpl. rewrite Hf1. simpl. read_frames.
  rewrite !list_insert_insert_eq. done.
Qed.

(** The statements of [NewPage] after the frame has been acquired, when the
    acquired frame has no record in the replacer. *)
Lemma install_new_page (s2 : BufferPoolManager.t) (f : Z) (q : Page.t) :
  BufferPoolManager.frame (BufferPoolManager.pages_ s2) f = Some q →
  LRUKReplacer.node_store_ (BufferPoolManager.replacer_ s2) !! f = None →
  size_t_cast f ≤ LRUKReplacer.replacer_size_ (BufferPoolManager.replacer_ s2) →
  ∃ s',
    (let* aloc_page_id := BufferPoolManager.AllocatePage in
     modify (λ s, BufferPoolManager.set_page_table
                    (<[aloc_page_id := f]> (BufferPoolManager.page_table_ s)) s) ;;
     BufferPoolManager.update_page f (Page.set_page_id aloc_page_id) ;;
     BufferPoolManager.update_page f (Page.set_pin_count 1) ;;
     BufferPoolManager.on_replacer (LRUKReplacer.RecordAccess f) ;;
     BufferPoolManager.on_replacer (LRUKReplacer.SetEvictable f false) ;;
     ret (Some (aloc_page_id, f))) s2 =
    (s', Ret (Some (BufferPoolManager.next_page_id_ s2, f))) ∧
    BufferPoolManager.disk_manager_ s' = BufferPoolManager.disk_manager_ s2 ∧
    BufferPoolManager.page_table_ s' =
      <[BufferPoolManager.next_page_id_ s2 := f]> (BufferPoolManager.page_table_ s2) ∧
    BufferPoolManager.frame (BufferPoolManager.pages_ s') f =
      Some (Page.set_pin_count 1
              (Page.set_page_id (BufferPoolManager.next_page_id_ s2) q)).
Proof.
  intros Hf Hn Hle.
  unfold bind, BufferPoolManager.AllocatePage, modify, ret,
    BufferPoolManager.update_page, BufferPoolManager.on_replacer.
  simpl. rewrite Hf. simpl. read_frames.
  rewrite (RecordAccess_fresh _ f Hn Hle). simpl.
  erewrite SetEvictable_same;
    [|simpl; apply lookup_insert_eq|reflexivity].
  eexists. split; [reflexivity|]. simpl. split_and!; try done.
  solve_frame.
Qed.

(** The statements of [FetchPage] after the frame has been acquired. *)
Lemma install_fetched_page (s2 : BufferPoolManager.t) (page_id f : Z) (q : Page.t) :
  BufferPoolManager.frame (BufferPoolManager.pages_ s2) f = Some q →
  LRUKReplacer.node_store_ (BufferPoolManager.replacer_ s2) !! f = None →
  size_t_cast f ≤ LRUKReplacer.replacer_size_ (BufferPoolManager.replacer_ s2) →
  ∃ s',
    (let* s := get in
     BufferPoolManager.update_page f
       (Page.set_data (DiskManager.ReadPage page_id (BufferPoolManager.disk_manager_ s))) ;;
     modify (λ s, BufferPoolManager.set_page_table
                    (<[page_id := f]> (BufferPoolManager.page_table_ s)) s) ;;
     BufferPoolManager.update_page f (Page.set_page_id page_id) ;;
     BufferPoolManager.update_page f (Page.set_pin_count 1) ;;
     BufferPoolManager.on_replacer (LRUKReplacer.RecordAccess f) ;;
     BufferPoolManager.on_replacer (LRUKReplacer.SetEvictable f false) ;;
     ret (Some f)) s2 =
    (s', Ret (Some f)) ∧
    BufferPoolManager.disk_manager_ s' = BufferPoolManager.disk_manager_ s2 ∧
    BufferPoolManager.page_table_ s' =
      <[page_id := f]> (BufferPoolManager.page_table_ s2) ∧
    BufferPoolManager.frame (BufferPoolManager.pages_ s') f =
      Some (Page.set_pin_count 1
              (Page.set_page_id page_id
                 (Page.set_data
                    (DiskManager.ReadPage page_id (BufferPoolManager.disk_manager_ s2))
                    q))).
Proof.
  intros Hf Hn Hle.
  unfold bind, get, modify, ret,
    BufferPoolManager.update_page, BufferPoolManager.on_replacer.
  simpl. rewrite Hf. simpl. read_frames.
  rewrite (RecordAccess_fresh _ f Hn Hle). simpl.
  erewrite SetEvictable_same;
    [|simpl; apply lookup_insert_eq|reflexivity].
  eexists. split; [reflexivity|]. simpl. split_and!; try done.
  solve_frame.
Qed.

(** The write-back of a dirty victim whose page the page table maps to the
    victim's frame.  When [NewPage] or [FetchPage] (on a page that is not
    resident) finds the free list empty and evicts frame [f], whose page [p]
    is dirty and mapped to [f], then [FlushPage] runs on the page of [p]
    right after [Evict]: it returns true, appends the bytes of [p] under its
    page id to the disk manager's writes and clears the frame's dirty flag.
    Only then is the page id erased from the page table and the frame reset
    (zeroed bytes, INVALID page id, pin count 0).  Both functions return
    frame [f], and the disk they leave is the one after that write. *)
Lemma eviction_writes_back_mapped_page (s : BufferPoolManager.t) (d t f : Z)
    (p : Page.t) :
  BufferPoolManager.free_list_ s = [] →
  last (LRUKReplacer.st_ (BufferPoolManager.replacer_ s)) = Some (d, t, f) →
  BufferPoolManager.frame (BufferPoolManager.pages_ s) f = Some p →
  Page.is_dirty_ p = true →
  BufferPoolManager.page_table_ s !! Page.page_id_ p = Some f →
  size_t_cast f ≤ LRUKReplacer.replacer_size_ (BufferPoolManager.replacer_ s) →
  let s0 := BufferPoolManager.set_replacer
              (LRUKReplacer.Evict (BufferPoolManager.replacer_ s)).1 s in
  let s1 := (BufferPoolManager.FlushPage (Page.page_id_ p) s0).1 in
  let s2 := BufferPoolManager.set_pages
              (<[Z.to_nat f := Page.mk zero_page INVALID_PAGE_ID 0 false
                                 (Page.readers_ p) (Page.writer_ p)]>
                 (BufferPoolManager.pages_ s1))
              (BufferPoolManager.set_page_table
                 (delete (Page.page_id_ p) (BufferPoolManager.page_table_ s1)) s1) in
  (* the write-back *)
  BufferPoolManager.FlushPage (Page.page_id_ p) s0 = (s1, Ret true) ∧
  DiskManager.write_log (BufferPoolManager.disk_manager_ s1) =
    DiskManager.write_log (BufferPoolManager.disk_manager_ s) ++
    [(Page.page_id_ p, Page.data_ p)] ∧
  DiskManager.image (BufferPoolManager.disk_manager_ s1) !! Page.page_id_ p =
    Some (Page.data_ p) ∧
  BufferPoolManager.frame (BufferPoolManager.pages_ s1) f =
    Some (Page.set_is_dirty false p) ∧
  BufferPoolManager.page_table_ s1 !! Page.page_id_ p = Some f ∧
  (* erasing the mapping and resetting the frame come after it *)
  (∀ what, BufferPoolManager.acquire_frame what s = (s2, Ret f)) ∧
  (* the two callers *)
  (∃ s',
     BufferPoolManager.NewPage s =
       (s', Ret (Some (BufferPoolManager.next_page_id_ s, f))) ∧
     BufferPoolManager.disk_manager_ s' = BufferPoolManager.disk_manager_ s1) ∧
  (∀ page_id,
     BufferPoolManager.page_table_ s !! page_id = None →
     0 ≤ page_id →
     ∃ s',
       BufferPoolManager.FetchPage page_id s = (s', Ret (Some f)) ∧
       BufferPoolManager.disk_manager_ s' = BufferPoolManager.disk_manager_ s1).
Proof.
  intros Hfree Hlast Hf Hdirty Hpt Hle s0 s1 s2.
  assert (∀ what, BufferPoolManager.acquire_frame what s = (s2, Ret f)) as Hacq.
  { intros what.
    by destruct (acquire_frame_dirty_victim what s d t f p) as (_ & _ & ->). }
  destruct (acquire_frame_dirty_victim "" s d t f p Hfree Hlast Hf Hdirty Hpt)
    as (Hflush & Hs1 & _).
  fold s0 in Hflush, Hs1. fold s1 in Hflush, Hs1.
  assert (BufferPoolManager.frame (BufferPoolManager.pages_ s1) f =
          Some (Page.set_is_dirty false p)) as Hf1.
  { rewrite Hs1. simpl. by eapply frame_insert_eq. }
  assert (¬ BufferPoolManager.pool_exhausted s) as Hroom.
  { intros [_ Hsize]. unfold LRUKReplacer.Size in Hsize.
    destruct (LRUKReplacer.st_ (BufferPoolManager.replacer_ s)); [done|].
    simpl in Hsize. lia. }
  assert (BufferPoolManager.frame (BufferPoolManager.pages_ s2) f =
          Some (Page.mk zero_page INVALID_PAGE_ID 0 false
                  (Page.readers_ p) (Page.writer_ p))) as Hf2.
  { unfold s2. simpl. by eapply frame_insert_eq. }
  assert (LRUKReplacer.node_store_ (BufferPoolManager.replacer_ s2) !! f = None) as Hn2.
  { unfold s2. simpl. rewrite Hs1. simpl. unfold s0. simpl.
    rewrite (Evict_last _ d t f Hlast). simpl. apply lookup_delete_eq. }
  assert (LRUKReplacer.replacer_size_ (BufferPoolManager.replacer_ s2) =
          LRUKReplacer.replacer_size_ (BufferPoolManager.replacer_ s)) as Hsz2.
  { unfold s2. simpl. rewrite Hs1. simpl. unfold s0. simpl.
    by rewrite (Evict_last _ d t f Hlast). }
  assert (BufferPoolManager.disk_manager_ s2 = BufferPoolManager.disk_manager_ s1)
    as Hd2 by done.
  assert (BufferPoolManager.next_page_id_ s2 = BufferPoolManager.next_page_id_ s)
    as Hnext by (unfold s2; simpl; by rewrite Hs1).
  split_and!; try done.
  - rewrite Hs1. simpl. done.
  - rewrite Hs1. simpl. apply lookup_insert_eq.
  - rewrite Hs1. simpl. done.
  - destruct (install_new_page s2 f _ Hf2 Hn2) as (s' & Heq & Hdisk & _);
      [by rewrite Hsz2|].
    exists s'. split; [|by rewrite Hdisk].
    unfold BufferPoolManager.NewPage, bind at 1, get.
    rewrite decide_False by done.
    unfold bind at 1. rewrite Hacq. rewrite <- Hnext. exact Heq.
  - intros page_id Hmiss Hpos.
    destruct (install_fetched_page s2 page_id f _ Hf2 Hn2) as (s' & Heq & Hdisk & _);
      [by rewrite Hsz2|].
    exists s'. split; [|by rewrite Hdisk].
    unfold BufferPoolManager.FetchPage, bind at 1, get. rewrite Hmiss.
    rewrite decide_False by (intros [?|?]; [done|lia]).
    unfold bind at 1. rewrite Hacq. exact Heq.
Qed.

Lemma eviction_writes_back_mapped_page_example :
  let s := pool_written in
  let p := Page.mk page_X 0 0 true 0 false in
  let s0 := BufferPoolManager.set_replacer
              (LRUKReplacer.Evict (BufferPoolManager.replacer_ s)).1 s in
  let s1 := (BufferPoolManager.FlushPage 0 s0).1 in
  BufferPoolManager.FlushPage 0 s0 = (s1, Ret true) ∧
  DiskManager.write_log (BufferPoolManager.disk_manager_ s1) = [] ++ [(0, page_X)] ∧
  BufferPoolManager.frame (BufferPoolManager.pages_ s1) 0 =
    Some (Page.set_is_dirty false p) ∧
  (∃ s',
     BufferPoolManager.NewPage s = (s', Ret (Some (2, 0))) ∧
     BufferPoolManager.disk_manager_ s' = BufferPoolManager.disk_manager_ s1) ∧
  (∃ s',
     BufferPoolManager.FetchPage 7 s = (s', Ret (Some 0)) ∧
     BufferPoolManager.disk_manager_ s' = BufferPoolManager.disk_manager_ s1).
Proof.
  intros s p s0 s1.
  destruct (eviction_writes_back_mapped_page pool_written INF_DISTANCE 1 0
              (Page.mk page_X 0 0 true 0 false))
    as (Hflush & Hlog & _ & Hframe & _ & _ & Hnew & Hfetch).
  - vm_compute. reflexivity.
  - vm_compute. reflexivity.
  - vm_compute. reflexivity.
  - reflexivity.
  - vm_compute. reflexivity.
  - vm_compute. discriminate.
  - split_and!.
    + exact Hflush.
    + exact Hlog.
    + exact Hframe.
    + exact Hnew.
    + apply (Hfetch 7); [vm_compute; reflexivity | lia].
Defined.

(** Scenario S5 on the model: the eviction forced by the third [NewPage]
    writes the bytes of page 0 to disk, and a later [FetchPage(0)] reads
    them back. *)
Example eviction_then_fetch_restores_bytes :
  let s := exec (BufferPoolManager.NewPage ;; BufferPoolManager.FetchPage 0) pool_written in
  DiskManager.write_log (BufferPoolManager.disk_manager_ s) = [(0, page_X)] ∧
  BufferPoolManager.page_table_ s !! 0 = Some 1 ∧
  Page.data_ <$> BufferPoolManager.frame (BufferPoolManager.pages_ s) 1 = Some page_X.
Proof. vm_compute. repeat split; reflexivity. Qed.

(** C4. The write-back goes through the page table, not through the frame:
    [NewPage] and [FetchPage] call [FlushPage] with the page id of the dirty
    victim, and [FlushPage] writes the bytes of the frame that the page
    table maps this id to.  In [pool_collided] (page 0 fetched before it was
    allocated, written and unpinned dirty in frame 0, then page id 0
    allocated again by [NewPage] in frame 1) the victim of the next eviction
    is frame 0, dirty with the bytes [page_X], while the page table maps
    page 0 to frame 1.  [NewPage], and likewise [FetchPage] of a page that is
    not resident, then writes the zero bytes of frame 1 under page id 0,
    erases the mapping of the pinned frame 1 and resets frame 0: the dirty
    bytes [page_X] are written nowhere and are lost. *)
Theorem eviction_loses_dirty_page_after_id_collision :
  let s := pool_collided in
  let frame s f := BufferPoolManager.frame (BufferPoolManager.pages_ s) f in
  let written s := DiskManager.write_log (BufferPoolManager.disk_manager_ s) in
  (* before the eviction *)
  frame s 0 = Some (Page.mk page_X 0 0 true 0 false) ∧
  frame s 1 = Some (Page.mk zero_page 0 1 false 0 false) ∧
  BufferPoolManager.page_table_ s !! 0 = Some 1 ∧
  BufferPoolManager.free_list_ s = [] ∧
  (LRUKReplacer.Evict (BufferPoolManager.replacer_ s)).2 = Some 0 ∧
  written s = [] ∧
  (* [NewPage] evicts frame 0 *)
  (BufferPoolManager.NewPage s).2 = Ret (Some (1, 0)) ∧
  written (exec BufferPoolManager.NewPage s) = [(0, zero_page)] ∧
  DiskManager.image
    (BufferPoolManager.disk_manager_ (exec BufferPoolManager.NewPage s)) !! 0 =
    Some zero_page ∧
  frame (exec BufferPoolManager.NewPage s) 0 = Some (Page.mk zero_page 1 1 false 0 false) ∧
  frame (exec BufferPoolManager.NewPage s) 1 = Some (Page.mk zero_page 0 1 false 0 false) ∧
  BufferPoolManager.page_table_ (exec BufferPoolManager.NewPage s) !! 0 = None ∧
  (* [FetchPage] of a page that is not resident evicts frame 0 *)
  (BufferPoolManager.FetchPage 7 s).2 = Ret (Some 0) ∧
  written (exec (BufferPoolManager.FetchPage 7) s) = [(0, zero_page)] ∧
  frame (exec (BufferPoolManager.FetchPage 7) s) 0 =
    Some (Page.mk zero_page 7 1 false 0 false) ∧
  frame (exec (BufferPoolManager.FetchPage 7) s) 1 =
    Some (Page.mk zero_page 0 1 false 0 false) ∧
  BufferPoolManager.page_table_ (exec (BufferPoolManager.FetchPage 7) s) !! 0 = None.
Proof. vm_compute. repeat split; reflexivity. Qed.

(** ** Dropping a guard *)

Lemma Basic_Drop_holding (w : World) (this f : Z) (dirty : bool) (p : Page.t) :
  holds w this f dirty p →
  BasicPageGuard.Drop this w =
  (mkWorld (exec (BufferPoolManager.UnpinPage (Page.page_id_ p) dirty) (bpm w))
           (<[this := cleared]> (guards w)),
   Ret tt).
Proof.
  intros (Hg & Hf & Hpt & Hpin & Hrec).
  unfold BasicPageGuard.Drop, bind at 1, guard_at. rewrite Hg. simpl.
  unfold bind at 1, on_bpm at 1. rewrite (page_eq _ _ _ Hf).
  unfold bind at 1, on_bpm, exec. simpl.
  rewrite !(UnpinPage_pinned _ _ dirty f p Hpt Hf Hpin Hrec).
  unfold BasicPageGuard.CLear, set_guard, bind, guard_at, modify. simpl.
  by rewrite Hg.
Qed.

Lemma Basic_Drop_cleared (w : World) (this : Z) :
  guards w !! this = Some cleared →
  BasicPageGuard.Drop this w = (w, Ret tt).
Proof.
  intros Hg.
  unfold BasicPageGuard.Drop, bind at 1, guard_at. rewrite Hg. simpl.
  unfold BasicPageGuard.CLear, set_guard, bind, guard_at, modify. rewrite Hg.
  fold cleared. rewrite (insert_id _ _ _ Hg). by destruct w.
Qed.

Lemma iter_fixed {S A} (m : M S A) (s : S) (a : A) (n : nat) :
  m s = (s, Ret a) → Nat.iter n (exec m) s = s.
Proof.
  intros Hm. induction n as [|n IH]; [done|].
  simpl. rewrite IH. unfold exec. by rewrite Hm.
Qed.

Lemma frame_after_unpin (s : BufferPoolManager.t) (dirty : bool) f p :
  BufferPoolManager.page_table_ s !! Page.page_id_ p = Some f →
  BufferPoolManager.frame (BufferPoolManager.pages_ s) f = Some p →
  0 < Page.pin_count_ p →
  history_recorded (BufferPoolManager.replacer_ s) f →
  let s' := exec (BufferPoolManager.UnpinPage (Page.page_id_ p) dirty) s in
  BufferPoolManager.frame (BufferPoolManager.pages_ s') f =
    Some (Page.mk (Page.data_ p) (Page.page_id_ p) (Page.pin_count_ p - 1)
            (Page.is_dirty_ p || dirty) (Page.readers_ p) (Page.writer_ p)) ∧
  ∀ g, g ≠ f →
       BufferPoolManager.frame (BufferPoolManager.pages_ s') g =
       BufferPoolManager.frame (BufferPoolManager.pages_ s) g.
Proof.
  intros Hpt Hf Hpin Hrec s'. subst s'. unfold exec.
  rewrite (UnpinPage_pinned _ _ dirty f p Hpt Hf Hpin Hrec). simpl. split.
  - by eapply frame_insert_eq.
  - intros g Hg. apply frame_insert_ne; [|done]. by apply frame_Some in Hf as [? _].
Qed.

Lemma Basic_dropped_once (w : World) (this f : Z) (dirty : bool) (p : Page.t) :
  holds w this f dirty p →
  dropped_once BasicPageGuard.Drop w this f
    (Page.mk (Page.data_ p) (Page.page_id_ p) (Page.pin_count_ p - 1)
       (Page.is_dirty_ p || dirty) (Page.readers_ p) (Page.writer_ p)).
Proof.
  intros Hholds. pose proof Hholds as (Hg & Hf & Hpt & Hpin & Hrec).
  destruct (frame_after_unpin (bpm w) dirty f p Hpt Hf Hpin Hrec) as [Hf' Hother].
  eexists. split; [by apply (Basic_Drop_holding w this f dirty p)|]. simpl.
  assert (BasicPageGuard.Drop this
            (mkWorld (exec (BufferPoolManager.UnpinPage (Page.page_id_ p) dirty) (bpm w))
                     (<[this := cleared]> (guards w))) =
          (mkWorld (exec (BufferPoolManager.UnpinPage (Page.page_id_ p) dirty) (bpm w))
                   (<[this := cleared]> (guards w)), Ret tt)) as Hagain.
  { apply Basic_Drop_cleared. simpl. apply lookup_insert_eq. }
  split_and!; try done.
  - apply lookup_insert_eq.
  - intros n. by eapply iter_fixed.
Qed.

Lemma unlatch_returns (w : World) (f : Z) (p p' : Page.t)
    (release : Page.t → outcome Page.t) :
  BufferPoolManager.frame (BufferPoolManager.pages_ (bpm w)) f = Some p →
  release p = Ret p' →
  unlatch f release w =
  (mkWorld (BufferPoolManager.set_pages
              (<[Z.to_nat f := p']> (BufferPoolManager.pages_ (bpm w))) (bpm w))
           (guards w),
   Ret tt).
Proof.
  intros Hf Hrel. unfold unlatch, bind, on_bpm.
  rewrite (page_eq _ _ _ Hf), Hrel.
  by erewrite update_page_eq by exact Hf.
Qed.

(** Releasing the latch of the held frame leaves the guard holding it. *)
Lemma holds_after_unlatch (w : World) (this f : Z) (dirty : bool) (p p' : Page.t) :
  holds w this f dirty p →
  Page.page_id_ p' = Page.page_id_ p →
  Page.pin_count_ p' = Page.pin_count_ p →
  holds (mkWorld (BufferPoolManager.set_pages
                    (<[Z.to_nat f := p']> (BufferPoolManager.pages_ (bpm w))) (bpm w))
                 (guards w))
        this f dirty p'.
Proof.
  intros (Hg & Hf & Hpt & Hpin & Hrec) Hid Hcount.
  unfold holds. simpl. rewrite Hid, Hcount. split_and!; try done.
  by eapply frame_insert_eq.
Qed.

(** The common shape of [ReadPageGuard::Drop] and [WritePageGuard::Drop]. *)
Lemma latched_dropped_once (drop : Z → M World unit)
    (release : Page.t → outcome Page.t)
    (w : World) (this f : Z) (dirty : bool) (p p' : Page.t) :
  (∀ this, drop this =
     (let* g := guard_at this in
      match page_ g with
      | None => ret tt
      | Some f => unlatch f release ;; BasicPageGuard.Drop this
      end)) →
  holds w this f dirty p →
  release p = Ret p' →
  Page.page_id_ p' = Page.page_id_ p →
  Page.pin_count_ p' = Page.pin_count_ p →
  dropped_once drop w this f
    (Page.mk (Page.data_ p') (Page.page_id_ p) (Page.pin_count_ p - 1)
       (Page.is_dirty_ p' || dirty) (Page.readers_ p') (Page.writer_ p')).
Proof.
  intros Hdrop Hholds Hrel Hid Hcount.
  pose proof (holds_after_unlatch w this f dirty p p' Hholds Hid Hcount) as Hholds'.
  destruct Hholds as (Hg & Hf & _).
  destruct (Basic_dropped_once _ this f dirty p' Hholds')
    as (w1 & Hbasic & Hf1 & Hother & Hg1 & _ & _).
  rewrite Hid, Hcount in Hf1. simpl in Hother.
  assert (drop this w1 = (w1, Ret tt)) as Hagain.
  { rewrite Hdrop. unfold bind, guard_at. by rewrite Hg1. }
  exists w1. split_and!; try done.
  - rewrite Hdrop. unfold bind at 1, guard_at. rewrite Hg. simpl.
    unfold bind at 1. rewrite (unlatch_returns w f p p' release Hf Hrel).
    exact Hbasic.
  - intros g Hne. rewrite (Hother g Hne).
    apply frame_insert_ne; [|done]. by apply frame_Some in Hf as [? _].
  - intros n. by eapply iter_fixed.
Qed.

(** Dropping a guard that holds frame [f] with page [p], the page table
    mapping the page of [p] to [f] ([holds]):
    - [BasicPageGuard::Drop] returns and leaves the frame with its pin count
      one less (the latch untouched);
    - [ReadPageGuard::Drop], when the latch is held by readers, leaves the
      frame with its pin count one less and one reader less;
    - [WritePageGuard::Drop], when the latch is held exclusively, leaves the
      frame with its pin count one less and the latch released.
    In each case the other frames are unchanged, the guard holds nothing
    afterwards, and every further [Drop] (the destructor is a [Drop])
    returns and leaves the whole world as it is. *)
Lemma Drop_of_mapped_guard_is_idempotent (w : World) (this f : Z) (dirty : bool) (p : Page.t) :
  holds w this f dirty p →
  let unpinned readers writer :=
    Page.mk (Page.data_ p) (Page.page_id_ p) (Page.pin_count_ p - 1)
            (Page.is_dirty_ p || dirty) readers writer in
  dropped_once BasicPageGuard.Drop w this f
    (unpinned (Page.readers_ p) (Page.writer_ p)) ∧
  (∀ n, Page.readers_ p = S n →
        dropped_once ReadPageGuard.Drop w this f (unpinned n (Page.writer_ p))) ∧
  (Page.writer_ p = true →
   dropped_once WritePageGuard.Drop w this f (unpinned (Page.readers_ p) false)).
Proof.
  intros Hholds unpinned. split_and!.
  - by apply Basic_dropped_once.
  - intros n Hn.
    apply (latched_dropped_once ReadPageGuard.Drop Page.RUnlatch w this f dirty p
             (Page.mk (Page.data_ p) (Page.page_id_ p) (Page.pin_count_ p)
                (Page.is_dirty_ p) n (Page.writer_ p))); try done.
    unfold Page.RUnlatch. by rewrite Hn.
  - intros Hw.
    apply (latched_dropped_once WritePageGuard.Drop Page.WUnlatch w this f dirty p
             (Page.mk (Page.data_ p) (Page.page_id_ p) (Page.pin_count_ p)
                (Page.is_dirty_ p) (Page.readers_ p) false)); try done.
    unfold Page.WUnlatch. by rewrite Hw.
Qed.

Lemma Drop_of_mapped_guard_is_idempotent_example :
  dropped_once BasicPageGuard.Drop world_read_guard 100 0
    (Page.mk zero_page 0 (2 - 1) (false || false) 1 false) ∧
  dropped_once ReadPageGuard.Drop world_read_guard 100 0
    (Page.mk zero_page 0 (2 - 1) (false || false) 0 false).
Proof.
  destruct (Drop_of_mapped_guard_is_idempotent world_read_guard 100 0 false
              (Page.mk zero_page 0 2 false 1 false)) as (Hbasic & Hread & _).
  - apply (bool_decide_unpack _). vm_compute. exact I.
  - split; [exact Hbasic|]. by apply (Hread 0%nat).
Defined.

(** Scenario S1 (SampleTest of page_guard_test.cpp) and the repeated drop of
    HHTest on the model: the pin count goes from 1 to 0 and stays there. *)
Example Drop_scenario :
  let pin w := Page.pin_count_ <$>
                 BufferPoolManager.frame (BufferPoolManager.pages_ (bpm w)) 0 in
  pin world_basic_guard = Some 1 ∧
  pin (exec (BasicPageGuard.Drop 100) world_basic_guard) = Some 0 ∧
  pin (exec (BasicPageGuard.Drop 100 ;; BasicPageGuard.Drop 100) world_basic_guard) = Some 0.
Proof. vm_compute. repeat split; reflexivity. Qed.

(** C8. [Drop] releases the pin through the page id of the guard's frame,
    not through the frame: [BasicPageGuard::Drop] calls
    [UnpinPage(page_->GetPageId(), is_dirty_)], which unpins the frame that
    the page table maps this id to.  In [world_stale_guard] (guard 100 from
    [FetchPageBasic(0)] on a fresh pool, frame 0; guard 200 from
    [NewPageGuarded], which allocates page id 0 again, frame 1) guard 100
    holds frame 0, pinned once for it.  Its [Drop] returns and clears the
    guard, but the pin count of frame 0 is still 1 and the pin of frame 1,
    which guard 200 still holds, is released instead; the [Drop] of guard
    200 then changes no pin count.  Over the lifetime of guard 100 the pin
    count of its frame has changed by one (up) and never comes down.  The
    same holds for the [ReadPageGuard] from [FetchPageRead(0)]: its [Drop]
    releases the latch of frame 0 and unpins frame 1. *)
Theorem Drop_of_stale_guard_keeps_its_pin :
  let frame w f := BufferPoolManager.frame (BufferPoolManager.pages_ (bpm w)) f in
  let pin w f := Page.pin_count_ <$> frame w f in
  (let w := world_stale_guard in
   let w1 := exec (BasicPageGuard.Drop 100) w in
   let w2 := exec (BasicPageGuard.Drop 200) w1 in
   guards w !! 100 = Some (mkGuard true (Some 0) false) ∧
   guards w !! 200 = Some (mkGuard true (Some 1) false) ∧
   frame w 0 = Some (Page.mk zero_page 0 1 false 0 false) ∧
   frame w 1 = Some (Page.mk zero_page 0 1 false 0 false) ∧
   BufferPoolManager.page_table_ (bpm w) !! 0 = Some 1 ∧
   (BasicPageGuard.Drop 100 w).2 = Ret tt ∧
   guards w1 !! 100 = Some cleared ∧
   guards w1 !! 200 = Some (mkGuard true (Some 1) false) ∧
   pin w1 0 = Some 1 ∧ pin w1 1 = Some 0 ∧
   (BasicPageGuard.Drop 200 w1).2 = Ret tt ∧
   pin w2 0 = Some 1 ∧ pin w2 1 = Some 0 ∧
   Nat.iter 3 (exec (BasicPageGuard.Drop 100)) w2 = w2) ∧
  (let w := world_stale_read_guard in
   let w1 := exec (ReadPageGuard.Drop 100) w in
   guards w !! 100 = Some (mkGuard true (Some 0) false) ∧
   frame w 0 = Some (Page.mk zero_page 0 1 false 1 false) ∧
   frame w 1 = Some (Page.mk zero_page 0 1 false 0 false) ∧
   BufferPoolManager.page_table_ (bpm w) !! 0 = Some 1 ∧
   (ReadPageGuard.Drop 100 w).2 = Ret tt ∧
   guards w1 !! 100 = Some cleared ∧
   frame w1 0 = Some (Page.mk zero_page 0 1 false 0 false) ∧
   frame w1 1 = Some (Page.mk zero_page 0 0 false 0 false)).
Proof. vm_compute. repeat split; reflexivity. Qed.

(** ** Move-assignment of a guard from itself *)

(** [BasicPageGuard::operator=] checks [this != &that]: assigning a guard
    from itself changes nothing. *)
Lemma Basic_self_move_assign (w : World) (this : Z) :
  BasicPageGuard.move_assign this this w = (w, Ret tt).
Proof. unfold BasicPageGuard.move_assign. by rewrite decide_False by auto. Qed.

(** C3 does not hold for [ReadPageGuard] and [WritePageGuard]: their
    [operator=] has no test for self-assignment and starts with [Drop()], so
    assigning such a guard from itself is a [Drop].  For the guard obtained
    from [FetchPageRead(0)] (page 0 pinned twice, one reader) the assignment
    leaves the pin count at 1, the latch without reader and the guard
    holding nothing; likewise for the guard from [FetchPageWrite(0)]. *)
Theorem self_move_assign_of_latched_guard_is_Drop :
  (∀ w this, ReadPageGuard.move_assign this this w = ReadPageGuard.Drop this w) ∧
  (∀ w this, WritePageGuard.move_assign this this w = WritePageGuard.Drop this w) ∧
  (let w' := exec (ReadPageGuard.move_assign 100 100) world_read_guard in
   BufferPoolManager.frame (BufferPoolManager.pages_ (bpm world_read_guard)) 0 =
     Some (Page.mk zero_page 0 2 false 1 false) ∧
   guards world_read_guard !! 100 = Some (mkGuard true (Some 0) false) ∧
   (ReadPageGuard.move_assign 100 100 world_read_guard).2 = Ret tt ∧
   BufferPoolManager.frame (BufferPoolManager.pages_ (bpm w')) 0 =
     Some (Page.mk zero_page 0 1 false 0 false) ∧
   guards w' !! 100 = Some cleared) ∧
  (let w' := exec (WritePageGuard.move_assign 100 100) world_write_guard in
   BufferPoolManager.frame (BufferPoolManager.pages_ (bpm world_write_guard)) 0 =
     Some (Page.mk zero_page 0 2 false 0 true) ∧
   guards world_write_guard !! 100 = Some (mkGuard true (Some 0) false) ∧
   (WritePageGuard.move_assign 100 100 world_write_guard).2 = Ret tt ∧
   BufferPoolManager.frame (BufferPoolManager.pages_ (bpm w')) 0 =
     Some (Page.mk zero_page 0 1 false 0 false) ∧
   guards w' !! 100 = Some cleared).
Proof.
  split_and!.
  - intros w this. unfold ReadPageGuard.move_assign.
    unfold bind at 1. pose proof (Basic_self_move_assign) as Hself.
    destruct (ReadPageGuard.Drop this w) as [w' [[]|e|]]; [apply Hself|done|done].
  - intros w this. unfold WritePageGuard.move_assign.
    unfold bind at 1. pose proof (Basic_self_move_assign) as Hself.
    destruct (WritePageGuard.Drop this w) as [w' [[]|e|]]; [apply Hself|done|done].
  - vm_compute. repeat split; reflexivity.
  - vm_compute. repeat split; reflexivity.
Qed.

(** ** The replacer inside the pool

    The pool touches its replacer through the member functions only, so the
    replacer of a pool is always in a state of a replacer: its index agrees
    with its records and, for [k >= 1], every record has a recorded access.
    These are the conditions on the replacer in the properties above. *)

Lemma preserves_bind {S A B} (I : S → Prop) (m : M S A) (k : A → M S B) :
  preserves I m → (∀ a, preserves I (k a)) → preserves I (bind m k).
Proof.
  intros Hm Hk s Hs. unfold bind. specialize (Hm s Hs).
  destruct (m s) as [s' [a|e|]]; simpl in *; [by apply Hk|done|done].
Qed.

Lemma preserves_unchanged {S A} (I : S → Prop) (m : M S A) :
  (∀ s, (m s).1 = s) → preserves I m.
Proof. intros Hm s Hs. by rewrite Hm. Qed.

Lemma preserves_modify {S} (I : S → Prop) (f : S → S) :
  (∀ s, I s → I (f s)) → preserves I (modify f).
Proof. intros Hf s Hs. by apply Hf. Qed.

Section ReplacerOfPool.
Variable k : Z.

Lemma preserves_page f : preserves (replacer_of_pool_ok k) (BufferPoolManager.page f).
Proof.
  apply preserves_unchanged. intros s. unfold BufferPoolManager.page.
  by destruct (BufferPoolManager.frame _ _).
Qed.

Lemma preserves_update_page f g :
  preserves (replacer_of_pool_ok k) (BufferPoolManager.update_page f g).
Proof.
  intros s Hs. unfold BufferPoolManager.update_page.
  by destruct (BufferPoolManager.frame _ _).
Qed.

Lemma preserves_RecordAccess f :
  preserves (replacer_of_pool_ok k)
    (BufferPoolManager.on_replacer (LRUKReplacer.RecordAccess f)).
Proof.
  intros s [Hr Hk]. unfold BufferPoolManager.on_replacer.
  pose proof (reachable_RecordAccess _ f Hr) as Hr'.
  pose proof (proj1 (proj2 (k_unchanged (BufferPoolManager.replacer_ s))) f) as Hk'.
  destruct (LRUKReplacer.RecordAccess f _) as [r' o]. simpl in *.
  unfold replacer_of_pool_ok. simpl. split; [done|congruence].
Qed.

Lemma preserves_SetEvictable f b :
  preserves (replacer_of_pool_ok k)
    (BufferPoolManager.on_replacer (LRUKReplacer.SetEvictable f b)).
Proof.
  intros s [Hr Hk]. unfold BufferPoolManager.on_replacer.
  pose proof (reachable_SetEvictable _ f b Hr) as Hr'.
  pose proof (proj1 (proj2 (proj2 (k_unchanged (BufferPoolManager.replacer_ s)))) f b)
    as Hk'.
  destruct (LRUKReplacer.SetEvictable f b _) as [r' o]. simpl in *.
  unfold replacer_of_pool_ok. simpl. split; [done|congruence].
Qed.

Lemma preserves_Remove f :
  preserves (replacer_of_pool_ok k)
    (BufferPoolManager.on_replacer (LRUKReplacer.Remove f)).
Proof.
  intros s [Hr Hk]. unfold BufferPoolManager.on_replacer.
  pose proof (reachable_Remove _ f Hr) as Hr'.
  pose proof (proj2 (proj2 (proj2 (k_unchanged (BufferPoolManager.replacer_ s)))) f)
    as Hk'.
  destruct (LRUKReplacer.Remove f _) as [r' o]. simpl in *.
  unfold replacer_of_pool_ok. simpl. split; [done|congruence].
Qed.

Lemma preserves_Evict :
  preserves (replacer_of_pool_ok k) BufferPoolManager.replacer_Evict.
Proof.
  intros s [Hr Hk]. unfold BufferPoolManager.replacer_Evict.
  pose proof (reachable_Evict _ Hr) as Hr'.
  pose proof (proj1 (k_unchanged (BufferPoolManager.replacer_ s))) as Hk'.
  destruct (LRUKReplacer.Evict _) as [r' o]. simpl in *.
  unfold replacer_of_pool_ok. simpl. split; [done|congruence].
Qed.

(** One step through a member function of the pool. *)
Ltac keep_replacer :=
  repeat first
    [ apply preserves_bind; [|intros ?]
    | apply preserves_page
    | apply preserves_update_page
    | apply preserves_RecordAccess
    | apply preserves_SetEvictable
    | apply preserves_Remove
    | apply preserves_Evict
    | apply preserves_modify; intros ? ?; assumption
    | apply preserves_unchanged; intros ?; reflexivity
    | case_match
    | case_decide ].

Lemma preserves_FlushPage page_id :
  preserves (replacer_of_pool_ok k) (BufferPoolManager.FlushPage page_id).
Proof. unfold BufferPoolManager.FlushPage. keep_replacer. Qed.

Lemma preserves_acquire_frame what :
  preserves (replacer_of_pool_ok k) (BufferPoolManager.acquire_frame what).
Proof.
  unfold BufferPoolManager.acquire_frame.
  pose proof preserves_FlushPage. keep_replacer.
Qed.

Lemma preserves_NewPage :
  preserves (replacer_of_pool_ok k) BufferPoolManager.NewPage.
Proof.
  unfold BufferPoolManager.NewPage, BufferPoolManager.AllocatePage.
  pose proof preserves_acquire_frame. keep_replacer.
Qed.

Lemma preserves_FetchPage page_id :
  preserves (replacer_of_pool_ok k) (BufferPoolManager.FetchPage page_id).
Proof.
  unfold BufferPoolManager.FetchPage.
  pose proof preserves_acquire_frame. keep_replacer.
Qed.

Lemma preserves_UnpinPage page_id is_dirty :
  preserves (replacer_of_pool_ok k) (BufferPoolManager.UnpinPage page_id is_dirty).
Proof. unfold BufferPoolManager.UnpinPage. keep_replacer. Qed.

Lemma preserves_DeletePage page_id :
  preserves (replacer_of_pool_ok k) (BufferPoolManager.DeletePage page_id).
Proof.
  unfold BufferPoolManager.DeletePage, BufferPoolManager.DeallocatePage.
  keep_replacer.
Qed.

Lemma pool_reachable_replacer (s : BufferPoolManager.t) :
  pool_reachable k s → replacer_of_pool_ok k s.
Proof.
  induction 1 as [pool_size disk|s s' v _ IH Hcall|s s' page_id v _ IH Hcall
                 |s s' page_id is_dirty v _ IH Hcall|s s' page_id v _ IH Hcall
                 |s s' page_id v _ IH Hcall].
  - split; [apply reachable_init|done].
  - pose proof (preserves_NewPage s IH) as H. by rewrite Hcall in H.
  - pose proof (preserves_FetchPage page_id s IH) as H. by rewrite Hcall in H.
  - pose proof (preserves_UnpinPage page_id is_dirty s IH) as H. by rewrite Hcall in H.
  - pose proof (preserves_FlushPage page_id s IH) as H. by rewrite Hcall in H.
  - pose proof (preserves_DeletePage page_id s IH) as H. by rewrite Hcall in H.
Qed.

(** In every state of a pool created with [k >= 1], the index of the
    replacer agrees with its records and every record has a recorded
    access. *)
Lemma pool_reachable_conditions (s : BufferPoolManager.t) :
  0 < k →
  pool_reachable k s →
  index_consistent (BufferPoolManager.replacer_ s) ∧
  ∀ f, history_recorded (BufferPoolManager.replacer_ s) f.
Proof.
  intros Hk [Hr Heq]%pool_reachable_replacer. split.
  - by apply replacer_reachable_consistent.
  - apply replacer_reachable_recorded; [done|]. by rewrite Heq.
Qed.

End ReplacerOfPool.

(** ** Pin counts and evictable flags

    In every state of a pool created with [k >= 1], pin counts are not
    negative and the record of an unpinned frame is evictable
    ([pins_tracked]).  So the record of the frame that [DeletePage] frees is
    always one that [Remove] erases. *)

Lemma pins_tracked_same (s s' : BufferPoolManager.t) :
  BufferPoolManager.pages_ s' = BufferPoolManager.pages_ s →
  BufferPoolManager.replacer_ s' = BufferPoolManager.replacer_ s →
  pins_tracked s → pins_tracked s'.
Proof. unfold pins_tracked. by intros -> ->. Qed.

(** Writing page [q] to frame [f]. *)
Lemma pins_tracked_update (s : BufferPoolManager.t) (f : Z) (p q : Page.t) :
  pins_tracked s →
  BufferPoolManager.frame (BufferPoolManager.pages_ s) f = Some p →
  0 ≤ Page.pin_count_ q →
  (∀ n, LRUKReplacer.node_store_ (BufferPoolManager.replacer_ s) !! f = Some n →
        Page.pin_count_ q ≤ 0 → LRUKNode.is_evictable_ n = true) →
  pins_tracked
    (BufferPoolManager.set_pages (<[Z.to_nat f := q]> (BufferPoolManager.pages_ s)) s).
Proof.
  intros [HN HK] Hf Hq Hnode. pose proof (frame_Some _ _ _ Hf) as [Hpos _].
  split; simpl.
  - intros g p0 Hg. destruct (decide (f = g)) as [<-|Hne].
    + rewrite (frame_insert_eq _ _ _ q Hf) in Hg. by injection Hg as <-.
    + rewrite frame_insert_ne in Hg by done. by eapply HN.
  - intros g p0 n Hg Hn Hpin. destruct (decide (f = g)) as [<-|Hne].
    + rewrite (frame_insert_eq _ _ _ q Hf) in Hg. injection Hg as <-. by eapply Hnode.
    + rewrite frame_insert_ne in Hg by done. by eapply HK.
Qed.

(** Replacing the replacer. *)
Lemma pins_tracked_replacer (s : BufferPoolManager.t) (r' : LRUKReplacer.t) :
  pins_tracked s →
  (∀ g p n',
     BufferPoolManager.frame (BufferPoolManager.pages_ s) g = Some p →
     LRUKReplacer.node_store_ r' !! g = Some n' →
     Page.pin_count_ p ≤ 0 →
     LRUKNode.is_evictable_ n' = true) →
  pins_tracked (BufferPoolManager.set_replacer r' s).
Proof. intros [HN HK] Hr'. split; simpl; [done|]. intros g p n. apply Hr'. Qed.

(** The records that [Evict] and [Remove] leave are records of before. *)
Lemma Evict_records (r : LRUKReplacer.t) (g : Z) (n : LRUKNode.t) :
  LRUKReplacer.node_store_ (LRUKReplacer.Evict r).1 !! g = Some n →
  LRUKReplacer.node_store_ r !! g = Some n.
Proof.
  unfold LRUKReplacer.Evict.
  destruct (last (LRUKReplacer.st_ r)) as [[[d t] f]|]; [|done].
  simpl. by intros [_ ?]%lookup_delete_Some.
Qed.

Lemma Remove_records (r : LRUKReplacer.t) (f g : Z) (n : LRUKNode.t) :
  LRUKReplacer.node_store_ (LRUKReplacer.Remove f r).1 !! g = Some n →
  LRUKReplacer.node_store_ r !! g = Some n.
Proof.
  unfold LRUKReplacer.Remove.
  destruct (LRUKReplacer.node_store_ r !! f) as [m|]; [|done].
  destruct (LRUKNode.GetEvictable m); [|done].
  destruct (LRUKNode.FirstTime m); try done.
  simpl. by intros [_ ?]%lookup_delete_Some.
Qed.

(** [RecordAccess] and [SetEvictable] change the record of their frame
    only. *)
Lemma RecordAccess_other (r : LRUKReplacer.t) (f g : Z) :
  g ≠ f →
  LRUKReplacer.node_store_ (LRUKReplacer.RecordAccess f r).1 !! g =
  LRUKReplacer.node_store_ r !! g.
Proof.
  intros Hg. unfold LRUKReplacer.RecordAccess.
  destruct (decide (LRUKReplacer.replacer_size_ r < size_t_cast f)) as [Hgt|Hle];
    [done|].
  destruct (LRUKReplacer.node_store_ r !! f) as [n|].
  - destruct (LRUKNode.FirstTime n); try done.
    destruct (LRUKNode.Add n _) as [n' tbl].
    destruct (LRUKNode.GetEvictable n');
      [destruct (LRUKNode.FirstTime n')|]; simpl; by rewrite lookup_insert_ne.
  - destruct (LRUKNode.Add _ _) as [n' tbl].
    destruct (LRUKNode.GetEvictable n');
      [destruct (LRUKNode.FirstTime n')|]; simpl; by rewrite lookup_insert_ne.
Qed.

Lemma SetEvictable_other (r : LRUKReplacer.t) (f g : Z) (b : bool) :
  g ≠ f →
  LRUKReplacer.node_store_ (LRUKReplacer.SetEvictable f b r).1 !! g =
  LRUKReplacer.node_store_ r !! g.
Proof.
  intros Hg. unfold LRUKReplacer.SetEvictable.
  destruct (LRUKReplacer.node_store_ r !! f) as [n|]; [|done].
  destruct (decide (LRUKNode.GetEvictable n = b)) as [Heq|Hne]; [done|].
  destruct (LRUKNode.FirstTime n); try done.
  simpl. by rewrite lookup_insert_ne.
Qed.

(** Inversion of a computation that returned. *)
Lemma bind_Ret {S A B} (m : M S A) (k : A → M S B) (s s' : S) (b : B) :
  bind m k s = (s', Ret b) →
  ∃ a s1, m s = (s1, Ret a) ∧ k a s1 = (s', Ret b).
Proof.
  unfold bind. destruct (m s) as [s1 [a|e|]]; [eauto|done|done].
Qed.

Lemma page_Ret (s s1 : BufferPoolManager.t) (f : Z) (p : Page.t) :
  BufferPoolManager.page f s = (s1, Ret p) →
  s1 = s ∧ BufferPoolManager.frame (BufferPoolManager.pages_ s) f = Some p.
Proof.
  unfold BufferPoolManager.page.
  destruct (BufferPoolManager.frame _ _); [|done]. by intros [= <- <-].
Qed.

Lemma update_page_Ret (s s1 : BufferPoolManager.t) (f : Z) (g : Page.t → Page.t) u :
  BufferPoolManager.update_page f g s = (s1, Ret u) →
  ∃ p, BufferPoolManager.frame (BufferPoolManager.pages_ s) f = Some p ∧
       s1 = BufferPoolManager.set_pages
              (<[Z.to_nat f := g p]> (BufferPoolManager.pages_ s)) s.
Proof.
  unfold BufferPoolManager.update_page.
  destruct (BufferPoolManager.frame _ _) as [p|]; [|done].
  intros [= <-]. eauto.
Qed.

Lemma on_replacer_Ret {A} (m : M LRUKReplacer.t A) (s s1 : BufferPoolManager.t) (a : A) :
  BufferPoolManager.on_replacer m s = (s1, Ret a) →
  s1 = BufferPoolManager.set_replacer (m (BufferPoolManager.replacer_ s)).1 s.
Proof.
  unfold BufferPoolManager.on_replacer.
  destruct (m _) as [r' o]. by intros [= <- _].
Qed.

(** A write to a frame that returned keeps [pins_tracked] when the new pin
    count is not negative and, if the frame is left unpinned, it was
    unpinned before or has no record. *)
Lemma pins_tracked_update_page (s s1 : BufferPoolManager.t) (f : Z)
    (g : Page.t → Page.t) u :
  BufferPoolManager.update_page f g s = (s1, Ret u) →
  pins_tracked s →
  (∀ p, BufferPoolManager.frame (BufferPoolManager.pages_ s) f = Some p →
        0 ≤ Page.pin_count_ (g p) ∧
        (Page.pin_count_ (g p) ≤ 0 →
         Page.pin_count_ p ≤ 0 ∨
         LRUKReplacer.node_store_ (BufferPoolManager.replacer_ s) !! f = None)) →
  pins_tracked s1 ∧
  BufferPoolManager.replacer_ s1 = BufferPoolManager.replacer_ s ∧
  ∃ p, BufferPoolManager.frame (BufferPoolManager.pages_ s) f = Some p ∧
       BufferPoolManager.frame (BufferPoolManager.pages_ s1) f = Some (g p).
Proof.
  intros (p & Hf & ->)%update_page_Ret HPT Hg.
  destruct (Hg p Hf) as [Hpin Hzero]. split_and!; [|done|].
  - apply (pins_tracked_update s f p (g p)); try done.
    intros n Hn Hle. destruct (Hzero Hle) as [Hold|Hnone]; [|congruence].
    by apply (proj2 HPT f p n).
  - exists p. split; [done|]. simpl. by eapply frame_insert_eq.
Qed.

(** A page function that keeps the pin count. *)
Lemma same_pin_ok (s : BufferPoolManager.t) (f : Z) (g : Page.t → Page.t) :
  pins_tracked s →
  (∀ p, Page.pin_count_ (g p) = Page.pin_count_ p) →
  ∀ p, BufferPoolManager.frame (BufferPoolManager.pages_ s) f = Some p →
       0 ≤ Page.pin_count_ (g p) ∧
       (Page.pin_count_ (g p) ≤ 0 →
        Page.pin_count_ p ≤ 0 ∨
        LRUKReplacer.node_store_ (BufferPoolManager.replacer_ s) !! f = None).
Proof.
  intros [HN _] Hg p Hf. rewrite Hg. split; [by eapply HN|auto].
Qed.

Lemma pins_tracked_FlushPage (s s' : BufferPoolManager.t) (page_id : Z) v :
  BufferPoolManager.FlushPage page_id s = (s', Ret v) →
  pins_tracked s →
  pins_tracked s' ∧ BufferPoolManager.replacer_ s' = BufferPoolManager.replacer_ s.
Proof.
  unfold BufferPoolManager.FlushPage. intros Hcall HPT.
  apply bind_Ret in Hcall as (? & ? & [= <- <-] & Hcall).
  destruct (BufferPoolManager.page_table_ s !! page_id) as [f|].
  - apply bind_Ret in Hcall as (p & s1 & [-> Hf]%page_Ret & Hcall).
    apply bind_Ret in Hcall as ([] & s2 & [= <-] & Hcall).
    apply bind_Ret in Hcall as ([] & s3 & Hupd & [= <- _]).
    apply pins_tracked_update_page in Hupd as (HPT3 & Hr3 & _).
    + by split.
    + by apply (pins_tracked_same s).
    + apply same_pin_ok; [by apply (pins_tracked_same s)|done].
  - by injection Hcall as <- _.
Qed.

(** Pinning the acquired frame, recording the access and marking the frame
    non-evictable: the last statements of [NewPage] and [FetchPage]. *)
Lemma pins_tracked_pin_and_record {A} (s s' : BufferPoolManager.t) (f : Z) (a a' : A) :
  (BufferPoolManager.update_page f (Page.set_pin_count 1) ;;
   BufferPoolManager.on_replacer (LRUKReplacer.RecordAccess f) ;;
   BufferPoolManager.on_replacer (LRUKReplacer.SetEvictable f false) ;;
   ret a) s = (s', Ret a') →
  pins_tracked s →
  pins_tracked s'.
Proof.
  intros Hcall HPT.
  apply bind_Ret in Hcall as ([] & s1 & Hupd & Hcall).
  apply bind_Ret in Hcall as ([] & s2 & ->%on_replacer_Ret & Hcall).
  apply bind_Ret in Hcall as ([] & s3 & ->%on_replacer_Ret & [= <- _]).
  apply pins_tracked_update_page in Hupd as (HPT1 & Hr1 & p & _ & Hf1); [|done|].
  2: { intros p _. simpl. split; [lia|]. intros ?. lia. }
  assert (∀ q, BufferPoolManager.frame (BufferPoolManager.pages_ s1) f = Some q →
               ¬ Page.pin_count_ q ≤ 0) as Hpinned.
  { intros q Hq. rewrite Hf1 in Hq. injection Hq as <-. simpl. lia. }
  apply pins_tracked_replacer.
  - apply pins_tracked_replacer; [done|].
    intros g q n' Hg Hn' Hle. destruct (decide (g = f)) as [->|Hne].
    + by destruct (Hpinned q Hg).
    + rewrite RecordAccess_other in Hn' by done. by apply (proj2 HPT1 g q n').
  - simpl. intros g q n' Hg Hn' Hle. destruct (decide (g = f)) as [->|Hne].
    + by destruct (Hpinned q Hg).
    + rewrite SetEvictable_other, RecordAccess_other in Hn' by done.
      by apply (proj2 HPT1 g q n').
Qed.

Lemma pins_tracked_acquire_frame (s s' : BufferPoolManager.t) (what : string) (f : Z) :
  BufferPoolManager.acquire_frame what s = (s', Ret f) →
  pins_tracked s →
  pins_tracked s'.
Proof.
  unfold BufferPoolManager.acquire_frame. intros Hcall HPT.
  apply bind_Ret in Hcall as (? & ? & [= <- <-] & Hcall).
  destruct (BufferPoolManager.free_list_ s) as [|front rest].
  - (* eviction *)
    apply bind_Ret in Hcall as (exist & s1 & Hevict & Hcall).
    unfold BufferPoolManager.replacer_Evict in Hevict.
    destruct (LRUKReplacer.Evict (BufferPoolManager.replacer_ s)) as [r1 o] eqn:He.
    injection Hevict as <- <-.
    destruct o as [victim|]; [|done].
    assert (pins_tracked (BufferPoolManager.set_replacer r1 s)) as HPT1.
    { apply pins_tracked_replacer; [done|]. intros g q n' Hg Hn' Hle.
      apply (proj2 HPT g q n'); [done| |done].
      apply Evict_records. by rewrite He. }
    assert (LRUKReplacer.node_store_ r1 !! victim = None) as Hgone.
    { revert He. unfold LRUKReplacer.Evict.
      destruct (last (LRUKReplacer.st_ (BufferPoolManager.replacer_ s)))
        as [[[d t] f0]|]; [|done].
      intros [= <- <-]. simpl. apply lookup_delete_eq. }
    apply bind_Ret in Hcall as (p & s2 & [-> Hf]%page_Ret & Hcall).
    apply bind_Ret in Hcall as ([] & s3 & Hflush & Hcall).
    assert (pins_tracked s3 ∧ BufferPoolManager.replacer_ s3 = r1) as [HPT3 Hr3].
    { destruct (Page.is_dirty_ p).
      - apply bind_Ret in Hflush as (b & s3' & Hflush & [= <-]).
        by apply pins_tracked_FlushPage in Hflush as [? ?].
      - by injection Hflush as <-. }
    apply bind_Ret in Hcall as (p3 & s4 & [-> Hf3]%page_Ret & Hcall).
    apply bind_Ret in Hcall as ([] & s5 & [= <-] & Hcall).
    apply bind_Ret in Hcall as ([] & s6 & Hu1 & Hcall).
    apply bind_Ret in Hcall as ([] & s7 & Hu2 & Hcall).
    apply bind_Ret in Hcall as ([] & s8 & Hu3 & Hcall).
    apply bind_Ret in Hcall as ([] & s9 & Hu4 & [= <- <-]).
    apply pins_tracked_update_page in Hu1 as (HPT6 & Hr6 & _);
      [|by apply (pins_tracked_same s3)
       |apply same_pin_ok; [by apply (pins_tracked_same s3)|done]].
    apply pins_tracked_update_page in Hu2 as (HPT7 & Hr7 & _);
      [|done|by apply same_pin_ok].
    apply pins_tracked_update_page in Hu3 as (HPT8 & Hr8 & _); [|done|].
    2: { intros q _. simpl. split; [lia|]. intros _. right.
         rewrite Hr7, Hr6. simpl. by rewrite Hr3. }
    apply pins_tracked_update_page in Hu4 as (HPT9 & _); [done|done|].
    by apply same_pin_ok.
  - (* a free frame *)
    apply bind_Ret in Hcall as ([] & s1 & [= <-] & [= <- <-]).
    by apply (pins_tracked_same s).
Qed.

Lemma pins_tracked_NewPage (s s' : BufferPoolManager.t) v :
  BufferPoolManager.NewPage s = (s', Ret v) →
  pins_tracked s →
  pins_tracked s'.
Proof.
  unfold BufferPoolManager.NewPage. intros Hcall HPT.
  apply bind_Ret in Hcall as (? & ? & [= <- <-] & Hcall).
  destruct (decide (BufferPoolManager.pool_exhausted s)) as [Hfull|Hroom].
  { by injection Hcall as <- _. }
  apply bind_Ret in Hcall as (f & s1 & Hacq & Hcall).
  apply pins_tracked_acquire_frame in Hacq; [|done].
  apply bind_Ret in Hcall as (aloc & s2 & [= <- <-] & Hcall).
  apply bind_Ret in Hcall as ([] & s3 & [= <-] & Hcall).
  apply bind_Ret in Hcall as ([] & s4 & Hupd & Hcall).
  apply pins_tracked_update_page in Hupd as (HPT4 & _);
    [|by apply (pins_tracked_same s1)
     |apply same_pin_ok; [by apply (pins_tracked_same s1)|done]].
  by apply pins_tracked_pin_and_record in Hcall.
Qed.

Lemma pins_tracked_FetchPage (s s' : BufferPoolManager.t) (page_id : Z) v :
  BufferPoolManager.FetchPage page_id s = (s', Ret v) →
  pins_tracked s →
  pins_tracked s'.
Proof.
  unfold BufferPoolManager.FetchPage. intros Hcall HPT.
  apply bind_Ret in Hcall as (? & ? & [= <- <-] & Hcall).
  destruct (BufferPoolManager.page_table_ s !! page_id) as [f|].
  - (* the page is resident *)
    apply bind_Ret in Hcall as (p & s1 & [-> Hf]%page_Ret & Hcall).
    apply bind_Ret in Hcall as ([] & s2 & Hupd & Hcall).
    apply bind_Ret in Hcall as ([] & s3 & ->%on_replacer_Ret & [= <- _]).
    destruct (decide (Page.pin_count_ p = INT_MAX)) as [Hmax|Hmax]; [done|].
    pose proof (proj1 HPT f p Hf) as Hpin.
    apply pins_tracked_update_page in Hupd as (HPT2 & _ & q & Hq & Hf2); [|done|].
    2: { intros q _. simpl. split; lia. }
    assert (q = p) as -> by congruence.
    apply pins_tracked_replacer; [done|].
    intros g q n' Hg Hn' Hle. destruct (decide (g = f)) as [->|Hne].
    + rewrite Hf2 in Hg. injection Hg as <-. simpl in Hle. lia.
    + rewrite SetEvictable_other in Hn' by done. by apply (proj2 HPT2 g q n').
  - (* the page is read from disk *)
    destruct (decide (BufferPoolManager.pool_exhausted s ∨ page_id < 0)) as [Hno|Hyes].
    { by injection Hcall as <- _. }
    apply bind_Ret in Hcall as (f & s1 & Hacq & Hcall).
    apply pins_tracked_acquire_frame in Hacq; [|done].
    apply bind_Ret in Hcall as (? & ? & [= <- <-] & Hcall).
    apply bind_Ret in Hcall as ([] & s2 & Hu1 & Hcall).
    apply pins_tracked_update_page in Hu1 as (HPT2 & _); [|done|by apply same_pin_ok].
    apply bind_Ret in Hcall as ([] & s3 & [= <-] & Hcall).
    apply bind_Ret in Hcall as ([] & s4 & Hu2 & Hcall).
    apply pins_tracked_update_page in Hu2 as (HPT4 & _);
      [|by apply (pins_tracked_same s2)
       |apply same_pin_ok; [by apply (pins_tracked_same s2)|done]].
    by apply pins_tracked_pin_and_record in Hcall.
Qed.

Lemma pins_tracked_UnpinPage (s s' : BufferPoolManager.t) (page_id : Z)
    (is_dirty : bool) v :
  BufferPoolManager.UnpinPage page_id is_dirty s = (s', Ret v) →
  (∀ f, history_recorded (BufferPoolManager.replacer_ s) f) →
  pins_tracked s →
  pins_tracked s'.
Proof.
  intros Hcall Hrec HPT.
  destruct (BufferPoolManager.page_table_ s !! page_id) as [f|] eqn:Hpt.
  2: { rewrite UnpinPage_not_resident in Hcall by done. by injection Hcall as <- _. }
  destruct (BufferPoolManager.frame (BufferPoolManager.pages_ s) f) as [p|] eqn:Hf.
  2: { unfold BufferPoolManager.UnpinPage, bind, get, BufferPoolManager.page in Hcall.
       rewrite Hpt, Hf in Hcall. discriminate. }
  destruct (decide (Page.pin_count_ p ≤ 0)) as [Hpin|Hpin].
  { rewrite (UnpinPage_not_pinned s page_id is_dirty f p) in Hcall by done.
    by injection Hcall as <- _. }
  rewrite (UnpinPage_pinned s page_id is_dirty f p Hpt Hf) in Hcall by (done || lia).
  injection Hcall as <- _.
  destruct (SetEvictable_returns (BufferPoolManager.replacer_ s) f true (Hrec f))
    as (r1 & Hr1 & _ & _ & _ & _ & Hother & Hnode & Hnone).
  pose proof (frame_Some _ _ _ Hf) as [Hpos _].
  destruct HPT as [HN HK]. split; simpl.
  - intros g q Hg. destruct (decide (f = g)) as [<-|Hne].
    + erewrite frame_insert_eq in Hg by exact Hf. injection Hg as <-. simpl. lia.
    + rewrite frame_insert_ne in Hg by done. by eapply HN.
  - intros g q n Hg Hn Hle. destruct (decide (f = g)) as [<-|Hne].
    + erewrite frame_insert_eq in Hg by exact Hf. injection Hg as <-. simpl in Hle.
      rewrite decide_True in Hn by lia. rewrite Hr1 in Hn. simpl in Hn.
      destruct (LRUKReplacer.node_store_ (BufferPoolManager.replacer_ s) !! f)
        as [n0|] eqn:Hn0.
      * rewrite (Hnode n0 eq_refl) in Hn. by injection Hn as <-.
      * rewrite (Hnone eq_refl) in Hn. congruence.
    + rewrite frame_insert_ne in Hg by done.
      apply (HK g q n); [done| |done].
      destruct (decide (Page.pin_count_ p - 1 = 0)); [|done].
      rewrite Hr1 in Hn. simpl in Hn. by rewrite Hother in Hn.
Qed.

Lemma pins_tracked_DeletePage (s s' : BufferPoolManager.t) (page_id : Z) v :
  BufferPoolManager.DeletePage page_id s = (s', Ret v) →
  (∀ f, history_recorded (BufferPoolManager.replacer_ s) f) →
  pins_tracked s →
  pins_tracked s'.
Proof.
  intros Hcall Hrec HPT.
  destruct (BufferPoolManager.page_table_ s !! page_id) as [f|] eqn:Hpt.
  2: { unfold BufferPoolManager.DeletePage, bind, get, ret in Hcall.
       rewrite Hpt in Hcall. by injection Hcall as <- _. }
  destruct (BufferPoolManager.frame (BufferPoolManager.pages_ s) f) as [p|] eqn:Hf.
  2: { unfold BufferPoolManager.DeletePage, bind, get, BufferPoolManager.page in Hcall.
       rewrite Hpt, Hf in Hcall. discriminate. }
  destruct (decide (0 < Page.pin_count_ p)) as [Hpin|Hpin].
  { unfold BufferPoolManager.DeletePage, bind, get, ret in Hcall.
    rewrite Hpt, (page_eq _ _ _ Hf), decide_True in Hcall by done.
    by injection Hcall as <- _. }
  rewrite (DeletePage_unpinned s page_id f p Hpt Hf) in Hcall by (done || lia).
  injection Hcall as <- _.
  pose proof (frame_Some _ _ _ Hf) as [Hpos _].
  destruct HPT as [HN HK]. split; simpl.
  - intros g q Hg. destruct (decide (f = g)) as [<-|Hne].
    + erewrite frame_insert_eq in Hg by exact Hf. by injection Hg as <-.
    + rewrite frame_insert_ne in Hg by done. by eapply HN.
  - intros g q n Hg Hn Hle. apply Remove_records in Hn.
    destruct (decide (f = g)) as [<-|Hne].
    + apply (HK f p n); [done|done|lia].
    + rewrite frame_insert_ne in Hg by done. by apply (HK g q n).
Qed.

Section PinsOfPool.
Variable k : Z.
Hypothesis k_positive : 0 < k.

Lemma pool_reachable_pins (s : BufferPoolManager.t) :
  pool_reachable k s → pins_tracked s.
Proof.
  induction 1 as [pool_size disk|s s' v Hs IH Hcall|s s' page_id v Hs IH Hcall
                 |s s' page_id is_dirty v Hs IH Hcall|s s' page_id v Hs IH Hcall
                 |s s' page_id v Hs IH Hcall].
  - split; simpl.
    + intros f p [_ Hp]%frame_Some. apply lookup_replicate in Hp as [-> _]. done.
    + intros f p n _ Hn. by rewrite lookup_empty in Hn.
  - by eapply pins_tracked_NewPage.
  - by eapply pins_tracked_FetchPage.
  - eapply pins_tracked_UnpinPage; [done| |done].
    by apply (pool_reachable_conditions k s k_positive Hs).
  - by eapply pins_tracked_FlushPage.
  - eapply pins_tracked_DeletePage; [done| |done].
    by apply (pool_reachable_conditions k s k_positive Hs).
Qed.

(** In every state of a pool created with [k >= 1], [DeletePage] of a
    resident page that is not pinned returns true and leaves the replacer
    without record of the freed frame. *)
Lemma DeletePage_erases_record (s : BufferPoolManager.t) (page_id f : Z) (p : Page.t) :
  pool_reachable k s →
  BufferPoolManager.page_table_ s !! page_id = Some f →
  BufferPoolManager.frame (BufferPoolManager.pages_ s) f = Some p →
  Page.pin_count_ p ≤ 0 →
  (BufferPoolManager.DeletePage page_id s).2 = Ret true ∧
  LRUKReplacer.node_store_
    (BufferPoolManager.replacer_ (BufferPoolManager.DeletePage page_id s).1) !! f = None.
Proof.
  intros Hs Hpt Hf Hpin.
  destruct (pool_reachable_conditions k s k_positive Hs) as [_ Hrec].
  pose proof (pool_reachable_pins s Hs) as [_ HK].
  rewrite (DeletePage_unpinned s page_id f p Hpt Hf Hpin (Hrec f)). simpl.
  split; [done|].
  destruct (Remove_returns (BufferPoolManager.replacer_ s) f (Hrec f))
    as (r1 & Hr1 & _ & Hev & _ & Hnone).
  rewrite Hr1. simpl.
  destruct (LRUKReplacer.node_store_ (BufferPoolManager.replacer_ s) !! f)
    as [n|] eqn:Hn.
  - by destruct (Hev n eq_refl (HK f p n Hf Hn Hpin)) as [? _].
  - rewrite (Hnone eq_refl). done.
Qed.

End PinsOfPool.

(** * Further properties of the code *)

(** ** The replacer: size, flags and histories *)

Lemma StronglySorted_key_NoDup (l : list key) :
  StronglySorted key_lt l → NoDup l.
Proof.
  induction 1 as [|x l Hl IH Hx]; [constructor|].
  constructor; [|done]. intros Hin.
  eapply key_lt_irrefl, (proj1 (Forall_forall _ _) Hx x Hin).
Qed.

(** In a consistent index the frame ids of the entries are pairwise
    distinct, and they are the frames with an evictable record. *)
Lemma index_frames (r : LRUKReplacer.t) :
  index_consistent r →
  NoDup (key_fid <$> LRUKReplacer.st_ r) ∧
  dom (evictable_records r) =@{gset Z} list_to_set (key_fid <$> LRUKReplacer.st_ r).
Proof.
  intros (Hsort & Hent & Hnodes). split.
  - apply NoDup_fmap_2_strong; [|by apply StronglySorted_key_NoDup].
    intros a b Ha Hb Hab. apply (index_entry_unique r); [| |done].
    + by apply (proj1 (Forall_forall _ _) Hent).
    + by apply (proj1 (Forall_forall _ _) Hent).
  - apply set_eq. intros f.
    rewrite elem_of_dom, elem_of_list_to_set, list_elem_of_fmap.
    unfold evictable_records. split.
    + intros [n [Hn Hev]%map_lookup_filter_Some]. simpl in Hev.
      destruct (node_indexed_key r f n (Hnodes f n Hn) Hev) as (first & _ & Hin).
      by exists (LRUKNode.GetDistance n, first, f).
    + intros (a & -> & Ha).
      pose proof (proj1 (Forall_forall _ _) Hent a Ha) as Hok.
      unfold index_entry_ok in Hok.
      destruct (LRUKReplacer.node_store_ r !! key_fid a) as [n|] eqn:Hn; [|done].
      exists n. apply map_lookup_filter_Some. split; [done|]. simpl. tauto.
Qed.

(** X1. [Size] is the number of evictable frames: in a replacer whose index
    agrees with its records (every state of a replacer), the value that
    [Size] returns is the number of records with the evictable flag set. *)
Theorem Size_counts_evictable_records (r : LRUKReplacer.t) :
  index_consistent r →
  LRUKReplacer.Size r = Z.of_nat (size (evictable_records r)).
Proof.
  intros Hcons. destruct (index_frames r Hcons) as [Hnodup Hdom].
  unfold LRUKReplacer.Size. f_equal.
  rewrite <- (size_dom (D:=gset Z)), Hdom, size_list_to_set by done.
  by rewrite length_fmap.
Qed.

Lemma Size_counts_evictable_records_witness :
  LRUKReplacer.Size replacer_two_frames =
  Z.of_nat (size (evictable_records replacer_two_frames)).
Proof.
  apply (Size_counts_evictable_records replacer_two_frames).
  apply (bool_decide_unpack _). vm_compute. exact I.
Defined.

(** X2. [SetEvictable] is idempotent: when a call returns, the same call on
    the resulting replacer returns and changes nothing.  (The call is a
    no-op when the frame has no record or the flag already has the value.) *)
Theorem SetEvictable_idempotent (r r' : LRUKReplacer.t) (f : Z) (b : bool) :
  LRUKReplacer.SetEvictable f b r = (r', Ret tt) →
  LRUKReplacer.SetEvictable f b r' = (r', Ret tt).
Proof.
  unfold LRUKReplacer.SetEvictable at 1.
  destruct (LRUKReplacer.node_store_ r !! f) as [n|] eqn:Hn.
  - destruct (decide (LRUKNode.GetEvictable n = b)) as [Heq|Hne].
    + intros [= <-]. by apply (SetEvictable_same r f n b).
    + destruct (LRUKNode.FirstTime n) as [first|e|]; try done.
      intros [= <-].
      apply (SetEvictable_same _ f (LRUKNode.SetEvictable n b) b); [|done].
      simpl. apply lookup_insert_eq.
  - intros [= <-]. unfold LRUKReplacer.SetEvictable. by rewrite Hn.
Qed.

Lemma SetEvictable_idempotent_witness :
  LRUKReplacer.SetEvictable 1 false
    (LRUKReplacer.SetEvictable 1 false replacer_two_frames).1 =
  ((LRUKReplacer.SetEvictable 1 false replacer_two_frames).1, Ret tt).
Proof.
  apply (SetEvictable_idempotent replacer_two_frames _ 1 false).
  vm_compute. reflexivity.
Defined.

Lemma st_erase_id (x : key) (l : list key) : x ∉ l → st_erase x l = l.
Proof.
  unfold st_erase. induction l as [|y l IH]; [done|].
  intros [Hne Hl]%not_elem_of_cons. rewrite filter_cons, IH by done.
  rewrite decide_True; [done|].
  destruct (key_lt_total y x) as [?|[->|?]]; auto. done.
Qed.

Lemma st_erase_st_insert (x : key) (l : list key) :
  st_erase x (st_insert x l) = st_erase x l.
Proof.
  unfold st_erase. induction l as [|y l IH]; simpl.
  - rewrite filter_cons. rewrite decide_False; [done|].
    intros [?|?]; by eapply key_lt_irrefl.
  - destruct (decide (key_lt x y)) as [Hxy|Hxy].
    + rewrite (filter_cons _ x). rewrite decide_False; [done|].
      intros [?|?]; by eapply key_lt_irrefl.
    + destruct (decide (key_lt y x)) as [Hyx|Hyx]; [|done].
      rewrite !(filter_cons _ y), IH. done.
Qed.

Lemma st_insert_st_erase (x : key) (l : list key) :
  StronglySorted key_lt l → x ∈ l → st_insert x (st_erase x l) = l.
Proof.
  induction 1 as [|y l Hl IH Hy]; [by intros ?%elem_of_nil|].
  intros Hin. unfold st_erase in *. rewrite filter_cons.
  destruct (decide (y = x)) as [->|Hne].
  - rewrite decide_False by (intros [?|?]; by eapply key_lt_irrefl).
    assert (x ∉ l) as Hnot.
    { intros Hx. eapply key_lt_irrefl, (proj1 (Forall_forall _ _) Hy x Hx). }
    fold (st_erase x l). rewrite (st_erase_id x l Hnot).
    destruct l as [|z l]; [done|]. simpl.
    rewrite decide_True; [done|].
    apply (proj1 (Forall_forall _ _) Hy). by left.
  - apply elem_of_cons in Hin as [->|Hin]; [done|].
    assert (key_lt y x) as Hyx by (by apply (proj1 (Forall_forall _ _) Hy)).
    rewrite decide_True by auto. simpl.
    rewrite decide_False by (by apply key_lt_asym).
    rewrite decide_True by done. by rewrite IH.
Qed.

Lemma SetEvictable_twice_node (n : LRUKNode.t) (b : bool) :
  LRUKNode.is_evictable_ n = b →
  LRUKNode.SetEvictable (LRUKNode.SetEvictable n (negb b)) b = n.
Proof. intros <-. by destruct n. Qed.

Lemma SetEvictable_toggle (r : LRUKReplacer.t) (f : Z) (n : LRUKNode.t) :
  index_consistent r →
  LRUKReplacer.node_store_ r !! f = Some n →
  LRUKNode.history_ n ≠ [] →
  let b := LRUKNode.is_evictable_ n in
  (LRUKReplacer.SetEvictable f (negb b) ;; LRUKReplacer.SetEvictable f b) r =
  (r, Ret tt).
Proof.
  intros (Hsort & Hent & Hnodes) Hn Hh b.
  unfold bind. unfold LRUKReplacer.SetEvictable at 1. rewrite Hn.
  rewrite decide_False by (unfold LRUKNode.GetEvictable; fold b; by destruct b).
  unfold LRUKNode.FirstTime at 1.
  destruct (LRUKNode.history_ n) as [|first h] eqn:Hhist; [done|].
  unfold LRUKReplacer.SetEvictable. simpl. rewrite lookup_insert_eq.
  rewrite decide_False by (unfold LRUKNode.GetEvictable; simpl; by destruct b).
  unfold LRUKNode.FirstTime. simpl. rewrite Hhist.
  rewrite insert_insert_eq.
  rewrite (SetEvictable_twice_node n b eq_refl), (insert_id _ _ _ Hn).
  unfold LRUKNode.GetDistance. simpl.
  fold (LRUKNode.GetDistance n).
  assert ((if b
           then st_insert (LRUKNode.GetDistance n, first, f)
                  (if negb b
                   then st_insert (LRUKNode.GetDistance n, first, f) (LRUKReplacer.st_ r)
                   else st_erase (LRUKNode.GetDistance n, first, f) (LRUKReplacer.st_ r))
           else st_erase (LRUKNode.GetDistance n, first, f)
                  (if negb b
                   then st_insert (LRUKNode.GetDistance n, first, f) (LRUKReplacer.st_ r)
                   else st_erase (LRUKNode.GetDistance n, first, f) (LRUKReplacer.st_ r)))
          = LRUKReplacer.st_ r) as ->.
  { destruct b eqn:Hb; simpl.
    - apply st_insert_st_erase; [done|].
      specialize (Hnodes f n Hn Hb). by rewrite Hhist in Hnodes.
    - rewrite st_erase_st_insert. apply st_erase_id. intros Hin.
      pose proof (proj1 (Forall_forall _ _) Hent _ Hin) as Hok.
      unfold index_entry_ok, key_fid in Hok. simpl in Hok. rewrite Hn in Hok.
      destruct Hok as [Hev _]. fold b in Hev. congruence. }
  by destruct r.
Qed.

(** X3. Toggling the evictable flag of a frame and toggling it back restores
    the replacer exactly (records, index, counter), whichever way round:
    for a record that is not evictable, [SetEvictable(f, true)] followed by
    [SetEvictable(f, false)]; for an evictable record, [false] followed by
    [true]. *)
Theorem SetEvictable_toggle_restores (r : LRUKReplacer.t) (f : Z) (n : LRUKNode.t) :
  index_consistent r →
  LRUKReplacer.node_store_ r !! f = Some n →
  LRUKNode.history_ n ≠ [] →
  let b := LRUKNode.is_evictable_ n in
  (LRUKReplacer.SetEvictable f (negb b) ;; LRUKReplacer.SetEvictable f b) r =
  (r, Ret tt).
Proof. apply SetEvictable_toggle. Qed.

Lemma SetEvictable_toggle_restores_witness :
  (LRUKReplacer.SetEvictable 1 (negb true) ;; LRUKReplacer.SetEvictable 1 true)
    replacer_two_frames =
  (replacer_two_frames, Ret tt).
Proof.
  apply (SetEvictable_toggle_restores replacer_two_frames 1
           (LRUKNode.mk [1; 3] 2 1 true)).
  - apply (bool_decide_unpack _). vm_compute. exact I.
  - vm_compute. reflexivity.
  - discriminate.
Defined.

(** The length of the history that [Add] leaves. *)
Lemma Add_length (n : LRUKNode.t) (tbl : Z) :
  LRUKNode.k_ (LRUKNode.Add n tbl).1 = LRUKNode.k_ n ∧
  Z.of_nat (length (LRUKNode.history_ (LRUKNode.Add n tbl).1)) =
    if LRUKNode.k_ n <? Z.of_nat (length (LRUKNode.history_ n)) + 1
    then Z.of_nat (length (LRUKNode.history_ n))
    else Z.of_nat (length (LRUKNode.history_ n)) + 1.
Proof.
  unfold LRUKNode.Add, CurrentTimestamp. simpl. split; [done|].
  rewrite length_app. simpl.
  replace (Z.of_nat (length (LRUKNode.history_ n) + 1))
    with (Z.of_nat (length (LRUKNode.history_ n)) + 1) by lia.
  destruct (LRUKNode.k_ n <? _); simpl; [|rewrite length_app; simpl; lia].
  destruct (LRUKNode.history_ n); simpl; [done|]. rewrite length_app. simpl. lia.
Qed.

Lemma histories_bounded_RecordAccess (r : LRUKReplacer.t) (f : Z) :
  0 < LRUKReplacer.k_ r →
  histories_bounded r →
  histories_bounded (LRUKReplacer.RecordAccess f r).1.
Proof.
  intros Hk Hb. unfold LRUKReplacer.RecordAccess.
  destruct (decide (LRUKReplacer.replacer_size_ r < size_t_cast f)) as [Hgt|Hle];
    [done|].
  assert (∀ n0 st1,
    (LRUKReplacer.node_store_ r !! f = Some n0 ∨
     (LRUKReplacer.node_store_ r !! f = None ∧
      n0 = LRUKNode.init f (LRUKReplacer.k_ r))) →
    histories_bounded
      (let '(n', tbl) := LRUKNode.Add n0 (LRUKReplacer.time_base_line r) in
       let r1 := LRUKReplacer.mk (<[f := n']> (LRUKReplacer.node_store_ r)) st1
                   (LRUKReplacer.replacer_size_ r) (LRUKReplacer.k_ r) tbl in
       if LRUKNode.GetEvictable n' then
         match LRUKNode.FirstTime n' with
         | Ret first =>
             (LRUKReplacer.mk (LRUKReplacer.node_store_ r1)
                (st_insert (LRUKNode.GetDistance n', first, f) st1)
                (LRUKReplacer.replacer_size_ r) (LRUKReplacer.k_ r) tbl, Ret tt)
         | Throw e => (r1, Throw e)
         | Undefined => (r1, Undefined)
         end
       else (r1, Ret tt)).1) as Hstep.
  { intros n0 st1 Hn0.
    pose proof (Add_length n0 (LRUKReplacer.time_base_line r)) as [Hk' Hlen].
    assert (LRUKNode.k_ n0 = LRUKReplacer.k_ r ∧
            0 ≤ Z.of_nat (length (LRUKNode.history_ n0)) ≤ LRUKReplacer.k_ r) as [Hk0 Hl0].
    { destruct Hn0 as [Hn0|[_ ->]].
      - destruct (Hb f n0 Hn0) as [? ?]. split; [done|lia].
      - simpl. split; [done|lia]. }
    destruct (LRUKNode.Add n0 _) as [n' tbl]. simpl in Hk', Hlen.
    assert (LRUKNode.k_ n' = LRUKReplacer.k_ r ∧
            1 ≤ Z.of_nat (length (LRUKNode.history_ n')) ≤ LRUKReplacer.k_ r) as Hn'.
    { split; [congruence|]. rewrite Hlen, Hk0.
      destruct (Z.ltb_spec (LRUKReplacer.k_ r)
                  (Z.of_nat (length (LRUKNode.history_ n0)) + 1)); lia. }
    assert (map_Forall
              (λ _ n, LRUKNode.k_ n = LRUKReplacer.k_ r ∧
                      1 ≤ Z.of_nat (length (LRUKNode.history_ n)) ≤ LRUKReplacer.k_ r)
              (<[f := n']> (LRUKReplacer.node_store_ r))) as Hall
      by (by apply map_Forall_insert_2).
    destruct (LRUKNode.GetEvictable n'); [|exact Hall].
    destruct (LRUKNode.FirstTime n'); exact Hall. }
  destruct (LRUKReplacer.node_store_ r !! f) as [n|] eqn:Hn.
  - destruct (LRUKNode.FirstTime n) as [first|e|]; [|done|done].
    apply Hstep. by left.
  - apply Hstep. by right.
Qed.

Lemma histories_bounded_SetEvictable (r : LRUKReplacer.t) (f : Z) (b : bool) :
  histories_bounded r → histories_bounded (LRUKReplacer.SetEvictable f b r).1.
Proof.
  intros Hb. unfold LRUKReplacer.SetEvictable.
  destruct (LRUKReplacer.node_store_ r !! f) as [n|] eqn:Hn; [|done].
  destruct (decide (LRUKNode.GetEvictable n = b)) as [Heq|Hne]; [done|].
  destruct (LRUKNode.FirstTime n); try done.
  unfold histories_bounded. simpl. apply map_Forall_insert_2; [|done].
  apply (Hb f n Hn).
Qed.

Lemma histories_bounded_Evict (r : LRUKReplacer.t) :
  histories_bounded r → histories_bounded (LRUKReplacer.Evict r).1.
Proof.
  intros Hb. unfold LRUKReplacer.Evict.
  destruct (last (LRUKReplacer.st_ r)) as [[[d t] f]|]; [|done].
  unfold histories_bounded. simpl. by apply map_Forall_delete.
Qed.

Lemma histories_bounded_Remove (r : LRUKReplacer.t) (f : Z) :
  histories_bounded r → histories_bounded (LRUKReplacer.Remove f r).1.
Proof.
  intros Hb. unfold LRUKReplacer.Remove.
  destruct (LRUKReplacer.node_store_ r !! f) as [n|]; [|done].
  destruct (LRUKNode.GetEvictable n); [|done].
  destruct (LRUKNode.FirstTime n); try done.
  unfold histories_bounded. simpl. by apply map_Forall_delete.
Qed.

Lemma replacer_reachable_bounded (r : LRUKReplacer.t) :
  replacer_reachable r → 0 < LRUKReplacer.k_ r → histories_bounded r.
Proof.
  induction 1 as [num_frames k|r _ IH|r g _ IH|r g b _ IH|r g _ IH]; intros Hk.
  - unfold histories_bounded. simpl. apply map_Forall_empty.
  - rewrite (proj1 (k_unchanged r)) in Hk.
    by apply histories_bounded_Evict, IH.
  - rewrite (proj1 (proj2 (k_unchanged r))) in Hk.
    by apply histories_bounded_RecordAccess; [|apply IH].
  - rewrite (proj1 (proj2 (proj2 (k_unchanged r)))) in Hk.
    by apply histories_bounded_SetEvictable, IH.
  - rewrite (proj2 (proj2 (proj2 (k_unchanged r)))) in Hk.
    by apply histories_bounded_Remove, IH.
Qed.

(** The history that [Add] leaves: the last [k_] timestamps of the old
    history followed by the new timestamp, when the old history has at most
    [k_] of them. *)
Lemma Add_keeps_last_k (n : LRUKNode.t) (tbl : Z) :
  Z.of_nat (length (LRUKNode.history_ n)) ≤ LRUKNode.k_ n →
  let accesses := LRUKNode.history_ n ++ [(tbl + 1) mod 2 ^ 64] in
  LRUKNode.history_ (LRUKNode.Add n tbl).1 =
    drop (length accesses - Z.to_nat (LRUKNode.k_ n)) accesses.
Proof.
  intros Hlen accesses. unfold LRUKNode.Add, CurrentTimestamp. simpl.
  fold accesses.
  assert (length accesses = S (length (LRUKNode.history_ n))) as Hacc
    by (unfold accesses; rewrite length_app; simpl; lia).
  destruct (Z.ltb_spec (LRUKNode.k_ n) (Z.of_nat (length accesses))) as [Hlt|Hge].
  - replace (length accesses - Z.to_nat (LRUKNode.k_ n))%nat with 1%nat by lia.
    by destruct accesses.
  - replace (length accesses - Z.to_nat (LRUKNode.k_ n))%nat with 0%nat by lia.
    done.
Qed.

(** X4. The history of a frame holds the last [k_] accesses and no more.  In
    every state of a replacer created with [k_ >= 1], the record of a frame
    carries the [k_] of the replacer and has at least one and at most [k_]
    timestamps; and when [RecordAccess] returns, the timestamp counter has
    advanced by one and the history of the frame is exactly the last [k_]
    timestamps of its old history (empty for a new record) followed by the
    new value of the counter: the new timestamp is kept and, when the old
    history was full, its oldest timestamp is the one dropped. *)
Theorem history_keeps_at_most_k (r : LRUKReplacer.t) (f : Z) :
  replacer_reachable r →
  0 < LRUKReplacer.k_ r →
  (∀ n, LRUKReplacer.node_store_ r !! f = Some n →
        LRUKNode.k_ n = LRUKReplacer.k_ r ∧
        1 ≤ Z.of_nat (length (LRUKNode.history_ n)) ≤ LRUKReplacer.k_ r) ∧
  (∀ r', LRUKReplacer.RecordAccess f r = (r', Ret tt) →
         let old := match LRUKReplacer.node_store_ r !! f with
                    | Some n => LRUKNode.history_ n
                    | None => []
                    end in
         let accesses := old ++ [LRUKReplacer.time_base_line r'] in
         LRUKReplacer.time_base_line r' =
           (LRUKReplacer.time_base_line r + 1) mod 2 ^ 64 ∧
         ∃ n', LRUKReplacer.node_store_ r' !! f = Some n' ∧
               LRUKNode.history_ n' =
                 drop (length accesses - Z.to_nat (LRUKReplacer.k_ r)) accesses ∧
               last (LRUKNode.history_ n') = Some (LRUKReplacer.time_base_line r')).
Proof.
  intros Hr Hk. pose proof (replacer_reachable_bounded r Hr Hk) as Hb.
  split; [intros n Hn; by apply (Hb f n)|].
  intros r' Hcall old accesses.
  pose proof (replacer_reachable_recorded r Hr Hk f) as Hrec.
  assert (LRUKReplacer.replacer_size_ r < size_t_cast f → False) as Hle.
  { intros Hgt. revert Hcall. unfold LRUKReplacer.RecordAccess.
    by rewrite decide_True. }
  destruct (RecordAccess_returns r f ltac:(lia) Hk Hrec) as (st' & Hret).
  cbv zeta in Hret.
  set (n0 := default (LRUKNode.init f (LRUKReplacer.k_ r))
               (LRUKReplacer.node_store_ r !! f)) in Hret.
  assert (LRUKNode.k_ n0 = LRUKReplacer.k_ r ∧
          Z.of_nat (length (LRUKNode.history_ n0)) ≤ LRUKNode.k_ n0 ∧
          LRUKNode.history_ n0 = old) as (Hk0 & Hlen0 & Hh0).
  { unfold n0, old. destruct (LRUKReplacer.node_store_ r !! f) as [n|] eqn:Hn; simpl.
    - destruct (Hb f n Hn) as [-> ?]. split_and!; [done|lia|done].
    - split_and!; [done|lia|done]. }
  pose proof (Add_keeps_last_k n0 (LRUKReplacer.time_base_line r) Hlen0) as Hkeep.
  pose proof (Add_last n0 (LRUKReplacer.time_base_line r) ltac:(right; lia)) as Hlast.
  cbv zeta in Hkeep. rewrite Hk0, Hh0 in Hkeep.
  set (n' := (LRUKNode.Add n0 (LRUKReplacer.time_base_line r)).1) in *.
  clearbody n'. rewrite Hcall in Hret. injection Hret as ->.
  subst accesses. simpl. split; [done|].
  rewrite lookup_insert_eq. by exists n'.
Qed.

Lemma history_keeps_at_most_k_witness :
  let r := replacer_three_accesses in
  (∀ n, LRUKReplacer.node_store_ r !! 1 = Some n →
        LRUKNode.k_ n = LRUKReplacer.k_ r ∧
        1 ≤ Z.of_nat (length (LRUKNode.history_ n)) ≤ LRUKReplacer.k_ r) ∧
  (∀ r', LRUKReplacer.RecordAccess 1 r = (r', Ret tt) →
         let old := match LRUKReplacer.node_store_ r !! 1 with
                    | Some n => LRUKNode.history_ n
                    | None => []
                    end in
         let accesses := old ++ [LRUKReplacer.time_base_line r'] in
         LRUKReplacer.time_base_line r' =
           (LRUKReplacer.time_base_line r + 1) mod 2 ^ 64 ∧
         ∃ n', LRUKReplacer.node_store_ r' !! 1 = Some n' ∧
               LRUKNode.history_ n' =
                 drop (length accesses - Z.to_nat (LRUKReplacer.k_ r)) accesses ∧
               last (LRUKNode.history_ n') = Some (LRUKReplacer.time_base_line r')).
Proof.
  apply (history_keeps_at_most_k replacer_three_accesses 1).
  - unfold replacer_three_accesses.
    apply reachable_RecordAccess, reachable_RecordAccess, reachable_RecordAccess,
      reachable_init.
  - reflexivity.
Defined.

(** The fourth access of frame 1 in a replacer with [k_ = 2]: of the
    timestamps 2, 3 and 4 the last two are kept. *)
Example history_after_fourth_access :
  LRUKNode.history_ <$>
    LRUKReplacer.node_store_ replacer_three_accesses !! 1 = Some [2; 3] ∧
  LRUKNode.history_ <$>
    LRUKReplacer.node_store_
      (exec (LRUKReplacer.RecordAccess 1) replacer_three_accesses) !! 1 = Some [3; 4].
Proof. vm_compute. split; reflexivity. Qed.

Lemma length_st_erase (x : key) (l : list key) :
  NoDup l → x ∈ l → S (length (st_erase x l)) = length l.
Proof.
  induction 1 as [|y l Hy Hl IH]; [by intros ?%elem_of_nil|].
  intros Hin. unfold st_erase in *. rewrite filter_cons.
  destruct (decide (y = x)) as [->|Hne].
  - rewrite decide_False by (intros [?|?]; by eapply key_lt_irrefl).
    fold (st_erase x l). by rewrite (st_erase_id x l Hy).
  - apply elem_of_cons in Hin as [->|Hin]; [done|].
    rewrite decide_True.
    + simpl. by rewrite IH.
    + destruct (key_lt_total y x) as [?|[->|?]]; auto. done.
Qed.

(** X5. [Remove] acts on evictable records only.  For a frame without
    record, or whose record is not evictable, it returns and leaves the
    replacer exactly as it is (the record stays).  For a frame with an
    evictable record, in a replacer whose index agrees with its records, it
    returns, the record is gone, [Size] is one less and the records of the
    other frames are untouched. *)
Theorem Remove_only_evictable (r : LRUKReplacer.t) (f : Z) :
  (LRUKReplacer.node_store_ r !! f = None →
   LRUKReplacer.Remove f r = (r, Ret tt)) ∧
  (∀ n, LRUKReplacer.node_store_ r !! f = Some n →
        LRUKNode.is_evictable_ n = false →
        LRUKReplacer.Remove f r = (r, Ret tt)) ∧
  (∀ n, LRUKReplacer.node_store_ r !! f = Some n →
        LRUKNode.is_evictable_ n = true →
        index_consistent r →
        ∃ r', LRUKReplacer.Remove f r = (r', Ret tt) ∧
              LRUKReplacer.node_store_ r' !! f = None ∧
              LRUKReplacer.Size r' = LRUKReplacer.Size r - 1 ∧
              ∀ g, g ≠ f →
                   LRUKReplacer.node_store_ r' !! g = LRUKReplacer.node_store_ r !! g).
Proof.
  split_and!.
  - intros Hn. unfold LRUKReplacer.Remove. by rewrite Hn.
  - intros n Hn Hev. unfold LRUKReplacer.Remove, LRUKNode.GetEvictable.
    by rewrite Hn, Hev.
  - intros n Hn Hev (Hsort & Hent & Hnodes).
    destruct (node_indexed_key r f n (Hnodes f n Hn) Hev) as (first & Hft & Hin).
    unfold LRUKReplacer.Remove, LRUKNode.GetEvictable. rewrite Hn, Hev, Hft.
    eexists. split; [reflexivity|]. simpl. split_and!.
    + apply lookup_delete_eq.
    + unfold LRUKReplacer.Size. simpl.
      pose proof (length_st_erase _ _ (StronglySorted_key_NoDup _ Hsort) Hin). lia.
    + intros g Hg. by apply lookup_delete_ne.
Qed.

Lemma Remove_only_evictable_witness :
  ∃ r', LRUKReplacer.Remove 2 replacer_two_frames = (r', Ret tt) ∧
        LRUKReplacer.node_store_ r' !! 2 = None ∧
        LRUKReplacer.Size r' = LRUKReplacer.Size replacer_two_frames - 1 ∧
        ∀ g, g ≠ 2 →
             LRUKReplacer.node_store_ r' !! g =
             LRUKReplacer.node_store_ replacer_two_frames !! g.
Proof.
  apply (proj2 (proj2 (Remove_only_evictable replacer_two_frames 2))
           (LRUKNode.mk [2] 2 2 true)).
  - vm_compute. reflexivity.
  - reflexivity.
  - apply (bool_decide_unpack _). vm_compute. exact I.
Defined.

(** ** What a call of the pool that returned has done

    Each lemma reads the state after a call that returned off the statements
    of the function, in terms of the state before. *)

Lemma on_replacer_returns {A} (m : M LRUKReplacer.t A) (s s1 : BufferPoolManager.t)
    (a : A) :
  BufferPoolManager.on_replacer m s = (s1, Ret a) →
  ∃ r', m (BufferPoolManager.replacer_ s) = (r', Ret a) ∧
        s1 = BufferPoolManager.set_replacer r' s.
Proof.
  unfold BufferPoolManager.on_replacer.
  destruct (m _) as [r' o]. intros [= <- ->]. eauto.
Qed.

Lemma FlushPage_effect (s s' : BufferPoolManager.t) (page_id : Z) (v : bool) :
  BufferPoolManager.FlushPage page_id s = (s', Ret v) →
  (BufferPoolManager.page_table_ s !! page_id = None ∧ v = false ∧ s' = s) ∨
  (∃ f p,
     BufferPoolManager.page_table_ s !! page_id = Some f ∧
     BufferPoolManager.frame (BufferPoolManager.pages_ s) f = Some p ∧
     v = true ∧
     s' = BufferPoolManager.set_pages
            (<[Z.to_nat f := Page.set_is_dirty false p]> (BufferPoolManager.pages_ s))
            (BufferPoolManager.set_disk_manager
               (DiskManager.WritePage page_id (Page.data_ p)
                  (BufferPoolManager.disk_manager_ s)) s)).
Proof.
  unfold BufferPoolManager.FlushPage. intros Hcall.
  apply bind_Ret in Hcall as (? & ? & [= <- <-] & Hcall).
  destruct (BufferPoolManager.page_table_ s !! page_id) as [f|].
  - apply bind_Ret in Hcall as (p & s1 & [-> Hf]%page_Ret & Hcall).
    apply bind_Ret in Hcall as ([] & s2 & [= <-] & Hcall).
    apply bind_Ret in Hcall as ([] & s3 & (q & Hq & ->)%update_page_Ret & [= <- <-]).
    right. exists f, p. simpl in Hq. assert (q = p) as -> by congruence. done.
  - injection Hcall as <- <-. by left.
Qed.

(** [FlushPage] changes dirty flags and the disk only. *)
Lemma FlushPage_frames (s s' : BufferPoolManager.t) (page_id : Z) (v : bool) :
  BufferPoolManager.FlushPage page_id s = (s', Ret v) →
  BufferPoolManager.pool_size_ s' = BufferPoolManager.pool_size_ s ∧
  BufferPoolManager.page_table_ s' = BufferPoolManager.page_table_ s ∧
  BufferPoolManager.free_list_ s' = BufferPoolManager.free_list_ s ∧
  BufferPoolManager.replacer_ s' = BufferPoolManager.replacer_ s ∧
  BufferPoolManager.next_page_id_ s' = BufferPoolManager.next_page_id_ s ∧
  length (BufferPoolManager.pages_ s') = length (BufferPoolManager.pages_ s) ∧
  ∀ g, BufferPoolManager.frame (BufferPoolManager.pages_ s') g =
         BufferPoolManager.frame (BufferPoolManager.pages_ s) g ∨
       ∃ p, BufferPoolManager.frame (BufferPoolManager.pages_ s) g = Some p ∧
            BufferPoolManager.frame (BufferPoolManager.pages_ s') g =
              Some (Page.set_is_dirty false p).
Proof.
  intros [(_ & _ & ->)|(f & p & _ & Hf & _ & ->)]%FlushPage_effect.
  - split_and!; try done. by left.
  - simpl. split_and!; try done; [by rewrite length_insert|].
    intros g. destruct (decide (f = g)) as [<-|Hne].
    + right. exists p. split; [done|]. by eapply frame_insert_eq.
    + left. apply frame_insert_ne; [|done]. by apply frame_Some in Hf as [? _].
Qed.

(** The frame-acquisition statements of [NewPage] and [FetchPage]: the
    frame comes from the front of the free list, or it is the victim of
    [Evict]; the victim's page is written back by [FlushPage] when it is
    dirty, its page id is erased from the page table and the frame is
    reset. *)
Lemma acquire_frame_effect (what : string) (s s' : BufferPoolManager.t) (f : Z) :
  BufferPoolManager.acquire_frame what s = (s', Ret f) →
  (∃ rest, BufferPoolManager.free_list_ s = f :: rest ∧
           s' = BufferPoolManager.set_free_list rest s) ∨
  (∃ r1 p s2,
     BufferPoolManager.free_list_ s = [] ∧
     LRUKReplacer.Evict (BufferPoolManager.replacer_ s) = (r1, Some f) ∧
     BufferPoolManager.frame (BufferPoolManager.pages_ s) f = Some p ∧
     (if Page.is_dirty_ p
      then ∃ b, BufferPoolManager.FlushPage (Page.page_id_ p)
                  (BufferPoolManager.set_replacer r1 s) = (s2, Ret b)
      else s2 = BufferPoolManager.set_replacer r1 s) ∧
     s' = BufferPoolManager.set_pages
            (<[Z.to_nat f := Page.mk zero_page INVALID_PAGE_ID 0 false
                               (Page.readers_ p) (Page.writer_ p)]>
               (BufferPoolManager.pages_ s2))
            (BufferPoolManager.set_page_table
               (delete (Page.page_id_ p) (BufferPoolManager.page_table_ s2)) s2)).
Proof.
  unfold BufferPoolManager.acquire_frame. intros Hcall.
  apply bind_Ret in Hcall as (? & ? & [= <- <-] & Hcall).
  destruct (BufferPoolManager.free_list_ s) as [|front rest].
  - right.
    apply bind_Ret in Hcall as (exist & s1 & Hevict & Hcall).
    unfold BufferPoolManager.replacer_Evict in Hevict.
    destruct (LRUKReplacer.Evict (BufferPoolManager.replacer_ s)) as [r1 o] eqn:He.
    injection Hevict as <- <-.
    destruct o as [victim|]; [|done].
    apply bind_Ret in Hcall as (p & s2 & [-> Hf]%page_Ret & Hcall).
    apply bind_Ret in Hcall as ([] & s3 & Hflush & Hcall).
    apply bind_Ret in Hcall as (p3 & s4 & [-> Hf3]%page_Ret & Hcall).
    apply bind_Ret in Hcall as ([] & s5 & [= <-] & Hcall).
    apply bind_Ret in Hcall as ([] & s6 & (q1 & Hq1 & ->)%update_page_Ret & Hcall).
    apply bind_Ret in Hcall as ([] & s7 & (q2 & Hq2 & ->)%update_page_Ret & Hcall).
    apply bind_Ret in Hcall as ([] & s8 & (q3 & Hq3 & ->)%update_page_Ret & Hcall).
    apply bind_Ret in Hcall as ([] & s9 & (q4 & Hq4 & ->)%update_page_Ret & [= <- <-]).
    simpl in Hf, Hq1, Hq2, Hq3, Hq4.
    assert (q1 = p3) as -> by congruence.
    erewrite frame_insert_eq in Hq2 by exact Hf3. injection Hq2 as <-.
    erewrite frame_insert_eq in Hq3 by solve_frame. injection Hq3 as <-.
    erewrite frame_insert_eq in Hq4 by solve_frame. injection Hq4 as <-.
    assert (Page.page_id_ p3 = Page.page_id_ p ∧ Page.readers_ p3 = Page.readers_ p ∧
            Page.writer_ p3 = Page.writer_ p ∧
            (if Page.is_dirty_ p
             then ∃ b, BufferPoolManager.FlushPage (Page.page_id_ p)
                         (BufferPoolManager.set_replacer r1 s) = (s3, Ret b)
             else s3 = BufferPoolManager.set_replacer r1 s)) as (Hid & Hrd & Hwr & Hs3).
    { destruct (Page.is_dirty_ p).
      - apply bind_Ret in Hflush as (b & s3' & Hflush & [= <-]).
        destruct (FlushPage_frames _ _ _ _ Hflush) as (_ & _ & _ & _ & _ & _ & Hfr).
        destruct (Hfr victim) as [Heq|(p0 & Hp0 & Heq)].
        + rewrite Heq in Hf3. simpl in Hf3.
          assert (p3 = p) as -> by congruence. split_and!; eauto.
        + simpl in Hp0. assert (p0 = p) as -> by congruence.
          rewrite Heq in Hf3. injection Hf3 as <-. split_and!; eauto.
      - injection Hflush as <-. simpl in Hf3.
        assert (p3 = p) as -> by congruence. done. }
    exists r1, p, s3. split_and!; try done.
    unfold BufferPoolManager.set_pages, BufferPoolManager.set_page_table. simpl.
    rewrite !list_insert_insert_eq, Hid.
    unfold Page.set_is_dirty, Page.set_pin_count, Page.set_page_id, Page.ResetMemory.
    simpl. by rewrite Hrd, Hwr.
  - left. apply bind_Ret in Hcall as ([] & s1 & [= <-] & [= <- <-]). eauto.
Qed.

Lemma NewPage_effect (s s' : BufferPoolManager.t) (v : option (Z * Z)) :
  BufferPoolManager.NewPage s = (s', Ret v) →
  (BufferPoolManager.pool_exhausted s ∧ v = None ∧ s' = s) ∨
  (∃ what f s1 q r2 r3,
     ¬ BufferPoolManager.pool_exhausted s ∧
     BufferPoolManager.acquire_frame what s = (s1, Ret f) ∧
     BufferPoolManager.frame (BufferPoolManager.pages_ s1) f = Some q ∧
     LRUKReplacer.RecordAccess f (BufferPoolManager.replacer_ s1) = (r2, Ret tt) ∧
     LRUKReplacer.SetEvictable f false r2 = (r3, Ret tt) ∧
     v = Some (BufferPoolManager.next_page_id_ s1, f) ∧
     s' = BufferPoolManager.mk (BufferPoolManager.pool_size_ s1)
            (<[Z.to_nat f := Page.mk (Page.data_ q) (BufferPoolManager.next_page_id_ s1) 1
                               (Page.is_dirty_ q) (Page.readers_ q) (Page.writer_ q)]>
               (BufferPoolManager.pages_ s1))
            (<[BufferPoolManager.next_page_id_ s1 := f]> (BufferPoolManager.page_table_ s1))
            (BufferPoolManager.free_list_ s1) r3
            (wrap_int32 (BufferPoolManager.next_page_id_ s1 + 1))
            (BufferPoolManager.disk_manager_ s1)).
Proof.
  unfold BufferPoolManager.NewPage. intros Hcall.
  apply bind_Ret in Hcall as (? & ? & [= <- <-] & Hcall).
  destruct (decide (BufferPoolManager.pool_exhausted s)) as [Hfull|Hroom].
  { injection Hcall as <- <-. by left. }
  right.
  apply bind_Ret in Hcall as (f & s1 & Hacq & Hcall).
  apply bind_Ret in Hcall as (aloc & s2 & [= <- <-] & Hcall).
  apply bind_Ret in Hcall as ([] & s3 & [= <-] & Hcall).
  apply bind_Ret in Hcall as ([] & s4 & (q & Hq & ->)%update_page_Ret & Hcall).
  apply bind_Ret in Hcall as ([] & s5 & (q5 & Hq5 & ->)%update_page_Ret & Hcall).
  apply bind_Ret in Hcall as ([] & s6 & (r2 & Hr2 & ->)%on_replacer_returns & Hcall).
  apply bind_Ret in Hcall as ([] & s7 & (r3 & Hr3 & ->)%on_replacer_returns & [= <- <-]).
  simpl in Hq, Hq5, Hr2, Hr3.
  erewrite frame_insert_eq in Hq5 by exact Hq. injection Hq5 as <-.
  eexists _, f, s1, q, r2, r3. split_and!; try done.
  unfold BufferPoolManager.set_replacer, BufferPoolManager.set_pages. simpl.
  by rewrite !list_insert_insert_eq.
Qed.

Lemma FetchPage_effect (s s' : BufferPoolManager.t) (page_id : Z) (v : option Z) :
  BufferPoolManager.FetchPage page_id s = (s', Ret v) →
  (∃ f p r1,
     BufferPoolManager.page_table_ s !! page_id = Some f ∧
     BufferPoolManager.frame (BufferPoolManager.pages_ s) f = Some p ∧
     Page.pin_count_ p ≠ INT_MAX ∧
     LRUKReplacer.SetEvictable f false (BufferPoolManager.replacer_ s) = (r1, Ret tt) ∧
     v = Some f ∧
     s' = BufferPoolManager.mk (BufferPoolManager.pool_size_ s)
            (<[Z.to_nat f := Page.set_pin_count (Page.pin_count_ p + 1) p]>
               (BufferPoolManager.pages_ s))
            (BufferPoolManager.page_table_ s) (BufferPoolManager.free_list_ s) r1
            (BufferPoolManager.next_page_id_ s) (BufferPoolManager.disk_manager_ s)) ∨
  (BufferPoolManager.page_table_ s !! page_id = None ∧
   (BufferPoolManager.pool_exhausted s ∨ page_id < 0) ∧ v = None ∧ s' = s) ∨
  (∃ what f s1 q r2 r3,
     BufferPoolManager.page_table_ s !! page_id = None ∧
     ¬ BufferPoolManager.pool_exhausted s ∧ 0 ≤ page_id ∧
     BufferPoolManager.acquire_frame what s = (s1, Ret f) ∧
     BufferPoolManager.frame (BufferPoolManager.pages_ s1) f = Some q ∧
     LRUKReplacer.RecordAccess f (BufferPoolManager.replacer_ s1) = (r2, Ret tt) ∧
     LRUKReplacer.SetEvictable f false r2 = (r3, Ret tt) ∧
     v = Some f ∧
     s' = BufferPoolManager.mk (BufferPoolManager.pool_size_ s1)
            (<[Z.to_nat f :=
                 Page.mk (DiskManager.ReadPage page_id (BufferPoolManager.disk_manager_ s1))
                   page_id 1 (Page.is_dirty_ q) (Page.readers_ q) (Page.writer_ q)]>
               (BufferPoolManager.pages_ s1))
            (<[page_id := f]> (BufferPoolManager.page_table_ s1))
            (BufferPoolManager.free_list_ s1) r3
            (BufferPoolManager.next_page_id_ s1)
            (BufferPoolManager.disk_manager_ s1)).
Proof.
  unfold BufferPoolManager.FetchPage. intros Hcall.
  apply bind_Ret in Hcall as (? & ? & [= <- <-] & Hcall).
  destruct (BufferPoolManager.page_table_ s !! page_id) as [f|].
  - left.
    apply bind_Ret in Hcall as (p & s1 & [-> Hf]%page_Ret & Hcall).
    apply bind_Ret in Hcall as ([] & s2 & Hupd & Hcall).
    apply bind_Ret in Hcall as ([] & s3 & (r1 & Hr1 & ->)%on_replacer_returns & [= <- <-]).
    destruct (decide (Page.pin_count_ p = INT_MAX)) as [Hmax|Hmax]; [done|].
    apply update_page_Ret in Hupd as (q & Hq & ->).
    assert (q = p) as -> by congruence.
    by exists f, p, r1.
  - right.
    destruct (decide (BufferPoolManager.pool_exhausted s ∨ page_id < 0)) as [Hno|Hyes].
    { injection Hcall as <- <-. by left. }
    right.
    apply bind_Ret in Hcall as (f & s1 & Hacq & Hcall).
    apply bind_Ret in Hcall as (? & ? & [= <- <-] & Hcall).
    apply bind_Ret in Hcall as ([] & s2 & (q & Hq & ->)%update_page_Ret & Hcall).
    apply bind_Ret in Hcall as ([] & s3 & [= <-] & Hcall).
    apply bind_Ret in Hcall as ([] & s4 & (q4 & Hq4 & ->)%update_page_Ret & Hcall).
    apply bind_Ret in Hcall as ([] & s5 & (q5 & Hq5 & ->)%update_page_Ret & Hcall).
    apply bind_Ret in Hcall as ([] & s6 & (r2 & Hr2 & ->)%on_replacer_returns & Hcall).
    apply bind_Ret in Hcall as ([] & s7 & (r3 & Hr3 & ->)%on_replacer_returns & [= <- <-]).
    simpl in Hq, Hq4, Hq5, Hr2, Hr3.
    erewrite frame_insert_eq in Hq4 by exact Hq. injection Hq4 as <-.
    erewrite frame_insert_eq in Hq5 by solve_frame. injection Hq5 as <-.
    eexists _, f, s1, q, r2, r3. split_and!; try done; [tauto|lia|].
    unfold BufferPoolManager.set_replacer, BufferPoolManager.set_pages. simpl.
    by rewrite !list_insert_insert_eq.
Qed.

Lemma UnpinPage_effect (s s' : BufferPoolManager.t) (page_id : Z) (is_dirty v : bool) :
  BufferPoolManager.UnpinPage page_id is_dirty s = (s', Ret v) →
  (v = false ∧ s' = s) ∨
  (∃ f p r1,
     BufferPoolManager.page_table_ s !! page_id = Some f ∧
     BufferPoolManager.frame (BufferPoolManager.pages_ s) f = Some p ∧
     0 < Page.pin_count_ p ∧
     (if decide (Page.pin_count_ p - 1 = 0)
      then LRUKReplacer.SetEvictable f true (BufferPoolManager.replacer_ s) = (r1, Ret tt)
      else r1 = BufferPoolManager.replacer_ s) ∧
     v = true ∧
     s' = BufferPoolManager.mk (BufferPoolManager.pool_size_ s)
            (<[Z.to_nat f := Page.mk (Page.data_ p) (Page.page_id_ p)
                               (Page.pin_count_ p - 1) (Page.is_dirty_ p || is_dirty)
                               (Page.readers_ p) (Page.writer_ p)]>
               (BufferPoolManager.pages_ s))
            (BufferPoolManager.page_table_ s) (BufferPoolManager.free_list_ s) r1
            (BufferPoolManager.next_page_id_ s) (BufferPoolManager.disk_manager_ s)).
Proof.
  intros Hcall.
  destruct (BufferPoolManager.page_table_ s !! page_id) as [f|] eqn:Hpt.
  2: { rewrite UnpinPage_not_resident in Hcall by done. injection Hcall as <- <-.
       by left. }
  destruct (BufferPoolManager.frame (BufferPoolManager.pages_ s) f) as [p|] eqn:Hf.
  2: { unfold BufferPoolManager.UnpinPage, bind, get, BufferPoolManager.page in Hcall.
       rewrite Hpt, Hf in Hcall. discriminate. }
  destruct (decide (Page.pin_count_ p ≤ 0)) as [Hpin|Hpin].
  { rewrite (UnpinPage_not_pinned s page_id is_dirty f p) in Hcall by done.
    injection Hcall as <- <-. by left. }
  right.
  rewrite (UnpinPage_resident s page_id is_dirty f p Hpt Hf) in Hcall by lia.
  cbv zeta in Hcall.
  destruct (decide (Page.pin_count_ p - 1 = 0)) as [H0|H0].
  - unfold BufferPoolManager.on_replacer in Hcall. simpl in Hcall.
    destruct (LRUKReplacer.SetEvictable f true (BufferPoolManager.replacer_ s))
      as [r1 [[]|e|]] eqn:Hr1; try discriminate.
    injection Hcall as <- <-. exists f, p, r1.
    rewrite decide_True by done. split_and!; try done; [lia|].
    unfold BufferPoolManager.set_pages. simpl. by rewrite list_insert_insert_eq.
  - unfold ret in Hcall. injection Hcall as <- <-.
    exists f, p, (BufferPoolManager.replacer_ s).
    rewrite decide_False by done. split_and!; try done; [lia|].
    unfold BufferPoolManager.set_pages. simpl. by rewrite list_insert_insert_eq.
Qed.

Lemma DeletePage_effect (s s' : BufferPoolManager.t) (page_id : Z) (v : bool) :
  BufferPoolManager.DeletePage page_id s = (s', Ret v) →
  (BufferPoolManager.page_table_ s !! page_id = None ∧ v = true ∧ s' = s) ∨
  (∃ f p,
     BufferPoolManager.page_table_ s !! page_id = Some f ∧
     BufferPoolManager.frame (BufferPoolManager.pages_ s) f = Some p ∧
     0 < Page.pin_count_ p ∧ v = false ∧ s' = s) ∨
  (∃ f p r1,
     BufferPoolManager.page_table_ s !! page_id = Some f ∧
     BufferPoolManager.frame (BufferPoolManager.pages_ s) f = Some p ∧
     Page.pin_count_ p ≤ 0 ∧
     LRUKReplacer.Remove f (BufferPoolManager.replacer_ s) = (r1, Ret tt) ∧
     v = true ∧
     s' = BufferPoolManager.mk (BufferPoolManager.pool_size_ s)
            (<[Z.to_nat f := Page.mk zero_page INVALID_PAGE_ID 0 false
                               (Page.readers_ p) (Page.writer_ p)]>
               (BufferPoolManager.pages_ s))
            (delete page_id (BufferPoolManager.page_table_ s))
            (BufferPoolManager.free_list_ s ++ [f]) r1
            (BufferPoolManager.next_page_id_ s) (BufferPoolManager.disk_manager_ s)).
Proof.
  unfold BufferPoolManager.DeletePage, BufferPoolManager.DeallocatePage. intros Hcall.
  apply bind_Ret in Hcall as (? & ? & [= <- <-] & Hcall).
  destruct (BufferPoolManager.page_table_ s !! page_id) as [f|].
  2: { injection Hcall as <- <-. by left. }
  right.
  apply bind_Ret in Hcall as (p & s1 & [-> Hf]%page_Ret & Hcall).
  destruct (decide (0 < Page.pin_count_ p)) as [Hpin|Hpin].
  { injection Hcall as <- <-. left. by exists f, p. }
  right.
  apply bind_Ret in Hcall as ([] & s2 & (r1 & Hr1 & ->)%on_replacer_returns & Hcall).
  apply bind_Ret in Hcall as ([] & s3 & [= <-] & Hcall).
  apply bind_Ret in Hcall as ([] & s4 & (q1 & Hq1 & ->)%update_page_Ret & Hcall).
  apply bind_Ret in Hcall as ([] & s5 & (q2 & Hq2 & ->)%update_page_Ret & Hcall).
  apply bind_Ret in Hcall as ([] & s6 & (q3 & Hq3 & ->)%update_page_Ret & Hcall).
  apply bind_Ret in Hcall as ([] & s7 & (q4 & Hq4 & ->)%update_page_Ret & Hcall).
  apply bind_Ret in Hcall as ([] & s8 & [= <-] & Hcall).
  apply bind_Ret in Hcall as ([] & s9 & [= <-] & [= <- <-]).
  simpl in Hq1, Hq2, Hq3, Hq4.
  assert (q1 = p) as -> by congruence.
  erewrite frame_insert_eq in Hq2 by exact Hf. injection Hq2 as <-.
  erewrite frame_insert_eq in Hq3 by solve_frame. injection Hq3 as <-.
  erewrite frame_insert_eq in Hq4 by solve_frame. injection Hq4 as <-.
  exists f, p, r1. split_and!; try done; [lia|].
  unfold BufferPoolManager.set_pages, BufferPoolManager.set_page_table. simpl.
  by rewrite !list_insert_insert_eq.
Qed.

(** ** Records, pins and the page table in the states of a pool *)

Lemma Evict_victim (r r1 : LRUKReplacer.t) (f : Z) :
  LRUKReplacer.Evict r = (r1, Some f) →
  LRUKReplacer.node_store_ r1 = delete f (LRUKReplacer.node_store_ r) ∧
  ∃ d t, last (LRUKReplacer.st_ r) = Some (d, t, f).
Proof.
  unfold LRUKReplacer.Evict.
  destruct (last (LRUKReplacer.st_ r)) as [[[d t] f0]|]; [|done].
  intros [= <- <-]. eauto.
Qed.

(** [RecordAccess] that returned leaves a record for its frame, with the
    flag the record had before (not evictable if there was none). *)
Lemma RecordAccess_flag (r r2 : LRUKReplacer.t) (f : Z) :
  LRUKReplacer.RecordAccess f r = (r2, Ret tt) →
  ∃ n2, LRUKReplacer.node_store_ r2 !! f = Some n2 ∧
        LRUKNode.is_evictable_ n2 =
          match LRUKReplacer.node_store_ r !! f with
          | Some n => LRUKNode.is_evictable_ n
          | None => false
          end.
Proof.
  unfold LRUKReplacer.RecordAccess.
  destruct (decide (LRUKReplacer.replacer_size_ r < size_t_cast f)) as [Hgt|Hle];
    [done|].
  destruct (LRUKReplacer.node_store_ r !! f) as [n|].
  - destruct (LRUKNode.FirstTime n); try done.
    unfold LRUKNode.Add, LRUKNode.GetEvictable. simpl.
    destruct (LRUKNode.is_evictable_ n) eqn:Hev.
    + destruct (LRUKNode.FirstTime _); try done.
      intros [= <-]. simpl. rewrite lookup_insert_eq. eauto.
    + intros [= <-]. simpl. rewrite lookup_insert_eq. eauto.
  - unfold LRUKNode.Add, LRUKNode.GetEvictable. simpl.
    intros [= <-]. simpl. rewrite lookup_insert_eq. eauto.
Qed.

(** [SetEvictable] that returned has set the flag of the record of its
    frame, if there is one. *)
Lemma SetEvictable_flag (r r' : LRUKReplacer.t) (f : Z) (b : bool) :
  LRUKReplacer.SetEvictable f b r = (r', Ret tt) →
  LRUKReplacer.node_store_ r' !! f =
    (λ n, LRUKNode.SetEvictable n b) <$> LRUKReplacer.node_store_ r !! f.
Proof.
  unfold LRUKReplacer.SetEvictable.
  destruct (LRUKReplacer.node_store_ r !! f) as [n|] eqn:Hn.
  - destruct (decide (LRUKNode.GetEvictable n = b)) as [Heq|Hne].
    + intros [= <-]. rewrite Hn. simpl. f_equal.
      destruct n. unfold LRUKNode.GetEvictable in Heq. simpl in *. by subst.
    + destruct (LRUKNode.FirstTime n); try done.
      intros [= <-]. simpl. by rewrite lookup_insert_eq.
  - intros [= <-]. by rewrite Hn.
Qed.

Lemma Remove_other (r : LRUKReplacer.t) (f g : Z) :
  g ≠ f →
  LRUKReplacer.node_store_ (LRUKReplacer.Remove f r).1 !! g =
  LRUKReplacer.node_store_ r !! g.
Proof.
  intros Hg. unfold LRUKReplacer.Remove.
  destruct (LRUKReplacer.node_store_ r !! f) as [n|]; [|done].
  destruct (LRUKNode.GetEvictable n); [|done].
  destruct (LRUKNode.FirstTime n); try done.
  simpl. by rewrite lookup_delete_ne.
Qed.

(** The pool after the write-back of the victim's page. *)
Lemma victim_written_back (s s2 : BufferPoolManager.t) (r1 : LRUKReplacer.t)
    (p : Page.t) :
  (if Page.is_dirty_ p
   then ∃ b, BufferPoolManager.FlushPage (Page.page_id_ p)
               (BufferPoolManager.set_replacer r1 s) = (s2, Ret b)
   else s2 = BufferPoolManager.set_replacer r1 s) →
  BufferPoolManager.pool_size_ s2 = BufferPoolManager.pool_size_ s ∧
  BufferPoolManager.page_table_ s2 = BufferPoolManager.page_table_ s ∧
  BufferPoolManager.free_list_ s2 = BufferPoolManager.free_list_ s ∧
  BufferPoolManager.replacer_ s2 = r1 ∧
  BufferPoolManager.next_page_id_ s2 = BufferPoolManager.next_page_id_ s ∧
  length (BufferPoolManager.pages_ s2) = length (BufferPoolManager.pages_ s) ∧
  ∀ g, BufferPoolManager.frame (BufferPoolManager.pages_ s2) g =
         BufferPoolManager.frame (BufferPoolManager.pages_ s) g ∨
       ∃ q, BufferPoolManager.frame (BufferPoolManager.pages_ s) g = Some q ∧
            BufferPoolManager.frame (BufferPoolManager.pages_ s2) g =
              Some (Page.set_is_dirty false q).
Proof.
  destruct (Page.is_dirty_ p).
  - intros [b Hflush]. by apply FlushPage_frames in Hflush.
  - intros ->. split_and!; try done. by left.
Qed.

(** *** Evictable records belong to frames that are not pinned *)

Lemma records_match_pins_FlushPage (s s' : BufferPoolManager.t) (page_id : Z) v :
  BufferPoolManager.FlushPage page_id s = (s', Ret v) →
  records_match_pins s → records_match_pins s'.
Proof.
  intros (_ & _ & _ & Hr & _ & _ & Hfr)%FlushPage_frames HI f n Hn.
  rewrite Hr in Hn. destruct (HI f n Hn) as (p & Hp & Hpin).
  destruct (Hfr f) as [Heq|(q & Hq & Heq)].
  - exists p. by rewrite Heq.
  - assert (q = p) as -> by congruence. eauto.
Qed.

Lemma records_match_pins_acquire_frame (s s' : BufferPoolManager.t) (what : string)
    (f : Z) :
  BufferPoolManager.acquire_frame what s = (s', Ret f) →
  records_match_pins s → records_match_pins s'.
Proof.
  intros [(rest & _ & ->)|(r1 & p & s2 & _ & [Hr1 _]%Evict_victim & Hf & Hs2 & ->)]
    %acquire_frame_effect HI; [done|].
  apply victim_written_back in Hs2 as (_ & _ & _ & Hr & _ & _ & Hfr).
  pose proof (frame_Some _ _ _ Hf) as [Hpos _].
  intros g n. simpl. rewrite Hr, Hr1. intros [Hne Hn]%lookup_delete_Some.
  rewrite frame_insert_ne by done.
  destruct (HI g n Hn) as (q & Hq & Hpin).
  destruct (Hfr g) as [Heq|(q0 & Hq0 & Heq)].
  - exists q. by rewrite Heq.
  - assert (q0 = q) as -> by congruence. eauto.
Qed.

(** Installing a page in the acquired frame: the frame is written, the
    access recorded and the record marked non-evictable. *)
Lemma records_match_pins_install (s1 : BufferPoolManager.t) (f : Z) (q q' : Page.t)
    (r2 r3 : LRUKReplacer.t) pool_size page_table free_list next_page_id disk :
  records_match_pins s1 →
  BufferPoolManager.frame (BufferPoolManager.pages_ s1) f = Some q →
  LRUKReplacer.RecordAccess f (BufferPoolManager.replacer_ s1) = (r2, Ret tt) →
  LRUKReplacer.SetEvictable f false r2 = (r3, Ret tt) →
  records_match_pins
    (BufferPoolManager.mk pool_size (<[Z.to_nat f := q']> (BufferPoolManager.pages_ s1))
       page_table free_list r3 next_page_id disk).
Proof.
  intros HI Hq Hr2 Hr3 g n. simpl. intros Hn.
  pose proof (frame_Some _ _ _ Hq) as [Hpos _].
  destruct (decide (g = f)) as [->|Hne].
  - exists q'. split; [by eapply frame_insert_eq|].
    rewrite (SetEvictable_flag _ _ _ _ Hr3) in Hn.
    destruct (LRUKReplacer.node_store_ r2 !! f) as [n2|]; [|done].
    injection Hn as <-. done.
  - rewrite frame_insert_ne by done. apply HI.
    pose proof (SetEvictable_other r2 f g false Hne) as H3.
    pose proof (RecordAccess_other (BufferPoolManager.replacer_ s1) f g Hne) as H2.
    rewrite Hr3 in H3. rewrite Hr2 in H2. simpl in *. congruence.
Qed.

Lemma records_match_pins_NewPage (s s' : BufferPoolManager.t) v :
  BufferPoolManager.NewPage s = (s', Ret v) →
  records_match_pins s → records_match_pins s'.
Proof.
  intros [(_ & _ & ->)|(what & f & s1 & q & r2 & r3 & _ & Hacq & Hq & Hr2 & Hr3 & _ & ->)]
    %NewPage_effect HI; [done|].
  apply records_match_pins_acquire_frame in Hacq; [|done].
  by eapply records_match_pins_install.
Qed.

Lemma records_match_pins_FetchPage (s s' : BufferPoolManager.t) (page_id : Z) v :
  BufferPoolManager.FetchPage page_id s = (s', Ret v) →
  records_match_pins s → records_match_pins s'.
Proof.
  intros [(f & p & r1 & _ & Hf & _ & Hr1 & _ & ->)
         |[(_ & _ & _ & ->)
          |(what & f & s1 & q & r2 & r3 & _ & _ & _ & Hacq & Hq & Hr2 & Hr3 & _ & ->)]]
    %FetchPage_effect HI; [|done|].
  - pose proof (frame_Some _ _ _ Hf) as [Hpos _].
    intros g n. simpl. intros Hn. destruct (decide (g = f)) as [->|Hne].
    + eexists. split; [by eapply frame_insert_eq|].
      rewrite (SetEvictable_flag _ _ _ _ Hr1) in Hn.
      destruct (LRUKReplacer.node_store_ _ !! f) as [n0|]; [|done].
      injection Hn as <-. done.
    + rewrite frame_insert_ne by done. apply HI.
      pose proof (SetEvictable_other (BufferPoolManager.replacer_ s) f g false Hne) as H1.
      rewrite Hr1 in H1. simpl in H1. congruence.
  - apply records_match_pins_acquire_frame in Hacq; [|done].
    by eapply records_match_pins_install.
Qed.

Lemma records_match_pins_UnpinPage (s s' : BufferPoolManager.t) (page_id : Z)
    (is_dirty : bool) v :
  BufferPoolManager.UnpinPage page_id is_dirty s = (s', Ret v) →
  records_match_pins s → records_match_pins s'.
Proof.
  intros [[_ ->]|(f & p & r1 & _ & Hf & Hpin & Hr1 & _ & ->)]%UnpinPage_effect HI;
    [done|].
  pose proof (frame_Some _ _ _ Hf) as [Hpos _].
  intros g n. simpl. intros Hn. destruct (decide (g = f)) as [->|Hne].
  - eexists. split; [by eapply frame_insert_eq|]. simpl. intros Hev.
    destruct (decide (Page.pin_count_ p - 1 = 0)) as [H0|H0]; [lia|]. subst r1.
    destruct (HI f n Hn) as (p0 & Hp0 & Hle).
    assert (p0 = p) as -> by congruence. specialize (Hle Hev). lia.
  - rewrite frame_insert_ne by done. apply HI.
    destruct (decide (Page.pin_count_ p - 1 = 0)) as [H0|H0]; [|by subst r1].
    pose proof (SetEvictable_other (BufferPoolManager.replacer_ s) f g true Hne) as H1.
    rewrite Hr1 in H1. simpl in H1. congruence.
Qed.

Lemma records_match_pins_DeletePage (s s' : BufferPoolManager.t) (page_id : Z) v :
  BufferPoolManager.DeletePage page_id s = (s', Ret v) →
  records_match_pins s → records_match_pins s'.
Proof.
  intros [(_ & _ & ->)|[(f & p & _ & _ & _ & _ & ->)
                       |(f & p & r1 & _ & Hf & _ & Hr1 & _ & ->)]]%DeletePage_effect HI;
    [done|done|].
  pose proof (frame_Some _ _ _ Hf) as [Hpos _].
  intros g n. simpl. intros Hn.
  pose proof (Remove_records (BufferPoolManager.replacer_ s) f g n) as Hrec.
  rewrite Hr1 in Hrec. specialize (Hrec Hn).
  destruct (decide (g = f)) as [->|Hne].
  - eexists. split; [by eapply frame_insert_eq|]. simpl. lia.
  - rewrite frame_insert_ne by done. by apply HI.
Qed.

Lemma pool_reachable_records (k : Z) (s : BufferPoolManager.t) :
  pool_reachable k s → records_match_pins s.
Proof.
  induction 1 as [pool_size disk|s s' v Hs IH Hcall|s s' page_id v Hs IH Hcall
                 |s s' page_id is_dirty v Hs IH Hcall|s s' page_id v Hs IH Hcall
                 |s s' page_id v Hs IH Hcall].
  - intros f n Hn. simpl in Hn. by rewrite lookup_empty in Hn.
  - by eapply records_match_pins_NewPage.
  - by eapply records_match_pins_FetchPage.
  - by eapply records_match_pins_UnpinPage.
  - by eapply records_match_pins_FlushPage.
  - by eapply records_match_pins_DeletePage.
Qed.

(** *** The page table and the free list *)

Lemma page_table_ok_init (pool_size k : Z) (disk : DiskManager.t) :
  page_table_ok (BufferPoolManager.init pool_size k disk).
Proof.
  split_and!; simpl.
  - intros page_id f Hpt. by rewrite lookup_empty in Hpt.
  - intros f (i & -> & Hi)%list_elem_of_fmap. apply elem_of_seq in Hi.
    exists Page.init. split; [|done].
    unfold BufferPoolManager.frame. rewrite decide_True by lia.
    rewrite Nat2Z.id. apply lookup_replicate. split; [done|lia].
  - apply NoDup_fmap; [intros ? ?; lia|apply NoDup_seq].
  - apply length_replicate.
Qed.

Lemma page_table_ok_FlushPage (s s' : BufferPoolManager.t) (page_id : Z) v :
  BufferPoolManager.FlushPage page_id s = (s', Ret v) →
  page_table_ok s → page_table_ok s'.
Proof.
  intros (Hsz & Hpt & Hfl & Hr & _ & Hlen & Hfr)%FlushPage_frames (HM & HF & HN & HL).
  assert (∀ g p, BufferPoolManager.frame (BufferPoolManager.pages_ s) g = Some p →
            ∃ p', BufferPoolManager.frame (BufferPoolManager.pages_ s') g = Some p' ∧
                  Page.page_id_ p' = Page.page_id_ p ∧
                  Page.pin_count_ p' = Page.pin_count_ p) as Hsame.
  { intros g p Hp. destruct (Hfr g) as [Heq|(q & Hq & Heq)].
    - exists p. by rewrite Heq.
    - assert (q = p) as -> by congruence. eauto. }
  split_and!.
  - intros pid f. rewrite Hpt, Hfl, Hr. intros Hf.
    destruct (HM pid f Hf) as ((p & Hp & Hid) & Hfree & Hrec).
    split_and!; try done.
    destruct (Hsame f p Hp) as (p' & Hp' & Hid' & _). exists p'. split; congruence.
  - intros f. rewrite Hfl. intros Hf. destruct (HF f Hf) as (p & Hp & Hid & Hpin).
    destruct (Hsame f p Hp) as (p' & Hp' & Hid' & Hpin'). exists p'.
    split_and!; congruence.
  - by rewrite Hfl.
  - by rewrite Hlen, Hsz.
Qed.

(** The acquired frame is neither in the page table nor in the free
    list. *)
Lemma page_table_ok_acquire_frame (s s' : BufferPoolManager.t) (what : string) (f : Z) :
  BufferPoolManager.acquire_frame what s = (s', Ret f) →
  page_table_ok s →
  page_table_ok s' ∧
  (∀ page_id, BufferPoolManager.page_table_ s' !! page_id ≠ Some f) ∧
  f ∉ BufferPoolManager.free_list_ s'.
Proof.
  intros [(rest & Hfree & ->)|(r1 & p & s2 & Hfree & [Hr1 _]%Evict_victim & Hf & Hs2 & ->)]
    %acquire_frame_effect (HM & HF & HN & HL).
  - rewrite Hfree in HM, HF, HN. apply NoDup_cons in HN as [Hnotin HN].
    unfold page_table_ok. split_and!; simpl; try done.
    + intros pid g Hg. destruct (HM pid g Hg) as (Hp & Hnin & Hrec).
      split_and!; try done. intros Hin. apply Hnin. by right.
    + intros g Hg. apply HF. by right.
    + intros pid Hpid. destruct (HM pid f Hpid) as (_ & Hnin & _).
      apply Hnin. by left.
  - apply victim_written_back in Hs2 as (Hsz & Hpt & Hfl & Hr & _ & Hlen & Hfr).
    pose proof (frame_Some _ _ _ Hf) as [Hpos _].
    rewrite Hfree in *.
    assert (∀ pid g, delete (Page.page_id_ p) (BufferPoolManager.page_table_ s) !! pid
                       = Some g →
                     g ≠ f ∧ BufferPoolManager.page_table_ s !! pid = Some g) as Hmapped.
    { intros pid g [Hne Hg]%lookup_delete_Some. split; [|done]. intros ->.
      destruct (HM pid f Hg) as ((p0 & Hp0 & Hid) & _).
      assert (p0 = p) as -> by congruence. done. }
    unfold page_table_ok. split_and!; simpl; rewrite ?Hpt, ?Hfl, ?Hr, ?Hr1.
    + intros pid g [Hne Hg]%Hmapped.
      destruct (HM pid g Hg) as ((q & Hq & Hid) & _ & Hrec).
      split_and!.
      * rewrite frame_insert_ne by done.
        destruct (Hfr g) as [Heq|(q0 & Hq0 & Heq)].
        -- exists q. by rewrite Heq.
        -- assert (q0 = q) as -> by congruence. eauto.
      * apply not_elem_of_nil.
      * by rewrite lookup_delete_ne.
    + by intros g ?%elem_of_nil.
    + apply NoDup_nil_2.
    + by rewrite length_insert, Hlen, Hsz.
    + intros pid Hpid. by apply Hmapped in Hpid as [? _].
    + apply not_elem_of_nil.
Qed.

Lemma page_table_ok_install (s1 : BufferPoolManager.t) (f page_id : Z) (q q' : Page.t)
    (r2 r3 : LRUKReplacer.t) next_page_id disk :
  page_table_ok s1 →
  (∀ pid, BufferPoolManager.page_table_ s1 !! pid ≠ Some f) →
  f ∉ BufferPoolManager.free_list_ s1 →
  BufferPoolManager.frame (BufferPoolManager.pages_ s1) f = Some q →
  Page.page_id_ q' = page_id →
  LRUKReplacer.RecordAccess f (BufferPoolManager.replacer_ s1) = (r2, Ret tt) →
  LRUKReplacer.SetEvictable f false r2 = (r3, Ret tt) →
  page_table_ok
    (BufferPoolManager.mk (BufferPoolManager.pool_size_ s1)
       (<[Z.to_nat f := q']> (BufferPoolManager.pages_ s1))
       (<[page_id := f]> (BufferPoolManager.page_table_ s1))
       (BufferPoolManager.free_list_ s1) r3 next_page_id disk).
Proof.
  intros (HM & HF & HN & HL) Hunmapped Hnotfree Hq Hid Hr2 Hr3.
  pose proof (frame_Some _ _ _ Hq) as [Hpos _].
  split_and!; simpl; try done.
  - intros pid g [[-> <-]|[Hne Hg]]%lookup_insert_Some.
    + split_and!; try done.
      * exists q'. split; [by eapply frame_insert_eq|done].
      * rewrite (SetEvictable_flag _ _ _ _ Hr3).
        destruct (RecordAccess_flag _ _ _ Hr2) as (n2 & -> & _). by eexists.
    + assert (g ≠ f) as Hgf by (intros ->; by eapply Hunmapped).
      destruct (HM pid g Hg) as (Hp & Hnin & Hrec). split_and!; try done.
      * by rewrite frame_insert_ne.
      * pose proof (SetEvictable_other r2 f g false Hgf) as H3.
        pose proof (RecordAccess_other (BufferPoolManager.replacer_ s1) f g Hgf) as H2.
        rewrite Hr3 in H3. rewrite Hr2 in H2. simpl in *. by rewrite H3, H2.
  - intros g Hg. assert (g ≠ f) as Hgf by (by intros ->).
    rewrite frame_insert_ne by done. by apply HF.
  - by rewrite length_insert.
Qed.

Lemma page_table_ok_NewPage (s s' : BufferPoolManager.t) v :
  BufferPoolManager.NewPage s = (s', Ret v) →
  page_table_ok s → page_table_ok s'.
Proof.
  intros [(_ & _ & ->)|(what & f & s1 & q & r2 & r3 & _ & Hacq & Hq & Hr2 & Hr3 & _ & ->)]
    %NewPage_effect HI; [done|].
  apply page_table_ok_acquire_frame in Hacq as (HI1 & Hunmapped & Hnotfree); [|done].
  by eapply page_table_ok_install.
Qed.

(** A write to a frame of the page table that keeps its page id, with a
    replacer that still has a record for every frame it had one for. *)
Lemma page_table_ok_update (s : BufferPoolManager.t) (page_id f : Z) (p p' : Page.t)
    (r1 : LRUKReplacer.t) :
  page_table_ok s →
  BufferPoolManager.page_table_ s !! page_id = Some f →
  BufferPoolManager.frame (BufferPoolManager.pages_ s) f = Some p →
  Page.page_id_ p' = Page.page_id_ p →
  (∀ g, is_Some (LRUKReplacer.node_store_ (BufferPoolManager.replacer_ s) !! g) →
        is_Some (LRUKReplacer.node_store_ r1 !! g)) →
  page_table_ok
    (BufferPoolManager.mk (BufferPoolManager.pool_size_ s)
       (<[Z.to_nat f := p']> (BufferPoolManager.pages_ s))
       (BufferPoolManager.page_table_ s) (BufferPoolManager.free_list_ s) r1
       (BufferPoolManager.next_page_id_ s) (BufferPoolManager.disk_manager_ s)).
Proof.
  intros (HM & HF & HN & HL) Hpt Hf Hid Hrecs.
  pose proof (frame_Some _ _ _ Hf) as [Hpos _].
  destruct (HM page_id f Hpt) as (_ & Hnotfree & _).
  split_and!; simpl; try done.
  - intros pid g Hg. destruct (HM pid g Hg) as ((q & Hq & Hqid) & Hnin & Hrec).
    split_and!; try done; [|by apply Hrecs].
    destruct (decide (g = f)) as [->|Hne].
    + exists p'. split; [by eapply frame_insert_eq|]. congruence.
    + exists q. by rewrite frame_insert_ne.
  - intros g Hg. assert (g ≠ f) as Hgf by (by intros ->).
    rewrite frame_insert_ne by done. by apply HF.
  - by rewrite length_insert.
Qed.

Lemma SetEvictable_keeps_records (r r1 : LRUKReplacer.t) (f : Z) (b : bool) (g : Z) :
  LRUKReplacer.SetEvictable f b r = (r1, Ret tt) →
  is_Some (LRUKReplacer.node_store_ r !! g) →
  is_Some (LRUKReplacer.node_store_ r1 !! g).
Proof.
  intros Hr1 Hg. destruct (decide (g = f)) as [->|Hne].
  - rewrite (SetEvictable_flag _ _ _ _ Hr1). by apply fmap_is_Some.
  - pose proof (SetEvictable_other r f g b Hne) as H1.
    rewrite Hr1 in H1. simpl in H1. by rewrite H1.
Qed.

Lemma page_table_ok_FetchPage (s s' : BufferPoolManager.t) (page_id : Z) v :
  BufferPoolManager.FetchPage page_id s = (s', Ret v) →
  page_table_ok s → page_table_ok s'.
Proof.
  intros [(f & p & r1 & Hpt & Hf & _ & Hr1 & _ & ->)
         |[(_ & _ & _ & ->)
          |(what & f & s1 & q & r2 & r3 & _ & _ & _ & Hacq & Hq & Hr2 & Hr3 & _ & ->)]]
    %FetchPage_effect HI; [|done|].
  - eapply page_table_ok_update; try done.
    intros g. by eapply SetEvictable_keeps_records.
  - apply page_table_ok_acquire_frame in Hacq as (HI1 & Hunmapped & Hnotfree); [|done].
    by eapply page_table_ok_install.
Qed.

Lemma page_table_ok_UnpinPage (s s' : BufferPoolManager.t) (page_id : Z)
    (is_dirty : bool) v :
  BufferPoolManager.UnpinPage page_id is_dirty s = (s', Ret v) →
  page_table_ok s → page_table_ok s'.
Proof.
  intros [[_ ->]|(f & p & r1 & Hpt & Hf & Hpin & Hr1 & _ & ->)]%UnpinPage_effect HI;
    [done|].
  eapply page_table_ok_update; try done.
  intros g. destruct (decide (Page.pin_count_ p - 1 = 0)) as [H0|H0].
  - by eapply SetEvictable_keeps_records.
  - by subst r1.
Qed.

Lemma page_table_ok_DeletePage (s s' : BufferPoolManager.t) (page_id : Z) v :
  BufferPoolManager.DeletePage page_id s = (s', Ret v) →
  page_table_ok s → page_table_ok s'.
Proof.
  intros [(_ & _ & ->)|[(f & p & _ & _ & _ & _ & ->)
                       |(f & p & r1 & Hpt & Hf & _ & Hr1 & _ & ->)]]%DeletePage_effect
    (HM & HF & HN & HL); [done|done|].
  pose proof (frame_Some _ _ _ Hf) as [Hpos _].
  destruct (HM page_id f Hpt) as (_ & Hnotfree & _).
  split_and!; simpl.
  - intros pid g [Hne Hg]%lookup_delete_Some.
    destruct (HM pid g Hg) as ((q & Hq & Hqid) & Hnin & Hrec).
    assert (g ≠ f) as Hgf.
    { intros ->. assert (q = p) as -> by congruence.
      destruct (HM page_id f Hpt) as ((p0 & Hp0 & Hid0) & _).
      assert (p0 = p) as -> by congruence. congruence. }
    split_and!.
    + exists q. by rewrite frame_insert_ne.
    + rewrite elem_of_app, list_elem_of_singleton. tauto.
    + pose proof (Remove_other (BufferPoolManager.replacer_ s) f g Hgf) as H1.
      rewrite Hr1 in H1. simpl in H1. by rewrite H1.
  - intros g [Hg| ->%list_elem_of_singleton]%elem_of_app.
    + assert (g ≠ f) as Hgf by (by intros ->).
      rewrite frame_insert_ne by done. by apply HF.
    + eexists. split; [by eapply frame_insert_eq|done].
  - apply NoDup_app. split_and!; [done| |apply NoDup_singleton].
    intros g Hg ->%list_elem_of_singleton. done.
  - by rewrite length_insert.
Qed.

Lemma pool_reachable_page_table (k : Z) (s : BufferPoolManager.t) :
  pool_reachable k s → page_table_ok s.
Proof.
  induction 1 as [pool_size disk|s s' v Hs IH Hcall|s s' page_id v Hs IH Hcall
                 |s s' page_id is_dirty v Hs IH Hcall|s s' page_id v Hs IH Hcall
                 |s s' page_id v Hs IH Hcall].
  - apply page_table_ok_init.
  - by eapply page_table_ok_NewPage.
  - by eapply page_table_ok_FetchPage.
  - by eapply page_table_ok_UnpinPage.
  - by eapply page_table_ok_FlushPage.
  - by eapply page_table_ok_DeletePage.
Qed.

(** *** States of a pool whose latches are in use *)

Lemma latch_step_fields (p p' : Page.t) :
  latch_step p p' →
  Page.data_ p' = Page.data_ p ∧ Page.page_id_ p' = Page.page_id_ p ∧
  Page.pin_count_ p' = Page.pin_count_ p ∧ Page.is_dirty_ p' = Page.is_dirty_ p.
Proof.
  unfold latch_step, RLatch, WLatch, Page.RUnlatch, Page.WUnlatch.
  intros [H|[H|[H|H]]]; destruct (Page.writer_ p), (Page.readers_ p);
    try done; by injection H as <-.
Qed.

Lemma pool_inv_page_table (k : Z) (s : BufferPoolManager.t) :
  pool_inv k s → page_table_ok s.
Proof. by intros (_ & _ & _ & ?). Qed.

Lemma pool_inv_pins (k : Z) (s : BufferPoolManager.t) :
  pool_inv k s → pins_tracked s.
Proof. by intros (_ & ? & _). Qed.

Lemma pool_inv_records (k : Z) (s : BufferPoolManager.t) :
  pool_inv k s → records_match_pins s.
Proof. by intros (_ & _ & ? & _). Qed.

Lemma pool_inv_conditions (k : Z) (s : BufferPoolManager.t) :
  0 < k →
  pool_inv k s →
  index_consistent (BufferPoolManager.replacer_ s) ∧
  ∀ f, history_recorded (BufferPoolManager.replacer_ s) f.
Proof.
  intros Hk ([Hr Heq] & _). split.
  - by apply replacer_reachable_consistent.
  - apply replacer_reachable_recorded; [done|]. by rewrite Heq.
Qed.

Lemma pool_reachable_inv (k : Z) (s : BufferPoolManager.t) :
  0 < k → pool_reachable k s → pool_inv k s.
Proof.
  intros Hk Hs. split_and!.
  - by apply pool_reachable_replacer.
  - by apply (pool_reachable_pins k Hk).
  - by eapply pool_reachable_records.
  - by eapply pool_reachable_page_table.
Qed.

Lemma pool_inv_NewPage (k : Z) (s s' : BufferPoolManager.t) v :
  BufferPoolManager.NewPage s = (s', Ret v) → pool_inv k s → pool_inv k s'.
Proof.
  intros Hcall (Hrep & Hpins & Hrecs & Hpt). split_and!.
  - pose proof (preserves_NewPage k s Hrep) as H. by rewrite Hcall in H.
  - by eapply pins_tracked_NewPage.
  - by eapply records_match_pins_NewPage.
  - by eapply page_table_ok_NewPage.
Qed.

Lemma pool_inv_FetchPage (k : Z) (s s' : BufferPoolManager.t) (page_id : Z) v :
  BufferPoolManager.FetchPage page_id s = (s', Ret v) → pool_inv k s → pool_inv k s'.
Proof.
  intros Hcall (Hrep & Hpins & Hrecs & Hpt). split_and!.
  - pose proof (preserves_FetchPage k page_id s Hrep) as H. by rewrite Hcall in H.
  - by eapply pins_tracked_FetchPage.
  - by eapply records_match_pins_FetchPage.
  - by eapply page_table_ok_FetchPage.
Qed.

Lemma pool_inv_UnpinPage (k : Z) (s s' : BufferPoolManager.t) (page_id : Z)
    (is_dirty : bool) v :
  0 < k →
  BufferPoolManager.UnpinPage page_id is_dirty s = (s', Ret v) →
  pool_inv k s → pool_inv k s'.
Proof.
  intros Hk Hcall Hs. destruct (pool_inv_conditions k s Hk Hs) as [_ Hrec].
  destruct Hs as (Hrep & Hpins & Hrecs & Hpt). split_and!.
  - pose proof (preserves_UnpinPage k page_id is_dirty s Hrep) as H.
    by rewrite Hcall in H.
  - by eapply pins_tracked_UnpinPage.
  - by eapply records_match_pins_UnpinPage.
  - by eapply page_table_ok_UnpinPage.
Qed.

Lemma pool_inv_FlushPage (k : Z) (s s' : BufferPoolManager.t) (page_id : Z) v :
  BufferPoolManager.FlushPage page_id s = (s', Ret v) → pool_inv k s → pool_inv k s'.
Proof.
  intros Hcall (Hrep & Hpins & Hrecs & Hpt). split_and!.
  - pose proof (preserves_FlushPage k page_id s Hrep) as H. by rewrite Hcall in H.
  - by eapply pins_tracked_FlushPage.
  - by eapply records_match_pins_FlushPage.
  - by eapply page_table_ok_FlushPage.
Qed.

Lemma pool_inv_DeletePage (k : Z) (s s' : BufferPoolManager.t) (page_id : Z) v :
  0 < k →
  BufferPoolManager.DeletePage page_id s = (s', Ret v) →
  pool_inv k s → pool_inv k s'.
Proof.
  intros Hk Hcall Hs. destruct (pool_inv_conditions k s Hk Hs) as [_ Hrec].
  destruct Hs as (Hrep & Hpins & Hrecs & Hpt). split_and!.
  - pose proof (preserves_DeletePage k page_id s Hrep) as H. by rewrite Hcall in H.
  - by eapply pins_tracked_DeletePage.
  - by eapply records_match_pins_DeletePage.
  - by eapply page_table_ok_DeletePage.
Qed.

(** A write to a frame that keeps its page id and its pin count, as the
    calls on the latch do. *)
Lemma pool_inv_set_frame (k : Z) (s : BufferPoolManager.t) (f : Z) (p p' : Page.t) :
  pool_inv k s →
  BufferPoolManager.frame (BufferPoolManager.pages_ s) f = Some p →
  Page.page_id_ p' = Page.page_id_ p →
  Page.pin_count_ p' = Page.pin_count_ p →
  pool_inv k
    (BufferPoolManager.set_pages (<[Z.to_nat f := p']> (BufferPoolManager.pages_ s)) s).
Proof.
  intros (Hrep & Hpins & Hrecs & HM & HF & HN & HL) Hf Hid Hpin.
  pose proof (frame_Some _ _ _ Hf) as [Hpos _].
  assert (∀ g q, BufferPoolManager.frame (BufferPoolManager.pages_ s) g = Some q →
            ∃ q', BufferPoolManager.frame
                    (<[Z.to_nat f := p']> (BufferPoolManager.pages_ s)) g = Some q' ∧
                  Page.page_id_ q' = Page.page_id_ q ∧
                  Page.pin_count_ q' = Page.pin_count_ q) as Hsame.
  { intros g q Hg. destruct (decide (f = g)) as [<-|Hne].
    - exists p'. split; [by eapply frame_insert_eq|]. split; congruence.
    - exists q. by rewrite frame_insert_ne. }
  split_and!.
  - done.
  - pose proof Hpins as [HNn HK]. apply (pins_tracked_update s f p p'); try done.
    + rewrite Hpin. by eapply HNn.
    + intros n Hn. rewrite Hpin. by eapply HK.
  - intros g n Hn. simpl in Hn. destruct (Hrecs g n Hn) as (q & Hq & Hle).
    destruct (Hsame g q Hq) as (q' & Hq' & _ & Hpin'). exists q'. simpl.
    split; [done|]. rewrite Hpin'. done.
  - unfold page_table_ok. simpl. split_and!.
    + intros pid g Hg. destruct (HM pid g Hg) as ((q & Hq & Hqid) & Hfree & Hrec).
      split_and!; try done.
      destruct (Hsame g q Hq) as (q' & Hq' & Hid' & _). exists q'. split; congruence.
    + intros g Hg. destruct (HF g Hg) as (q & Hq & Hqid & Hqpin).
      destruct (Hsame g q Hq) as (q' & Hq' & Hid' & Hpin'). exists q'.
      split_and!; congruence.
    + done.
    + by rewrite length_insert.
Qed.

(** What holds in every state of a pool created with [k >= 1], whether its
    latches are held or not. *)
Lemma pool_reachable_latched_inv (k : Z) (s : BufferPoolManager.t) :
  0 < k → pool_reachable_latched k s → pool_inv k s.
Proof.
  intros Hk.
  induction 1 as [pool_size disk|s s' v Hs IH Hcall|s s' page_id v Hs IH Hcall
                 |s s' page_id is_dirty v Hs IH Hcall|s s' page_id v Hs IH Hcall
                 |s s' page_id v Hs IH Hcall|s f p p' Hs IH Hf Hstep].
  - apply pool_reachable_inv; [done|]. apply pool_init.
  - by eapply pool_inv_NewPage.
  - by eapply pool_inv_FetchPage.
  - by eapply pool_inv_UnpinPage.
  - by eapply pool_inv_FlushPage.
  - by eapply pool_inv_DeletePage.
  - destruct (latch_step_fields p p' Hstep) as (_ & Hid & Hpin & _).
    by eapply pool_inv_set_frame.
Qed.

(** The states reached without a call on a latch are among them. *)
Lemma pool_reachable_is_latched (k : Z) (s : BufferPoolManager.t) :
  pool_reachable k s → pool_reachable_latched k s.
Proof.
  induction 1 as [pool_size disk|s s' v Hs IH Hcall|s s' page_id v Hs IH Hcall
                 |s s' page_id is_dirty v Hs IH Hcall|s s' page_id v Hs IH Hcall
                 |s s' page_id v Hs IH Hcall].
  - apply latched_init.
  - by eapply latched_NewPage.
  - by eapply latched_FetchPage.
  - by eapply latched_UnpinPage.
  - by eapply latched_FlushPage.
  - by eapply latched_DeletePage.
Qed.

(** *** The example pools are states of a pool *)

Lemma pool_reachable_exec_NewPage (k : Z) (s : BufferPoolManager.t) v :
  pool_reachable k s →
  (BufferPoolManager.NewPage s).2 = Ret v →
  pool_reachable k (exec BufferPoolManager.NewPage s).
Proof.
  intros Hs Hv. apply (pool_NewPage k s _ v Hs). unfold exec.
  destruct (BufferPoolManager.NewPage s) as [s' o]. simpl in *. by subst.
Qed.

Lemma pool_reachable_exec_FetchPage (k : Z) (s : BufferPoolManager.t) page_id v :
  pool_reachable k s →
  (BufferPoolManager.FetchPage page_id s).2 = Ret v →
  pool_reachable k (exec (BufferPoolManager.FetchPage page_id) s).
Proof.
  intros Hs Hv. apply (pool_FetchPage k s _ page_id v Hs). unfold exec.
  destruct (BufferPoolManager.FetchPage page_id s) as [s' o]. simpl in *. by subst.
Qed.

Lemma pool_reachable_exec_UnpinPage (k : Z) (s : BufferPoolManager.t) page_id is_dirty v :
  pool_reachable k s →
  (BufferPoolManager.UnpinPage page_id is_dirty s).2 = Ret v →
  pool_reachable k (exec (BufferPoolManager.UnpinPage page_id is_dirty) s).
Proof.
  intros Hs Hv. apply (pool_UnpinPage k s _ page_id is_dirty v Hs). unfold exec.
  destruct (BufferPoolManager.UnpinPage page_id is_dirty s) as [s' o]. simpl in *.
  by subst.
Qed.

Lemma pool_fresh_reachable : pool_reachable 2 pool_fresh.
Proof. apply pool_init. Qed.

Lemma pool_one_pinned_reachable : pool_reachable 2 pool_one_pinned.
Proof.
  apply (pool_reachable_exec_NewPage 2 _ (Some (0, 0))); [apply pool_fresh_reachable|].
  vm_compute. reflexivity.
Qed.

Lemma pool_one_dirty_reachable : pool_reachable 2 pool_one_dirty.
Proof.
  apply (pool_reachable_exec_UnpinPage 2 _ 0 true true);
    [apply pool_one_pinned_reachable|].
  vm_compute. reflexivity.
Qed.

Lemma pool_full_unpinned_reachable : pool_reachable 2 pool_full_unpinned.
Proof.
  assert (pool_full_unpinned =
          exec (BufferPoolManager.UnpinPage 1 false)
            (exec BufferPoolManager.NewPage pool_one_dirty)) as ->
    by (vm_compute; reflexivity).
  apply (pool_reachable_exec_UnpinPage 2 _ 1 false true); [|vm_compute; reflexivity].
  apply (pool_reachable_exec_NewPage 2 _ (Some (1, 1))); [|vm_compute; reflexivity].
  apply pool_one_dirty_reachable.
Qed.

Lemma pool_all_pinned_reachable : pool_reachable 2 pool_all_pinned.
Proof.
  apply (pool_reachable_exec_NewPage 2 _ (Some (1, 1)));
    [apply pool_one_pinned_reachable|].
  vm_compute. reflexivity.
Qed.

(** *** Consequences *)

Lemma acquire_frame_unpinned (k : Z) (s s1 : BufferPoolManager.t) (what : string)
    (f : Z) :
  0 < k →
  pool_reachable k s →
  BufferPoolManager.acquire_frame what s = (s1, Ret f) →
  ∃ p, BufferPoolManager.frame (BufferPoolManager.pages_ s) f = Some p ∧
       Page.pin_count_ p = 0.
Proof.
  intros Hk Hs
    [(rest & Hfree & _)|(r1 & p & s2 & _ & (_ & d & t & Hlast)%Evict_victim & Hf & _)]
    %acquire_frame_effect.
  - destruct (pool_reachable_page_table k s Hs) as (_ & HF & _).
    destruct (HF f) as (p & Hp & _ & Hpin); [rewrite Hfree; by left|]. eauto.
  - exists p. split; [done|].
    destruct (pool_reachable_conditions k s Hk Hs) as [(_ & Hent & _) _].
    pose proof (pool_reachable_pins k Hk s Hs) as [HN _].
    pose proof (pool_reachable_records k s Hs) as HR.
    apply last_Some in Hlast as (l' & Hl').
    rewrite Hl', Forall_app, Forall_singleton in Hent. destruct Hent as [_ Hent].
    unfold index_entry_ok in Hent. simpl in Hent.
    destruct (LRUKReplacer.node_store_ (BufferPoolManager.replacer_ s) !! f)
      as [n|] eqn:Hn; [|done].
    destruct Hent as (Hev & _).
    destruct (HR f n Hn) as (p0 & Hp0 & Hle).
    assert (p0 = p) as -> by congruence.
    specialize (Hle Hev). specialize (HN f p Hf). lia.
Qed.

(** X6. The frame that [NewPage] and [FetchPage] take over for a page is
    never pinned: in every state of a pool created with [k >= 1], the frame
    that the frame-acquisition statements hand out, from the free list or as
    the victim of [Evict], has pin count 0. *)
Theorem acquired_frame_not_pinned (k : Z) (s s1 : BufferPoolManager.t) (what : string)
    (f : Z) :
  0 < k →
  pool_reachable k s →
  BufferPoolManager.acquire_frame what s = (s1, Ret f) →
  ∃ p, BufferPoolManager.frame (BufferPoolManager.pages_ s) f = Some p ∧
       Page.pin_count_ p = 0.
Proof. apply acquire_frame_unpinned. Qed.

Lemma acquired_frame_not_pinned_witness :
  ∃ p, BufferPoolManager.frame (BufferPoolManager.pages_ pool_full_unpinned) 0 = Some p ∧
       Page.pin_count_ p = 0.
Proof.
  apply (acquired_frame_not_pinned 2 pool_full_unpinned
           (exec (BufferPoolManager.acquire_frame EmptyString) pool_full_unpinned)
           EmptyString 0).
  - lia.
  - apply pool_full_unpinned_reachable.
  - vm_compute. reflexivity.
Defined.

(** X7. The evictable flag of a record mirrors the pin count of its frame:
    in every state of a pool created with [k >= 1], a frame with a record in
    the replacer is a frame of the pool, its pin count is not negative, and
    its record is evictable exactly when the pin count is 0. *)
Theorem evictable_iff_unpinned (k : Z) (s : BufferPoolManager.t) (f : Z)
    (n : LRUKNode.t) :
  0 < k →
  pool_reachable k s →
  LRUKReplacer.node_store_ (BufferPoolManager.replacer_ s) !! f = Some n →
  ∃ p, BufferPoolManager.frame (BufferPoolManager.pages_ s) f = Some p ∧
       0 ≤ Page.pin_count_ p ∧
       (LRUKNode.is_evictable_ n = true ↔ Page.pin_count_ p = 0).
Proof.
  intros Hk Hs Hn.
  pose proof (pool_reachable_pins k Hk s Hs) as [HN HK].
  destruct (pool_reachable_records k s Hs f n Hn) as (p & Hp & Hle).
  exists p. pose proof (HN f p Hp). split_and!; try done.
  split.
  - intros Hev. specialize (Hle Hev). lia.
  - intros H0. apply (HK f p n Hp Hn). lia.
Qed.

Lemma evictable_iff_unpinned_witness :
  ∃ p, BufferPoolManager.frame (BufferPoolManager.pages_ pool_one_dirty) 0 = Some p ∧
       0 ≤ Page.pin_count_ p ∧
       (LRUKNode.is_evictable_ (LRUKNode.mk [1] 2 0 true) = true ↔ Page.pin_count_ p = 0).
Proof.
  apply (evictable_iff_unpinned 2 pool_one_dirty 0).
  - lia.
  - apply pool_one_dirty_reachable.
  - vm_compute. reflexivity.
Defined.

(** X8. The page table of a pool maps a page id to a frame that holds the
    page with this id and is not in the free list, and it maps no other page
    id to that frame. *)
Theorem page_table_maps_to_holding_frame (k : Z) (s : BufferPoolManager.t)
    (page_id f : Z) :
  pool_reachable k s →
  BufferPoolManager.page_table_ s !! page_id = Some f →
  (∃ p, BufferPoolManager.frame (BufferPoolManager.pages_ s) f = Some p ∧
        Page.page_id_ p = page_id) ∧
  (f ∉ BufferPoolManager.free_list_ s) ∧
  ∀ page_id', BufferPoolManager.page_table_ s !! page_id' = Some f →
              page_id' = page_id.
Proof.
  intros Hs Hpt. destruct (pool_reachable_page_table k s Hs) as (HM & _).
  destruct (HM page_id f Hpt) as ((p & Hp & Hid) & Hnin & _).
  split_and!; eauto.
  intros pid' Hpid'. destruct (HM pid' f Hpid') as ((p' & Hp' & Hid') & _).
  congruence.
Qed.

Lemma page_table_maps_to_holding_frame_witness :
  (∃ p, BufferPoolManager.frame (BufferPoolManager.pages_ pool_full_unpinned) 1 = Some p ∧
        Page.page_id_ p = 1) ∧
  (1 ∉ BufferPoolManager.free_list_ pool_full_unpinned) ∧
  ∀ page_id', BufferPoolManager.page_table_ pool_full_unpinned !! page_id' = Some 1 →
              page_id' = 1.
Proof.
  apply (page_table_maps_to_holding_frame 2 pool_full_unpinned 1 1).
  - apply pool_full_unpinned_reachable.
  - vm_compute. reflexivity.
Defined.

(** X9. A frame in the free list of a pool holds no page: its page id is
    [INVALID_PAGE_ID], it is not pinned, the page table maps no page to it,
    and it occurs once in the free list. *)
Theorem free_frames_hold_no_page (k : Z) (s : BufferPoolManager.t) (f : Z) :
  pool_reachable k s →
  f ∈ BufferPoolManager.free_list_ s →
  (∃ p, BufferPoolManager.frame (BufferPoolManager.pages_ s) f = Some p ∧
        Page.page_id_ p = INVALID_PAGE_ID ∧ Page.pin_count_ p = 0) ∧
  (∀ page_id, BufferPoolManager.page_table_ s !! page_id ≠ Some f) ∧
  NoDup (BufferPoolManager.free_list_ s).
Proof.
  intros Hs Hf. destruct (pool_reachable_page_table k s Hs) as (HM & HF & HN & _).
  split_and!; [by apply HF| |done].
  intros pid Hpid. by destruct (HM pid f Hpid) as (_ & Hnin & _).
Qed.

Lemma free_frames_hold_no_page_witness :
  (∃ p, BufferPoolManager.frame (BufferPoolManager.pages_ pool_one_pinned) 1 = Some p ∧
        Page.page_id_ p = INVALID_PAGE_ID ∧ Page.pin_count_ p = 0) ∧
  (∀ page_id, BufferPoolManager.page_table_ pool_one_pinned !! page_id ≠ Some 1) ∧
  NoDup (BufferPoolManager.free_list_ pool_one_pinned).
Proof.
  apply (free_frames_hold_no_page 2 pool_one_pinned 1).
  - apply pool_one_pinned_reachable.
  - vm_compute. apply list_elem_of_singleton. reflexivity.
Defined.

(** When the page table has as many entries as the pool has frames, every
    frame of the pool is in the page table. *)
Lemma full_page_table_maps_all (s : BufferPoolManager.t) (f : Z) :
  page_table_ok s →
  Z.of_nat (size (BufferPoolManager.page_table_ s)) = BufferPoolManager.pool_size_ s →
  0 ≤ f < BufferPoolManager.pool_size_ s →
  ∃ page_id, BufferPoolManager.page_table_ s !! page_id = Some f.
Proof.
  intros (HM & _ & _ & HL) Hsize Hf.
  set (m := BufferPoolManager.page_table_ s) in *.
  set (vs := (map_to_list m).*2).
  set (all := Z.of_nat <$> seq 0 (Z.to_nat (BufferPoolManager.pool_size_ s))).
  assert (NoDup vs) as Hnd.
  { apply NoDup_fmap_2_strong; [|apply NoDup_map_to_list].
    intros [k1 v1] [k2 v2] H1%elem_of_map_to_list H2%elem_of_map_to_list. simpl.
    intros <-. f_equal.
    destruct (HM k1 v1 H1) as ((p1 & Hp1 & <-) & _).
    destruct (HM k2 v1 H2) as ((p2 & Hp2 & <-) & _). congruence. }
  assert (∀ v, v ∈ vs → v ∈ all) as Hsub.
  { intros v ([k1 v1] & -> & Hkv%elem_of_map_to_list)%list_elem_of_fmap. simpl.
    destruct (HM k1 v1 Hkv) as ((p & [Hpos Hp]%frame_Some & _) & _).
    apply lookup_lt_Some in Hp. rewrite HL in Hp.
    apply list_elem_of_fmap. exists (Z.to_nat v1). split; [lia|].
    apply elem_of_seq. lia. }
  assert (vs ≡ₚ all) as Hperm.
  { apply submseteq_length_Permutation; [by apply NoDup_submseteq|].
    unfold vs, all. rewrite !length_fmap, length_seq, length_map_to_list. lia. }
  assert (f ∈ vs) as ([k1 v1] & -> & Hkv%elem_of_map_to_list)%list_elem_of_fmap.
  { rewrite Hperm. apply list_elem_of_fmap. exists (Z.to_nat f). split; [lia|].
    apply elem_of_seq. lia. }
  by exists k1.
Qed.

(** X10. [NewPage] returns [nullptr] only when every frame is pinned: in a
    state of a pool created with [k >= 1], if [NewPage] returns [nullptr],
    then the pool is unchanged and every frame of the pool has a positive
    pin count. *)
Theorem NewPage_nullptr_all_pinned (k : Z) (s s' : BufferPoolManager.t) :
  0 < k →
  pool_reachable k s →
  BufferPoolManager.NewPage s = (s', Ret None) →
  s' = s ∧
  ∀ f, 0 ≤ f < BufferPoolManager.pool_size_ s →
       ∃ p, BufferPoolManager.frame (BufferPoolManager.pages_ s) f = Some p ∧
            0 < Page.pin_count_ p.
Proof.
  intros Hk Hs [([Hsize Hnone] & _ & ->)|(? & ? & ? & ? & ? & ? & _ & _ & _ & _ & _ & ? & _)]
    %NewPage_effect; [|done].
  split; [done|]. intros f Hf.
  pose proof (pool_reachable_page_table k s Hs) as HPT.
  destruct (full_page_table_maps_all s f HPT Hsize Hf) as (pid & Hpid).
  destruct HPT as (HM & _).
  destruct (HM pid f Hpid) as ((p & Hp & _) & _ & [n Hn]).
  exists p. split; [done|].
  destruct (decide (0 < Page.pin_count_ p)) as [Hpin|Hpin]; [done|].
  pose proof (pool_reachable_pins k Hk s Hs) as [_ HK].
  assert (LRUKNode.is_evictable_ n = true) as Hev by (apply (HK f p n Hp Hn); lia).
  destruct (pool_reachable_conditions k s Hk Hs) as [(_ & _ & Hnodes) _].
  specialize (Hnodes f n Hn Hev).
  unfold LRUKReplacer.Size in Hnone.
  destruct (LRUKReplacer.st_ (BufferPoolManager.replacer_ s)) as [|a l]; [|done].
  destruct (LRUKNode.history_ n); [done|]. by apply elem_of_nil in Hnodes.
Qed.

Lemma NewPage_nullptr_all_pinned_witness :
  exec BufferPoolManager.NewPage pool_all_pinned = pool_all_pinned ∧
  ∀ f, 0 ≤ f < BufferPoolManager.pool_size_ pool_all_pinned →
       ∃ p, BufferPoolManager.frame (BufferPoolManager.pages_ pool_all_pinned) f = Some p ∧
            0 < Page.pin_count_ p.
Proof.
  apply (NewPage_nullptr_all_pinned 2 pool_all_pinned).
  - lia.
  - apply pool_all_pinned_reachable.
  - vm_compute. reflexivity.
Defined.

(** [FetchPage] of a resident page, and the [UnpinPage] that undoes it. *)
Lemma FetchPage_then_UnpinPage_inv (k : Z) (s : BufferPoolManager.t)
    (page_id f : Z) (p : Page.t) :
  0 < k →
  pool_inv k s →
  BufferPoolManager.page_table_ s !! page_id = Some f →
  BufferPoolManager.frame (BufferPoolManager.pages_ s) f = Some p →
  Page.pin_count_ p < INT_MAX →
  ∃ s1,
    BufferPoolManager.FetchPage page_id s = (s1, Ret (Some f)) ∧
    BufferPoolManager.frame (BufferPoolManager.pages_ s1) f =
      Some (Page.set_pin_count (Page.pin_count_ p + 1) p) ∧
    BufferPoolManager.UnpinPage page_id false s1 = (s, Ret true).
Proof.
  intros Hk Hs Hpt Hf Hmax.
  destruct (pool_inv_conditions k s Hk Hs) as [Hidx Hrec].
  destruct (pool_inv_page_table k s Hs) as (HM & _).
  destruct (HM page_id f Hpt) as (_ & _ & [n Hn]).
  pose proof (pool_inv_pins k s Hs) as [HN HK].
  pose proof (pool_inv_records k s Hs f n Hn) as (p0 & Hp0 & Hle).
  assert (p0 = p) as -> by congruence.
  pose proof (HN f p Hf) as Hpos.
  pose proof (Hrec f) as Hh. unfold history_recorded in Hh. rewrite Hn in Hh.
  set (p1 := Page.set_pin_count (Page.pin_count_ p + 1) p).
  assert (∃ r1,
    LRUKReplacer.SetEvictable f false (BufferPoolManager.replacer_ s) = (r1, Ret tt) ∧
    (if decide (Page.pin_count_ p1 - 1 = 0)
     then LRUKReplacer.SetEvictable f true r1 = (BufferPoolManager.replacer_ s, Ret tt)
     else r1 = BufferPoolManager.replacer_ s)) as (r1 & Hr1 & Hback).
  { destruct (decide (Page.pin_count_ p = 0)) as [H0|H0].
    - assert (LRUKNode.is_evictable_ n = true) as Hev by (apply (HK f p n Hf Hn); lia).
      pose proof (SetEvictable_toggle _ f n Hidx Hn Hh) as Htoggle.
      cbv zeta in Htoggle. rewrite Hev in Htoggle. simpl in Htoggle.
      unfold bind in Htoggle.
      destruct (LRUKReplacer.SetEvictable f false (BufferPoolManager.replacer_ s))
        as [r1 [[]|e|]]; try discriminate.
      exists r1. split; [done|]. rewrite decide_True by (simpl; lia). done.
    - assert (LRUKNode.is_evictable_ n = false) as Hev.
      { destruct (LRUKNode.is_evictable_ n); [|done]. specialize (Hle eq_refl). lia. }
      exists (BufferPoolManager.replacer_ s). split; [by eapply SetEvictable_same|].
      rewrite decide_False by (simpl; lia). done. }
  set (s1 := BufferPoolManager.mk (BufferPoolManager.pool_size_ s)
       (<[Z.to_nat f := p1]> (BufferPoolManager.pages_ s))
       (BufferPoolManager.page_table_ s) (BufferPoolManager.free_list_ s)
       r1 (BufferPoolManager.next_page_id_ s) (BufferPoolManager.disk_manager_ s)).
  assert (BufferPoolManager.frame (BufferPoolManager.pages_ s1) f = Some p1) as Hf1
    by (by eapply frame_insert_eq).
  exists s1. split_and!; [|done|].
  { unfold BufferPoolManager.FetchPage, bind, get. rewrite Hpt.
    rewrite (page_eq _ _ _ Hf). rewrite decide_False by lia.
    erewrite update_page_eq by exact Hf.
    unfold BufferPoolManager.on_replacer. simpl. by rewrite Hr1. }
  rewrite (UnpinPage_resident s1 page_id false f p1 Hpt Hf1) by (simpl; lia).
  cbv zeta.
  assert (Page.set_is_dirty (Page.is_dirty_ p1 || false)
            (Page.set_pin_count (Page.pin_count_ p1 - 1) p1) = p) as Hpage.
  { destruct p. unfold Page.set_is_dirty, Page.set_pin_count. simpl.
    rewrite orb_false_r. f_equal. lia. }
  rewrite Hpage.
  destruct (decide (Page.pin_count_ p1 - 1 = 0)) as [H1|H1].
  - unfold BufferPoolManager.on_replacer. simpl. rewrite Hback. simpl.
    rewrite !list_insert_insert_eq.
    rewrite list_insert_id by (by apply frame_Some in Hf as [_ ?]).
    by destruct s.
  - subst r1. unfold ret. simpl.
    rewrite !list_insert_insert_eq.
    rewrite list_insert_id by (by apply frame_Some in Hf as [_ ?]).
    by destruct s.
Qed.

Lemma FetchPage_then_UnpinPage (k : Z) (s : BufferPoolManager.t)
    (page_id f : Z) (p : Page.t) :
  0 < k →
  pool_reachable k s →
  BufferPoolManager.page_table_ s !! page_id = Some f →
  BufferPoolManager.frame (BufferPoolManager.pages_ s) f = Some p →
  Page.pin_count_ p < INT_MAX →
  ∃ s1,
    BufferPoolManager.FetchPage page_id s = (s1, Ret (Some f)) ∧
    BufferPoolManager.frame (BufferPoolManager.pages_ s1) f =
      Some (Page.set_pin_count (Page.pin_count_ p + 1) p) ∧
    BufferPoolManager.UnpinPage page_id false s1 = (s, Ret true).
Proof.
  intros Hk Hs. apply (FetchPage_then_UnpinPage_inv k); [done|].
  by apply pool_reachable_inv.
Qed.

(** X11. Fetching a resident page and unpinning it again, without marking
    it dirty, leaves the pool exactly as it was: in every state of a pool
    created with [k >= 1], for a page in the page table whose pin count is
    below [INT_MAX], [FetchPage] followed by [UnpinPage(page_id, false)]
    returns true and restores frames, replacer (records, index and
    timestamp counter) and everything else. *)
Theorem FetchPage_UnpinPage_round_trip (k : Z) (s : BufferPoolManager.t)
    (page_id f : Z) (p : Page.t) :
  0 < k →
  pool_reachable k s →
  BufferPoolManager.page_table_ s !! page_id = Some f →
  BufferPoolManager.frame (BufferPoolManager.pages_ s) f = Some p →
  Page.pin_count_ p < INT_MAX →
  (BufferPoolManager.FetchPage page_id ;; BufferPoolManager.UnpinPage page_id false) s =
  (s, Ret true).
Proof.
  intros Hk Hs Hpt Hf Hmax.
  destruct (FetchPage_then_UnpinPage k s page_id f p Hk Hs Hpt Hf Hmax)
    as (s1 & Hfetch & _ & Hunpin).
  unfold bind. by rewrite Hfetch.
Qed.

Lemma FetchPage_UnpinPage_round_trip_witness :
  (BufferPoolManager.FetchPage 1 ;; BufferPoolManager.UnpinPage 1 false)
    pool_full_unpinned =
  (pool_full_unpinned, Ret true).
Proof.
  apply (FetchPage_UnpinPage_round_trip 2 pool_full_unpinned 1 1
           (Page.mk zero_page 1 0 false 0 false)).
  - lia.
  - apply pool_full_unpinned_reachable.
  - vm_compute. reflexivity.
  - vm_compute. reflexivity.
  - vm_compute. reflexivity.
Defined.

(** *** Frames of the free list have no record *)

Lemma free_frames_untracked_acquire_frame (s s' : BufferPoolManager.t) (what : string)
    (f : Z) :
  BufferPoolManager.acquire_frame what s = (s', Ret f) →
  free_frames_untracked s →
  free_frames_untracked s' ∧
  LRUKReplacer.node_store_ (BufferPoolManager.replacer_ s') !! f = None.
Proof.
  intros [(rest & Hfree & ->)|(r1 & p & s2 & Hfree & [Hr1 _]%Evict_victim & Hf & Hs2 & ->)]
    %acquire_frame_effect HJ.
  - split.
    + intros g Hg. simpl in *. apply HJ. rewrite Hfree. by right.
    + simpl. apply HJ. rewrite Hfree. by left.
  - apply victim_written_back in Hs2 as (_ & _ & Hfl & Hr & _).
    split.
    + intros g. simpl. rewrite Hfl, Hfree. by intros ?%elem_of_nil.
    + simpl. rewrite Hr, Hr1. apply lookup_delete_eq.
Qed.

Lemma free_frames_untracked_install (s1 : BufferPoolManager.t) (f : Z)
    (r2 r3 : LRUKReplacer.t) pool_size pages page_table next_page_id disk :
  free_frames_untracked s1 →
  f ∉ BufferPoolManager.free_list_ s1 →
  LRUKReplacer.RecordAccess f (BufferPoolManager.replacer_ s1) = (r2, Ret tt) →
  LRUKReplacer.SetEvictable f false r2 = (r3, Ret tt) →
  free_frames_untracked
    (BufferPoolManager.mk pool_size pages page_table (BufferPoolManager.free_list_ s1)
       r3 next_page_id disk).
Proof.
  intros HJ Hnotfree Hr2 Hr3 g. simpl. intros Hg.
  assert (g ≠ f) as Hgf by (by intros ->).
  pose proof (SetEvictable_other r2 f g false Hgf) as H3.
  pose proof (RecordAccess_other (BufferPoolManager.replacer_ s1) f g Hgf) as H2.
  rewrite Hr3 in H3. rewrite Hr2 in H2. simpl in *. rewrite H3, H2. by apply HJ.
Qed.

Lemma free_frames_untracked_SetEvictable (s : BufferPoolManager.t) (f : Z) (b : bool)
    (r1 : LRUKReplacer.t) pool_size pages page_table next_page_id disk :
  free_frames_untracked s →
  LRUKReplacer.SetEvictable f b (BufferPoolManager.replacer_ s) = (r1, Ret tt) →
  free_frames_untracked
    (BufferPoolManager.mk pool_size pages page_table (BufferPoolManager.free_list_ s)
       r1 next_page_id disk).
Proof.
  intros HJ Hr1 g. simpl. intros Hg. destruct (decide (g = f)) as [->|Hgf].
  - rewrite (SetEvictable_flag _ _ _ _ Hr1), (HJ f Hg). done.
  - pose proof (SetEvictable_other (BufferPoolManager.replacer_ s) f g b Hgf) as H1.
    rewrite Hr1 in H1. simpl in H1. rewrite H1. by apply HJ.
Qed.

Section FreeFrames.
Variable k : Z.
Hypothesis k_positive : 0 < k.

Lemma pool_reachable_free_frames (s : BufferPoolManager.t) :
  pool_reachable k s → free_frames_untracked s.
Proof.
  induction 1 as [pool_size disk|s s' v Hs IH Hcall|s s' page_id v Hs IH Hcall
                 |s s' page_id is_dirty v Hs IH Hcall|s s' page_id v Hs IH Hcall
                 |s s' page_id v Hs IH Hcall].
  - intros f _. apply lookup_empty.
  - apply NewPage_effect in Hcall
      as [(_ & _ & ->)|(what & f & s1 & q & r2 & r3 & _ & Hacq & Hq & Hr2 & Hr3 & _ & ->)];
      [done|].
    pose proof (page_table_ok_acquire_frame _ _ _ _ Hacq
                  (pool_reachable_page_table k s Hs)) as (_ & _ & Hnotfree).
    apply free_frames_untracked_acquire_frame in Hacq as [HJ1 _]; [|done].
    by eapply free_frames_untracked_install.
  - apply FetchPage_effect in Hcall
      as [(f & p & r1 & _ & Hf & _ & Hr1 & _ & ->)
         |[(_ & _ & _ & ->)
          |(what & f & s1 & q & r2 & r3 & _ & _ & _ & Hacq & Hq & Hr2 & Hr3 & _ & ->)]];
      [|done|].
    + by eapply free_frames_untracked_SetEvictable.
    + pose proof (page_table_ok_acquire_frame _ _ _ _ Hacq
                    (pool_reachable_page_table k s Hs)) as (_ & _ & Hnotfree).
      apply free_frames_untracked_acquire_frame in Hacq as [HJ1 _]; [|done].
      by eapply free_frames_untracked_install.
  - apply UnpinPage_effect in Hcall
      as [[_ ->]|(f & p & r1 & _ & Hf & Hpin & Hr1 & _ & ->)]; [done|].
    destruct (decide (Page.pin_count_ p - 1 = 0)) as [H0|H0].
    + by eapply free_frames_untracked_SetEvictable.
    + by subst r1.
  - apply FlushPage_frames in Hcall as (_ & _ & Hfl & Hr & _).
    intros f. rewrite Hfl, Hr. apply IH.
  - apply DeletePage_effect in Hcall
      as [(_ & _ & ->)|[(f & p & _ & _ & _ & _ & ->)
                       |(f & p & r1 & Hpt & Hf & Hpin & Hr1 & _ & ->)]]; [done|done|].
    pose proof (pool_reachable_pins k k_positive s Hs) as [_ HK].
    intros g. simpl. intros [Hg| ->%list_elem_of_singleton]%elem_of_app.
    + destruct (pool_reachable_page_table k s Hs) as (HM & _).
      destruct (HM page_id f Hpt) as (_ & Hnotfree & _).
      assert (g ≠ f) as Hgf by (by intros ->).
      pose proof (Remove_other (BufferPoolManager.replacer_ s) f g Hgf) as H1.
      rewrite Hr1 in H1. simpl in H1. rewrite H1. by apply IH.
    + revert Hr1. unfold LRUKReplacer.Remove.
      destruct (LRUKReplacer.node_store_ (BufferPoolManager.replacer_ s) !! f)
        as [n|] eqn:Hn.
      * unfold LRUKNode.GetEvictable. rewrite (HK f p n Hf Hn Hpin).
        destruct (LRUKNode.FirstTime n); try done.
        intros [= <-]. simpl. apply lookup_delete_eq.
      * by intros [= <-].
Qed.

End FreeFrames.

(** ** What [NewPage] and [FetchPage] hand out *)

Lemma acquire_frame_counter (s s1 : BufferPoolManager.t) (what : string) (f : Z) :
  BufferPoolManager.acquire_frame what s = (s1, Ret f) →
  BufferPoolManager.next_page_id_ s1 = BufferPoolManager.next_page_id_ s.
Proof.
  intros [(rest & _ & ->)|(r1 & p & s2 & _ & _ & _ & Hs2 & ->)]%acquire_frame_effect;
    [done|].
  by apply victim_written_back in Hs2 as (_ & _ & _ & _ & ? & _).
Qed.

(** The record left by [RecordAccess] and [SetEvictable(f, false)] for a
    frame that had none: the single access just recorded, not evictable. *)
Lemma install_record (r r2 r3 : LRUKReplacer.t) (f : Z) :
  LRUKReplacer.node_store_ r !! f = None →
  0 < LRUKReplacer.k_ r →
  LRUKReplacer.RecordAccess f r = (r2, Ret tt) →
  LRUKReplacer.SetEvictable f false r2 = (r3, Ret tt) →
  LRUKReplacer.node_store_ r3 !! f =
    Some (LRUKNode.mk [LRUKReplacer.time_base_line r3] (LRUKReplacer.k_ r3) f false) ∧
  LRUKReplacer.time_base_line r3 = (LRUKReplacer.time_base_line r + 1) mod 2 ^ 64.
Proof.
  intros Hn Hk Hr2 Hr3.
  assert (LRUKReplacer.node_store_ r2 !! f =
            Some (LRUKNode.mk [LRUKReplacer.time_base_line r2] (LRUKReplacer.k_ r2) f false) ∧
          LRUKReplacer.time_base_line r2 = (LRUKReplacer.time_base_line r + 1) mod 2 ^ 64)
    as [Hn2 Ht2].
  { revert Hr2. unfold LRUKReplacer.RecordAccess.
    destruct (decide (LRUKReplacer.replacer_size_ r < size_t_cast f)) as [Hgt|Hle];
      [done|].
    rewrite Hn. unfold LRUKNode.Add, LRUKNode.init, LRUKNode.GetEvictable,
      CurrentTimestamp. simpl.
    assert ((LRUKReplacer.k_ r <? Z.of_nat 1) = false) as -> by (apply Z.ltb_ge; lia).
    intros [= <-]. simpl. by rewrite lookup_insert_eq. }
  revert Hr3. unfold LRUKReplacer.SetEvictable. rewrite Hn2.
  rewrite decide_True by done. intros [= <-]. done.
Qed.

Lemma NewPage_returns (s s' : BufferPoolManager.t) (page_id f : Z) :
  BufferPoolManager.NewPage s = (s', Ret (Some (page_id, f))) →
  page_id = BufferPoolManager.next_page_id_ s ∧
  BufferPoolManager.next_page_id_ s' = wrap_int32 (page_id + 1) ∧
  BufferPoolManager.page_table_ s' !! page_id = Some f ∧
  (∃ p, BufferPoolManager.frame (BufferPoolManager.pages_ s') f = Some p ∧
        Page.page_id_ p = page_id ∧ Page.pin_count_ p = 1) ∧
  (∃ n, LRUKReplacer.node_store_ (BufferPoolManager.replacer_ s') !! f = Some n ∧
        LRUKNode.is_evictable_ n = false).
Proof.
  intros [(_ & ? & _)|(what & f0 & s1 & q & r2 & r3 & _ & Hacq & Hq & Hr2 & Hr3 & Hv & ->)]
    %NewPage_effect; [done|].
  injection Hv as -> ->. simpl.
  rewrite (acquire_frame_counter _ _ _ _ Hacq). split_and!; try done.
  - apply lookup_insert_eq.
  - eexists. split; [by eapply frame_insert_eq|done].
  - rewrite (SetEvictable_flag _ _ _ _ Hr3).
    destruct (RecordAccess_flag _ _ _ Hr2) as (n2 & -> & _). simpl. eauto.
Qed.

(** X12. When [NewPage] returns a page, the page id is the value of the
    page-id counter, which has advanced by one (wrapping around as a 32-bit
    value); the page table maps the page id to the returned frame; the frame
    holds this page id with pin count 1; and the replacer has a record for
    the frame that is not evictable. *)
Theorem NewPage_returns_pinned_page (s s' : BufferPoolManager.t) (page_id f : Z) :
  BufferPoolManager.NewPage s = (s', Ret (Some (page_id, f))) →
  page_id = BufferPoolManager.next_page_id_ s ∧
  BufferPoolManager.next_page_id_ s' = wrap_int32 (page_id + 1) ∧
  BufferPoolManager.page_table_ s' !! page_id = Some f ∧
  (∃ p, BufferPoolManager.frame (BufferPoolManager.pages_ s') f = Some p ∧
        Page.page_id_ p = page_id ∧ Page.pin_count_ p = 1) ∧
  (∃ n, LRUKReplacer.node_store_ (BufferPoolManager.replacer_ s') !! f = Some n ∧
        LRUKNode.is_evictable_ n = false).
Proof. apply NewPage_returns. Qed.

Lemma NewPage_returns_pinned_page_witness :
  1 = BufferPoolManager.next_page_id_ pool_one_dirty ∧
  BufferPoolManager.next_page_id_ (exec BufferPoolManager.NewPage pool_one_dirty) =
    wrap_int32 (1 + 1) ∧
  BufferPoolManager.page_table_ (exec BufferPoolManager.NewPage pool_one_dirty) !! 1 =
    Some 1 ∧
  (∃ p, BufferPoolManager.frame
          (BufferPoolManager.pages_ (exec BufferPoolManager.NewPage pool_one_dirty)) 1 =
          Some p ∧
        Page.page_id_ p = 1 ∧ Page.pin_count_ p = 1) ∧
  (∃ n, LRUKReplacer.node_store_
          (BufferPoolManager.replacer_ (exec BufferPoolManager.NewPage pool_one_dirty))
          !! 1 = Some n ∧
        LRUKNode.is_evictable_ n = false).
Proof.
  apply (NewPage_returns_pinned_page pool_one_dirty).
  vm_compute. reflexivity.
Defined.

Lemma FetchPage_returns_inv (k : Z) (s s' : BufferPoolManager.t) (page_id f : Z) :
  0 < k →
  pool_inv k s →
  BufferPoolManager.FetchPage page_id s = (s', Ret (Some f)) →
  BufferPoolManager.page_table_ s' !! page_id = Some f ∧
  ∃ p n,
    BufferPoolManager.frame (BufferPoolManager.pages_ s') f = Some p ∧
    Page.page_id_ p = page_id ∧ 0 < Page.pin_count_ p ∧
    LRUKReplacer.node_store_ (BufferPoolManager.replacer_ s') !! f = Some n ∧
    LRUKNode.is_evictable_ n = false ∧
    (BufferPoolManager.page_table_ s !! page_id = None →
     Page.pin_count_ p = 1 ∧
     Page.data_ p = DiskManager.ReadPage page_id (BufferPoolManager.disk_manager_ s')).
Proof.
  intros Hk Hs
    [(f0 & p & r1 & Hpt & Hf & _ & Hr1 & Hv & ->)
    |[(_ & _ & ? & _)
     |(what & f0 & s1 & q & r2 & r3 & Hpt & _ & _ & Hacq & Hq & Hr2 & Hr3 & Hv & ->)]]
    %FetchPage_effect; [|done|]; injection Hv as <-; simpl.
  - split; [done|].
    destruct (pool_inv_page_table k s Hs) as (HM & _).
    destruct (HM page_id f Hpt) as ((p0 & Hp0 & Hid) & _ & [n Hn]).
    assert (p0 = p) as -> by congruence.
    pose proof (pool_inv_pins k s Hs) as [HN _]. specialize (HN f p Hf).
    eexists _, (LRUKNode.SetEvictable n false). split_and!.
    + by eapply frame_insert_eq.
    + done.
    + simpl. lia.
    + by rewrite (SetEvictable_flag _ _ _ _ Hr1), Hn.
    + done.
    + congruence.
  - split; [apply lookup_insert_eq|].
    destruct (RecordAccess_flag _ _ _ Hr2) as (n2 & Hn2 & _).
    eexists _, (LRUKNode.SetEvictable n2 false). split_and!.
    + by eapply frame_insert_eq.
    + done.
    + simpl. lia.
    + by rewrite (SetEvictable_flag _ _ _ _ Hr3), Hn2.
    + done.
    + done.
Qed.

Lemma FetchPage_returns (k : Z) (s s' : BufferPoolManager.t) (page_id f : Z) :
  0 < k →
  pool_reachable k s →
  BufferPoolManager.FetchPage page_id s = (s', Ret (Some f)) →
  BufferPoolManager.page_table_ s' !! page_id = Some f ∧
  ∃ p n,
    BufferPoolManager.frame (BufferPoolManager.pages_ s') f = Some p ∧
    Page.page_id_ p = page_id ∧ 0 < Page.pin_count_ p ∧
    LRUKReplacer.node_store_ (BufferPoolManager.replacer_ s') !! f = Some n ∧
    LRUKNode.is_evictable_ n = false ∧
    (BufferPoolManager.page_table_ s !! page_id = None →
     Page.pin_count_ p = 1 ∧
     Page.data_ p = DiskManager.ReadPage page_id (BufferPoolManager.disk_manager_ s')).
Proof.
  intros Hk Hs. apply (FetchPage_returns_inv k); [done|].
  by apply pool_reachable_inv.
Qed.

(** X13. When [FetchPage] returns a frame in a state of a pool created with
    [k >= 1], the page table maps the requested page to this frame, the
    frame holds the requested page id and is pinned, and its record in the
    replacer is not evictable.  When the page was not in the page table
    before, the pin count is 1 and the bytes of the frame are those the disk
    manager reads for the page. *)
Theorem FetchPage_returns_pinned_page (k : Z) (s s' : BufferPoolManager.t)
    (page_id f : Z) :
  0 < k →
  pool_reachable k s →
  BufferPoolManager.FetchPage page_id s = (s', Ret (Some f)) →
  BufferPoolManager.page_table_ s' !! page_id = Some f ∧
  ∃ p n,
    BufferPoolManager.frame (BufferPoolManager.pages_ s') f = Some p ∧
    Page.page_id_ p = page_id ∧ 0 < Page.pin_count_ p ∧
    LRUKReplacer.node_store_ (BufferPoolManager.replacer_ s') !! f = Some n ∧
    LRUKNode.is_evictable_ n = false ∧
    (BufferPoolManager.page_table_ s !! page_id = None →
     Page.pin_count_ p = 1 ∧
     Page.data_ p = DiskManager.ReadPage page_id (BufferPoolManager.disk_manager_ s')).
Proof. apply FetchPage_returns. Qed.

Lemma FetchPage_returns_pinned_page_witness :
  BufferPoolManager.page_table_ (exec (BufferPoolManager.FetchPage 7) pool_full_unpinned)
    !! 7 = Some 0 ∧
  ∃ p n,
    BufferPoolManager.frame
      (BufferPoolManager.pages_ (exec (BufferPoolManager.FetchPage 7) pool_full_unpinned))
      0 = Some p ∧
    Page.page_id_ p = 7 ∧ 0 < Page.pin_count_ p ∧
    LRUKReplacer.node_store_
      (BufferPoolManager.replacer_ (exec (BufferPoolManager.FetchPage 7) pool_full_unpinned))
      !! 0 = Some n ∧
    LRUKNode.is_evictable_ n = false ∧
    (BufferPoolManager.page_table_ pool_full_unpinned !! 7 = None →
     Page.pin_count_ p = 1 ∧
     Page.data_ p =
       DiskManager.ReadPage 7
         (BufferPoolManager.disk_manager_
            (exec (BufferPoolManager.FetchPage 7) pool_full_unpinned))).
Proof.
  apply (FetchPage_returns_pinned_page 2 pool_full_unpinned).
  - lia.
  - apply pool_full_unpinned_reachable.
  - vm_compute. reflexivity.
Defined.

(** X14. A page that [NewPage] or [FetchPage] installs in a frame starts
    with a fresh access history: in a state of a pool created with
    [k >= 1], after [NewPage] has returned a page, or [FetchPage] has
    returned a frame for a page that was not in the page table, the record
    of the frame holds the one access just recorded (the current value of
    the timestamp counter) and nothing of the page that the frame held
    before. *)
Theorem installed_page_has_fresh_history (k : Z) (s s' : BufferPoolManager.t)
    (page_id f : Z) :
  0 < k →
  pool_reachable k s →
  BufferPoolManager.NewPage s = (s', Ret (Some (page_id, f))) ∨
  (BufferPoolManager.page_table_ s !! page_id = None ∧
   BufferPoolManager.FetchPage page_id s = (s', Ret (Some f))) →
  LRUKReplacer.node_store_ (BufferPoolManager.replacer_ s') !! f =
    Some (LRUKNode.mk
            [LRUKReplacer.time_base_line (BufferPoolManager.replacer_ s')] k f false).
Proof.
  intros Hk Hs Hcall.
  assert (pool_reachable k s') as Hs'.
  { destruct Hcall as [Hcall|[_ Hcall]].
    - by eapply pool_NewPage.
    - by eapply pool_FetchPage. }
  destruct (pool_reachable_replacer k s' Hs') as [_ Hk'].
  destruct (pool_reachable_replacer k s Hs) as [_ Hks].
  pose proof (pool_reachable_free_frames k Hk s Hs) as HJ.
  assert (∃ what s1 r2 r3,
            BufferPoolManager.acquire_frame what s = (s1, Ret f) ∧
            LRUKReplacer.RecordAccess f (BufferPoolManager.replacer_ s1) = (r2, Ret tt) ∧
            LRUKReplacer.SetEvictable f false r2 = (r3, Ret tt) ∧
            BufferPoolManager.replacer_ s' = r3)
    as (what & s1 & r2 & r3 & Hacq & Hr2 & Hr3 & Hr').
  { destruct Hcall as [Hcall|[Hpt Hcall]].
    - apply NewPage_effect in Hcall
        as [(_ & ? & _)
           |(what & f0 & s1 & q & r2 & r3 & _ & Hacq & Hq & Hr2 & Hr3 & Hv & ->)]; [done|].
      injection Hv as _ ->. by exists what, s1, r2, r3.
    - apply FetchPage_effect in Hcall
        as [(f0 & p & r1 & Hpt' & _)
           |[(_ & _ & ? & _)
            |(what & f0 & s1 & q & r2 & r3 & _ & _ & _ & Hacq & Hq & Hr2 & Hr3 & Hv & ->)]];
        [congruence|done|].
      injection Hv as ->. by exists what, s1, r2, r3. }
  rewrite Hr' in *.
  pose proof (proj1 (proj2 (k_unchanged (BufferPoolManager.replacer_ s1))) f) as Hk2.
  pose proof (proj1 (proj2 (proj2 (k_unchanged r2))) f false) as Hk3.
  rewrite Hr2 in Hk2. rewrite Hr3 in Hk3. simpl in Hk2, Hk3.
  apply free_frames_untracked_acquire_frame in Hacq as [_ Hnone]; [|done].
  destruct (install_record _ _ _ f Hnone ltac:(lia) Hr2 Hr3) as [Hn3 _].
  rewrite Hn3. by rewrite Hk'.
Qed.

Lemma installed_page_has_fresh_history_witness :
  LRUKReplacer.node_store_
    (BufferPoolManager.replacer_ (exec (BufferPoolManager.FetchPage 7) pool_full_unpinned))
    !! 0 =
  Some (LRUKNode.mk
          [LRUKReplacer.time_base_line
             (BufferPoolManager.replacer_
                (exec (BufferPoolManager.FetchPage 7) pool_full_unpinned))] 2 0 false).
Proof.
  apply (installed_page_has_fresh_history 2 pool_full_unpinned _ 7 0).
  - lia.
  - apply pool_full_unpinned_reachable.
  - right. split; vm_compute; reflexivity.
Defined.

(** ** [FlushAllPages] *)

Lemma set_is_dirty_false_twice (p : Page.t) :
  Page.set_is_dirty false (Page.set_is_dirty false p) = Page.set_is_dirty false p.
Proof. done. Qed.

(** The loop of [FlushAllPages] over page ids that are in the page table,
    in any order and with or without repetitions. *)
Lemma flush_each_effect (ids : list Z) (s : BufferPoolManager.t) :
  (∀ page_id, page_id ∈ ids →
     ∃ f, BufferPoolManager.page_table_ s !! page_id = Some f ∧
          is_Some (BufferPoolManager.frame (BufferPoolManager.pages_ s) f)) →
  ∃ s',
    BufferPoolManager.flush_each ids s = (s', Ret tt) ∧
    BufferPoolManager.pool_size_ s' = BufferPoolManager.pool_size_ s ∧
    BufferPoolManager.page_table_ s' = BufferPoolManager.page_table_ s ∧
    BufferPoolManager.free_list_ s' = BufferPoolManager.free_list_ s ∧
    BufferPoolManager.replacer_ s' = BufferPoolManager.replacer_ s ∧
    BufferPoolManager.next_page_id_ s' = BufferPoolManager.next_page_id_ s ∧
    (∀ page_id f p,
       page_id ∈ ids →
       BufferPoolManager.page_table_ s !! page_id = Some f →
       BufferPoolManager.frame (BufferPoolManager.pages_ s) f = Some p →
       BufferPoolManager.frame (BufferPoolManager.pages_ s') f =
         Some (Page.set_is_dirty false p) ∧
       DiskManager.image (BufferPoolManager.disk_manager_ s') !! page_id =
         Some (Page.data_ p)) ∧
    (∀ g, (∀ page_id, page_id ∈ ids →
                      BufferPoolManager.page_table_ s !! page_id ≠ Some g) →
          BufferPoolManager.frame (BufferPoolManager.pages_ s') g =
          BufferPoolManager.frame (BufferPoolManager.pages_ s) g) ∧
    (∀ page_id, page_id ∉ ids →
       DiskManager.image (BufferPoolManager.disk_manager_ s') !! page_id =
       DiskManager.image (BufferPoolManager.disk_manager_ s) !! page_id) ∧
    length (DiskManager.write_log (BufferPoolManager.disk_manager_ s')) =
      (length (DiskManager.write_log (BufferPoolManager.disk_manager_ s)) + length ids)%nat.
Proof.
  revert s. induction ids as [|pid ids IH]; intros s Hids.
  - exists s. split_and!; try done. by intros ? ? ? ?%elem_of_nil.
  - destruct (Hids pid) as (f & Hpt & [p Hf]); [by left|].
    pose proof (frame_Some _ _ _ Hf) as [Hpos _].
    set (s1 := BufferPoolManager.set_pages
                 (<[Z.to_nat f := Page.set_is_dirty false p]> (BufferPoolManager.pages_ s))
                 (BufferPoolManager.set_disk_manager
                    (DiskManager.WritePage pid (Page.data_ p)
                       (BufferPoolManager.disk_manager_ s)) s)).
    assert (BufferPoolManager.FlushPage pid s = (s1, Ret true)) as Hflush.
    { unfold BufferPoolManager.FlushPage, bind, get, ret, modify. rewrite Hpt.
      rewrite (page_eq _ _ _ Hf). by erewrite update_page_eq by exact Hf. }
    assert (∀ g q, BufferPoolManager.frame (BufferPoolManager.pages_ s) g = Some q →
              ∃ q1, BufferPoolManager.frame (BufferPoolManager.pages_ s1) g = Some q1 ∧
                    Page.data_ q1 = Page.data_ q ∧
                    Page.set_is_dirty false q1 = Page.set_is_dirty false q ∧
                    (g ≠ f → q1 = q)) as Hsame.
    { intros g q Hq. simpl. destruct (decide (g = f)) as [->|Hne].
      - assert (q = p) as -> by congruence. eexists.
        split; [by eapply frame_insert_eq|]. done.
      - exists q. by rewrite frame_insert_ne. }
    destruct (IH s1) as (s' & Hrun & Hsz & Htbl & Hfl & Hr & Hnp & Hin & Hout & Himg & Hlog).
    { intros pid' Hpid'. destruct (Hids pid') as (f' & Hpt' & [p' Hf']); [by right|].
      exists f'. split; [done|]. destruct (Hsame f' p' Hf') as (q1 & -> & _). done. }
    exists s'. split_and!; try done.
    + simpl. unfold bind. by rewrite Hflush.
    + intros pid' f' p' Hpid' Hpt' Hf'.
      destruct (Hsame f' p' Hf') as (q1 & Hq1 & Hdata & Hclean & Hne).
      destruct (decide (pid' ∈ ids)) as [Hmem|Hmem].
      * destruct (Hin pid' f' q1 Hmem Hpt' Hq1) as [-> ->]. by rewrite Hclean, Hdata.
      * apply elem_of_cons in Hpid' as [->|?]; [|done].
        assert (f' = f) as -> by congruence. assert (p' = p) as -> by congruence.
        rewrite (Himg pid Hmem). simpl. rewrite lookup_insert_eq. split; [|done].
        destruct (decide (Exists (λ page_id,
                    BufferPoolManager.page_table_ s !! page_id = Some f) ids))
          as [(pid2 & Hpid2 & Hpt2)%Exists_exists|Hnone].
        -- destruct (Hin pid2 f q1 Hpid2 Hpt2 Hq1) as [-> _]. by rewrite Hclean.
        -- rewrite Hout.
           ++ simpl. by eapply frame_insert_eq.
           ++ intros pid2 Hpid2 Hpt2. apply Hnone, Exists_exists. eauto.
    + intros g Hg. rewrite Hout.
      * simpl. apply frame_insert_ne; [done|]. intros <-. apply (Hg pid); [by left|done].
      * intros pid' Hpid'. apply Hg. by right.
    + intros pid' [Hne Hnotin]%not_elem_of_cons. rewrite (Himg pid' Hnotin).
      simpl. by rewrite lookup_insert_ne.
    + rewrite Hlog. simpl. rewrite length_app. simpl. lia.
Qed.

Lemma elem_of_page_table_keys (m : gmap Z Z) (page_id : Z) :
  page_id ∈ (map_to_list m).*1 ↔ is_Some (m !! page_id).
Proof.
  rewrite list_elem_of_fmap. split.
  - intros ([k v] & -> & Hkv%elem_of_map_to_list). by exists v.
  - intros [v Hv]. exists (page_id, v). split; [done|]. by apply elem_of_map_to_list.
Qed.

(** X15. [FlushAllPages] writes every page of the page table to disk and
    leaves it clean, whatever the order in which the page table is visited:
    when the frames of the page table are frames of the pool, the loop over
    the page ids in any order [ids] returns; every page of the page table is
    then in the disk image with the bytes of its frame, and its frame is
    clean and otherwise as before; frames that are not in the page table,
    disk pages that are not in the page table, the page table, the free
    list, the replacer and the page-id counter are untouched; and the disk
    manager has been called once for each entry of the page table. *)
Theorem FlushAllPages_flushes_every_resident_page (s : BufferPoolManager.t)
    (ids : list Z) :
  map_Forall (λ _ f, is_Some (BufferPoolManager.frame (BufferPoolManager.pages_ s) f))
    (BufferPoolManager.page_table_ s) →
  ids ≡ₚ (map_to_list (BufferPoolManager.page_table_ s)).*1 →
  ∃ s',
    BufferPoolManager.flush_each ids s = (s', Ret tt) ∧
    (ids = (map_to_list (BufferPoolManager.page_table_ s)).*1 →
     BufferPoolManager.FlushAllPages s = (s', Ret tt)) ∧
    BufferPoolManager.pool_size_ s' = BufferPoolManager.pool_size_ s ∧
    BufferPoolManager.page_table_ s' = BufferPoolManager.page_table_ s ∧
    BufferPoolManager.free_list_ s' = BufferPoolManager.free_list_ s ∧
    BufferPoolManager.replacer_ s' = BufferPoolManager.replacer_ s ∧
    BufferPoolManager.next_page_id_ s' = BufferPoolManager.next_page_id_ s ∧
    (∀ page_id f p,
       BufferPoolManager.page_table_ s !! page_id = Some f →
       BufferPoolManager.frame (BufferPoolManager.pages_ s) f = Some p →
       BufferPoolManager.frame (BufferPoolManager.pages_ s') f =
         Some (Page.set_is_dirty false p) ∧
       DiskManager.image (BufferPoolManager.disk_manager_ s') !! page_id =
         Some (Page.data_ p)) ∧
    (∀ g, (∀ page_id, BufferPoolManager.page_table_ s !! page_id ≠ Some g) →
          BufferPoolManager.frame (BufferPoolManager.pages_ s') g =
          BufferPoolManager.frame (BufferPoolManager.pages_ s) g) ∧
    (∀ page_id, BufferPoolManager.page_table_ s !! page_id = None →
       DiskManager.image (BufferPoolManager.disk_manager_ s') !! page_id =
       DiskManager.image (BufferPoolManager.disk_manager_ s) !! page_id) ∧
    length (DiskManager.write_log (BufferPoolManager.disk_manager_ s')) =
      (length (DiskManager.write_log (BufferPoolManager.disk_manager_ s)) +
       size (BufferPoolManager.page_table_ s))%nat.
Proof.
  intros Hframes Hperm.
  assert (∀ page_id, page_id ∈ ids ↔
            is_Some (BufferPoolManager.page_table_ s !! page_id)) as Hmem.
  { intros pid. by rewrite Hperm, elem_of_page_table_keys. }
  destruct (flush_each_effect ids s)
    as (s' & Hrun & Hsz & Htbl & Hfl & Hr & Hnp & Hin & Hout & Himg & Hlog).
  { intros pid [f Hf]%Hmem. exists f. split; [done|]. by apply (Hframes pid f). }
  exists s'. split_and!; try done.
  - intros ->. unfold BufferPoolManager.FlushAllPages, bind, get. done.
  - intros pid f p Hpt Hf. apply (Hin pid f p); [|done|done]. apply Hmem. by exists f.
  - intros g Hg. apply Hout. intros pid _. apply Hg.
  - intros pid Hnone. apply Himg. rewrite Hmem, Hnone. by intros [? ?].
  - rewrite Hlog, Hperm, length_fmap, length_map_to_list. done.
Qed.

Lemma FlushAllPages_flushes_every_resident_page_witness :
  ∃ s',
    BufferPoolManager.flush_each [0; 1] pool_written = (s', Ret tt) ∧
    ([0; 1] = (map_to_list (BufferPoolManager.page_table_ pool_written)).*1 →
     BufferPoolManager.FlushAllPages pool_written = (s', Ret tt)) ∧
    BufferPoolManager.pool_size_ s' = BufferPoolManager.pool_size_ pool_written ∧
    BufferPoolManager.page_table_ s' = BufferPoolManager.page_table_ pool_written ∧
    BufferPoolManager.free_list_ s' = BufferPoolManager.free_list_ pool_written ∧
    BufferPoolManager.replacer_ s' = BufferPoolManager.replacer_ pool_written ∧
    BufferPoolManager.next_page_id_ s' = BufferPoolManager.next_page_id_ pool_written ∧
    (∀ page_id f p,
       BufferPoolManager.page_table_ pool_written !! page_id = Some f →
       BufferPoolManager.frame (BufferPoolManager.pages_ pool_written) f = Some p →
       BufferPoolManager.frame (BufferPoolManager.pages_ s') f =
         Some (Page.set_is_dirty false p) ∧
       DiskManager.image (BufferPoolManager.disk_manager_ s') !! page_id =
         Some (Page.data_ p)) ∧
    (∀ g, (∀ page_id, BufferPoolManager.page_table_ pool_written !! page_id ≠ Some g) →
          BufferPoolManager.frame (BufferPoolManager.pages_ s') g =
          BufferPoolManager.frame (BufferPoolManager.pages_ pool_written) g) ∧
    (∀ page_id, BufferPoolManager.page_table_ pool_written !! page_id = None →
       DiskManager.image (BufferPoolManager.disk_manager_ s') !! page_id =
       DiskManager.image (BufferPoolManager.disk_manager_ pool_written) !! page_id) ∧
    length (DiskManager.write_log (BufferPoolManager.disk_manager_ s')) =
      (length (DiskManager.write_log (BufferPoolManager.disk_manager_ pool_written)) +
       size (BufferPoolManager.page_table_ pool_written))%nat.
Proof.
  apply (FlushAllPages_flushes_every_resident_page pool_written [0; 1]).
  - apply (bool_decide_unpack _). vm_compute. exact I.
  - vm_compute. apply perm_swap.
Defined.

(** ** Move-assignment between two guards *)

Lemma on_bpm_eq {A} (m : M BufferPoolManager.t A) (w : World) s1 (o : outcome A) :
  m (bpm w) = (s1, o) → on_bpm m w = (mkWorld s1 (guards w), o).
Proof. unfold on_bpm. by intros ->. Qed.

Lemma on_bpm_Ret {A} (m : M BufferPoolManager.t A) (w w1 : World) (a : A) :
  on_bpm m w = (w1, Ret a) →
  ∃ s1, m (bpm w) = (s1, Ret a) ∧ w1 = mkWorld s1 (guards w).
Proof.
  unfold on_bpm. destruct (m (bpm w)) as [s1 o]. intros [= <- ->]. eauto.
Qed.

(** The statements of [BasicPageGuard::operator=] after [Drop()]: the
    members of [that] are copied to [this], and [that] is cleared. *)
Lemma transfer_members (w : World) (this that : Z) (g g0 : guard_members) :
  this ≠ that →
  guards w !! that = Some g →
  guards w !! this = Some g0 →
  (let* g := guard_at that in
   set_guard this g ;;
   BasicPageGuard.CLear that) w =
  (mkWorld (bpm w) (<[that := cleared]> (<[this := g]> (guards w))), Ret tt).
Proof.
  intros Hne Hthat Hthis.
  unfold bind at 1, guard_at at 1. rewrite Hthat.
  unfold bind at 1, set_guard at 1, bind at 1, guard_at at 1. rewrite Hthis.
  unfold modify at 1.
  unfold BasicPageGuard.CLear, set_guard, bind, guard_at, modify. simpl.
  rewrite lookup_insert_ne by done. by rewrite Hthat.
Qed.

Lemma Basic_move_assign_holding (w : World) (this that f : Z) (dirty : bool)
    (p : Page.t) (g : guard_members) :
  this ≠ that →
  guards w !! that = Some g →
  holds w this f dirty p →
  BasicPageGuard.move_assign this that w =
  (mkWorld (exec (BufferPoolManager.UnpinPage (Page.page_id_ p) dirty) (bpm w))
     (<[that := cleared]> (<[this := g]> (guards w))),
   Ret tt).
Proof.
  intros Hne Hthat Hholds.
  unfold BasicPageGuard.move_assign. rewrite decide_True by done.
  unfold bind at 1. rewrite (Basic_Drop_holding w this f dirty p Hholds).
  erewrite (transfer_members _ this that g cleared); simpl; try done.
  - by rewrite insert_insert_eq.
  - by rewrite lookup_insert_ne.
  - apply lookup_insert_eq.
Qed.

Lemma Basic_move_assign_cleared (w : World) (this that : Z) (g : guard_members) :
  this ≠ that →
  guards w !! that = Some g →
  guards w !! this = Some cleared →
  BasicPageGuard.move_assign this that w =
  (mkWorld (bpm w) (<[that := cleared]> (<[this := g]> (guards w))), Ret tt).
Proof.
  intros Hne Hthat Hthis.
  unfold BasicPageGuard.move_assign. rewrite decide_True by done.
  unfold bind at 1. rewrite (Basic_Drop_cleared w this Hthis).
  by apply (transfer_members w this that g cleared).
Qed.

(** [BasicPageGuard::Drop] that returned, whatever the guard holds: the
    guard is cleared, no other guard changes, and the pool is the one that
    the call of [UnpinPage] left, if there was one. *)
Lemma Basic_Drop_Ret (w w1 : World) (this : Z) :
  BasicPageGuard.Drop this w = (w1, Ret tt) →
  ∃ g0, guards w !! this = Some g0 ∧
        guards w1 = <[this := cleared]> (guards w) ∧
        Basic_Drop_pool g0 (bpm w) (bpm w1).
Proof.
  unfold BasicPageGuard.Drop. intros Hcall.
  apply bind_Ret in Hcall as (g0' & w0 & Hg & Hcall).
  unfold guard_at in Hg. destruct (guards w !! this) as [g0|] eqn:Hthis; [|done].
  injection Hg as <- <-. exists g0. split; [done|].
  assert (∀ w2, guards w2 = guards w →
                BasicPageGuard.CLear this w2 = (w1, Ret tt) →
                guards w1 = <[this := cleared]> (guards w) ∧ bpm w1 = bpm w2) as Hclear.
  { intros w2 Hw2. unfold BasicPageGuard.CLear, set_guard, bind, guard_at, modify.
    rewrite Hw2, Hthis. intros [= <-]. simpl. by rewrite Hw2. }
  unfold Basic_Drop_pool.
  destruct (bpm_ g0); [destruct (page_ g0) as [f|]|].
  - apply bind_Ret in Hcall as (p & w2 & Hp & Hcall).
    apply on_bpm_Ret in Hp as (s2 & Hp & ->).
    apply page_Ret in Hp as [-> Hf].
    apply bind_Ret in Hcall as (v & w3 & Hun & Hcall).
    apply on_bpm_Ret in Hun as (s3 & Hun & ->). simpl in Hun.
    destruct (Hclear (mkWorld s3 (guards w)) eq_refl Hcall) as [Hguards Hpool].
    simpl in Hpool. split; [done|]. exists p, v. by rewrite Hpool.
  - by destruct (Hclear w eq_refl Hcall) as [? ?].
  - destruct (Hclear w eq_refl) as [? ?]; [by destruct (page_ g0)|].
    by destruct (page_ g0).
Qed.

(** [BasicPageGuard::Drop] of a guard with a null pointer only clears it. *)
Lemma Basic_Drop_null (w : World) (this : Z) (g0 : guard_members) :
  guards w !! this = Some g0 →
  bpm_ g0 = false ∨ page_ g0 = None →
  BasicPageGuard.Drop this w =
  (mkWorld (bpm w) (<[this := cleared]> (guards w)), Ret tt).
Proof.
  intros Hthis Hnull.
  unfold BasicPageGuard.Drop, bind at 1, guard_at. rewrite Hthis.
  assert (BasicPageGuard.CLear this w =
          (mkWorld (bpm w) (<[this := cleared]> (guards w)), Ret tt)) as Hclear.
  { unfold BasicPageGuard.CLear, set_guard, bind, guard_at, modify. by rewrite Hthis. }
  destruct Hnull as [-> | ->]; [done|]. by destruct (bpm_ g0).
Qed.

(** Move-assignment to a distinct guard, whatever the target holds: it does
    what [Drop] of the target does, and then hands over the members. *)
Lemma Basic_move_assign_after_Drop (w w1 : World) (this that : Z) (g : guard_members)
    (o : outcome unit) :
  this ≠ that →
  guards w !! that = Some g →
  BasicPageGuard.Drop this w = (w1, o) →
  (o = Ret tt →
   BasicPageGuard.move_assign this that w =
     (mkWorld (bpm w1) (<[that := cleared]> (<[this := g]> (guards w))), Ret tt)) ∧
  (o ≠ Ret tt → BasicPageGuard.move_assign this that w = (w1, o)).
Proof.
  intros Hne Hthat Hdrop.
  unfold BasicPageGuard.move_assign. rewrite decide_True by done.
  split.
  - intros ->. unfold bind at 1. rewrite Hdrop.
    destruct (Basic_Drop_Ret w w1 this Hdrop) as (g0 & Hthis & Hguards & _).
    rewrite (transfer_members w1 this that g cleared); try done.
    + by rewrite Hguards, insert_insert_eq.
    + by rewrite Hguards, lookup_insert_ne.
    + rewrite Hguards. apply lookup_insert_eq.
  - intros Ho. unfold bind at 1. rewrite Hdrop. by destruct o as [[]|e|].
Qed.

(** X16. Move-assignment between two distinct [BasicPageGuard]s does what
    [Drop] of the target does and then hands over what the source holds,
    whatever the target holds.  If [Drop] of the target returns, the
    assignment returns, the pool is the one [Drop] left (with both pointers
    of the target set, the pool after
    [UnpinPage(page_->GetPageId(), is_dirty_)]; otherwise the pool as it
    was), [this] has the members of [that] as they were (no pin is taken or
    released for the page of [that]), [that] holds nothing, and no other
    guard changes.  If [Drop] of the target does not return, the assignment
    ends as [Drop] did.  When the page table maps the page id of the
    target's frame [f] to [f] and the page is pinned, the pin count of [f]
    goes down by one, its dirty flag is or-ed with that of the guard, and no
    other frame changes.  When a pointer of the target is null, the pool is
    untouched. *)
Theorem Basic_move_assign_transfers (w : World) (this that : Z) (g : guard_members) :
  this ≠ that →
  guards w !! that = Some g →
  (∀ w1 o,
     BasicPageGuard.Drop this w = (w1, o) →
     (o = Ret tt →
      BasicPageGuard.move_assign this that w =
        (mkWorld (bpm w1) (<[that := cleared]> (<[this := g]> (guards w))), Ret tt) ∧
      ∃ g0, guards w !! this = Some g0 ∧ Basic_Drop_pool g0 (bpm w) (bpm w1)) ∧
     (o ≠ Ret tt → BasicPageGuard.move_assign this that w = (w1, o))) ∧
  (∀ f dirty p,
     holds w this f dirty p →
     ∃ w',
       BasicPageGuard.move_assign this that w = (w', Ret tt) ∧
       guards w' = <[that := cleared]> (<[this := g]> (guards w)) ∧
       BufferPoolManager.frame (BufferPoolManager.pages_ (bpm w')) f =
         Some (Page.mk (Page.data_ p) (Page.page_id_ p) (Page.pin_count_ p - 1)
                 (Page.is_dirty_ p || dirty) (Page.readers_ p) (Page.writer_ p)) ∧
       ∀ f', f' ≠ f →
             BufferPoolManager.frame (BufferPoolManager.pages_ (bpm w')) f' =
             BufferPoolManager.frame (BufferPoolManager.pages_ (bpm w)) f') ∧
  (∀ g0,
     guards w !! this = Some g0 →
     bpm_ g0 = false ∨ page_ g0 = None →
     BasicPageGuard.move_assign this that w =
       (mkWorld (bpm w) (<[that := cleared]> (<[this := g]> (guards w))), Ret tt)).
Proof.
  intros Hne Hthat. split_and!.
  - intros w1 o Hdrop.
    destruct (Basic_move_assign_after_Drop w w1 this that g o Hne Hthat Hdrop)
      as [Hret Hfail].
    split; [|done]. intros ->. split; [by apply Hret|].
    destruct (Basic_Drop_Ret w w1 this Hdrop) as (g0 & Hthis & _ & Hpool). eauto.
  - intros f dirty p Hholds.
    pose proof Hholds as (_ & Hf & Hpt & Hpin & Hrec).
    destruct (frame_after_unpin (bpm w) dirty f p Hpt Hf Hpin Hrec) as [Hf' Hother].
    eexists. split; [by eapply Basic_move_assign_holding|]. by simpl.
  - intros g0 Hthis Hnull.
    by apply (Basic_move_assign_after_Drop w _ this that g (Ret tt) Hne Hthat
                (Basic_Drop_null w this g0 Hthis Hnull)).
Qed.

Lemma Basic_move_assign_transfers_witness :
  (∃ w',
     BasicPageGuard.move_assign 100 200 world_two_basic_guards = (w', Ret tt) ∧
     guards w' =
       <[200 := cleared]> (<[100 := mkGuard true (Some 1) true]>
                             (guards world_two_basic_guards)) ∧
     BufferPoolManager.frame (BufferPoolManager.pages_ (bpm w')) 0 =
       Some (Page.mk zero_page 0 (1 - 1) (false || false) 0 false) ∧
     ∀ f', f' ≠ 0 →
           BufferPoolManager.frame (BufferPoolManager.pages_ (bpm w')) f' =
           BufferPoolManager.frame
             (BufferPoolManager.pages_ (bpm world_two_basic_guards)) f') ∧
  BasicPageGuard.move_assign 100 200 world_stale_guard =
    (mkWorld (bpm (exec (BasicPageGuard.Drop 100) world_stale_guard))
       (<[200 := cleared]> (<[100 := mkGuard true (Some 1) false]>
                              (guards world_stale_guard))),
     Ret tt).
Proof.
  split.
  - apply (proj1 (proj2 (Basic_move_assign_transfers world_two_basic_guards 100 200
                    (mkGuard true (Some 1) true) ltac:(lia)
                    ltac:(vm_compute; reflexivity)))
             0 false (Page.mk zero_page 0 1 false 0 false)).
    apply (bool_decide_unpack _). vm_compute. exact I.
  - apply (proj1 (proj1 (Basic_move_assign_transfers world_stale_guard 100 200
                    (mkGuard true (Some 1) false) ltac:(lia)
                    ltac:(vm_compute; reflexivity))
                    (exec (BasicPageGuard.Drop 100) world_stale_guard) (Ret tt)
                    ltac:(vm_compute; reflexivity))
             eq_refl).
Defined.

(** Move-assignment to a guard that was handed page 0 before the page id 0
    was allocated to a second frame: the pin of the guard's frame 0 stays,
    the pin of frame 1 is released, and the guard takes frame 1 over. *)
Example Basic_move_assign_of_stale_guard :
  let w' := exec (BasicPageGuard.move_assign 100 200) world_stale_guard in
  (BasicPageGuard.move_assign 100 200 world_stale_guard).2 = Ret tt ∧
  guards w' !! 100 = Some (mkGuard true (Some 1) false) ∧
  guards w' !! 200 = Some cleared ∧
  Page.pin_count_ <$> BufferPoolManager.frame (BufferPoolManager.pages_ (bpm w')) 0 =
    Some 1 ∧
  Page.pin_count_ <$> BufferPoolManager.frame (BufferPoolManager.pages_ (bpm w')) 1 =
    Some 0.
Proof. vm_compute. repeat split; reflexivity. Qed.

(** [ReadPageGuard::Drop] and [WritePageGuard::Drop] of a guard that holds
    a latched frame, in closed form. *)
Lemma latched_Drop_holding (drop : Z → M World unit)
    (release : Page.t → outcome Page.t)
    (w : World) (this f : Z) (dirty : bool) (p p' : Page.t) :
  (∀ this, drop this =
     (let* g := guard_at this in
      match page_ g with
      | None => ret tt
      | Some f => unlatch f release ;; BasicPageGuard.Drop this
      end)) →
  holds w this f dirty p →
  release p = Ret p' →
  Page.page_id_ p' = Page.page_id_ p →
  Page.pin_count_ p' = Page.pin_count_ p →
  drop this w =
  (mkWorld
     (exec (BufferPoolManager.UnpinPage (Page.page_id_ p) dirty)
        (BufferPoolManager.set_pages
           (<[Z.to_nat f := p']> (BufferPoolManager.pages_ (bpm w))) (bpm w)))
     (<[this := cleared]> (guards w)),
   Ret tt).
Proof.
  intros Hdrop Hholds Hrel Hid Hcount.
  pose proof (holds_after_unlatch w this f dirty p p' Hholds Hid Hcount) as Hholds'.
  destruct Hholds as (Hg & Hf & _).
  rewrite Hdrop. unfold bind at 1, guard_at. rewrite Hg. simpl.
  unfold bind at 1. rewrite (unlatch_returns w f p p' release Hf Hrel).
  rewrite (Basic_Drop_holding _ this f dirty p' Hholds'). simpl. by rewrite Hid.
Qed.

(** Move-assignment of a latched guard to a distinct guard that holds a
    latched frame. *)
Lemma latched_move_assign (drop : Z → M World unit)
    (release : Page.t → outcome Page.t)
    (w : World) (this that f : Z) (dirty : bool) (p p' : Page.t) (g : guard_members) :
  (∀ this, drop this =
     (let* g := guard_at this in
      match page_ g with
      | None => ret tt
      | Some f => unlatch f release ;; BasicPageGuard.Drop this
      end)) →
  this ≠ that →
  guards w !! that = Some g →
  holds w this f dirty p →
  release p = Ret p' →
  Page.page_id_ p' = Page.page_id_ p →
  Page.pin_count_ p' = Page.pin_count_ p →
  ∃ w',
    (drop this ;; BasicPageGuard.move_assign this that) w = (w', Ret tt) ∧
    guards w' = <[that := cleared]> (<[this := g]> (guards w)) ∧
    BufferPoolManager.frame (BufferPoolManager.pages_ (bpm w')) f =
      Some (Page.mk (Page.data_ p') (Page.page_id_ p) (Page.pin_count_ p - 1)
              (Page.is_dirty_ p' || dirty) (Page.readers_ p') (Page.writer_ p')) ∧
    ∀ f', f' ≠ f →
          BufferPoolManager.frame (BufferPoolManager.pages_ (bpm w')) f' =
          BufferPoolManager.frame (BufferPoolManager.pages_ (bpm w)) f'.
Proof.
  intros Hdrop Hne Hthat Hholds Hrel Hid Hcount.
  pose proof (holds_after_unlatch w this f dirty p p' Hholds Hid Hcount)
    as (_ & Hf' & Hpt' & Hpin' & Hrec').
  destruct (frame_after_unpin _ dirty f p' Hpt' Hf' Hpin' Hrec') as [Hf1 Hother].
  simpl in Hf1, Hother. rewrite Hid in Hf1, Hother. rewrite Hcount in Hf1.
  pose proof Hholds as (_ & Hf & _).
  eexists. split.
  - unfold bind at 1.
    rewrite (latched_Drop_holding drop release w this f dirty p p'); try done.
    apply Basic_move_assign_cleared; simpl; [done| |apply lookup_insert_eq].
    by rewrite lookup_insert_ne.
  - simpl. rewrite insert_insert_eq. split_and!; [done|done|].
    intros f' Hf'ne. rewrite (Hother f' Hf'ne).
    apply frame_insert_ne; [|done]. by apply frame_Some in Hf as [? _].
Qed.

(** [ReadPageGuard::Drop] and [WritePageGuard::Drop] that returned, whatever
    the guard holds. *)
Lemma latched_Drop_Ret (drop : Z → M World unit)
    (release : Page.t → outcome Page.t) (w w1 : World) (this : Z) :
  (∀ this, drop this =
     (let* g := guard_at this in
      match page_ g with
      | None => ret tt
      | Some f => unlatch f release ;; BasicPageGuard.Drop this
      end)) →
  drop this w = (w1, Ret tt) →
  ∃ g0, guards w !! this = Some g0 ∧
        latched_Drop_pool release g0 (bpm w) (bpm w1) ∧
        match page_ g0 with
        | None => guards w1 = guards w
        | Some _ => guards w1 = <[this := cleared]> (guards w)
        end.
Proof.
  intros Hdrop Hcall. rewrite Hdrop in Hcall.
  apply bind_Ret in Hcall as (g0' & w0 & Hg & Hcall).
  unfold guard_at in Hg. destruct (guards w !! this) as [g0|] eqn:Hthis; [|done].
  injection Hg as <- <-. exists g0. split; [done|].
  unfold latched_Drop_pool.
  destruct (page_ g0) as [f|] eqn:Hpage.
  - apply bind_Ret in Hcall as ([] & w2 & Hun & Hcall).
    unfold unlatch in Hun.
    apply bind_Ret in Hun as (p & w3 & Hp & Hun).
    apply on_bpm_Ret in Hp as (s3 & Hp & ->).
    apply page_Ret in Hp as [-> Hf].
    destruct (release p) as [p'|e|] eqn:Hrel; [|done|done].
    apply on_bpm_Ret in Hun as (s2 & Hun & ->). simpl in Hun.
    apply update_page_Ret in Hun as (p0 & Hf0 & ->).
    destruct (Basic_Drop_Ret _ w1 this Hcall) as (g1 & Hthis1 & Hguards & Hpool).
    simpl in Hthis1, Hguards, Hpool.
    rewrite Hthis in Hthis1. injection Hthis1 as <-.
    split; [|done]. exists p, p'. done.
  - unfold ret in Hcall. by injection Hcall as <-.
Qed.

(** Move-assignment of a latched guard to a distinct guard, whatever the
    target holds. *)
Lemma latched_move_assign_after_Drop (drop : Z → M World unit)
    (release : Page.t → outcome Page.t)
    (w w1 : World) (this that : Z) (g : guard_members) (o : outcome unit) :
  (∀ this, drop this =
     (let* g := guard_at this in
      match page_ g with
      | None => ret tt
      | Some f => unlatch f release ;; BasicPageGuard.Drop this
      end)) →
  this ≠ that →
  guards w !! that = Some g →
  drop this w = (w1, o) →
  (o = Ret tt →
   (drop this ;; BasicPageGuard.move_assign this that) w =
     (mkWorld (bpm w1) (<[that := cleared]> (<[this := g]> (guards w))), Ret tt) ∧
   ∃ g0, guards w !! this = Some g0 ∧ latched_Drop_pool release g0 (bpm w) (bpm w1)) ∧
  (o ≠ Ret tt →
   (drop this ;; BasicPageGuard.move_assign this that) w = (w1, o)).
Proof.
  intros Hdrop Hne Hthat Hcall. split.
  - intros ->. unfold bind at 1. rewrite Hcall.
    destruct (latched_Drop_Ret drop release w w1 this Hdrop Hcall)
      as (g0 & Hthis & Hpool & Hguards).
    split; [|eauto].
    destruct (page_ g0) as [f|] eqn:Hpage.
    + rewrite (Basic_move_assign_cleared w1 this that g); try done.
      * by rewrite Hguards, insert_insert_eq.
      * by rewrite Hguards, lookup_insert_ne.
      * rewrite Hguards. apply lookup_insert_eq.
    + destruct (Basic_move_assign_after_Drop w1
                  (mkWorld (bpm w1) (<[this := cleared]> (guards w1)))
                  this that g (Ret tt) Hne) as [Hret _].
      * by rewrite Hguards.
      * apply (Basic_Drop_null w1 this g0); [by rewrite Hguards|by right].
      * rewrite (Hret eq_refl). simpl. by rewrite Hguards.
  - intros Ho. unfold bind at 1. rewrite Hcall. by destruct o as [[]|e|].
Qed.

(** X17. Move-assignment between two distinct [ReadPageGuard]s, or two
    distinct [WritePageGuard]s, does what [Drop] of the target does and then
    hands over what the source holds, whatever the target holds.  If [Drop]
    of the target returns, the assignment returns, the pool is the one
    [Drop] left (with a null page the pool as it was; otherwise the latch of
    the target's frame released once and then the pool as
    [BasicPageGuard::Drop] leaves it), the target has the members of the
    source as they were (the latch and the pin count of the source's frame
    are not touched), the source holds nothing, and no other guard changes.
    If [Drop] of the target does not return, the assignment ends as [Drop]
    did.  When the page table maps the page id of the target's frame [f] to
    [f] and the page is pinned and latched, the latch of [f] is released
    once, its pin count goes down by one, and the frames other than [f] are
    as before. *)
Theorem latched_move_assign_transfers (w : World) (this that : Z) (g : guard_members) :
  this ≠ that →
  guards w !! that = Some g →
  let after_Drop (Drop : Z → M World unit) (move_assign : Z → Z → M World unit)
        (release : Page.t → outcome Page.t) :=
    ∀ w1 o,
      Drop this w = (w1, o) →
      (o = Ret tt →
       move_assign this that w =
         (mkWorld (bpm w1) (<[that := cleared]> (<[this := g]> (guards w))), Ret tt) ∧
       ∃ g0, guards w !! this = Some g0 ∧
             latched_Drop_pool release g0 (bpm w) (bpm w1)) ∧
      (o ≠ Ret tt → move_assign this that w = (w1, o)) in
  let result (f : Z) (dirty : bool) (p : Page.t)
        (move_assign : Z → Z → M World unit) readers writer :=
    ∃ w',
      move_assign this that w = (w', Ret tt) ∧
      guards w' = <[that := cleared]> (<[this := g]> (guards w)) ∧
      BufferPoolManager.frame (BufferPoolManager.pages_ (bpm w')) f =
        Some (Page.mk (Page.data_ p) (Page.page_id_ p) (Page.pin_count_ p - 1)
                (Page.is_dirty_ p || dirty) readers writer) ∧
      ∀ f', f' ≠ f →
            BufferPoolManager.frame (BufferPoolManager.pages_ (bpm w')) f' =
            BufferPoolManager.frame (BufferPoolManager.pages_ (bpm w)) f' in
  after_Drop ReadPageGuard.Drop ReadPageGuard.move_assign Page.RUnlatch ∧
  after_Drop WritePageGuard.Drop WritePageGuard.move_assign Page.WUnlatch ∧
  (∀ f dirty p,
     holds w this f dirty p →
     (∀ n, Page.readers_ p = S n →
           result f dirty p ReadPageGuard.move_assign n (Page.writer_ p)) ∧
     (Page.writer_ p = true →
      result f dirty p WritePageGuard.move_assign (Page.readers_ p) false)).
Proof.
  intros Hne Hthat after_Drop result. split_and!.
  - intros w1 o Hcall.
    by apply (latched_move_assign_after_Drop ReadPageGuard.Drop Page.RUnlatch
                w w1 this that g o).
  - intros w1 o Hcall.
    by apply (latched_move_assign_after_Drop WritePageGuard.Drop Page.WUnlatch
                w w1 this that g o).
  - intros f dirty p Hholds. split.
    + intros n Hn.
      apply (latched_move_assign ReadPageGuard.Drop Page.RUnlatch w this that f dirty p
               (Page.mk (Page.data_ p) (Page.page_id_ p) (Page.pin_count_ p)
                  (Page.is_dirty_ p) n (Page.writer_ p)) g); try done.
      unfold Page.RUnlatch. by rewrite Hn.
    + intros Hw.
      apply (latched_move_assign WritePageGuard.Drop Page.WUnlatch w this that f dirty p
               (Page.mk (Page.data_ p) (Page.page_id_ p) (Page.pin_count_ p)
                  (Page.is_dirty_ p) (Page.readers_ p) false) g); try done.
      unfold Page.WUnlatch. by rewrite Hw.
Qed.

Lemma latched_move_assign_transfers_witness :
  (∃ w',
     ReadPageGuard.move_assign 100 200 world_two_read_guards = (w', Ret tt) ∧
     guards w' =
       <[200 := cleared]> (<[100 := mkGuard true (Some 1) false]>
                             (guards world_two_read_guards)) ∧
     BufferPoolManager.frame (BufferPoolManager.pages_ (bpm w')) 0 =
       Some (Page.mk zero_page 0 (2 - 1) (false || false) 0 false) ∧
     ∀ f', f' ≠ 0 →
           BufferPoolManager.frame (BufferPoolManager.pages_ (bpm w')) f' =
           BufferPoolManager.frame
             (BufferPoolManager.pages_ (bpm world_two_read_guards)) f') ∧
  ReadPageGuard.move_assign 100 300 world_stale_read_guards =
    (mkWorld (bpm (exec (ReadPageGuard.Drop 100) world_stale_read_guards))
       (<[300 := cleared]> (<[100 := mkGuard true (Some 1) false]>
                              (guards world_stale_read_guards))),
     Ret tt).
Proof.
  split.
  - apply (proj1 (proj2 (proj2 (latched_move_assign_transfers world_two_read_guards
                    100 200 (mkGuard true (Some 1) false)
                    ltac:(lia) ltac:(vm_compute; reflexivity)))
                    0 false (Page.mk zero_page 0 2 false 1 false)
                    ltac:(apply (bool_decide_unpack _); vm_compute; exact I)) 0%nat).
    reflexivity.
  - apply (proj1 (proj1 (proj1 (latched_move_assign_transfers world_stale_read_guards
                    100 300 (mkGuard true (Some 1) false)
                    ltac:(lia) ltac:(vm_compute; reflexivity))
                    (exec (ReadPageGuard.Drop 100) world_stale_read_guards) (Ret tt)
                    ltac:(vm_compute; reflexivity))
             eq_refl)).
Defined.

(** Move-assignment to a read guard that was handed page 0 before the page
    id 0 was allocated to a second frame, from the read guard at address 300
    for this second frame: the latch of the target's frame 0 is released and
    its pin stays; one pin of frame 1 is released instead, its latch is
    kept, and the target takes frame 1 over. *)
Example Read_move_assign_of_stale_guard :
  let w := world_stale_read_guards in
  let w' := exec (ReadPageGuard.move_assign 100 300) w in
  BufferPoolManager.frame (BufferPoolManager.pages_ (bpm w)) 0 =
    Some (Page.mk zero_page 0 1 false 1 false) ∧
  BufferPoolManager.frame (BufferPoolManager.pages_ (bpm w)) 1 =
    Some (Page.mk zero_page 0 2 false 1 false) ∧
  (ReadPageGuard.move_assign 100 300 w).2 = Ret tt ∧
  guards w' !! 100 = Some (mkGuard true (Some 1) false) ∧
  guards w' !! 300 = Some cleared ∧
  BufferPoolManager.frame (BufferPoolManager.pages_ (bpm w')) 0 =
    Some (Page.mk zero_page 0 1 false 0 false) ∧
  BufferPoolManager.frame (BufferPoolManager.pages_ (bpm w')) 1 =
    Some (Page.mk zero_page 0 1 false 1 false).
Proof. vm_compute. repeat split; reflexivity. Qed.

(** ** Guards made by the factories of the pool *)

(** The guard constructed for the frame that [FetchPage] returned holds
    this frame. *)
Lemma fetched_guard_holds_inv (k : Z) (s s1 : BufferPoolManager.t)
    (page_id f result : Z) (gs : gmap Z guard_members) :
  0 < k →
  pool_inv k s →
  BufferPoolManager.FetchPage page_id s = (s1, Ret (Some f)) →
  ∃ p, holds (mkWorld s1 (<[result := mkGuard true (Some f) false]> gs)) result f false p ∧
       Page.page_id_ p = page_id.
Proof.
  intros Hk Hs Hcall.
  assert (pool_inv k s1) as Hs1 by (by eapply pool_inv_FetchPage).
  destruct (FetchPage_returns_inv k s s1 page_id f Hk Hs Hcall)
    as (Hpt & p & n & Hf & Hid & Hpin & _).
  destruct (pool_inv_conditions k s1 Hk Hs1) as [_ Hrec].
  exists p. split; [|done]. unfold holds. simpl. rewrite Hid.
  split_and!; try done. apply lookup_insert_eq.
Qed.

Lemma fetched_guard_holds (k : Z) (s s1 : BufferPoolManager.t) (page_id f result : Z)
    (gs : gmap Z guard_members) :
  0 < k →
  pool_reachable k s →
  BufferPoolManager.FetchPage page_id s = (s1, Ret (Some f)) →
  ∃ p, holds (mkWorld s1 (<[result := mkGuard true (Some f) false]> gs)) result f false p ∧
       Page.page_id_ p = page_id.
Proof.
  intros Hk Hs. apply (fetched_guard_holds_inv k); [done|].
  by apply pool_reachable_inv.
Qed.

(** X18. The guards that [FetchPageBasic] and [NewPageGuarded] return hold
    their frame: in a state of a pool created with [k >= 1], when the call
    of [FetchPage] or [NewPage] inside returns a frame, the guard
    constructed at [result] points to this frame, the frame holds the
    requested (or newly allocated) page, the page table maps the page to the
    frame, and the pin taken for the guard is counted; when the call inside
    returns [nullptr], the guard has a null page pointer and the pool is
    unchanged.  No other guard changes. *)
Theorem factory_guard_holds (k : Z) (w : World) (result : Z) :
  0 < k →
  pool_reachable k (bpm w) →
  (∀ page_id w',
     FetchPageBasic result page_id w = (w', Ret tt) →
     ∃ page,
       guards w' = <[result := mkGuard true page false]> (guards w) ∧
       match page with
       | Some f => ∃ p, holds w' result f false p ∧ Page.page_id_ p = page_id
       | None => bpm w' = bpm w
       end) ∧
  (∀ new_id w',
     NewPageGuarded result w = (w', Ret new_id) →
     ∃ page,
       guards w' = <[result := mkGuard true page false]> (guards w) ∧
       match page, new_id with
       | Some f, Some page_id =>
           ∃ p, holds w' result f false p ∧ Page.page_id_ p = page_id ∧
                Page.pin_count_ p = 1
       | None, None => bpm w' = bpm w
       | _, _ => False
       end).
Proof.
  intros Hk Hs. split.
  - intros page_id w' Hcall. unfold FetchPageBasic in Hcall.
    apply bind_Ret in Hcall as (page & w1 & (s1 & Hfetch & ->)%on_bpm_Ret & [= <-]).
    exists page. split; [done|]. destruct page as [f|].
    + by eapply fetched_guard_holds.
    + simpl. apply FetchPage_effect in Hfetch
        as [(? & ? & ? & _ & _ & _ & _ & ? & _)
           |[(_ & _ & _ & ->)|(? & ? & ? & ? & ? & ? & _ & _ & _ & _ & _ & _ & _ & ? & _)]];
        done.
  - intros new_id w' Hcall. unfold NewPageGuarded in Hcall.
    apply bind_Ret in Hcall as (new & w1 & (s1 & Hnew & ->)%on_bpm_Ret & Hcall).
    apply bind_Ret in Hcall as ([] & w2 & [= <-] & [= <- <-]).
    exists (snd <$> new). split; [done|]. destruct new as [[page_id f]|]; simpl.
    + assert (pool_reachable k s1) as Hs1 by (by eapply pool_NewPage).
      destruct (NewPage_returns _ _ _ _ Hnew) as (_ & _ & Hpt & (p & Hf & Hid & Hpin) & _).
      destruct (pool_reachable_conditions k s1 Hk Hs1) as [_ Hrec].
      exists p. split_and!; try done. unfold holds. simpl. rewrite Hid, Hpin.
      split_and!; try done. apply lookup_insert_eq.
    + apply NewPage_effect in Hnew
        as [(_ & _ & ->)|(? & ? & ? & ? & ? & ? & _ & _ & _ & _ & _ & ? & _)]; done.
Qed.

Lemma factory_guard_holds_witness :
  ∃ page,
    guards (exec (FetchPageBasic 100 1) (mkWorld pool_full_unpinned ∅)) =
      <[100 := mkGuard true page false]> (guards (mkWorld pool_full_unpinned ∅)) ∧
    match page with
    | Some f =>
        ∃ p, holds (exec (FetchPageBasic 100 1) (mkWorld pool_full_unpinned ∅))
               100 f false p ∧
             Page.page_id_ p = 1
    | None =>
        bpm (exec (FetchPageBasic 100 1) (mkWorld pool_full_unpinned ∅)) =
        bpm (mkWorld pool_full_unpinned ∅)
    end.
Proof.
  apply (proj1 (factory_guard_holds 2 (mkWorld pool_full_unpinned ∅) 100
                  ltac:(lia) pool_full_unpinned_reachable) 1).
  vm_compute. reflexivity.
Defined.




(** The pool of [world_read_guard] is a state of a pool in which a latch is
    held. *)
Lemma world_read_guard_reachable : pool_reachable_latched 2 (bpm world_read_guard).
Proof.
  assert (bpm world_read_guard =
          BufferPoolManager.set_pages
            (<[Z.to_nat 0 := latch_shared (Page.mk zero_page 0 2 false 0 false)]>
               (BufferPoolManager.pages_
                  (exec (BufferPoolManager.FetchPage 0) pool_one_pinned)))
            (exec (BufferPoolManager.FetchPage 0) pool_one_pinned)) as ->
    by (vm_compute; reflexivity).
  apply (latched_latch 2 _ 0 (Page.mk zero_page 0 2 false 0 false)).
  - apply pool_reachable_is_latched.
    apply (pool_reachable_exec_FetchPage 2 _ 0 (Some 0));
      [apply pool_one_pinned_reachable|].
    vm_compute. reflexivity.
  - vm_compute. reflexivity.
  - left. reflexivity.
Qed.



(** A second read guard for page 0 while the first holds its latch: the
    page is pinned three times and latched by two readers; a write guard
    for the page blocks. *)
Example second_reader_shares_latch :
  (FetchPageRead 200 0 world_read_guard).2 = Ret true ∧
  BufferPoolManager.frame (BufferPoolManager.pages_ (bpm world_read_guard)) 0 =
    Some (Page.mk zero_page 0 2 false 1 false) ∧
  BufferPoolManager.frame (BufferPoolManager.pages_ (bpm world_second_reader)) 0 =
    Some (Page.mk zero_page 0 3 false 2 false) ∧
  guards world_second_reader !! 100 = Some (mkGuard true (Some 0) false) ∧
  guards world_second_reader !! 200 = Some (mkGuard true (Some 0) false) ∧
  (FetchPageWrite 300 0 world_read_guard).2 = Ret false.
Proof. vm_compute. repeat split; reflexivity. Qed.

(** [BasicPageGuard::Drop] of the guard for a frame just fetched, when the
    [UnpinPage] undoes the [FetchPage]. *)
Lemma Basic_Drop_undoes_fetch (s s1 : BufferPoolManager.t) (gs : gmap Z guard_members)
    (result f : Z) (p1 : Page.t) :
  BufferPoolManager.frame (BufferPoolManager.pages_ s1) f = Some p1 →
  BufferPoolManager.UnpinPage (Page.page_id_ p1) false s1 = (s, Ret true) →
  BasicPageGuard.Drop result
    (mkWorld s1 (<[result := mkGuard true (Some f) false]> gs)) =
  (mkWorld s (<[result := cleared]> gs), Ret tt).
Proof.
  intros Hf Hunpin.
  unfold BasicPageGuard.Drop, bind at 1, guard_at. simpl.
  rewrite lookup_insert_eq. simpl.
  unfold bind at 1. erewrite on_bpm_eq by (simpl; by apply page_eq).
  unfold bind at 1. erewrite on_bpm_eq by (simpl; exact Hunpin).
  unfold BasicPageGuard.CLear, set_guard, bind, guard_at, modify. simpl.
  rewrite lookup_insert_eq. simpl. by rewrite insert_insert_eq.
Qed.

Lemma latch_free (w : World) (f : Z) (p p' : Page.t)
    (acquire : Page.t → option Page.t) :
  BufferPoolManager.frame (BufferPoolManager.pages_ (bpm w)) f = Some p →
  acquire p = Some p' →
  latch (Some f) acquire w =
  (mkWorld (BufferPoolManager.set_pages
              (<[Z.to_nat f := p']> (BufferPoolManager.pages_ (bpm w))) (bpm w))
           (guards w),
   Ret true).
Proof.
  intros Hf Hacq. unfold latch, bind, on_bpm.
  rewrite (page_eq _ _ _ Hf), Hacq.
  by erewrite update_page_eq by exact Hf.
Qed.

(** A latched factory followed by the [Drop] of its guard. *)
Lemma latched_fetch_and_drop (k : Z) (w : World) (result page_id f : Z) (p : Page.t)
    (acquire : Page.t → option Page.t) (release : Page.t → outcome Page.t)
    (drop : Z → M World unit) :
  (∀ this, drop this =
     (let* g := guard_at this in
      match page_ g with
      | None => ret tt
      | Some f => unlatch f release ;; BasicPageGuard.Drop this
      end)) →
  0 < k →
  pool_inv k (bpm w) →
  BufferPoolManager.page_table_ (bpm w) !! page_id = Some f →
  BufferPoolManager.frame (BufferPoolManager.pages_ (bpm w)) f = Some p →
  Page.pin_count_ p < INT_MAX →
  (∀ q, Page.readers_ q = Page.readers_ p → Page.writer_ q = Page.writer_ p →
        ∃ q', acquire q = Some q' ∧ release q' = Ret q) →
  ((let* page := on_bpm (BufferPoolManager.FetchPage page_id) in
    let* taken := latch page acquire in
    if taken : bool then construct_guard result page ;; ret true else ret false) ;;
   drop result) w =
  (mkWorld (bpm w) (<[result := cleared]> (guards w)), Ret tt).
Proof.
  intros Hdrop Hk Hs Hpt Hf Hmax Hlatch.
  destruct (FetchPage_then_UnpinPage_inv k (bpm w) page_id f p Hk Hs Hpt Hf Hmax)
    as (s1 & Hfetch & Hf1 & Hunpin).
  destruct (pool_inv_page_table k (bpm w) Hs) as (HM & _).
  destruct (HM page_id f Hpt) as ((p0 & Hp0 & Hid) & _).
  assert (p0 = p) as -> by congruence.
  set (p1 := Page.set_pin_count (Page.pin_count_ p + 1) p) in *.
  destruct (Hlatch p1) as (p2 & Hacq & Hrel); [done|done|].
  pose proof (frame_Some _ _ _ Hf1) as [Hpos Hlook].
  unfold bind at 1. unfold bind at 1. rewrite (on_bpm_eq _ w _ _ Hfetch).
  unfold bind at 1. rewrite (latch_free (mkWorld s1 (guards w)) f p1 p2 acquire Hf1 Hacq).
  unfold bind at 1, construct_guard, modify at 1. unfold ret at 1.
  simpl. rewrite Hdrop.
  unfold bind at 1, guard_at. simpl. rewrite lookup_insert_eq. simpl.
  unfold bind at 1.
  erewrite (unlatch_returns _ f p2 p1 release);
    [|simpl; by eapply frame_insert_eq|done].
  simpl. rewrite list_insert_insert_eq, list_insert_id by done.
  assert (BufferPoolManager.set_pages (BufferPoolManager.pages_ s1)
            (BufferPoolManager.set_pages
               (<[Z.to_nat f := p2]> (BufferPoolManager.pages_ s1)) s1) = s1) as ->
    by (by destruct s1).
  apply Basic_Drop_undoes_fetch with (p1 := p1); [done|].
  simpl. by rewrite Hid.
Qed.

(** X20. A guard fetched for a resident page and dropped again leaves the
    pool exactly as it was: in every state of a pool created with
    [k >= 1], whatever latches are held, for a page in the page table whose
    pin count is below [INT_MAX], [FetchPageBasic] followed by
    [BasicPageGuard::Drop] restores the pool, latches included, and leaves
    the guard holding nothing; so does [FetchPageRead] followed by
    [ReadPageGuard::Drop] when no writer holds the latch of the frame
    (readers may hold it), and [FetchPageWrite] followed by
    [WritePageGuard::Drop] when nobody holds it. *)
Theorem fetch_guard_and_drop_restores_pool (k : Z) (w : World)
    (result page_id f : Z) (p : Page.t) :
  0 < k →
  pool_reachable_latched k (bpm w) →
  BufferPoolManager.page_table_ (bpm w) !! page_id = Some f →
  BufferPoolManager.frame (BufferPoolManager.pages_ (bpm w)) f = Some p →
  Page.pin_count_ p < INT_MAX →
  let restored := (mkWorld (bpm w) (<[result := cleared]> (guards w)), Ret tt) in
  (FetchPageBasic result page_id ;; BasicPageGuard.Drop result) w = restored ∧
  (Page.writer_ p = false →
   (FetchPageRead result page_id ;; ReadPageGuard.Drop result) w = restored) ∧
  (Page.writer_ p = false → Page.readers_ p = 0%nat →
   (FetchPageWrite result page_id ;; WritePageGuard.Drop result) w = restored).
Proof.
  intros Hk Hs Hpt Hf Hmax restored. subst restored.
  pose proof (pool_reachable_latched_inv k (bpm w) Hk Hs) as Hinv.
  split_and!.
  - destruct (FetchPage_then_UnpinPage_inv k (bpm w) page_id f p Hk Hinv Hpt Hf Hmax)
      as (s1 & Hfetch & Hf1 & Hunpin).
    destruct (pool_inv_page_table k (bpm w) Hinv) as (HM & _).
    destruct (HM page_id f Hpt) as ((p0 & Hp0 & Hid) & _).
    assert (p0 = p) as -> by congruence.
    unfold bind at 1, FetchPageBasic, bind at 1. rewrite (on_bpm_eq _ w _ _ Hfetch).
    unfold construct_guard, modify. simpl.
    eapply Basic_Drop_undoes_fetch; [exact Hf1|]. simpl. by rewrite Hid.
  - intros Hw.
    apply (latched_fetch_and_drop k w result page_id f p RLatch Page.RUnlatch
             ReadPageGuard.Drop); try done.
    intros q Hr Hwq. eexists. unfold RLatch. rewrite Hwq, Hw. split; [done|].
    by destruct q.
  - intros Hw Hr.
    apply (latched_fetch_and_drop k w result page_id f p WLatch Page.WUnlatch
             WritePageGuard.Drop); try done.
    intros q Hrq Hwq. eexists. unfold WLatch. rewrite Hwq, Hw, Hrq, Hr. split; [done|].
    unfold Page.WUnlatch, latch_exclusive. simpl. destruct q. simpl in *.
    rewrite Hw in Hwq. by subst.
Qed.

Lemma fetch_guard_and_drop_restores_pool_witness :
  (let w := world_read_guard in
   let restored := (mkWorld (bpm w) (<[200 := cleared]> (guards w)), Ret tt) in
   (FetchPageBasic 200 0 ;; BasicPageGuard.Drop 200) w = restored ∧
   (FetchPageRead 200 0 ;; ReadPageGuard.Drop 200) w = restored) ∧
  (let w := mkWorld pool_full_unpinned ∅ in
   let restored := (mkWorld (bpm w) (<[100 := cleared]> (guards w)), Ret tt) in
   (FetchPageWrite 100 1 ;; WritePageGuard.Drop 100) w = restored).
Proof.
  split.
  - destruct (fetch_guard_and_drop_restores_pool 2 world_read_guard 200 0 0
                (Page.mk zero_page 0 2 false 1 false)) as (Hbasic & Hread & _).
    + lia.
    + apply world_read_guard_reachable.
    + vm_compute. reflexivity.
    + vm_compute. reflexivity.
    + vm_compute. reflexivity.
    + split; [exact Hbasic|by apply Hread].
  - destruct (fetch_guard_and_drop_restores_pool 2 (mkWorld pool_full_unpinned ∅) 100 1 1
                (Page.mk zero_page 1 0 false 0 false)) as (_ & _ & Hwrite).
    + lia.
    + apply pool_reachable_is_latched, pool_full_unpinned_reachable.
    + vm_compute. reflexivity.
    + vm_compute. reflexivity.
    + vm_compute. reflexivity.
    + by apply Hwrite.
Defined.

(** ** [RecordAccess] and the evictable frames *)

(** X21. Recording an access changes neither which frames are evictable nor
    their number: in a state of a replacer with [k_ >= 1], when
    [RecordAccess] returns, every frame that had a record keeps its
    evictable flag, the frame accessed has a record (not evictable if it is
    new) whose history ends with the timestamp just taken, [Size] returns
    what it returned before, and the timestamp counter has advanced by
    one. *)
Theorem RecordAccess_keeps_evictable_frames (r r' : LRUKReplacer.t) (f : Z) :
  replacer_reachable r →
  0 < LRUKReplacer.k_ r →
  LRUKReplacer.RecordAccess f r = (r', Ret tt) →
  LRUKReplacer.Size r' = LRUKReplacer.Size r ∧
  (∀ g n, LRUKReplacer.node_store_ r !! g = Some n →
          ∃ n', LRUKReplacer.node_store_ r' !! g = Some n' ∧
                LRUKNode.is_evictable_ n' = LRUKNode.is_evictable_ n) ∧
  (∃ n', LRUKReplacer.node_store_ r' !! f = Some n' ∧
         last (LRUKNode.history_ n') = Some (LRUKReplacer.time_base_line r') ∧
         (LRUKReplacer.node_store_ r !! f = None → LRUKNode.is_evictable_ n' = false)) ∧
  LRUKReplacer.time_base_line r' = (LRUKReplacer.time_base_line r + 1) mod 2 ^ 64.
Proof.
  intros Hr Hk Hcall.
  assert (replacer_reachable r') as Hr'.
  { pose proof (reachable_RecordAccess r f Hr) as H. by rewrite Hcall in H. }
  pose proof (replacer_reachable_consistent r Hr) as Hcons.
  pose proof (replacer_reachable_consistent r' Hr') as Hcons'.
  pose proof (replacer_reachable_recorded r Hr Hk f) as Hrec.
  destruct (RecordAccess_flag r r' f Hcall) as (n2 & Hn2 & Hflag).
  assert (∀ g, g ≠ f → LRUKReplacer.node_store_ r' !! g = LRUKReplacer.node_store_ r !! g)
    as Hother.
  { intros g Hg. pose proof (RecordAccess_other r f g Hg) as H. by rewrite Hcall in H. }
  assert (LRUKReplacer.replacer_size_ r < size_t_cast f → False) as Hle.
  { intros Hgt. revert Hcall. unfold LRUKReplacer.RecordAccess.
    by rewrite decide_True. }
  destruct (RecordAccess_returns r f ltac:(lia) Hk Hrec) as (st' & Hret).
  cbv zeta in Hret. rewrite Hcall in Hret. injection Hret as ->.
  split_and!.
  - destruct (index_frames r Hcons) as [Hnodup Hdom].
    destruct (index_frames _ Hcons') as [Hnodup' Hdom'].
    unfold LRUKReplacer.Size. f_equal.
    rewrite <- (length_fmap key_fid (LRUKReplacer.st_ _)).
    rewrite <- (length_fmap key_fid (LRUKReplacer.st_ r)).
    rewrite <- (size_list_to_set (C:=gset Z)) by done.
    rewrite <- (size_list_to_set (C:=gset Z) (key_fid <$> LRUKReplacer.st_ r)) by done.
    rewrite <- Hdom, <- Hdom'. f_equal. apply set_eq. intros g.
    rewrite !elem_of_dom. unfold evictable_records.
    unfold is_Some. setoid_rewrite map_lookup_filter_Some. simpl.
    destruct (decide (g = f)) as [->|Hne].
    + simpl in Hn2. rewrite Hn2.
      destruct (LRUKReplacer.node_store_ r !! f) as [n|].
      * split; intros (x & [= <-] & Hev); eexists; split; eauto; congruence.
      * split; intros (x & [= <-] & Hev); congruence.
    + simpl in Hother. by rewrite (Hother g Hne).
  - intros g n Hn. destruct (decide (g = f)) as [->|Hne].
    + exists n2. split; [done|]. by rewrite Hflag, Hn.
    + exists n. split; [|done]. by rewrite Hother.
  - exists n2. split_and!; [done| |].
    + simpl in Hn2. rewrite lookup_insert_eq in Hn2. injection Hn2 as <-. simpl.
      apply Add_last. unfold history_recorded in Hrec.
      destruct (LRUKReplacer.node_store_ r !! f) as [n|]; simpl; auto.
    + intros Hnone. by rewrite Hflag, Hnone.
  - done.
Qed.

Lemma replacer_two_frames_reachable : replacer_reachable replacer_two_frames.
Proof.
  assert (replacer_two_frames =
          (LRUKReplacer.RecordAccess 1
             (LRUKReplacer.SetEvictable 2 true
                (LRUKReplacer.SetEvictable 1 true
                   (LRUKReplacer.RecordAccess 2
                      (LRUKReplacer.RecordAccess 1
                         (LRUKReplacer.init 7 2)).1).1).1).1).1) as ->
    by (vm_compute; reflexivity).
  apply reachable_RecordAccess, reachable_SetEvictable, reachable_SetEvictable,
    reachable_RecordAccess, reachable_RecordAccess, reachable_init.
Qed.

Lemma RecordAccess_keeps_evictable_frames_witness :
  let r := replacer_two_frames in
  let r' := exec (LRUKReplacer.RecordAccess 2) replacer_two_frames in
  LRUKReplacer.Size r' = LRUKReplacer.Size r ∧
  (∀ g n, LRUKReplacer.node_store_ r !! g = Some n →
          ∃ n', LRUKReplacer.node_store_ r' !! g = Some n' ∧
                LRUKNode.is_evictable_ n' = LRUKNode.is_evictable_ n) ∧
  (∃ n', LRUKReplacer.node_store_ r' !! 2 = Some n' ∧
         last (LRUKNode.history_ n') = Some (LRUKReplacer.time_base_line r') ∧
         (LRUKReplacer.node_store_ r !! 2 = None → LRUKNode.is_evictable_ n' = false)) ∧
  LRUKReplacer.time_base_line r' = (LRUKReplacer.time_base_line r + 1) mod 2 ^ 64.
Proof.
  apply (RecordAccess_keeps_evictable_frames replacer_two_frames).
  - apply replacer_two_frames_reachable.
  - reflexivity.
  - vm_compute. reflexivity.
Defined.

(** ** A replacer that keeps no access *)

(** X22. A replacer created with [k_ = 0] keeps no access: the first
    [RecordAccess] of a frame returns and leaves a record with an empty
    history; from then on [RecordAccess] of this frame and
    [SetEvictable(f, true)] throw the [ExecutionException] of [FirstTime],
    leaving the replacer as it is, and [SetEvictable(f, false)] returns
    without effect.  (So the properties of the pool need [k >= 1].) *)
Theorem replacer_with_k_zero_throws (r : LRUKReplacer.t) (f : Z) :
  LRUKReplacer.k_ r = 0 →
  LRUKReplacer.node_store_ r !! f = None →
  size_t_cast f ≤ LRUKReplacer.replacer_size_ r →
  let empty := ExecutionException "[LRUKNode] history size is empty!" in
  ∃ r1,
    LRUKReplacer.RecordAccess f r = (r1, Ret tt) ∧
    LRUKReplacer.node_store_ r1 !! f = Some (LRUKNode.mk [] 0 f false) ∧
    LRUKReplacer.RecordAccess f r1 = (r1, Throw empty) ∧
    LRUKReplacer.SetEvictable f true r1 = (r1, Throw empty) ∧
    LRUKReplacer.SetEvictable f false r1 = (r1, Ret tt).
Proof.
  intros Hk Hn Hle empty.
  eexists. split; [by apply RecordAccess_fresh|].
  rewrite Hk. unfold LRUKNode.Add, LRUKNode.init, CurrentTimestamp. simpl.
  split_and!.
  - by rewrite lookup_insert_eq.
  - unfold LRUKReplacer.RecordAccess. simpl.
    rewrite decide_False by lia. by rewrite lookup_insert_eq.
  - unfold LRUKReplacer.SetEvictable. simpl. by rewrite lookup_insert_eq.
  - unfold LRUKReplacer.SetEvictable. simpl. by rewrite lookup_insert_eq.
Qed.

Lemma replacer_with_k_zero_throws_witness :
  let r := LRUKReplacer.init 7 0 in
  let empty := ExecutionException "[LRUKNode] history size is empty!" in
  ∃ r1,
    LRUKReplacer.RecordAccess 3 r = (r1, Ret tt) ∧
    LRUKReplacer.node_store_ r1 !! 3 = Some (LRUKNode.mk [] 0 3 false) ∧
    LRUKReplacer.RecordAccess 3 r1 = (r1, Throw empty) ∧
    LRUKReplacer.SetEvictable 3 true r1 = (r1, Throw empty) ∧
    LRUKReplacer.SetEvictable 3 false r1 = (r1, Ret tt).
Proof.
  apply (replacer_with_k_zero_throws (LRUKReplacer.init 7 0) 3).
  - reflexivity.
  - reflexivity.
  - vm_compute. discriminate.
Defined.

(** ** A page id that is fetched before it is allocated *)

(** The frames that the frame-acquisition statements do not hand out keep
    their page id and pin count. *)
Lemma acquire_frame_other_frames (s s1 : BufferPoolManager.t) (what : string)
    (f g : Z) (p : Page.t) :
  BufferPoolManager.acquire_frame what s = (s1, Ret f) →
  g ≠ f →
  BufferPoolManager.frame (BufferPoolManager.pages_ s) g = Some p →
  ∃ p', BufferPoolManager.frame (BufferPoolManager.pages_ s1) g = Some p' ∧
        Page.page_id_ p' = Page.page_id_ p ∧ Page.pin_count_ p' = Page.pin_count_ p.
Proof.
  intros [(rest & _ & ->)|(r1 & q & s2 & _ & _ & Hf & Hs2 & ->)]%acquire_frame_effect
    Hne Hg.
  - by exists p.
  - apply victim_written_back in Hs2 as (_ & _ & _ & _ & _ & _ & Hfr).
    pose proof (frame_Some _ _ _ Hf) as [Hpos _].
    simpl. rewrite frame_insert_ne by done.
    destruct (Hfr g) as [Heq|(q0 & Hq0 & Heq)].
    + exists p. by rewrite Heq.
    + assert (q0 = p) as -> by congruence. eauto.
Qed.

(** X23. [FetchPage] does not test whether a page id has been allocated, so
    one page id can end up in two frames: in a state of a pool created with
    [k >= 1], when [FetchPage] has returned frame [f1] for a page id that
    was not in the page table and [NewPage] then returns this same page id
    (the value of the page-id counter) with frame [f2], the two frames are
    different, both hold the page id with pin count 1, and the page table
    maps the page id to [f2] only; [UnpinPage] of the page id then releases
    the pin of [f2] and leaves the pin of [f1] as it is. *)
Theorem unallocated_page_id_in_two_frames (k : Z) (s s1 s2 : BufferPoolManager.t)
    (page_id f1 f2 : Z) :
  0 < k →
  pool_reachable k s →
  BufferPoolManager.page_table_ s !! page_id = None →
  BufferPoolManager.FetchPage page_id s = (s1, Ret (Some f1)) →
  BufferPoolManager.NewPage s1 = (s2, Ret (Some (page_id, f2))) →
  f1 ≠ f2 ∧
  BufferPoolManager.page_table_ s2 !! page_id = Some f2 ∧
  (∃ p1, BufferPoolManager.frame (BufferPoolManager.pages_ s2) f1 = Some p1 ∧
         Page.page_id_ p1 = page_id ∧ Page.pin_count_ p1 = 1) ∧
  (∃ p2, BufferPoolManager.frame (BufferPoolManager.pages_ s2) f2 = Some p2 ∧
         Page.page_id_ p2 = page_id ∧ Page.pin_count_ p2 = 1) ∧
  ∀ is_dirty,
    ∃ s3 p1 p2,
      BufferPoolManager.UnpinPage page_id is_dirty s2 = (s3, Ret true) ∧
      BufferPoolManager.frame (BufferPoolManager.pages_ s3) f1 = Some p1 ∧
      Page.pin_count_ p1 = 1 ∧
      BufferPoolManager.frame (BufferPoolManager.pages_ s3) f2 = Some p2 ∧
      Page.pin_count_ p2 = 0.
Proof.
  intros Hk Hs Hpt Hfetch Hnew.
  assert (pool_reachable k s1) as Hs1 by (by eapply pool_FetchPage).
  assert (pool_reachable k s2) as Hs2 by (by eapply pool_NewPage).
  destruct (FetchPage_returns k s s1 page_id f1 Hk Hs Hfetch)
    as (_ & p1 & n1 & Hf1 & Hid1 & _ & _ & _ & Hmiss).
  destruct (Hmiss Hpt) as [Hpin1 _].
  destruct (NewPage_returns _ _ _ _ Hnew) as (_ & _ & Hpt2 & (p2 & Hf2 & Hid2 & Hpin2) & _).
  apply NewPage_effect in Hnew
    as [(_ & ? & _)|(what & f0 & s1' & q & r2 & r3 & _ & Hacq & Hq & _ & _ & Hv & ->)];
    [done|].
  injection Hv as _ <-.
  destruct (acquire_frame_unpinned k s1 s1' what f2 Hk Hs1 Hacq) as (q0 & Hq0 & Hpin0).
  assert (f1 ≠ f2) as Hne.
  { intros ->. assert (q0 = p1) as -> by congruence. lia. }
  destruct (acquire_frame_other_frames s1 s1' what f2 f1 p1 Hacq Hne Hf1)
    as (p1' & Hf1' & Hid1' & Hpin1').
  pose proof (frame_Some _ _ _ Hq) as [Hpos2 _].
  assert (BufferPoolManager.frame
            (<[Z.to_nat f2 := Page.mk (Page.data_ q) (BufferPoolManager.next_page_id_ s1') 1
                                (Page.is_dirty_ q) (Page.readers_ q) (Page.writer_ q)]>
               (BufferPoolManager.pages_ s1')) f1 = Some p1') as Hf1''
    by (by rewrite frame_insert_ne).
  split_and!; try done.
  - exists p1'. split_and!; [done|congruence|congruence].
  - by exists p2.
  - intros is_dirty.
    destruct (pool_reachable_conditions k _ Hk Hs2) as [_ Hrec].
    pose proof (UnpinPage_pinned _ page_id is_dirty f2 p2 Hpt2 Hf2 ltac:(lia) (Hrec f2))
      as Hunpin.
    eexists _, p1', _. split; [exact Hunpin|]. simpl.
    pose proof (frame_Some _ _ _ Hf2) as [Hpos _].
    rewrite frame_insert_ne by done.
    split_and!; [done|congruence| |].
    + by eapply frame_insert_eq.
    + simpl. lia.
Qed.

Lemma unallocated_page_id_in_two_frames_witness :
  let s1 := exec (BufferPoolManager.FetchPage 0) pool_fresh in
  let s2 := exec BufferPoolManager.NewPage s1 in
  0 ≠ 1 ∧
  BufferPoolManager.page_table_ s2 !! 0 = Some 1 ∧
  (∃ p1, BufferPoolManager.frame (BufferPoolManager.pages_ s2) 0 = Some p1 ∧
         Page.page_id_ p1 = 0 ∧ Page.pin_count_ p1 = 1) ∧
  (∃ p2, BufferPoolManager.frame (BufferPoolManager.pages_ s2) 1 = Some p2 ∧
         Page.page_id_ p2 = 0 ∧ Page.pin_count_ p2 = 1) ∧
  ∀ is_dirty,
    ∃ s3 p1 p2,
      BufferPoolManager.UnpinPage 0 is_dirty s2 = (s3, Ret true) ∧
      BufferPoolManager.frame (BufferPoolManager.pages_ s3) 0 = Some p1 ∧
      Page.pin_count_ p1 = 1 ∧
      BufferPoolManager.frame (BufferPoolManager.pages_ s3) 1 = Some p2 ∧
      Page.pin_count_ p2 = 0.
Proof.
  apply (unallocated_page_id_in_two_frames 2 pool_fresh
           (exec (BufferPoolManager.FetchPage 0) pool_fresh)).
  - lia.
  - apply pool_fresh_reachable.
  - vm_compute. reflexivity.
  - vm_compute. reflexivity.
  - vm_compute. reflexivity.
Defined.
